(* ===== verification/_CoqProject ===== *)
-Q . S2P
Prelude.v
GoStrings.v
GoNet.v
Json.v
Effects.v
ApiTypes.v
FwPorts.v
FwBackend.v
FwState.v
Firewalld.v
Commands.v
Iptables.v
NftScript.v
Nftables.v
FwConfig.v
FwAgent.v
ProxyFlags.v
ProxyUpstream.v
ProxyHeader.v
UdpForwarder.v
ProxySplice.v
ProxyServe.v
Listeners.v
Threads.v
ProxyDrain.v
HealthServer.v
Kube.v
KubeApply.v
LBPorts.v
Conflicts.v
Durations.v
Flags.v
ProxyArgs.v
DaemonSets.v
ProxyContract.v
DnsRecords.v
ServiceReconciler.v
ReconcileSpec.v
ReconcileSafety.v
Admission.v
Probes.v
Exposure.v
Settles.v
Labeler.v
Startup.v
Convergence.v
Wakeups.v
DeepCopy.v
