(* ===== verification/Prelude.v ===== *)
(** * bulb: a LoadBalancer controller, verified

    bulb gives Services of type LoadBalancer a public address on clusters without a
    cloud. It is one binary (src/cmd/bulb/main.go) with the roles below; they talk
    to each other only through the API server and through the command line of the
    proxy pods.

    - controller (src/internal/controller): for every Service it is in charge of,
      a DaemonSet of proxies, one LBPort per port, DNSRecords, and the status.
    - proxy (src/internal/proxy): forwards TCP connections and UDP datagrams from a
      node port to the ClusterIP or to the endpoints of a Service.
    - firewall-agent (src/internal/firewall): on every node, opens the ports that
      LBPorts expose there, through firewalld, iptables or nftables.
    - node-ip-labeler (src/internal/labeler): annotates a node with its public
      addresses, which the controller publishes.

    ** How the code is modelled

    A Go function without effects is a Rocq function; [(T, error)] is [result T]. A
    function that talks to the outside is a [prog E A] (Effects.v): a tree of requests
    of the type [E] and of the branches for their answers. It can be run against a
    handler with a state ([run]), or against any answers at all ([exec]), and [wp] is
    its program logic. Loops over data are structural recursion; the loops of the
    code that may run for ever are cut by fuel, and the theorems about them say what
    holds for every fuel, or that the result does not depend on it. Machine integers
    are Z with their bounds written out: port numbers are int32 ([Sscanf_d32],
    [ParseInt]), the round-robin counter wraps at 2^64, durations overflow at 2^63 as
    [time.ParseDuration] does. Threads (UDP forwarder, accept loops, probe server, the two
    directions of a connection) are a step relation or all interleavings of traces. Slices
    and maps are values, except in DeepCopy, which is about their sharing.

    ** Files, and the code they model

    Shared:
    - Prelude: errors, [result], sorting, sets.
    - GoStrings, GoNet, Durations, Flags, Json: the parts of packages strings, strconv,
      fmt, net, time, flag and encoding/json that the code uses. Characters are bytes; case folding and white
      space are those of ASCII.
    - Effects: programs, traces, handlers, weakest preconditions.
    - Threads: a state that every run of a set of threads reaches.
    - ApiTypes: src/api/v1alpha1: LBPort, DNSRecord. DeepCopy: their DeepCopy methods on
      a memory of arrays and maps.
    - Startup: main of cmd/bulb, and Run of the controller, the firewall agent, the
      labeler and the dns-agent up to the start of the manager or the loop.

    Firewall agent:
    - FwPorts: port sets, stableUniquePorts, DesiredPortsForNode, FirewallPolicy.Filter
      (firewall.go, state.go, firewalld.go).
    - FwBackend: the Backend interface and its dry run (backend.go).
    - Firewalld, Iptables, Nftables: the three backends (firewalld.go, iptables.go,
      nftables.go); Commands: the runner of external commands (command_runner.go);
      NftScript: the part of nft's language the backend writes, as nft reads it.
    - FwState: the state file of the firewalld backend (state.go).
    - FwConfig: LoadConfig (config.go). FwAgent: AgentReconciler and how it is set up
      (firewall.go, backend.go).

    Proxy:
    - ProxyFlags: the rule parsers, and Run from flags to rules (proxy.go).
    - ProxyArgs: the flags of the proxy.
    - ProxyUpstream: upstreamFor and the readiness check (proxy.go, health.go).
    - ProxyHeader: PROXY protocol headers, against a reader of the specification.
    - ProxySplice: handle, splice, copyBuffer: one connection from accept to close.
    - ProxyServe: Serve: binding, start, shutdown. ProxyDrain: acceptLoop,
      waitTimeout and the shutdown, as a transition system of all threads. Listeners:
      which of the sockets of Serve can be bound together.
    - HealthServer: the routes of the probe server, and its start and stop as a
      transition system (health.go).
    - UdpForwarder: udp.go as a transition system of all its threads.

    Controller:
    - Kube: the objects, the requests to the API server [KubeE], and [kube_law],
      what a server does that answers every request; KubeApply: bringing stored
      objects to a desired list, for any kind, and the server [sim_server].
    - LBPorts (lbport.go), Conflicts (conflicts.go), DaemonSets (daemonset.go and
      endpointsByServicePort), DnsRecords (dnsrecord.go).
    - ServiceReconciler (reconciler.go, status.go): Reconcile, whole.
    - ReconcileSpec: the specification [reconciled] of one reconcile and the
      refinement. ReconcileSafety: what a reconcile may write, under any answers.
      Settles: that a second reconcile changes nothing. Convergence: a round over all
      Services. Wakeups: the watches of SetupWithManager, and which changes lead to a
      reconcile. Admission: the writes against the validation of the API server.

    Labeler: Labeler (labeler.go).

    Compositions: ProxyContract and Probes (controller to proxy), Exposure (controller to
    firewall agent, one Service) and Convergence (all Services, up to the firewall), the
    end of Labeler (labeler to controller), and the end of FwAgent (agent to firewalld).

    ** What is shown

    - The controller: [Reconcile_refines] (the cluster after a reconcile is the one
      the specification says, and the reconcile succeeds), [Reconcile_writes_own]
      (only what is built for the Service is ever written, whatever the server answers),
      [writes_conform] (what is written has the fields its schema requires),
      [Reconcile_settles] (a served Service is left alone), [all_services_in_place] (a round
      over all Services leaves each with its objects), [changes_wake] (every change to what a
      Service is served from leads to a reconcile of it), [controller_starts] (its start),
      [detectPortConflict_correct], [endpointsByServicePort_correct],
      [BuildDNSRecords_correct].
    - Between the roles: [services_open_ports] (from the Services to the open ports of a
      node), [reconciled_service_exposed], [daemonset_proxy_serves], [probes_answered],
      [labeled_addresses_published], [agent_opens_only_exposed], [deployed_arguments] (the
      arguments of the manifests).
    - The firewall agent: [Reconcile_converges] over any backend that keeps the
      contract [BackendContract], and that firewalld does
      ([Firewalld_Apply_refines]); [Save_atomic] of its state file; what each
      backend may touch under any answers; parsing of listings; the configuration; its
      start ([agent_starts]) and its dry run; [status_updates_leave_cache] for the objects
      it changes in place; [IPTables_Apply_converges].
    - The API types: [DeepCopy_separate].
    - The proxy: [Run_specs_correct], [handle_streams], [Serve_closes_everything],
      [drained_means_done] and [Serve_returns], [stop_correct] of the probe server,
      [upstreamFor_round_robin], the invariant of the UDP session table and its shutdown,
      the PROXY headers.
    - The labeler: detection, annotation and loop ([runLoop_correct], which says when it
      panics).
    - Behaviours that are not what the program means to do are theorems too:
      [Firewalld_failed_add_leaks], [NFTables_Apply_never_closes],
      [NFTables_first_Apply_fails], [ProxyV1Header_words],
      [udp_stale_reader_drops_new_session], [shared_port_endpoints_collide],
      [conflicts_are_mutual], [deletion_wakes_itself] (the end of a conflict goes unnoticed),
      [daemonset_admitted] (the Services whose DaemonSet is refused), and the first case of
      [probes_answered] (the Services whose proxy cannot bind its sockets: those with
      addresses of both families and those with a TCP port 8081).

    ** Assumptions, bounds and fuel

    - An API server that behaves as documented obeys [kube_law]: a read returns what
      is stored, a list all objects with the labels in some order, a write of an
      existing object succeeds and keeps its status subresource, and nothing else
      changes in between. It does not fill in defaults and has no resource versions:
      with them, Equality.Semantic in the code finds more to update. The theorems
      about any answers ([exec]) do not assume it.
    - The validation of the API server is in [kube_law] only as far as it never refuses;
      Admission.v says what it would check of the objects the controller writes.
    - How much append grows an array and the deep copy of ObjectMeta are parameters of
      DeepCopy.v; what net/http's server promises is in the steps of HealthServer.v, and
      what a watch of controller-runtime enqueues in the class [Watches] of Wakeups.v.
    - Label selectors ([LabelSelectors]), firewalld, the iptables tools, nft and the
      D-Bus library are parameters; their hypotheses have instances in the witnesses.
      [FirewalldLaws]: a port that is open is not added again, one that is not open not
      removed, and one out of range refused, with the errors firewalld has for it.
      [IptablesLaws]: a chain exists or not; while it does not, listing it, its rules and
      jumps to it are refused. [NftLaws]: nft does what the commands of a script do, for
      every script [NftScript.read_script] can read, whatever the backend has written.
    - A port that is listened on on all addresses is refused to a second listener until a
      socket is closed ([exclusive] of Listeners.v); 0.0.0.0 and [::] both mean all
      addresses, as the documentation of net.Listen says.
    - [healthy] of Convergence.v: every Service of bulb can be served, without conflicts.
    - Fuel: [duration_terms] has the length of its string, and every term is shorter
      ([duration_term_shorter]); [v6_loop] has 8, the number of groups an address
      has; [parse_json] has twice the length of the text ([parse_fuel]);
      [copyBuffer] and [tick_loop] are cut anywhere, and [copyBuffer_ends] and
      [runLoop_correct] say when they are still running.

    ** Not modelled

    - Metrics, except the UDP session gauge, and log lines: nothing reads them back.
    - The inside of controller-runtime, client-go, net/http and the Prometheus client:
      caches, queues, the delivery of events, leader election, request handling. The order in which the
      work queue hands out Services is any order.
    - The registration of the API types with the scheme, signals and the logger.
    - usage of main.go: its text is an argument of [main].
*)
From stdpp Require Export base gmap strings list pretty sorting.
From Stdlib Require Export ZArith Lia.

Declare Scope go_scope.
Delimit Scope go_scope with go.

(** ** Errors and fallible results *)

(** A Go [error]: its text, and whether [apierrors.IsNotFound] holds of it.
    [fmt.Errorf] with the %w verb prefixes the text and keeps the wrapped
    error reachable, so the not-found reason survives wrapping. *)
Record error := MkError { Error : string; IsNotFound : bool }.

#[export] Instance error_eq_dec : EqDecision error.
Proof. solve_decision. Defined.

Definition errorf (msg : string) : error := MkError msg false.
Definition wrap (prefix : string) (e : error) : error :=
  MkError (prefix +:+ Error e) (IsNotFound e).

(** The Go pair [(T, error)]; a Go function that returns only an [error] has
    type [result unit]. *)
Inductive result (A : Type) : Type :=
| OK (a : A)
| Fail (e : error).
Arguments OK {A} a.
Arguments Fail {A} e.

Definition is_ok {A} (r : result A) : bool :=
  match r with OK _ => true | Fail _ => false end.

Definition bind_result {A B} (r : result A) (k : A -> result B) : result B :=
  match r with OK a => k a | Fail e => Fail e end.

(** [if err != nil { return ..., fmt.Errorf(prefix + "%w", err) }] *)
Definition wrap_result {A} (prefix : string) (r : result A) : result A :=
  match r with OK a => OK a | Fail e => Fail (wrap prefix e) end.

Notation "'let!' x := r 'in' k" := (bind_result r (fun x => k))
  (at level 10, x pattern, r at level 100, k at level 200) : go_scope.

Lemma bind_result_ok {A B} (r : result A) (k : A -> result B) b :
  bind_result r k = OK b <-> exists a, r = OK a /\ k a = OK b.
Proof. destruct r; simpl; naive_solver. Qed.

(** ** Sorting: [sort.Strings] and [sort.Slice] *)

Section sort.
Context {A : Type} (R : relation A) `{!RelDecision R, !Transitive R, !Total R}.

Lemma merge_sort_Sorted l : StronglySorted R (merge_sort R l).
Proof. apply Sorted_StronglySorted; [done|]. apply Sorted_merge_sort; apply _. Qed.

(** Any other list in order with the same elements is the sorted list: Go
    leaves the algorithm open, and the result does not depend on it. *)
Lemma merge_sort_unique (l l' : list A) :
  (forall x y, x ∈ l -> y ∈ l -> R x y -> R y x -> x = y) ->
  l' ≡ₚ l -> StronglySorted R l' -> l' = merge_sort R l.
Proof.
  intros Hanti Hp Hs. apply (StronglySorted_unique_strong R).
  - intros x y Hx Hy. rewrite Hp in Hx. rewrite merge_sort_Permutation in Hy.
    by apply Hanti.
  - done.
  - apply merge_sort_Sorted.
  - by rewrite Hp, merge_sort_Permutation.
Qed.

Lemma elem_of_merge_sort x l : x ∈ merge_sort R l <-> x ∈ l.
Proof. by rewrite merge_sort_Permutation. Qed.

Lemma merge_sort_NoDup l : NoDup (merge_sort R l) <-> NoDup l.
Proof. by rewrite merge_sort_Permutation. Qed.

Lemma length_merge_sort l : length (merge_sort R l) = length l.
Proof. by rewrite merge_sort_Permutation. Qed.
End sort.

Definition sort_strings (l : list string) : list string := merge_sort String.le l.

Lemma sort_strings_perm l : sort_strings l ≡ₚ l.
Proof. apply merge_sort_Permutation. Qed.

Lemma sort_strings_sorted l : StronglySorted String.le (sort_strings l).
Proof. apply merge_sort_Sorted; apply _. Qed.

Lemma sort_strings_unique l l' :
  l' ≡ₚ l -> StronglySorted String.le l' -> l' = sort_strings l.
Proof.
  intros ??. apply merge_sort_unique; [apply _..| |done|done].
  intros x y _ _ ??. by apply (anti_symm String.le).
Qed.

Lemma sort_strings_id l : StronglySorted String.le l -> sort_strings l = l.
Proof. intros. symmetry. by apply sort_strings_unique. Qed.

Lemma elem_of_sort_strings x l : x ∈ sort_strings l <-> x ∈ l.
Proof. by rewrite sort_strings_perm. Qed.

(** ** Lists *)

Lemma omap_fmap {A B C} (f : A -> B) (g : B -> option C) (l : list A) :
  omap g (f <$> l) = omap (fun x => g (f x)) l.
Proof. induction l as [|x l IH]; [done|]. csimpl. by rewrite IH. Qed.

Lemma omap_None {A B} (l : list A) : omap (fun _ => @None B) l = [].
Proof. by induction l. Qed.

Lemma omap_Some {A B} (k : A -> B) (l : list A) : omap (fun x => Some (k x)) l = k <$> l.
Proof. induction l as [|x l IH]; [done|]. csimpl. by f_equal. Qed.

(** ** Sets *)

(** Equations between finite sets built with union, intersection and difference. *)
Ltac gset_tauto :=
  apply set_eq; let k := fresh "k" in intros k;
  repeat rewrite ?elem_of_union, ?elem_of_intersection, ?elem_of_difference,
    ?elem_of_singleton, ?elem_of_empty;
  repeat match goal with
  | |- context [k ∈ ?X] =>
      lazymatch goal with
      | _ : k ∈ X |- _ => fail
      | _ : k ∉ X |- _ => fail
      | _ => destruct (decide (k ∈ X))
      end
  end; tauto.
