(* ===== verification/GoStrings.v ===== *)
(** * GoStrings: the functions of Go's strings, strconv and fmt the program calls

    A Go string is a sequence of bytes, here a [string] of 8-bit [ascii]. The
    case and white-space functions are those of the ASCII range, which covers
    every string the program gives them (protocol names, port lists, command
    output); Go maps other code points by the Unicode tables. *)
From S2P Require Import Prelude.
From Stdlib Require Import Ascii.
Open Scope Z_scope.

(** ** Characters *)

Definition code (c : ascii) : Z := Z.of_N (N_of_ascii c).

Definition is_space (c : ascii) : bool :=
  let n := code c in (n =? 32) || ((9 <=? n) && (n <=? 13)).

Definition lower_char (c : ascii) : ascii :=
  if (65 <=? code c) && (code c <=? 90) then ascii_of_N (N_of_ascii c + 32) else c.
Definition upper_char (c : ascii) : ascii :=
  if (97 <=? code c) && (code c <=? 122) then ascii_of_N (N_of_ascii c - 32) else c.

Definition digit (c : ascii) : option Z :=
  if (48 <=? code c) && (code c <=? 57) then Some (code c - 48) else None.

(** ** strings *)

Fixpoint string_map (f : ascii -> ascii) (s : string) : string :=
  match s with EmptyString => EmptyString | String c s => String (f c) (string_map f s) end.

Definition ToLower : string -> string := string_map lower_char.
Definition ToUpper : string -> string := string_map upper_char.

Fixpoint trim_left (s : string) : string :=
  match s with
  | EmptyString => EmptyString
  | String c s' => if is_space c then trim_left s' else s
  end.
Fixpoint trim_right (s : string) : string :=
  match s with
  | EmptyString => EmptyString
  | String c s' =>
      match trim_right s' with
      | EmptyString => if is_space c then EmptyString else String c EmptyString
      | t => String c t
      end
  end.
Definition TrimSpace (s : string) : string := trim_right (trim_left s).

(** [strings.Trim(s, cutset)], [p] being membership in the cutset. *)
Fixpoint trim_left_by (p : ascii -> bool) (s : string) : string :=
  match s with
  | EmptyString => EmptyString
  | String c s' => if p c then trim_left_by p s' else s
  end.
Fixpoint trim_right_by (p : ascii -> bool) (s : string) : string :=
  match s with
  | EmptyString => EmptyString
  | String c s' =>
      match trim_right_by p s' with
      | EmptyString => if p c then EmptyString else String c EmptyString
      | t => String c t
      end
  end.
Definition Trim (p : ascii -> bool) (s : string) : string := trim_right_by p (trim_left_by p s).

Fixpoint existsb_string (p : ascii -> bool) (s : string) : bool :=
  match s with EmptyString => false | String c s => p c || existsb_string p s end.

(** [strings.IndexByte(s, c) >= 0] *)
Definition has_byte (c : ascii) (s : string) : bool := existsb_string (Ascii.eqb c) s.

(** [s[:i], s[i+1:]] for [i := strings.IndexByte(s, c)]; [None] when [i < 0]. *)
Fixpoint cut (c : ascii) (s : string) : option (string * string) :=
  match s with
  | EmptyString => None
  | String d s' =>
      if Ascii.eqb d c then Some ("", s')
      else match cut c s' with Some (a, b) => Some (String d a, b) | None => None end
  end.

(** The same for [strings.LastIndexByte]. *)
Fixpoint cut_last (c : ascii) (s : string) : option (string * string) :=
  match s with
  | EmptyString => None
  | String d s' =>
      match cut_last c s' with
      | Some (a, b) => Some (String d a, b)
      | None => if Ascii.eqb d c then Some ("", s') else None
      end
  end.

(** [strings.Split] on a one-byte separator. *)
Fixpoint Split (s : string) (sep : ascii) : list string :=
  match s with
  | EmptyString => [""]
  | String c s' =>
      if Ascii.eqb c sep then "" :: Split s' sep
      else match Split s' sep with
           | [] => [String c ""]
           | w :: ws => String c w :: ws
           end
  end.

Fixpoint Join (l : list string) (sep : string) : string :=
  match l with
  | [] => ""
  | [x] => x
  | x :: l' => x +:+ sep +:+ Join l' sep
  end.

(** [strings.Fields]: the maximal runs of non-space bytes. *)
Fixpoint fields_go (s cur : string) : list string :=
  match s with
  | EmptyString => if decide (cur = "") then [] else [cur]
  | String c s' =>
      if is_space c then (if decide (cur = "") then [] else [cur]) ++ fields_go s' ""
      else fields_go s' (cur +:+ String c "")
  end.
Definition Fields (s : string) : list string := fields_go s "".

Fixpoint Contains (s sub : string) : bool :=
  String.prefix sub s || match s with EmptyString => false | String _ s' => Contains s' sub end.

(** ** fmt and strconv *)

(** The %d verb. *)
Definition fmt_d (n : Z) : string := pretty n.

(** The %q verb on printable ASCII text. *)
Fixpoint quote_body (s : string) : string :=
  match s with
  | EmptyString => ""
  | String c s' =>
      (if (code c =? 34) || (code c =? 92) then String "092" (String c "") else String c "")
      +:+ quote_body s'
  end.
Definition fmt_q (s : string) : string :=
  String "034" (quote_body s +:+ String "034" "").

Fixpoint digits_acc (s : string) (acc : Z) : option Z :=
  match s with
  | EmptyString => Some acc
  | String c s' => match digit c with Some d => digits_acc s' (acc * 10 + d) | None => None end
  end.

(** One or more decimal digits and nothing else. *)
Definition parse_digits (s : string) : option Z :=
  match s with EmptyString => None | _ => digits_acc s 0 end.

Definition in_bits (bits n : Z) : bool := (- 2 ^ (bits - 1) <=? n) && (n <? 2 ^ (bits - 1)).

(** [strconv.ParseInt(s, 10, bits)]: an optional sign, digits, range check. *)
Definition parse_signed (s : string) : option Z :=
  match s with
  | EmptyString => None
  | String c s' =>
      if code c =? 43 then parse_digits s'
      else if code c =? 45 then Z.opp <$> parse_digits s'
      else parse_digits s
  end.
Definition ParseInt (s : string) (bits : Z) : option Z :=
  match parse_signed s with
  | Some n => if in_bits bits n then Some n else None
  | None => None
  end.

Definition ParseBool (s : string) : option bool :=
  if bool_decide (s ∈ ["1"; "t"; "T"; "TRUE"; "true"; "True"]) then Some true
  else if bool_decide (s ∈ ["0"; "f"; "F"; "FALSE"; "false"; "False"]) then Some false
  else None.

(** The longest run of digits a string starts with. *)
Fixpoint digit_prefix (s : string) : string :=
  match s with
  | EmptyString => ""
  | String c s' => match digit c with Some _ => String c (digit_prefix s') | None => "" end
  end.

(** [fmt.Sscanf(s, "%d", &v)] for an [int32] v: white space is skipped, a
    newline is an error, then an optional sign and a run of digits are read and
    whatever follows is left; a value out of range is an error. *)
Fixpoint scan_skip (s : string) : option string :=
  match s with
  | EmptyString => Some ""
  | String c s' =>
      if code c =? 10 then None else if is_space c then scan_skip s' else Some s
  end.
Definition scan_token (s : string) : option Z :=
  match s with
  | EmptyString => None
  | String c s' =>
      if code c =? 43 then parse_digits (digit_prefix s')
      else if code c =? 45 then Z.opp <$> parse_digits (digit_prefix s')
      else parse_digits (digit_prefix s)
  end.
Definition Sscanf_d32 (s : string) : option Z :=
  match scan_skip s with
  | Some t =>
      match scan_token t with
      | Some n => if in_bits 32 n then Some n else None
      | None => None
      end
  | None => None
  end.

(** ** Facts *)

Lemma string_map_inv_nil f s : string_map f s = "" <-> s = "".
Proof. by destruct s. Qed.

Lemma string_map_app f s t : string_map f (s +:+ t) = string_map f s +:+ string_map f t.
Proof. induction s; [done|]. simpl. unfold String.app; simpl. by f_equal. Qed.

Lemma lower_char_idemp c : lower_char (lower_char c) = lower_char c.
Proof. by destruct c as [[] [] [] [] [] [] [] []]. Qed.

Lemma ToLower_idemp s : ToLower (ToLower s) = ToLower s.
Proof. unfold ToLower. induction s; simpl; [done|]. by rewrite lower_char_idemp, IHs. Qed.

Lemma upper_lower_char c : upper_char (lower_char c) = upper_char c.
Proof. by destruct c as [[] [] [] [] [] [] [] []]. Qed.

Lemma ToUpper_ToLower s : ToUpper (ToLower s) = ToUpper s.
Proof.
  unfold ToUpper, ToLower. induction s; simpl; [done|]. by rewrite upper_lower_char, IHs.
Qed.

Lemma app_string_cons c (s t : string) : String c s +:+ t = String c (s +:+ t).
Proof. done. Qed.

Lemma app_string_assoc (s t u : string) : (s +:+ t) +:+ u = s +:+ (t +:+ u).
Proof. induction s; [done|]. rewrite !app_string_cons. by f_equal. Qed.

Lemma app_string_nil_r (s : string) : s +:+ "" = s.
Proof. induction s; [done|]. rewrite app_string_cons. by f_equal. Qed.

Lemma app_string_inj_l (p s t : string) : p +:+ s = p +:+ t -> s = t.
Proof.
  induction p; [done|]. rewrite !app_string_cons. injection 1. auto.
Qed.

Lemma length_app_string s t : String.length (s +:+ t) = (String.length s + String.length t)%nat.
Proof. induction s as [|c s IH]; [done|]. rewrite app_string_cons. simpl. by rewrite IH. Qed.

Lemma app_string_inj_r (s t p : string) : s +:+ p = t +:+ p -> s = t.
Proof.
  assert (forall c u, p <> String c (u +:+ p)) as Hp.
  { intros c u Heq%(f_equal String.length). rewrite <-app_string_cons, length_app_string in Heq. simpl in Heq. lia. }
  revert t. induction s as [|c s IH]; intros [|d t]; rewrite ?app_string_cons; simpl.
  - done.
  - by intros ?%Hp.
  - by intros ?%eq_sym%Hp.
  - intros [= -> H]. f_equal. by apply IH.
Qed.

(** *** Decimal numbers: printing then parsing *)

Lemma digit_pretty x : (x < 10)%N -> digit (pretty_N_char x) = Some (Z.of_N x).
Proof.
  intros Hx. assert (x = 0 \/ x = 1 \/ x = 2 \/ x = 3 \/ x = 4 \/ x = 5 \/ x = 6 \/ x = 7
    \/ x = 8 \/ x = 9)%N as Hc by lia.
  repeat destruct Hc as [->|Hc]; [done..|]. by subst.
Qed.

Lemma digits_acc_pretty_go x s :
  digits_acc (pretty_N_go x s) 0 = digits_acc s (Z.of_N x).
Proof.
  revert s. induction (N.lt_wf_0 x) as [x _ IH]; intros s.
  destruct (decide (x = 0%N)) as [->|Hx]; [by rewrite pretty_N_go_0|].
  rewrite pretty_N_go_step by lia. rewrite IH by (apply N.div_lt; lia). simpl.
  rewrite digit_pretty by (apply N.mod_lt; lia). f_equal.
  rewrite (N.div_mod x 10) at 3 by lia. lia.
Qed.

Lemma pretty_N_cons (x : N) : exists c s, pretty x = String c s /\ digit c <> None.
Proof.
  unfold pretty, pretty_N. case_decide as Hx; [by eexists _, _|].
  enough (forall n s, pretty_N_go n s = s \/
    exists c t, pretty_N_go n s = String c t /\ digit c <> None) as H.
  { destruct (H x "") as [Hs|(c & t & -> & ?)]; [|eauto].
    exfalso. pose proof (digits_acc_pretty_go x "") as Hd. rewrite Hs in Hd. simpl in Hd.
    injection Hd. lia. }
  intros n. induction (N.lt_wf_0 n) as [n _ IH]; intros s.
  destruct (decide (n = 0%N)) as [->|Hn]; [left; by rewrite pretty_N_go_0|right].
  rewrite pretty_N_go_step by lia.
  assert (n `div` 10 < n)%N as Hlt by (apply N.div_lt; lia).
  destruct (IH _ Hlt (String (pretty_N_char (n `mod` 10)) s)) as [->|?]; [|done].
  eexists _, _. split; [done|]. by rewrite digit_pretty by (apply N.mod_lt; lia).
Qed.

Lemma parse_digits_pretty_N (x : N) : parse_digits (pretty x) = Some (Z.of_N x).
Proof.
  destruct (pretty_N_cons x) as (c & s & Hs & _).
  unfold parse_digits. rewrite Hs, <-Hs. unfold pretty, pretty_N.
  case_decide; [by subst|]. by rewrite digits_acc_pretty_go.
Qed.

Lemma parse_digits_fmt_d n : 0 <= n -> parse_digits (fmt_d n) = Some n.
Proof.
  intros Hn. destruct n as [|p|p]; [done| |lia].
  change (fmt_d (Z.pos p)) with (pretty (Npos p)). by rewrite parse_digits_pretty_N.
Qed.

(** *** Which characters a string has *)

Fixpoint forallb_string (p : ascii -> bool) (s : string) : bool :=
  match s with EmptyString => true | String c s => p c && forallb_string p s end.

Lemma forallb_string_app p s t :
  forallb_string p (s +:+ t) = forallb_string p s && forallb_string p t.
Proof. induction s; [done|]. rewrite app_string_cons. simpl. by rewrite IHs, andb_assoc. Qed.

Lemma forallb_string_impl (p q : ascii -> bool) s :
  (forall c, p c = true -> q c = true) -> forallb_string p s = true -> forallb_string q s = true.
Proof. intros Hpq. induction s; simpl; [done|]. rewrite !andb_true_iff. naive_solver. Qed.

Definition is_digit (c : ascii) : bool := (48 <=? code c) && (code c <=? 57).

Lemma is_digit_pretty x : is_digit (pretty_N_char x) = true.
Proof. unfold pretty_N_char. by repeat case_match. Qed.

Lemma pretty_N_go_digits x s :
  forallb_string is_digit s = true -> forallb_string is_digit (pretty_N_go x s) = true.
Proof.
  revert s. induction (N.lt_wf_0 x) as [x _ IH]; intros s Hs.
  destruct (decide (x = 0%N)) as [->|Hx]; [by rewrite pretty_N_go_0|].
  rewrite pretty_N_go_step by lia. apply IH; [apply N.div_lt; lia|].
  simpl. by rewrite is_digit_pretty.
Qed.

Lemma fmt_d_digits n : 0 <= n -> forallb_string is_digit (fmt_d n) = true.
Proof.
  destruct n as [|p|p]; [done| |lia]. intros _.
  change (fmt_d (Z.pos p)) with (pretty (Npos p)). unfold pretty, pretty_N.
  case_decide; [done|]. by apply pretty_N_go_digits.
Qed.

Lemma fmt_d_nonempty n : fmt_d n <> "".
Proof.
  destruct n as [|p|p]; [done| |done].
  change (fmt_d (Z.pos p)) with (pretty (Npos p)).
  destruct (pretty_N_cons (Npos p)) as (c & s & -> & _). done.
Qed.

Definition no_space (s : string) : Prop := forallb_string (fun c => negb (is_space c)) s = true.
Definition no_char (c : ascii) (s : string) : Prop :=
  forallb_string (fun d => negb (Ascii.eqb d c)) s = true.

Lemma digits_no_char c s :
  is_digit c = false -> forallb_string is_digit s = true -> no_char c s.
Proof.
  intros Hc. apply forallb_string_impl. intros d Hd.
  destruct (Ascii.eqb_spec d c) as [->|]; [congruence|done].
Qed.

Lemma digits_no_space s : forallb_string is_digit s = true -> no_space s.
Proof.
  apply forallb_string_impl. unfold is_digit, is_space. intros c. lia.
Qed.

Lemma no_space_app s t : no_space (s +:+ t) <-> no_space s /\ no_space t.
Proof. unfold no_space. by rewrite forallb_string_app, andb_true_iff. Qed.
Lemma no_char_app c s t : no_char c (s +:+ t) <-> no_char c s /\ no_char c t.
Proof. unfold no_char. by rewrite forallb_string_app, andb_true_iff. Qed.

(** *** Splitting what was joined *)

Lemma Split_no_sep w sep : no_char sep w -> Split w sep = [w].
Proof.
  unfold no_char. induction w as [|c w IH]; simpl; [done|].
  rewrite andb_true_iff, negb_true_iff. intros [-> ?]. by rewrite IH.
Qed.

Lemma Split_app_sep w rest sep :
  no_char sep w -> Split (w +:+ String sep rest) sep = w :: Split rest sep.
Proof.
  unfold no_char. induction w as [|c w IH]; intros Hw; rewrite ?app_string_cons; simpl.
  - change ("" +:+ String sep rest) with (String sep rest). simpl. by rewrite Ascii.eqb_refl.
  - simpl in Hw. rewrite andb_true_iff, negb_true_iff in Hw. destruct Hw as [-> ?]. by rewrite IH.
Qed.

Lemma Split_Join (ws : list string) sep :
  ws <> [] -> Forall (no_char sep) ws -> Split (Join ws (String sep "")) sep = ws.
Proof.
  intros Hne Hws. induction Hws as [|w ws Hw Hws IH]; [done|]. destruct ws as [|w' ws].
  - by apply Split_no_sep.
  - change (Join (w :: w' :: ws) (String sep "")) with
      (w +:+ String sep (Join (w' :: ws) (String sep ""))).
    rewrite Split_app_sep by done. by rewrite IH.
Qed.

Lemma cut_app a rest sep : no_char sep a -> cut sep (a +:+ String sep rest) = Some (a, rest).
Proof.
  unfold no_char. induction a as [|c a IH]; intros Ha.
  - change ("" +:+ String sep rest) with (String sep rest). simpl. by rewrite Ascii.eqb_refl.
  - rewrite app_string_cons. simpl in *. rewrite andb_true_iff, negb_true_iff in Ha.
    destruct Ha as [-> ?]. by rewrite IH.
Qed.

Lemma cut_Some sep s a b : cut sep s = Some (a, b) -> s = a +:+ String sep b /\ no_char sep a.
Proof.
  revert a. induction s as [|c s IH]; intros a; simpl; [done|].
  destruct (Ascii.eqb_spec c sep) as [->|Hc]; [by intros [= <- <-]|].
  destruct (cut sep s) as [[a' b']|]; [|done]. intros [= <- <-].
  destruct (IH a' eq_refl) as [-> ?]. split; [done|]. unfold no_char in *. simpl.
  destruct (Ascii.eqb_spec c sep); [done|]. done.
Qed.

Lemma cut_None sep s : cut sep s = None <-> no_char sep s.
Proof.
  unfold no_char. induction s as [|c s IH]; simpl; [done|].
  destruct (Ascii.eqb_spec c sep) as [->|Hc]; [done|]. simpl. rewrite <-IH.
  by destruct (cut sep s) as [[]|].
Qed.

Lemma cut_last_no_char sep s : no_char sep s -> cut_last sep s = None.
Proof.
  unfold no_char. induction s as [|c s IH]; simpl; [done|].
  rewrite andb_true_iff, negb_true_iff. intros [-> ?]. by rewrite IH.
Qed.

Lemma cut_last_app a rest sep : no_char sep rest -> cut_last sep (a +:+ String sep rest) = Some (a, rest).
Proof.
  intros Hr. induction a as [|c a IH].
  - change ("" +:+ String sep rest) with (String sep rest). simpl.
    by rewrite cut_last_no_char, Ascii.eqb_refl.
  - rewrite app_string_cons. simpl. by rewrite IH.
Qed.

Lemma fields_go_word w cur :
  no_space w -> cur +:+ w <> "" -> fields_go w cur = [cur +:+ w].
Proof.
  unfold no_space. revert cur. induction w as [|c w IH]; intros cur Hw Hne; simpl.
  - rewrite app_string_nil_r in *. by rewrite decide_False.
  - simpl in Hw. rewrite andb_true_iff, negb_true_iff in Hw. destruct Hw as [-> ?].
    assert (cur +:+ String c w = (cur +:+ String c "") +:+ w) as Heq by by rewrite app_string_assoc.
    rewrite IH, <-Heq; [done|done|]. by rewrite <-Heq.
Qed.

Lemma fields_go_app w rest cur :
  no_space w -> cur +:+ w <> "" ->
  fields_go (w +:+ String " " rest) cur = (cur +:+ w) :: fields_go rest "".
Proof.
  unfold no_space. revert cur. induction w as [|c w IH]; intros cur Hw Hne.
  - change ("" +:+ String " " rest) with (String " " rest). rewrite app_string_nil_r in *. simpl.
    by rewrite decide_False.
  - rewrite app_string_cons. simpl in *. rewrite andb_true_iff, negb_true_iff in Hw.
    destruct Hw as [-> ?].
    assert (cur +:+ String c w = (cur +:+ String c "") +:+ w) as Heq by by rewrite app_string_assoc.
    rewrite IH, <-Heq; [done|done|]. by rewrite <-Heq.
Qed.

Lemma Fields_Join (ws : list string) :
  Forall (fun w => no_space w /\ w <> "") ws -> Fields (Join ws " ") = ws.
Proof.
  unfold Fields. induction 1 as [|w ws [Hw Hne] Hws IH]; [done|]. destruct ws as [|w' ws].
  - by apply fields_go_word.
  - change (Join (w :: w' :: ws) " ") with (w +:+ String " " (Join (w' :: ws) " ")).
    rewrite fields_go_app by done. by rewrite IH.
Qed.

(** *** Trimming *)

Fixpoint last_char (s : string) : option ascii :=
  match s with
  | EmptyString => None
  | String c s' => match last_char s' with Some d => Some d | None => Some c end
  end.

Lemma last_char_app s t d : last_char t = Some d -> last_char (s +:+ t) = Some d.
Proof. intros Ht. induction s; [done|]. rewrite app_string_cons. simpl. by rewrite IHs. Qed.

Lemma trim_right_id s d : last_char s = Some d -> is_space d = false -> trim_right s = s.
Proof.
  induction s as [|c s IH]; simpl; [done|]. destruct (last_char s) as [d'|] eqn:Hl.
  - intros [= ->] Hd. rewrite IH by done. by destruct s.
  - intros [= ->] Hd. destruct s; [|simpl in Hl; by repeat case_match]. simpl. by rewrite Hd.
Qed.

Lemma TrimSpace_id c s d :
  is_space c = false -> last_char (String c s) = Some d -> is_space d = false ->
  TrimSpace (String c s) = String c s.
Proof. intros Hc Hl Hd. unfold TrimSpace. simpl. rewrite Hc. by eapply trim_right_id. Qed.

Lemma no_space_last s : no_space s -> s <> "" -> exists d, last_char s = Some d /\ is_space d = false.
Proof.
  unfold no_space. induction s as [|c s IH]; simpl; [done|].
  rewrite andb_true_iff, negb_true_iff. intros [Hc Hs] _. destruct s as [|c' s]; [by exists c|].
  destruct (IH Hs) as (d & Hd & ?); [done|]. exists d. by rewrite Hd.
Qed.

Lemma TrimSpace_no_space s : no_space s -> TrimSpace s = s.
Proof.
  destruct s as [|c s]; [done|]. intros Hs.
  destruct (no_space_last _ Hs) as (d & ? & ?); [done|].
  unfold no_space in Hs. simpl in Hs. rewrite andb_true_iff, negb_true_iff in Hs.
  eapply TrimSpace_id; naive_solver.
Qed.

(** *** Scanning a printed number back *)

Lemma digit_is_digit c : is_digit c = true -> exists d, digit c = Some d.
Proof. unfold is_digit, digit. intros ->. eauto. Qed.

Lemma digit_prefix_digits s : forallb_string is_digit s = true -> digit_prefix s = s.
Proof.
  induction s as [|c s IH]; simpl; [done|]. rewrite andb_true_iff.
  intros [[d ->]%digit_is_digit ?]. by rewrite IH.
Qed.

Lemma Sscanf_fmt_d n : 0 <= n < 2 ^ 31 -> Sscanf_d32 (fmt_d n) = Some n.
Proof.
  intros Hn. pose proof (fmt_d_digits n ltac:(lia)) as Hd.
  assert (exists c s, fmt_d n = String c s) as (c & s & Hs).
  { destruct (fmt_d n) eqn:?; [by destruct (fmt_d_nonempty n)|eauto]. }
  pose proof (parse_digits_fmt_d n ltac:(lia)) as Hp.
  unfold Sscanf_d32. rewrite Hs in *. pose proof Hd as Hd'. simpl in Hd'.
  rewrite andb_true_iff in Hd'. destruct Hd' as [Hc _]. unfold is_digit in Hc.
  simpl scan_skip. rewrite (proj2 (Z.eqb_neq _ _)) by lia.
  replace (is_space c) with false by (unfold is_space; lia).
  unfold scan_token. rewrite !(proj2 (Z.eqb_neq _ _)) by lia.
  rewrite digit_prefix_digits, Hp by done. unfold in_bits.
  rewrite (proj2 (Z.leb_le _ _)), (proj2 (Z.ltb_lt _ _)) by lia. done.
Qed.

Lemma in_bits_true bits n : in_bits bits n = true <-> - 2 ^ (bits - 1) <= n < 2 ^ (bits - 1).
Proof. unfold in_bits. by rewrite andb_true_iff, Z.leb_le, Z.ltb_lt. Qed.

Lemma ParseInt_fmt_d n bits : 0 <= n -> in_bits bits n = true -> ParseInt (fmt_d n) bits = Some n.
Proof.
  intros Hn Hb. pose proof (fmt_d_digits n Hn) as Hd. pose proof (parse_digits_fmt_d n Hn) as Hp.
  unfold ParseInt, parse_signed. destruct (fmt_d n) as [|c s] eqn:Hs; [by destruct (fmt_d_nonempty n)|].
  simpl in Hd. rewrite andb_true_iff in Hd. destruct Hd as [Hc _]. unfold is_digit in Hc.
  rewrite !(proj2 (Z.eqb_neq _ _)) by lia. by rewrite Hp, Hb.
Qed.
