(* ===== verification/GoNet.v ===== *)
(** * GoNet: what the program uses of Go's net package

    Host and port strings ([SplitHostPort], [JoinHostPort]) and IP addresses as
    byte slices ([To4], [To16], [String]), as the standard library defines them. *)
From S2P Require Import Prelude GoStrings.
From Stdlib Require Import Ascii.
Open Scope Z_scope.

(** ** Host and port *)

Definition colon : ascii := ":".
Definition lbracket : ascii := "[".
Definition rbracket : ascii := "]".

Definition addr_error (addr why : string) : error := errorf ("address " +:+ addr +:+ ": " +:+ why).

(** The checks that follow the choice of the host: no '[' in [s] and no ']' in [t]. *)
Definition no_brackets (hostport s t host port : string) : result (string * string) :=
  if has_byte lbracket s then Fail (addr_error hostport "unexpected '[' in address")
  else if has_byte rbracket t then Fail (addr_error hostport "unexpected ']' in address")
  else OK (host, port).

Definition SplitHostPort (hostport : string) : result (string * string) :=
  match cut_last colon hostport with
  | None => Fail (addr_error hostport "missing port in address")
  | Some (before, port) =>
      match hostport with
      | String c rest =>
          if Ascii.eqb c lbracket then
            match cut rbracket rest with
            | None => Fail (addr_error hostport "missing ']' in address")
            | Some (host, after) =>
                match after with
                | EmptyString => Fail (addr_error hostport "missing port in address")
                | String d tail =>
                    if Ascii.eqb d colon && negb (has_byte colon tail)
                    then no_brackets hostport rest after host port
                    else if Ascii.eqb d colon
                    then Fail (addr_error hostport "too many colons in address")
                    else Fail (addr_error hostport "missing port in address")
                end
            end
          else if has_byte colon before
          then Fail (addr_error hostport "too many colons in address")
          else no_brackets hostport hostport hostport before port
      | EmptyString => Fail (addr_error hostport "missing port in address")
      end
  end.

Definition JoinHostPort (host port : string) : string :=
  if has_byte colon host then "[" +:+ host +:+ "]:" +:+ port else host +:+ ":" +:+ port.

(** ** IP addresses *)

(** [net.IP]: the bytes of an address, 4 or 16 of them when it is valid. *)
Definition IP : Type := list Z.

Definition v4_prefix : list Z := [0; 0; 0; 0; 0; 0; 0; 0; 0; 0; 255; 255].

(** [None] is a nil slice. *)
Definition To4 (ip : IP) : option IP :=
  if bool_decide (length ip = 4%nat) then Some ip
  else if bool_decide (length ip = 16%nat) && bool_decide (take 12 ip = v4_prefix)
  then Some (drop 12 ip)
  else None.

Definition To16 (ip : IP) : option IP :=
  if bool_decide (length ip = 4%nat) then Some (v4_prefix ++ ip)
  else if bool_decide (length ip = 16%nat) then Some ip
  else None.

Definition hex_digit (n : Z) : ascii :=
  ascii_of_N (Z.to_N (if n <? 10 then 48 + n else 87 + n)).

(** A 16-bit group in lower-case hexadecimal without leading zeros. *)
Definition hex16 (n : Z) : string :=
  let d3 := n / 4096 in let d2 := n / 256 mod 16 in let d1 := n / 16 mod 16 in let d0 := n mod 16 in
  let s := String (hex_digit d0) "" in
  let s1 := if (0 <? n / 16) then String (hex_digit d1) s else s in
  let s2 := if (0 <? n / 256) then String (hex_digit d2) s1 else s1 in
  if 0 <? n / 4096 then String (hex_digit d3) s2 else s2.

Fixpoint groups (ip : list Z) : list Z :=
  match ip with
  | a :: b :: ip' => (a * 256 + b) :: groups ip'
  | _ => []
  end.

(** The length of the run of zeros a list starts with. *)
Fixpoint zero_run (l : list Z) : nat :=
  match l with
  | n :: l' => if n =? 0 then S (zero_run l') else 0%nat
  | [] => 0%nat
  end.

(** The loop that finds the first longest run of at least two zero groups, as a
    position and a length; [best] is the one found so far. *)
Fixpoint longest_zeros (i : nat) (l : list Z) (best : nat * nat) : nat * nat :=
  match l with
  | [] => best
  | _ :: l' =>
      let n := zero_run l in
      longest_zeros (S i) l' (if (2 <=? n)%nat && (snd best <? n)%nat then (i, n) else best)
  end.

Definition v6_string (ip : list Z) : string :=
  let gs := groups ip in
  let '(start, len) := longest_zeros 0 gs (0%nat, 0%nat) in
  if (len =? 0)%nat then Join (hex16 <$> gs) ":"
  else Join (hex16 <$> take start gs) ":" +:+ "::" +:+ Join (hex16 <$> drop (start + len) gs) ":".

Definition IP_String (ip : IP) : string :=
  match ip with
  | [] => "<nil>"
  | _ =>
      match To4 ip with
      | Some p4 => Join (fmt_d <$> p4) "."
      | None =>
          if bool_decide (length ip = 16%nat) then v6_string ip
          else "?" +:+ String.concat "" ((fun b => String (hex_digit (b / 16)) (String (hex_digit (b mod 16)) "")) <$> ip)
      end
  end.

Example IP_String_v6 :
  IP_String [32;1;13;184;0;0;0;0;0;0;0;0;0;0;0;1] = "2001:db8::1" /\
  IP_String (replicate 16 0) = "::" /\
  IP_String [254;128;0;0;0;0;0;0;0;1;0;0;0;0;0;10] = "fe80::1:0:0:a" /\
  IP_String [0;1;0;0;0;2;0;0;0;0;0;3;0;0;0;0] = "1:0:2::3:0:0" /\
  IP_String (v4_prefix ++ [10;0;0;1]) = "10.0.0.1".
Proof. vm_compute. auto. Qed.

Lemma To4_length ip p4 : To4 ip = Some p4 -> length p4 = 4%nat.
Proof.
  unfold To4. repeat case_bool_decide; simpl; intros; simplify_eq; [done|].
  rewrite length_drop. lia.
Qed.

Lemma hex16_nonempty n : hex16 n <> "".
Proof. unfold hex16. by repeat case_match. Qed.

Lemma Join_nonempty w ws sep : w <> "" -> Join (w :: ws) sep <> "".
Proof.
  intros Hw. destruct ws as [|w' ws]; [done|].
  change (Join (w :: w' :: ws) sep) with (w +:+ sep +:+ Join (w' :: ws) sep). by destruct w.
Qed.

Lemma has_byte_false c s : has_byte c s = false <-> no_char c s.
Proof.
  unfold has_byte, no_char. induction s as [|d s IH]; [done|].
  simpl. rewrite orb_false_iff, andb_true_iff, negb_true_iff, IH, Ascii.eqb_sym. done.
Qed.

(** ** Splitting what was joined *)

(** A string that can be the host or the port of a joined pair. *)
Definition plain (s : string) : Prop := no_char lbracket s /\ no_char rbracket s.

Lemma SplitHostPort_bare host port :
  no_char colon host -> no_char colon port -> plain host -> plain port ->
  SplitHostPort (host +:+ ":" +:+ port) = OK (host, port).
Proof.
  intros Hh Hp [Hl Hr] [Hl' Hr']. unfold SplitHostPort. change (":" +:+ port) with (String colon port).
  rewrite cut_last_app by done. destruct (host +:+ String colon port) as [|c rest] eqn:Heq.
  { by destruct host. }
  assert (Ascii.eqb c lbracket = false) as ->.
  { destruct host as [|d host].
    - by injection Heq as <- _.
    - rewrite app_string_cons in Heq. injection Heq as <- _. unfold no_char in Hl. simpl in Hl.
      rewrite andb_true_iff, negb_true_iff in Hl. tauto. }
  rewrite (proj2 (has_byte_false _ _)) by done. unfold no_brackets. rewrite <-Heq.
  assert (no_char lbracket (host +:+ String colon port) /\ no_char rbracket (host +:+ String colon port))
    as [H1 H2]
    by (split; apply no_char_app; split; try done; change (String colon port) with (":" +:+ port);
        apply no_char_app; done).
  apply has_byte_false in H1, H2. by rewrite H1, H2.
Qed.

Lemma SplitHostPort_bracketed host port :
  plain host -> no_char colon port -> plain port ->
  SplitHostPort ("[" +:+ host +:+ "]:" +:+ port) = OK (host, port).
Proof.
  intros [Hl Hr] Hp [Hl' Hr']. unfold SplitHostPort.
  replace ("[" +:+ host +:+ "]:" +:+ port) with (("[" +:+ host +:+ "]") +:+ String colon port)
    by by rewrite !app_string_assoc.
  rewrite cut_last_app by done. rewrite !app_string_assoc. change ("[" +:+ ?s) with (String lbracket s).
  cbv iota. rewrite Ascii.eqb_refl. change ("]" +:+ ?s) with (String rbracket s).
  rewrite cut_app by done. rewrite Ascii.eqb_refl, (proj2 (has_byte_false colon port)) by done.
  simpl andb. cbv iota. unfold no_brackets.
  assert (forall c, c <> colon -> c <> rbracket -> no_char c port -> no_char c host ->
    no_char c (host +:+ String rbracket (String colon port))) as Hnc.
  { intros c Hc Hb ??. change (String rbracket (String colon port)) with ("]:" +:+ port).
    rewrite !no_char_app. split_and!; [done| |done]. unfold no_char. cbn [forallb_string].
    apply Ascii.eqb_neq in Hc, Hb. rewrite !(Ascii.eqb_sym _ c). unfold colon, rbracket in *.
    by rewrite Hc, Hb. }
  rewrite !(proj2 (has_byte_false _ _)); [done| |by apply Hnc].
  change (String colon port) with (":" +:+ port). by apply no_char_app.
Qed.

Lemma SplitHostPort_JoinHostPort host port :
  plain host -> no_char colon port -> plain port ->
  SplitHostPort (JoinHostPort host port) = OK (host, port).
Proof.
  intros Hh Hc Hp. unfold JoinHostPort. destruct (has_byte colon host) eqn:Hb.
  - by apply SplitHostPort_bracketed.
  - apply SplitHostPort_bare; [by apply has_byte_false|done..].
Qed.

(** ** Parsing addresses *)

Definition hex_value (c : ascii) : option Z :=
  match digit c with
  | Some d => Some d
  | None =>
      if (97 <=? code c) && (code c <=? 102) then Some (code c - 87)
      else if (65 <=? code c) && (code c <=? 70) then Some (code c - 55)
      else None
  end.

(** A field of a dotted address: 0 to 255 without leading zeros. *)
Definition parse_octet (s : string) : option Z :=
  match s with
  | EmptyString => None
  | String c s' =>
      match parse_digits s with
      | Some n => if (n <=? 255) && (negb (code c =? 48) || bool_decide (s' = "")) then Some n else None
      | None => None
      end
  end.

Definition parseIPv4 (s : string) : option (list Z) :=
  match Split s "." with
  | [a; b; c; d] => mapM parse_octet [a; b; c; d]
  | _ => None
  end.

(** The value of the hexadecimal digits a string starts with, how many they are,
    and what follows. *)
Fixpoint scan_hex (s : string) (acc : Z) (off : nat) : Z * nat * string :=
  match s with
  | EmptyString => (acc, off, s)
  | String c s' => match hex_value c with Some d => scan_hex s' (acc * 16 + d) (S off) | None => (acc, off, s) end
  end.

(** The loop of [netip.parseIPv6]: [ip] are the bytes read so far and [ellipsis] is
    where a "::" stood. There are at most eight groups, so [fuel] starts at 8. *)
Fixpoint v6_loop (fuel : nat) (s : string) (ip : list Z) (ellipsis : option nat)
    : option (list Z * option nat) :=
  match fuel with
  | O => None
  | S fuel =>
      let '(acc, off, rest) := scan_hex s 0 0 in
      if (off =? 0)%nat || (4 <? off)%nat then None
      else
        let ip' := ip ++ [acc / 256; acc mod 256] in
        match rest with
        | EmptyString => Some (ip', ellipsis)
        | String c rest' =>
            if Ascii.eqb c "." then
              if match ellipsis with None => negb (length ip =? 12)%nat | Some _ => false end then None
              else if (16 <? length ip + 4)%nat then None
              else match parseIPv4 s with Some v4 => Some (ip ++ v4, ellipsis) | None => None end
            else if negb (Ascii.eqb c colon) then None
            else
              match rest' with
              | EmptyString => None
              | String d rest'' =>
                  if Ascii.eqb d colon then
                    match ellipsis with
                    | Some _ => None
                    | None =>
                        match rest'' with
                        | EmptyString => Some (ip', Some (length ip'))
                        | _ => v6_loop fuel rest'' ip' (Some (length ip'))
                        end
                    end
                  else v6_loop fuel rest' ip' ellipsis
              end
        end
  end.

(** Zeros in the place of the ellipsis, which must stand for at least one group. *)
Definition expand (ip : list Z) (ellipsis : option nat) : option (list Z) :=
  match ellipsis with
  | Some e =>
      if (length ip <? 16)%nat then Some (take e ip ++ replicate (16 - length ip) 0 ++ drop e ip) else None
  | None => if (length ip <? 16)%nat then None else Some ip
  end.

Definition parseIPv6 (s : string) : option (list Z) :=
  let '(ellipsis, t) :=
    match s with
    | String c (String d t) => if Ascii.eqb c colon && Ascii.eqb d colon then (Some 0%nat, t) else (None, s)
    | _ => (None, s)
    end in
  match ellipsis, t with
  | Some _, EmptyString => Some (replicate 16 0)
  | _, _ => match v6_loop 8 t [] ellipsis with Some (ip, e) => expand ip e | None => None end
  end.

(** The first '.' or ':' of [s] says which parser is called. *)
Fixpoint ip_family (s : string) : option bool :=
  match s with
  | EmptyString => None
  | String c s' => if Ascii.eqb c "." then Some true else if Ascii.eqb c colon then Some false else ip_family s'
  end.

(** [net.ParseIP]; an address with a zone is none. *)
Definition ParseIP (s : string) : option IP :=
  if has_byte "%" s then None
  else
    match ip_family s with
    | None => None
    | Some true => app v4_prefix <$> parseIPv4 s
    | Some false => parseIPv6 s
    end.

Example ParseIP_samples :
  ParseIP "10.96.0.1" = Some (v4_prefix ++ [10; 96; 0; 1]) /\
  ParseIP "fd00:10::a" = Some [253;0;0;16;0;0;0;0;0;0;0;0;0;0;0;10] /\
  ParseIP "::ffff:10.0.0.1" = Some (v4_prefix ++ [10; 0; 0; 1]) /\
  ParseIP "::" = Some (replicate 16 0) /\ ParseIP "1::" = Some ([0; 1] ++ replicate 14 0) /\
  ParseIP "1:2:3:4:5:6:7:8" = Some [0;1;0;2;0;3;0;4;0;5;0;6;0;7;0;8] /\
  ParseIP <$> ["1.2.3"; "1.2.3.04"; "1.2.3.256"; "1::2::3"; "1:2:3:4:5:6:7:8:9"; "1:2:3:4:5:6:7::8"; "fe80::1%eth0";
               "None"; ""; "::1:"; "12345::"] = replicate 11 None.
Proof. vm_compute. repeat split. Qed.

(** *** Which strings are addresses *)

Definition ip_char (c : ascii) : bool :=
  match hex_value c with Some _ => true | None => Ascii.eqb c "." || Ascii.eqb c colon end.

Lemma parse_digits_chars s n : parse_digits s = Some n -> forallb_string is_digit s = true.
Proof.
  unfold parse_digits. destruct s as [|c s]; [done|]. generalize 0.
  generalize (String c s). clear. intros s. induction s as [|c s IH]; intros acc; simpl; [done|].
  destruct (digit c) as [d|] eqn:Hd; [|done]. intros ?%IH. unfold digit in Hd. unfold is_digit.
  by destruct (_ && _).
Qed.

Lemma digit_ip_char c : is_digit c = true -> ip_char c = true.
Proof. intros [d Hd]%digit_is_digit. unfold ip_char, hex_value. by rewrite Hd. Qed.

Lemma Split_chars p sep s : p sep = true -> Forall (fun w => forallb_string p w = true) (Split s sep) ->
  forallb_string p s = true.
Proof.
  intros Hp. induction s as [|c s IH]; [done|]. simpl. destruct (Ascii.eqb_spec c sep) as [->|Hc].
  - intros [_ H]%Forall_cons. by rewrite Hp, IH.
  - destruct (Split s sep) as [|w ws] eqn:Hs; [by destruct s; simpl in Hs; repeat case_match|].
    intros [[H1 H2]%andb_true_iff H3]%Forall_cons. rewrite H1. apply IH. by constructor.
Qed.

Lemma parseIPv4_chars s ip : parseIPv4 s = Some ip -> forallb_string ip_char s = true.
Proof.
  unfold parseIPv4. intros H. apply (Split_chars ip_char "."); [done|].
  assert (forall w n, parse_octet w = Some n -> forallb_string ip_char w = true) as Hw.
  { intros w n. unfold parse_octet. destruct w as [|c w]; [done|].
    destruct (parse_digits (String c w)) as [m|] eqn:Hm; [|done]. intros _.
    eapply forallb_string_impl; [apply digit_ip_char|]. by eapply parse_digits_chars. }
  destruct (Split s ".") as [|a [|b [|c [|d [|]]]]]; try done.
  apply mapM_Some in H. eapply Forall2_Forall_l; [exact H|]. apply Forall_true. intros n w. apply Hw.
Qed.

Lemma scan_hex_chars s acc off n off' rest : scan_hex s acc off = (n, off', rest) ->
  forallb_string ip_char rest = true -> forallb_string ip_char s = true.
Proof.
  revert acc off. induction s as [|c s IH]; intros acc off; simpl; [done|].
  destruct (hex_value c) as [d|] eqn:Hd; [|by intros [= <- <- <-]].
  intros Hs Hr. unfold ip_char at 1. rewrite Hd. simpl. by eapply IH.
Qed.

Lemma v6_loop_chars fuel s ip e r : v6_loop fuel s ip e = Some r -> forallb_string ip_char s = true.
Proof.
  revert s ip e. induction fuel as [|fuel IH]; intros s ip e; cbn [v6_loop]; [done|].
  destruct (scan_hex s 0 0) as [[acc off] rest] eqn:Hs. destruct (_ || _); [done|].
  intros H. destruct rest as [|c rest]; [by eapply scan_hex_chars|].
  destruct (Ascii.eqb c ".") eqn:Hdot.
  { destruct (match e with None => _ | Some _ => _ end); [done|]. destruct (16 <? _)%nat; [done|].
    destruct (parseIPv4 s) as [v4|] eqn:H4; [|done]. by eapply parseIPv4_chars. }
  destruct (Ascii.eqb_spec c colon) as [->|]; simpl in H; [|done].
  eapply scan_hex_chars; [exact Hs|]. simpl.
  destruct rest as [|d rest]; [done|]. destruct (Ascii.eqb_spec d colon) as [->|].
  - destruct e; [done|]. simpl. destruct rest; [done|]. by eapply IH.
  - by eapply IH.
Qed.

Lemma ParseIP_chars s ip : ParseIP s = Some ip -> forallb_string ip_char s = true.
Proof.
  unfold ParseIP. destruct (has_byte _ _); [done|]. destruct (ip_family s) as [[]|]; [| |done].
  - intros (v4 & H & _)%fmap_Some. by eapply parseIPv4_chars.
  - unfold parseIPv6. destruct s as [|c [|d s]]; [done| |].
    + destruct (v6_loop 8 _ _ _) as [[]|] eqn:H; [|done]. intros _. by eapply v6_loop_chars.
    + destruct (Ascii.eqb_spec c colon) as [->|]; [destruct (Ascii.eqb_spec d colon) as [->|]|]; simpl andb;
        cbv iota beta.
      * destruct s as [|x s]; [done|]. destruct (v6_loop 8 _ _ _) as [[]|] eqn:H; [|done].
        intros _. apply v6_loop_chars in H. simpl in *. done.
      * destruct (v6_loop 8 _ _ _) as [[]|] eqn:H; [|done]. intros _. by eapply v6_loop_chars.
      * destruct (v6_loop 8 _ _ _) as [[]|] eqn:H; [|done]. intros _. by eapply v6_loop_chars.
Qed.
