(* ===== verification/Json.v ===== *)
(** * Json: the parts of package encoding/json the code uses

    [json.Unmarshal] first reads the whole text as one value and then stores it in
    the Go type; [parse_json] is the first half, for any text. Of [json.Marshal]
    there is the form of strings. Bytes from 128 on are taken as they are, that is,
    text is assumed to be valid UTF-8. *)
From S2P Require Import Prelude GoStrings GoNet.
From Stdlib Require Import Ascii.
Open Scope Z_scope.

Inductive json :=
| JNull
| JBool (b : bool)
| JNumber (literal : string)
| JString (s : string)
| JArray (l : list json)
| JObject (fields : list (string * json)).

Definition char_of (n : Z) : ascii := ascii_of_N (Z.to_N n).
Definition dquote : ascii := char_of 34.
Definition backslash : ascii := char_of 92.

(** ** Strings *)

(** [utf8.EncodeRune] *)
Definition encode_rune (r : Z) : string :=
  if r <? 128 then String (char_of r) ""
  else if r <? 2048 then String (char_of (192 + r / 64)) (String (char_of (128 + r mod 64)) "")
  else if r <? 65536 then
    String (char_of (224 + r / 4096))
      (String (char_of (128 + r / 64 mod 64)) (String (char_of (128 + r mod 64)) ""))
  else
    String (char_of (240 + r / 262144)) (String (char_of (128 + r / 4096 mod 64))
      (String (char_of (128 + r / 64 mod 64)) (String (char_of (128 + r mod 64)) ""))).

Definition replacement_char : Z := 65533.

Definition hex4 (a b c d : ascii) : option Z :=
  match hex_value a, hex_value b, hex_value c, hex_value d with
  | Some x, Some y, Some z, Some t => Some (((x * 16 + y) * 16 + z) * 16 + t)
  | _, _, _, _ => None
  end.

Definition prepend (u : string) (r : option (string * string)) : option (string * string) :=
  match r with Some (s, rest) => Some (u +:+ s, rest) | None => None end.

(** The escapes of one character. *)
Definition unescape (c : ascii) : option ascii :=
  if Ascii.eqb c dquote || Ascii.eqb c backslash || Ascii.eqb c "/" then Some c
  else if Ascii.eqb c "b" then Some (char_of 8)
  else if Ascii.eqb c "f" then Some (char_of 12)
  else if Ascii.eqb c "n" then Some (char_of 10)
  else if Ascii.eqb c "r" then Some (char_of 13)
  else if Ascii.eqb c "t" then Some (char_of 9)
  else None.

(** What follows the opening quote, up to the closing one; two escapes that are a
    surrogate pair are one character. *)
Fixpoint scan_string (s : string) : option (string * string) :=
  match s with
  | EmptyString => None
  | String c s1 =>
      if Ascii.eqb c dquote then Some ("", s1)
      else if code c <? 32 then None
      else if negb (Ascii.eqb c backslash) then prepend (String c "") (scan_string s1)
      else
        match s1 with
        | EmptyString => None
        | String e s2 =>
            if negb (Ascii.eqb e "u") then
              match unescape e with
              | Some x => prepend (String x "") (scan_string s2)
              | None => None
              end
            else
              match s2 with
              | String a (String b (String x (String y s3))) =>
                  match hex4 a b x y with
                  | None => None
                  | Some r =>
                      if negb ((55296 <=? r) && (r <? 57344)) then prepend (encode_rune r) (scan_string s3)
                      else
                        match s3 with
                        | String c' (String e' (String a' (String b' (String x' (String y' s4))))) =>
                            match (if Ascii.eqb c' backslash && Ascii.eqb e' "u" then hex4 a' b' x' y' else None) with
                            | Some r' =>
                                if (r <? 56320) && (56320 <=? r') && (r' <? 57344)
                                then prepend (encode_rune ((r - 55296) * 1024 + (r' - 56320) + 65536)) (scan_string s4)
                                else prepend (encode_rune replacement_char) (scan_string s3)
                            | None => prepend (encode_rune replacement_char) (scan_string s3)
                            end
                        | _ => prepend (encode_rune replacement_char) (scan_string s3)
                        end
                  end
              | _ => None
              end
        end
  end.

Definition hex_char (n : Z) : ascii := hex_digit n.

(** One character of a string [json.Marshal] writes, with the escapes for HTML. *)
Definition quote_char (c : ascii) : string :=
  if Ascii.eqb c dquote || Ascii.eqb c backslash then String backslash (String c "")
  else if code c =? 8 then String backslash "b"
  else if code c =? 12 then String backslash "f"
  else if code c =? 10 then String backslash "n"
  else if code c =? 13 then String backslash "r"
  else if code c =? 9 then String backslash "t"
  else if (code c <? 32) || Ascii.eqb c "<" || Ascii.eqb c ">" || Ascii.eqb c "&" then
    String backslash ("u00" +:+ String (hex_char (code c / 16)) (String (hex_char (code c mod 16)) ""))
  else String c "".

Fixpoint quote_chars (s : string) : string :=
  match s with EmptyString => "" | String c s' => quote_char c +:+ quote_chars s' end.

Definition json_string (s : string) : string := String dquote (quote_chars s +:+ String dquote "").

(** ** Values *)

Definition json_space (c : ascii) : bool :=
  let n := code c in (n =? 32) || (n =? 9) || (n =? 10) || (n =? 13).

Fixpoint skip_space (s : string) : string :=
  match s with
  | EmptyString => ""
  | String c s' => if json_space c then skip_space s' else s
  end.

(** The digits a string starts with, and the rest. *)
Fixpoint span_digits (s : string) : string * string :=
  match s with
  | EmptyString => ("", "")
  | String c s' =>
      match digit c with
      | Some _ => let '(d, rest) := span_digits s' in (String c d, rest)
      | None => ("", s)
      end
  end.

Definition some_digits (s : string) : option (string * string) :=
  match span_digits s with ("", _) => None | r => Some r end.

(** 0, or digits that do not start with 0. *)
Definition scan_integer (s : string) : option (string * string) :=
  match s with
  | EmptyString => None
  | String c s' => if Ascii.eqb c "0" then Some ("0", s') else some_digits s
  end.

Definition scan_fraction (s : string) : option (string * string) :=
  match s with
  | String c s' => if Ascii.eqb c "." then prepend "." (some_digits s') else Some ("", s)
  | EmptyString => Some ("", s)
  end.

Definition scan_exponent (s : string) : option (string * string) :=
  match s with
  | String c s' =>
      if negb (Ascii.eqb c "e" || Ascii.eqb c "E") then Some ("", s)
      else
        match s' with
        | String sign s'' =>
            if Ascii.eqb sign "+" || Ascii.eqb sign "-"
            then prepend (String c (String sign "")) (some_digits s'')
            else prepend (String c "") (some_digits s')
        | EmptyString => None
        end
  | EmptyString => Some ("", s)
  end.

Definition scan_number (s : string) : option (string * string) :=
  let '(sign, s) :=
    match s with
    | String c s' => if Ascii.eqb c "-" then ("-", s') else ("", s)
    | EmptyString => ("", s)
    end in
  match scan_integer s with
  | None => None
  | Some (i, s) =>
      match scan_fraction s with
      | None => None
      | Some (f, s) =>
          match scan_exponent s with
          | None => None
          | Some (e, s) => Some (sign +:+ i +:+ f +:+ e, s)
          end
      end
  end.

(** A literal name. *)
Fixpoint strip_prefix (p s : string) : option string :=
  match p, s with
  | EmptyString, _ => Some s
  | String c p', String d s' => if Ascii.eqb c d then strip_prefix p' s' else None
  | _, EmptyString => None
  end.

(** Every call is on a shorter string or one level further in, so [fuel] need not
    exceed twice the length. *)
Fixpoint parse_value (fuel : nat) (s : string) : option (json * string) :=
  match fuel with
  | O => None
  | S fuel =>
      match skip_space s with
      | EmptyString => None
      | String c s' =>
          if Ascii.eqb c dquote then
            match scan_string s' with Some (str, rest) => Some (JString str, rest) | None => None end
          else if Ascii.eqb c "[" then
            match skip_space s' with
            | EmptyString => None
            | String d rest =>
                if Ascii.eqb d "]" then Some (JArray [], rest)
                else match parse_elements fuel s' with
                     | Some (l, rest) => Some (JArray l, rest)
                     | None => None
                     end
            end
          else if Ascii.eqb c "{" then
            match skip_space s' with
            | EmptyString => None
            | String d rest =>
                if Ascii.eqb d "}" then Some (JObject [], rest)
                else match parse_members fuel s' with
                     | Some (l, rest) => Some (JObject l, rest)
                     | None => None
                     end
            end
          else if Ascii.eqb c "t" then
            match strip_prefix "rue" s' with Some rest => Some (JBool true, rest) | None => None end
          else if Ascii.eqb c "f" then
            match strip_prefix "alse" s' with Some rest => Some (JBool false, rest) | None => None end
          else if Ascii.eqb c "n" then
            match strip_prefix "ull" s' with Some rest => Some (JNull, rest) | None => None end
          else match scan_number (String c s') with
               | Some (lit, rest) => Some (JNumber lit, rest)
               | None => None
               end
      end
  end
(** The elements of an array up to the bracket. *)
with parse_elements (fuel : nat) (s : string) : option (list json * string) :=
  match fuel with
  | O => None
  | S fuel =>
      match parse_value fuel s with
      | None => None
      | Some (v, s1) =>
          match skip_space s1 with
          | EmptyString => None
          | String c s2 =>
              if Ascii.eqb c "]" then Some ([v], s2)
              else if Ascii.eqb c "," then
                match parse_elements fuel s2 with
                | Some (l, rest) => Some (v :: l, rest)
                | None => None
                end
              else None
          end
      end
  end
(** The fields of an object up to the brace. *)
with parse_members (fuel : nat) (s : string) : option (list (string * json) * string) :=
  match fuel with
  | O => None
  | S fuel =>
      match skip_space s with
      | EmptyString => None
      | String q s0 =>
          if negb (Ascii.eqb q dquote) then None
          else
            match scan_string s0 with
            | None => None
            | Some (name, s1) =>
                match skip_space s1 with
                | EmptyString => None
                | String c s2 =>
                    if negb (Ascii.eqb c ":") then None
                    else
                      match parse_value fuel s2 with
                      | None => None
                      | Some (v, s3) =>
                          match skip_space s3 with
                          | EmptyString => None
                          | String d s4 =>
                              if Ascii.eqb d "}" then Some ([(name, v)], s4)
                              else if Ascii.eqb d "," then
                                match parse_members fuel s4 with
                                | Some (l, rest) => Some ((name, v) :: l, rest)
                                | None => None
                                end
                              else None
                          end
                      end
                end
            end
      end
  end.

(** A text that is one value and white space. *)
Definition parse_json (s : string) : option json :=
  match parse_value (2 * String.length s) s with
  | Some (v, rest) => if bool_decide (skip_space rest = "") then Some v else None
  | None => None
  end.

(** ** Reading back what was written *)

Lemma prepend_some u r s rest : r = Some (s, rest) -> prepend u r = Some (u +:+ s, rest).
Proof. by intros ->. Qed.

(** An ASCII text. *)
Definition ascii_text (s : string) : Prop := forallb_string (fun c => code c <? 128) s = true.

Lemma scan_quote_char c rest : scan_string (quote_char c +:+ rest) = prepend (String c "") (scan_string rest).
Proof. destruct c as [[] [] [] [] [] [] [] []]; reflexivity. Qed.

Lemma scan_json_string s rest : scan_string (quote_chars s +:+ String dquote rest) = Some (s, rest).
Proof.
  induction s as [|c s IH]; [done|]. cbn [quote_chars].
  rewrite app_string_assoc, scan_quote_char. by rewrite (prepend_some _ _ _ _ IH).
Qed.

(** A number in decimal is read to its end. *)
Definition ends_number (s : string) : Prop :=
  match s with
  | EmptyString => True
  | String c _ => digit c = None /\ c <> "."%char /\ c <> "e"%char /\ c <> "E"%char
  end.

Lemma span_digits_all s rest :
  forallb_string is_digit s = true -> ends_number rest -> span_digits (s +:+ rest) = (s, rest).
Proof.
  intros Hs Hr. induction s as [|c s IH]; simpl in *.
  - destruct rest as [|c rest]; [done|]. destruct Hr as [Hd _]. simpl. by rewrite Hd.
  - apply andb_true_iff in Hs as [Hc Hs].
    destruct (digit c) eqn:Hd; [by rewrite IH|]. unfold digit, is_digit in *. by rewrite Hc in Hd.
Qed.

(** A positive number in decimal does not start with 0. *)
Lemma pretty_N_no_zero (x : N) : (0 < x)%N -> exists c s, pretty x = String c s /\ c <> "0"%char.
Proof.
  intros Hx. unfold pretty, pretty_N. rewrite decide_False by lia.
  enough (forall n s, (0 < n)%N -> exists c t, pretty_N_go n s = String c t /\ c <> "0"%char) as H by by apply H.
  clear x Hx. intros n. induction (N.lt_wf_0 n) as [n _ IH]; intros s Hn.
  rewrite pretty_N_go_step by lia. destruct (decide (n `div` 10 = 0)%N) as [Hz|Hz].
  - rewrite Hz, pretty_N_go_0. eexists _, _. split; [done|]. intros Hc.
    assert (n < 10)%N as Hlt by (apply N.div_small_iff; [lia|done]).
    rewrite N.mod_small in Hc by done. pose proof (digit_pretty n Hlt) as Hd. rewrite Hc in Hd.
    change (Some 0 = Some (Z.of_N n)) in Hd. injection Hd. lia.
  - apply IH; [apply N.div_lt; lia|by apply N.neq_0_lt_0].
Qed.

Lemma scan_number_fmt_d n rest : 0 <= n -> ends_number rest ->
  scan_number (fmt_d n +:+ rest) = Some (fmt_d n, rest).
Proof.
  intros Hn Hr. assert (scan_integer (fmt_d n +:+ rest) = Some (fmt_d n, rest)) as Hi.
  { pose proof (span_digits_all (fmt_d n) rest (fmt_d_digits n Hn) Hr) as Hspan.
    destruct n as [|p|p]; [done| |lia].
    destruct (pretty_N_no_zero (Npos p)) as (c & s & Hs & Hc); [lia|].
    change (fmt_d (Z.pos p)) with (pretty (Npos p)) in *. rewrite Hs in Hspan |- *. rewrite app_string_cons in Hspan |- *.
    cbn [scan_integer]. rewrite (proj2 (Ascii.eqb_neq c "0")) by done. unfold some_digits. by rewrite Hspan. }
  pose proof (fmt_d_digits n Hn) as Hd. pose proof (fmt_d_nonempty n) as Hne.
  unfold scan_number. destruct (fmt_d n) as [|c s] eqn:Hf; [done|]. rewrite app_string_cons in Hi |- *.
  simpl in Hd. apply andb_true_iff in Hd as [Hc _].
  assert (Ascii.eqb c "-" = false) as ->.
  { apply Ascii.eqb_neq. intros ->. done. }
  rewrite Hi. destruct rest as [|d rest]; simpl; [by rewrite !app_string_nil_r|].
  destruct Hr as (_ & H1 & H2 & H3).
  rewrite (proj2 (Ascii.eqb_neq d ".")) by done. simpl.
  rewrite (proj2 (Ascii.eqb_neq d "e")), (proj2 (Ascii.eqb_neq d "E")) by done. simpl. by rewrite !app_string_nil_r.
Qed.

(** *** One step of the parser *)

Lemma parse_value_string f s str rest :
  scan_string s = Some (str, rest) -> parse_value (S f) (String dquote s) = Some (JString str, rest).
Proof. intros H. simpl. by rewrite H. Qed.

Lemma parse_value_fmt_d f n rest : 0 <= n -> ends_number rest ->
  parse_value (S f) (fmt_d n +:+ rest) = Some (JNumber (fmt_d n), rest).
Proof.
  intros Hn Hr. pose proof (scan_number_fmt_d n rest Hn Hr) as Hs.
  pose proof (fmt_d_digits n Hn) as Hd. pose proof (fmt_d_nonempty n) as Hne.
  destruct (fmt_d n) as [|c s]; [done|]. rewrite app_string_cons in *.
  simpl in Hd. apply andb_true_iff in Hd as [Hc _].
  destruct c as [[] [] [] [] [] [] [] []]; try discriminate Hc;
    cbn [parse_value skip_space]; change (json_space _) with false; cbv iota;
    cbn [Ascii.eqb Bool.eqb]; rewrite Hs; reflexivity.
Qed.

(** A field, when what follows its value is not white space. *)
Lemma parse_members_last f s name s1 v rest :
  scan_string s = Some (name, String ":" s1) -> parse_value f s1 = Some (v, String "}" rest) ->
  parse_members (S f) (String dquote s) = Some ([(name, v)], rest).
Proof. intros H1 H2. simpl. rewrite H1. simpl. by rewrite H2. Qed.

Lemma parse_members_more f s name s1 v s2 l rest :
  scan_string s = Some (name, String ":" s1) -> parse_value f s1 = Some (v, String "," s2) ->
  parse_members f s2 = Some (l, rest) ->
  parse_members (S f) (String dquote s) = Some ((name, v) :: l, rest).
Proof. intros H1 H2 H3. simpl. rewrite H1. simpl. rewrite H2. simpl. by rewrite H3. Qed.

Lemma parse_value_object f s l rest : parse_members f (String dquote s) = Some (l, rest) ->
  parse_value (S f) (String "{" (String dquote s)) = Some (JObject l, rest).
Proof.
  intros H. change (match parse_members f (String dquote s) with
    | Some (l, rest) => Some (JObject l, rest) | None => None end = Some (JObject l, rest)).
  by rewrite H.
Qed.

(** An array whose elements are objects. *)
Lemma parse_value_array f s l rest : parse_elements f (String "{" s) = Some (l, rest) ->
  parse_value (S f) (String "[" (String "{" s)) = Some (JArray l, rest).
Proof.
  intros H. change (match parse_elements f (String "{" s) with
    | Some (l, rest) => Some (JArray l, rest) | None => None end = Some (JArray l, rest)).
  by rewrite H.
Qed.

Lemma parse_elements_last f s v rest : parse_value f s = Some (v, String "]" rest) ->
  parse_elements (S f) s = Some ([v], rest).
Proof. intros H. simpl. by rewrite H. Qed.

Lemma parse_elements_more f s v s1 l rest :
  parse_value f s = Some (v, String "," s1) -> parse_elements f s1 = Some (l, rest) ->
  parse_elements (S f) s = Some (v :: l, rest).
Proof. intros H1 H2. simpl. rewrite H1. simpl. by rewrite H2. Qed.

(** *** The fuel is enough *)

Abbreviation len := String.length.

Lemma prepend_inv u r s rest : prepend u r = Some (s, rest) -> exists s', r = Some (s', rest).
Proof. destruct r as [[s' rest']|]; [|done]. intros [= <- <-]. by exists s'. Qed.

Lemma scan_string_shorter s str rest : scan_string s = Some (str, rest) -> (len rest < len s)%nat.
Proof.
  remember (len s) as n eqn:Hn. revert s str rest Hn. induction (lt_wf n) as [n _ IH].
  intros s str rest -> H.
  assert (forall u t, (len t < len s)%nat -> prepend u (scan_string t) = Some (str, rest) ->
    (len rest < len s)%nat) as Hrec.
  { intros u t Ht (str' & Hs)%prepend_inv. pose proof (IH _ Ht t str' rest eq_refl Hs). lia. }
  destruct s as [|c s1]; [done|]. cbn [scan_string] in H.
  destruct (Ascii.eqb c dquote); [injection H as <- <-; simpl; lia|]. destruct (code c <? 32); [done|].
  destruct (negb _); [eapply Hrec, H; simpl; lia|]. destruct s1 as [|e s2]; [done|].
  destruct (negb _).
  { destruct (unescape e); [|done]. eapply Hrec, H. simpl. lia. }
  destruct s2 as [|a [|b [|x [|y s3]]]]; try done. destruct (hex4 a b x y) as [r|]; [|done].
  assert (prepend (encode_rune replacement_char) (scan_string s3) = Some (str, rest) ->
    (len rest < len (String c (String e (String a (String b (String x (String y s3)))))))%nat) as Hlone.
  { apply Hrec. simpl. lia. }
  destruct (negb _); [eapply Hrec, H; simpl; lia|].
  destruct s3 as [|c' [|e' [|a' [|b' [|x' [|y' s4]]]]]]; try by apply Hlone.
  destruct (if Ascii.eqb c' backslash && _ then _ else None) as [r'|]; [|by apply Hlone].
  destruct (_ && _); [|by apply Hlone]. eapply Hrec, H. simpl. lia.
Qed.

Lemma skip_space_shorter s : (len (skip_space s) <= len s)%nat.
Proof. induction s as [|c s IH]; simpl; [done|]. destruct (json_space c); simpl; lia. Qed.

Lemma span_digits_shorter s d rest : span_digits s = (d, rest) -> (len rest <= len s)%nat.
Proof.
  revert d rest. induction s as [|c s IH]; intros d rest; simpl; [by intros [= <- <-]|].
  destruct (digit c); [|by intros [= <- <-]]. destruct (span_digits s) as [d' r'].
  intros [= <- <-]. specialize (IH _ _ eq_refl). lia.
Qed.

Lemma some_digits_shorter s d rest : some_digits s = Some (d, rest) -> (len rest < len s)%nat.
Proof.
  unfold some_digits. destruct s as [|c s]; [done|]. simpl.
  destruct (digit c); [|done]. destruct (span_digits s) as [d' r'] eqn:Hs.
  intros [= <- <-]. apply span_digits_shorter in Hs. lia.
Qed.

Lemma scan_number_shorter s lit rest : scan_number s = Some (lit, rest) -> (len rest < len s)%nat.
Proof.
  unfold scan_number. destruct (match s with EmptyString => _ | String _ _ => _ end) as [sign t] eqn:Ht.
  assert (len t <= len s)%nat as Hle.
  { destruct s as [|c s]; [by injection Ht as <- <-|]. destruct (Ascii.eqb c "-"); injection Ht as <- <-; simpl; lia. }
  destruct (scan_integer t) as [[i s1]|] eqn:Hi; [|done].
  assert (len s1 < len t)%nat.
  { unfold scan_integer in Hi. destruct t as [|c t]; [done|]. destruct (Ascii.eqb c "0").
    - injection Hi as <- <-. simpl. lia.
    - by eapply some_digits_shorter. }
  destruct (scan_fraction s1) as [[f s2]|] eqn:Hf; [|done].
  assert (len s2 <= len s1)%nat.
  { unfold scan_fraction in Hf. destruct s1 as [|c s1]; [by injection Hf as <- <-|].
    destruct (Ascii.eqb c "."); [|by injection Hf as <- <-].
    apply prepend_inv in Hf as [? Hf%some_digits_shorter]. simpl. lia. }
  destruct (scan_exponent s2) as [[e s3]|] eqn:He; [|done].
  assert (len s3 <= len s2)%nat.
  { unfold scan_exponent in He. destruct s2 as [|c s2]; [by injection He as <- <-|].
    destruct (negb _); [by injection He as <- <-|]. destruct s2 as [|g s2]; [done|].
    destruct (_ || _); apply prepend_inv in He as [? He%some_digits_shorter]; simpl in *; lia. }
  intros [= <- <-]. lia.
Qed.

Lemma strip_prefix_shorter p s rest : strip_prefix p s = Some rest -> (len rest <= len s)%nat.
Proof.
  revert s. induction p as [|c p IH]; intros s; [by intros [= ->]|]. destruct s as [|d s]; [done|]. simpl.
  destruct (Ascii.eqb c d); [|done]. intros ?%IH. lia.
Qed.

(** What is left after a value is shorter than the text. *)
Lemma parse_shorter fuel :
  (forall s v rest, parse_value fuel s = Some (v, rest) -> (len rest < len s)%nat) /\
  (forall s l rest, parse_elements fuel s = Some (l, rest) -> (len rest < len s)%nat) /\
  (forall s l rest, parse_members fuel s = Some (l, rest) -> (len rest < len s)%nat).
Proof.
  induction fuel as [|fuel (IHv & IHe & IHm)]; [done|]. split_and!.
  - intros s v rest. cbn [parse_value]. pose proof (skip_space_shorter s) as Hs.
    destruct (skip_space s) as [|c s']; [done|]. simpl in Hs.
    pose proof (skip_space_shorter s') as Hs'.
    destruct (Ascii.eqb c dquote).
    { destruct (scan_string s') as [[str r]|] eqn:H; [|done]. intros [= _ <-].
      apply scan_string_shorter in H. lia. }
    destruct (Ascii.eqb c "[").
    { destruct (skip_space s') as [|d r]; [done|]. simpl in Hs'. destruct (Ascii.eqb d "]"); [intros [= _ <-]; lia|].
      destruct (parse_elements fuel s') as [[l r']|] eqn:H; [|done]. intros [= _ <-]. apply IHe in H. lia. }
    destruct (Ascii.eqb c "{").
    { destruct (skip_space s') as [|d r]; [done|]. simpl in Hs'. destruct (Ascii.eqb d "}"); [intros [= _ <-]; lia|].
      destruct (parse_members fuel s') as [[l r']|] eqn:H; [|done]. intros [= _ <-]. apply IHm in H. lia. }
    repeat (destruct (Ascii.eqb c _); [destruct (strip_prefix _ s') as [r|] eqn:H; [|done];
      intros [= _ <-]; apply strip_prefix_shorter in H; lia|]).
    destruct (scan_number (String c s')) as [[lit r]|] eqn:H; [|done]. intros [= _ <-].
    apply scan_number_shorter in H. simpl in H. lia.
  - intros s l rest. cbn [parse_elements]. destruct (parse_value fuel s) as [[v s1]|] eqn:Hv; [|done].
    apply IHv in Hv. pose proof (skip_space_shorter s1) as Hs. destruct (skip_space s1) as [|c s2]; [done|].
    simpl in Hs. destruct (Ascii.eqb c "]"); [intros [= _ <-]; lia|]. destruct (Ascii.eqb c ","); [|done].
    destruct (parse_elements fuel s2) as [[l' r]|] eqn:He; [|done]. intros [= _ <-]. apply IHe in He. lia.
  - intros s l rest. cbn [parse_members]. pose proof (skip_space_shorter s) as Hs.
    destruct (skip_space s) as [|q s0]; [done|]. simpl in Hs. destruct (negb _); [done|].
    destruct (scan_string s0) as [[name s1]|] eqn:Hn; [|done]. apply scan_string_shorter in Hn.
    pose proof (skip_space_shorter s1) as Hs1. destruct (skip_space s1) as [|c s2]; [done|]. simpl in Hs1.
    destruct (negb _); [done|]. destruct (parse_value fuel s2) as [[v s3]|] eqn:Hv; [|done]. apply IHv in Hv.
    pose proof (skip_space_shorter s3) as Hs3. destruct (skip_space s3) as [|d s4]; [done|]. simpl in Hs3.
    destruct (Ascii.eqb d "}"); [intros [= _ <-]; lia|]. destruct (Ascii.eqb d ","); [|done].
    destruct (parse_members fuel s4) as [[l' r]|] eqn:Hm; [|done]. intros [= _ <-]. apply IHm in Hm. lia.
Qed.

(** With fuel twice the length, more of it makes no difference. *)
Lemma parse_value_nil n : parse_value n "" = None.
Proof. by destruct n. Qed.

Definition same_value (k : nat) : Prop := forall n m s,
  (len s <= k)%nat -> (2 * k <= n)%nat -> (2 * k <= m)%nat -> parse_value n s = parse_value m s.
Definition same_rest (k : nat) : Prop := forall n m s,
  (len s <= k)%nat -> (2 * k + 1 <= n)%nat -> (2 * k + 1 <= m)%nat ->
  parse_elements n s = parse_elements m s /\ parse_members n s = parse_members m s.

Lemma value_enough k : (forall j, (j < k)%nat -> same_rest j) -> same_value k.
Proof.
  intros IH n m s Hs Hn Hm. destruct s as [|c0 s0]; [by rewrite !parse_value_nil|]. simpl in Hs.
  destruct n as [|n]; [lia|]. destruct m as [|m]; [lia|]. cbn [parse_value].
  pose proof (skip_space_shorter (String c0 s0)) as Hsk. destruct (skip_space _) as [|c s']; [done|].
  simpl in Hsk. destruct (IH (k - 1)%nat ltac:(lia) n m s' ltac:(lia) ltac:(lia) ltac:(lia)) as [-> ->]. done.
Qed.

Lemma rest_enough k : same_value k -> (forall j, (j < k)%nat -> same_value j /\ same_rest j) -> same_rest k.
Proof.
  intros Hk IH n m s Hs Hn Hm. destruct n as [|n]; [lia|]. destruct m as [|m]; [lia|].
  cbn [parse_elements parse_members]. split.
  - rewrite (Hk n m s) by lia. destruct (parse_value m s) as [[v s1]|] eqn:Hv; [|done].
    apply (parse_shorter m) in Hv. pose proof (skip_space_shorter s1) as H1. destruct (skip_space s1) as [|c s2]; [done|].
    simpl in H1. destruct (IH (k - 1)%nat) as [_ IHr]; [lia|].
    destruct (IHr n m s2 ltac:(lia) ltac:(lia) ltac:(lia)) as [-> _]. done.
  - pose proof (skip_space_shorter s) as H0. destruct (skip_space s) as [|q s0]; [done|]. simpl in H0.
    destruct (negb _); [done|]. destruct (scan_string s0) as [[name s1]|] eqn:Hn1; [|done].
    apply scan_string_shorter in Hn1. pose proof (skip_space_shorter s1) as H1.
    destruct (skip_space s1) as [|c s2]; [done|]. simpl in H1. destruct (negb _); [done|].
    destruct (IH (k - 1)%nat) as [IHv IHr]; [lia|]. rewrite (IHv n m s2) by lia.
    destruct (parse_value m s2) as [[v s3]|] eqn:Hv; [|done]. apply (parse_shorter m) in Hv.
    pose proof (skip_space_shorter s3) as H3. destruct (skip_space s3) as [|d s4]; [done|]. simpl in H3.
    destruct (IHr n m s4 ltac:(lia) ltac:(lia) ltac:(lia)) as [_ ->]. done.
Qed.

Lemma parse_fuel n s : (2 * len s <= n)%nat -> parse_value n s = parse_value (2 * len s) s.
Proof.
  intros Hn. enough (forall k, same_value k /\ same_rest k) as H by (apply (H (len s)); lia).
  clear n s Hn. intros k. induction (lt_wf k) as [k _ IH].
  assert (same_value k) by (apply value_enough; intros j Hj; by apply IH). split; [done|].
  by apply rest_enough.
Qed.
