(* ===== verification/Effects.v ===== *)
(** * Effects: Go functions that call the outside world

    A function that talks to the API server, runs a command or calls D-Bus is a
    [prog E A]: a tree whose nodes are the requests (the type [E X] of a request
    whose answer has type [X]) and whose branches are the possible answers. What
    answers is not part of the program. [exec p tr a] says that [p] may return
    [a] after the exchange [tr] of requests and answers, whatever gave the
    answers; [run h p s] runs [p] against a handler [h] with a state.

    The rest of the file is a program logic: [wp] is a weakest precondition
    over an arbitrary environment, with [wp_exec] and [wp_run] relating it to the
    two ways of running. *)
From S2P Require Import Prelude.

Inductive prog (E : Type -> Type) (A : Type) : Type :=
| Ret (a : A)
| Vis (X : Type) (e : E X) (k : X -> prog E A).
Arguments Ret {E A} a.
Arguments Vis {E A X} e k.

Definition call {E : Type -> Type} {X} (e : E X) : prog E X := Vis e Ret.

Fixpoint bind {E A B} (p : prog E A) (k : A -> prog E B) : prog E B :=
  match p with
  | Ret a => k a
  | Vis e j => Vis e (fun x => bind (j x) k)
  end.

Notation "'let*' x := p 'in' k" := (bind p (fun x => k))
  (at level 10, x pattern, p at level 100, k at level 200) : go_scope.

(** [if err != nil { return err }] after a call. *)
Definition bindr {E A B} (p : prog E (result A)) (k : A -> prog E (result B)) : prog E (result B) :=
  bind p (fun r => match r with OK a => k a | Fail e => Ret (Fail e) end).

Notation "'let?' x := p 'in' k" := (bindr p (fun x => k))
  (at level 10, x pattern, p at level 100, k at level 200) : go_scope.

Open Scope go_scope.

(** [return fmt.Errorf(prefix + "%w", err)] around a call. *)
Definition wrapped {E A} (prefix : string) (p : prog E (result A)) : prog E (result A) :=
  let* r := p in Ret (wrap_result prefix r).

(** [for _, x := range l { if err := f(x); err != nil { return err } }] *)
Fixpoint for_each {E A} (l : list A) (f : A -> prog E (result unit)) : prog E (result unit) :=
  match l with
  | [] => Ret (OK tt)
  | x :: l' => let? _ := f x in for_each l' f
  end.

(** A loop whose body cannot fail. *)
Fixpoint for_all_do {E A} (l : list A) (f : A -> prog E unit) : prog E unit :=
  match l with
  | [] => Ret tt
  | x :: l' => let* _ := f x in for_all_do l' f
  end.

(** ** Traces and handlers *)

Inductive event (E : Type -> Type) : Type :=
| Ev (X : Type) (e : E X) (x : X).
Arguments Ev {E X} e x.

Fixpoint exec {E A} (p : prog E A) (tr : list (event E)) (a : A) : Prop :=
  match p with
  | Ret b => a = b /\ tr = []
  | Vis e k => exists x tr', tr = Ev e x :: tr' /\ exec (k x) tr' a
  end.

Definition handler (E : Type -> Type) (S : Type) := forall X, E X -> S -> X * S.

Fixpoint run {E S A} (h : handler E S) (p : prog E A) (s : S) : A * S :=
  match p with
  | Ret a => (a, s)
  | Vis e k => let '(x, s') := h _ e s in run h (k x) s'
  end.

(** The exchange of a run. *)
Fixpoint trace_of {E S A} (h : handler E S) (p : prog E A) (s : S) : list (event E) :=
  match p with
  | Ret a => []
  | Vis e k => let '(x, s') := h _ e s in Ev e x :: trace_of h (k x) s'
  end.

(** ** Combining effects *)

Inductive sumE (E1 E2 : Type -> Type) (X : Type) : Type :=
| inlE (e : E1 X)
| inrE (e : E2 X).
Arguments inlE {E1 E2 X} e.
Arguments inrE {E1 E2 X} e.

Fixpoint translate {E F : Type -> Type} (f : forall X, E X -> F X) {A} (p : prog E A) : prog F A :=
  match p with
  | Ret a => Ret a
  | Vis e k => Vis (f _ e) (fun x => translate f (k x))
  end.

(** Two worlds side by side. *)
Definition sum_handler {E1 E2 : Type -> Type} {W1 W2} (h1 : handler E1 W1) (h2 : handler E2 W2)
    : handler (sumE E1 E2) (W1 * W2) :=
  fun X e w =>
    match e with
    | inlE e1 => let '(x, w1) := h1 _ e1 (fst w) in (x, (w1, snd w))
    | inrE e2 => let '(x, w2) := h2 _ e2 (snd w) in (x, (fst w, w2))
    end.

(** Every request of [p] served by a program over [F]. *)
Fixpoint interp {E F : Type -> Type} (f : forall X, E X -> prog F X) {A} (p : prog E A) : prog F A :=
  match p with
  | Ret a => Ret a
  | Vis e k => bind (f _ e) (fun x => interp f (k x))
  end.

Definition map_event {E F : Type -> Type} (f : forall X, E X -> F X) (ev : event E) : event F :=
  match ev with Ev e x => Ev (f _ e) x end.

(** ** The laws of [bind] and of the two ways of running *)

Lemma exec_bind {E A B} (p : prog E A) (k : A -> prog E B) tr b :
  exec (bind p k) tr b <->
  exists a tr1 tr2, tr = tr1 ++ tr2 /\ exec p tr1 a /\ exec (k a) tr2 b.
Proof.
  revert tr. induction p as [a|X e j IH]; intros tr; simpl.
  - split; [intros H; by exists a, [], tr|]. by intros (? & ? & ? & -> & [-> ->] & ?).
  - split.
    + intros (x & tr' & -> & (a & t1 & t2 & -> & H1 & H2)%IH). by eexists a, (_ :: t1), t2; eauto 10.
    + intros (a & t1 & t2 & -> & (x & tr' & -> & H1) & H2). exists x, (tr' ++ t2).
      split; [done|]. apply IH. eauto 10.
Qed.

Lemma exec_translate {E F : Type -> Type} (f : forall X, E X -> F X) {A} (p : prog E A) tr a :
  exec (translate f p) tr a <-> exists tr0, exec p tr0 a /\ tr = map_event f <$> tr0.
Proof.
  revert tr. induction p as [b|X e k IH]; intros tr; simpl.
  - split; [intros [-> ->]; by exists []|]. by intros (? & [-> ->] & ->).
  - split.
    + intros (x & tr' & -> & (t0 & ? & ->)%IH). exists (Ev e x :: t0). eauto 10.
    + intros (t0 & (x & tr' & -> & ?) & ->). exists x, (map_event f <$> tr').
      split; [done|]. apply IH. eauto.
Qed.

Lemma run_bind {E S A B} (h : handler E S) (p : prog E A) (k : A -> prog E B) s :
  run h (bind p k) s = let '(a, s') := run h p s in run h (k a) s'.
Proof. revert s. induction p as [a|X e j IH]; intros s; simpl; [done|]. by destruct (h X e s). Qed.

Lemma interp_bind {E F : Type -> Type} (f : forall X, E X -> prog F X) {A B}
    (p : prog E A) (k : A -> prog E B) tr b :
  exec (interp f (bind p k)) tr b <-> exec (bind (interp f p) (fun a => interp f (k a))) tr b.
Proof.
  revert tr. induction p as [a|X e j IH]; intros tr; simpl; [done|].
  rewrite exec_bind, exec_bind. setoid_rewrite exec_bind. setoid_rewrite IH.
  setoid_rewrite exec_bind. split.
  - intros (x & t1 & t2 & -> & H1 & a & t3 & t4 & -> & H3 & H4).
    exists a, (t1 ++ t3), t4. rewrite app_assoc. split; [done|]. split; [eauto 10|done].
  - intros (a & t1 & t2 & -> & (x & t3 & t4 & -> & H3 & H4) & H2).
    exists x, t3, (t4 ++ t2). rewrite app_assoc. eauto 10.
Qed.

Lemma run_inl {E1 E2 : Type -> Type} {W1 W2 A} (h1 : handler E1 W1) (h2 : handler E2 W2)
    (p : prog E1 A) w1 w2 :
  run (sum_handler h1 h2) (translate (fun X => inlE) p) (w1, w2) =
  let '(a, w1') := run h1 p w1 in (a, (w1', w2)).
Proof.
  revert w1. induction p as [a|X e k IH]; intros w1; simpl; [done|].
  destruct (h1 X e w1) as [x w1']. apply IH.
Qed.

Lemma run_inr {E1 E2 : Type -> Type} {W1 W2 A} (h1 : handler E1 W1) (h2 : handler E2 W2)
    (p : prog E2 A) w1 w2 :
  run (sum_handler h1 h2) (translate (fun X => inrE) p) (w1, w2) =
  let '(a, w2') := run h2 p w2 in (a, (w1, w2')).
Proof.
  revert w2. induction p as [a|X e k IH]; intros w2; simpl; [done|].
  destruct (h2 X e w2) as [x w2']. apply IH.
Qed.

Lemma run_call {E : Type -> Type} {S X} (h : handler E S) (e : E X) s : run h (call e) s = h X e s.
Proof. simpl. by destruct (h X e s). Qed.

Lemma run_bindr {E S A B} (h : handler E S) (p : prog E (result A)) (k : A -> prog E (result B)) s :
  run h (bindr p k) s =
  let '(r, s') := run h p s in
  match r with OK a => run h (k a) s' | Fail e => (Fail e, s') end.
Proof. unfold bindr. rewrite run_bind. destruct (run h p s) as [[a|e] s']; done. Qed.

Lemma run_wrapped {E S A} (h : handler E S) prefix (p : prog E (result A)) s :
  run h (wrapped prefix p) s =
  let '(r, s') := run h p s in (wrap_result prefix r, s').
Proof. unfold wrapped. rewrite run_bind. by destruct (run h p s). Qed.

(** Running against a handler is one of the executions. *)
Lemma trace_exec {E S A} (h : handler E S) (p : prog E A) s :
  exec p (trace_of h p s) (fst (run h p s)).
Proof.
  revert s. induction p as [a|X e k IH]; intros s; simpl; [done|].
  destruct (h X e s) as [x s']. eauto.
Qed.

Lemma run_exec {E S A} (h : handler E S) (p : prog E A) s :
  exists tr, exec p tr (fst (run h p s)).
Proof. eexists. apply trace_exec. Qed.

(** Every program terminates: some exchange leads to a result. *)
Lemma exec_bindr {E A B} (p : prog E (result A)) (k : A -> prog E (result B)) tr r :
  exec (bindr p k) tr r <->
  (exists e, r = Fail e /\ exec p tr (Fail e)) \/
  (exists a tr1 tr2, tr = tr1 ++ tr2 /\ exec p tr1 (OK a) /\ exec (k a) tr2 r).
Proof.
  unfold bindr. rewrite exec_bind. split.
  - intros ([a|e] & t1 & t2 & -> & H1 & H2); [by eauto 10|].
    destruct H2 as [-> ->]. rewrite app_nil_r. eauto.
  - intros [(e & -> & H)|(a & t1 & t2 & -> & H1 & H2)].
    + exists (Fail e), tr, []. by rewrite app_nil_r.
    + by exists (OK a), t1, t2.
Qed.

Lemma exec_wrapped {E A} prefix (p : prog E (result A)) tr r :
  exec (wrapped prefix p) tr r <-> exists r0, exec p tr r0 /\ r = wrap_result prefix r0.
Proof.
  unfold wrapped. rewrite exec_bind. split.
  - intros (r0 & t1 & t2 & -> & ? & [-> ->]). rewrite app_nil_r. eauto.
  - intros (r0 & ? & ->). exists r0, tr, []. by rewrite app_nil_r.
Qed.

Lemma exec_call {E : Type -> Type} {X} (e : E X) tr x :
  exec (call e) tr x <-> tr = [Ev e x].
Proof.
  simpl. split; [intros (y & t & -> & -> & ->); done|]. intros ->. by exists x, [].
Qed.

(** A loop of wrapped calls stops at the first failing one. *)
Lemma exec_for_each_calls {E : Type -> Type} {A} (op : A -> E (result unit)) (pre : A -> string) l tr r :
  exec (for_each l (fun x => wrapped (pre x) (call (op x)))) tr r <->
  (r = OK tt /\ tr = (fun x => Ev (op x) (OK tt)) <$> l) \/
  (exists l1 x l2 e, l = l1 ++ x :: l2 /\ r = Fail (wrap (pre x) e) /\
     tr = ((fun x => Ev (op x) (OK tt)) <$> l1) ++ [Ev (op x) (Fail e)]).
Proof.
  revert tr. induction l as [|x l IH]; intros tr; cbn [for_each].
  - simpl. split; [intros [-> ->]; auto|]. intros [[-> ->]|(l1 & ? & ? & ? & ? & _)]; [done|by destruct l1].
  - rewrite exec_bindr. setoid_rewrite exec_wrapped. setoid_rewrite exec_call. split.
    + intros [(e & -> & [[[]|e'] [-> Hr]])|([] & t1 & t2 & -> & [[[]|e'] [-> Hr]] & H)]; try done.
      * right. simplify_eq/=. by exists [], x, l, e'.
      * apply IH in H as [[-> ->]|(l1 & y & l2 & e & -> & -> & ->)]; [auto|].
        right. by exists (x :: l1), y, l2, e.
    + intros [[-> ->]|(l1 & y & l2 & e & Hl & -> & ->)].
      * right. eexists tt, [_], _. split_and!; [done|by eexists|]. apply IH. auto.
      * destruct l1 as [|z l1]; simplify_eq/=; [left; eauto 10|].
        right. eexists tt, [_], _. split_and!; [done|by eexists|]. apply IH. right. eauto 10.
Qed.

(** ** Weakest preconditions *)

Section wp.
Context {E : Type -> Type} {S : Type}.
(** [ok e s] is the condition under which request [e] may be made in state
    [s]; [step e s x s'] says that it may be answered [x], leading to [s']. *)
Context (ok : forall X, E X -> S -> Prop) (step : forall X, E X -> S -> X -> S -> Prop).

Fixpoint wp {A} (p : prog E A) (Q : A -> S -> Prop) (s : S) : Prop :=
  match p with
  | Ret a => Q a s
  | Vis e k => ok _ e s /\ forall x s', step _ e s x s' -> wp (k x) Q s'
  end.

Lemma wp_mono {A} (p : prog E A) (Q Q' : A -> S -> Prop) s :
  (forall a s', Q a s' -> Q' a s') -> wp p Q s -> wp p Q' s.
Proof.
  intros HQ. revert s. induction p as [a|X e k IH]; intros s; simpl; [auto|].
  intros [? H]. split; [done|]. eauto.
Qed.

Lemma wp_bind {A B} (p : prog E A) (k : A -> prog E B) Q s :
  wp p (fun a => wp (k a) Q) s -> wp (bind p k) Q s.
Proof.
  revert s. induction p as [a|X e j IH]; intros s; simpl; [done|].
  intros [? H]. eauto.
Qed.

Lemma wp_bindr {A B} (p : prog E (result A)) (k : A -> prog E (result B)) Q s :
  wp p (fun r s' => match r with OK a => wp (k a) Q s' | Fail e => Q (Fail e) s' end) s ->
  wp (bindr p k) Q s.
Proof. intros H. apply wp_bind. eapply wp_mono, H. by intros []. Qed.

Lemma wp_wrapped {A} prefix (p : prog E (result A)) Q s :
  wp p (fun r => Q (wrap_result prefix r)) s -> wp (wrapped prefix p) Q s.
Proof. intros H. apply wp_bind. exact H. Qed.

(** A loop with an early return keeps an invariant its body keeps. *)
Lemma wp_for_each {A} (l : list A) (f : A -> prog E (result unit)) (I : list A -> S -> Prop)
    (Q : result unit -> S -> Prop) s :
  I l s ->
  (forall s', I [] s' -> Q (OK tt) s') ->
  (forall x l' s', I (x :: l') s' ->
     wp (f x) (fun r s'' => match r with OK _ => I l' s'' | Fail e => Q (Fail e) s'' end) s') ->
  wp (for_each l f) Q s.
Proof.
  intros HI HQ Hf. revert s HI. induction l as [|x l IH]; intros s HI; simpl; [auto|].
  apply wp_bindr. eapply wp_mono, Hf, HI. intros [a|e] s'; auto.
Qed.

Lemma wp_for_all_do {A} (l : list A) (f : A -> prog E unit) (I : list A -> S -> Prop)
    (Q : unit -> S -> Prop) s :
  I l s ->
  (forall s', I [] s' -> Q tt s') ->
  (forall x l' s', I (x :: l') s' -> wp (f x) (fun _ => I l') s') ->
  wp (for_all_do l f) Q s.
Proof.
  intros HI HQ Hf. revert s HI. induction l as [|x l IH]; intros s HI; simpl; [auto|].
  apply wp_bind. eapply wp_mono, Hf, HI. simpl. intros [] s'; auto.
Qed.
End wp.

(** The environment that answers anything, the state being the exchange so far. *)
Definition trace_step {E : Type -> Type} X (e : E X) (s : list (event E)) (x : X)
    (s' : list (event E)) : Prop := s' = s ++ [Ev e x].

(** A condition on requests given the exchange before them, at every request of a trace. *)
Definition respects {E : Type -> Type} (ok : forall X, E X -> list (event E) -> Prop)
    (tr : list (event E)) : Prop :=
  forall tr1 X (e : E X) x tr2, tr = tr1 ++ Ev e x :: tr2 -> ok X e tr1.

Lemma wp_exec_from {E A} ok (p : prog E A) Q tr0 tr a :
  respects ok tr0 -> wp ok trace_step p Q tr0 -> exec p tr a ->
  respects ok (tr0 ++ tr) /\ Q a (tr0 ++ tr).
Proof.
  revert tr0 tr. induction p as [b|X e k IH]; intros tr0 tr H0; simpl.
  - intros HQ [-> ->]. by rewrite app_nil_r.
  - intros [Hok H] (x & tr' & -> & Hex).
    replace (tr0 ++ Ev e x :: tr') with ((tr0 ++ [Ev e x]) ++ tr') by by rewrite <-app_assoc. eapply IH; [|by apply H|done].
    intros t1 Y e' y t2 Heq. destruct t2 as [|ev t2 _] using rev_ind.
    + apply app_inj_tail in Heq as [<- Heq].
      pose (P := fun ev : event E => match ev with Ev f _ => ok _ f tr0 end).
      change (P (Ev e' y)). by rewrite <-Heq.
    + rewrite app_comm_cons, app_assoc in Heq. apply app_inj_tail in Heq as [-> _].
      by eapply H0.
Qed.

Lemma wp_exec {E A} ok (p : prog E A) Q tr a :
  wp ok trace_step p Q [] -> exec p tr a -> respects ok tr /\ Q a tr.
Proof.
  intros H Hex. apply (wp_exec_from ok p Q [] tr a); [|done..].
  intros [|??] ????; discriminate.
Qed.

Lemma wp_run {E S A} ok (h : handler E S) (p : prog E A) Q s :
  wp ok (fun X e s x s' => h X e s = (x, s')) p Q s ->
  Q (fst (run h p s)) (snd (run h p s)).
Proof.
  revert s. induction p as [a|X e k IH]; intros s; simpl; [done|].
  intros [_ H]. destruct (h X e s) as [x s'] eqn:Hh. auto.
Qed.
