(* ===== verification/ApiTypes.v ===== *)
(** * ApiTypes: the Kubernetes objects the program reads and writes

    The custom resources of api/v1alpha1 and, of the built-in kinds, the fields
    the source touches. A nil Go slice or map and an empty one are the same
    value here: every use in the source (range, len, index, DeepEqual of
    apimachinery's [equality.Semantic]) treats them alike. *)
From S2P Require Import Prelude GoStrings.
Open Scope Z_scope.

Abbreviation str_map := (gmap string string).

(** Go's [m[k]] on a [map[string]string]: the zero value for a missing key. *)
Definition lookup_str (m : str_map) (k : string) : string := default "" (m !! k).

(** [corev1.Protocol] is a string type. *)
Abbreviation Protocol := string.
Definition ProtocolTCP : Protocol := "TCP".
Definition ProtocolUDP : Protocol := "UDP".

(** The wild card of a node list. *)
Definition allNodesToken : string := "*".

(** ** api/v1alpha1/lbport_types.go *)

Record LBPortSpec := MkLBPortSpec {
  spec_Port : Z;  (* int32 *)
  spec_Protocol : Protocol;
  spec_Nodes : list string;
  spec_Owner : string;
  spec_AllowPrivileged : bool
}.

Record LBPortStatus := MkLBPortStatus { AppliedNodes : list string }.

Record LBPort := MkLBPort {
  lbp_Name : string;
  lbp_Labels : str_map;
  lbp_Spec : LBPortSpec;
  lbp_Status : LBPortStatus
}.

(** ** api/v1alpha1/dnsrecord_types.go *)

Record DNSRecordSpec := MkDNSRecordSpec {
  FQDN : string;
  dns_Type : string;
  TTL : Z;  (* int32 *)
  Targets : list string
}.

Record DNSRecord := MkDNSRecord {
  dns_Name : string;
  dns_Labels : str_map;
  dns_Spec : DNSRecordSpec
}.

#[export] Instance LBPortSpec_eq_dec : EqDecision LBPortSpec.
Proof. solve_decision. Defined.
#[export] Instance LBPortStatus_eq_dec : EqDecision LBPortStatus.
Proof. solve_decision. Defined.
#[export] Instance LBPort_eq_dec : EqDecision LBPort.
Proof. solve_decision. Defined.
#[export] Instance DNSRecordSpec_eq_dec : EqDecision DNSRecordSpec.
Proof. solve_decision. Defined.
#[export] Instance DNSRecord_eq_dec : EqDecision DNSRecord.
Proof. solve_decision. Defined.

(** [lbport.Status.AppliedNodes = nodes] on a copy of the object. *)
Definition with_applied (nodes : list string) (l : LBPort) : LBPort :=
  MkLBPort (lbp_Name l) (lbp_Labels l) (lbp_Spec l) (MkLBPortStatus nodes).

(** Go's [range] builds and tests of string sets, [slices.Contains]. *)
Definition contains (l : list string) (x : string) : bool := bool_decide (x ∈ l).
