(* ===== verification/FwPorts.v ===== *)
(** * FwPorts: the port sets of the firewall agent

    Models internal/firewall/firewall.go ([PortSpec], [DesiredPortsForNode],
    [FirewallPolicy.Filter], [appliesToNode]), internal/firewall/state.go
    ([PortKey], [portKeys], [specsFromKeys]) and the set operations of
    internal/firewall/firewalld.go ([diffPorts], [intersectPorts],
    [nextManagedPorts], [stableUniquePorts]). *)
From S2P Require Import Prelude GoStrings ApiTypes.
Open Scope Z_scope.

Record PortSpec := MkPortSpec {
  Port : Z;  (* int32 *)
  PortProtocol : Protocol;
  AllowPrivileged : bool
}.

Record PortKey := MkPortKey { key_Port : Z; key_Protocol : string }.

#[export] Instance PortSpec_eq_dec : EqDecision PortSpec.
Proof. solve_decision. Defined.
#[export] Instance PortKey_eq_dec : EqDecision PortKey.
Proof. solve_decision. Defined.
#[export] Instance PortKey_countable : Countable PortKey.
Proof.
  by refine (inj_countable' (fun k => (key_Port k, key_Protocol k))
    (fun p => MkPortKey p.1 p.2) _); intros [].
Defined.

(** ** Protocol names *)

Definition protocolString (protocol : Protocol) : string :=
  if bool_decide (protocol = "") then "tcp" else ToLower protocol.

Definition protocolFromString (protocol : string) : Protocol :=
  if bool_decide (ToUpper protocol = "UDP") then ProtocolUDP else ProtocolTCP.

Definition parsePort (raw : string) : Z := default 0 (Sscanf_d32 raw).

(** [PortSpec.String] and [PortSpec.key]. *)
Definition PortSpec_String (p : PortSpec) : string :=
  fmt_d (Port p) +:+ "/" +:+ ToLower (PortProtocol p).

Definition key (p : PortSpec) : PortKey := MkPortKey (Port p) (protocolString (PortProtocol p)).

Definition portKeys (ports : list PortSpec) : list PortKey := key <$> ports.

Definition specsFromKeys (keys : list PortKey) : list PortSpec :=
  (fun k => MkPortSpec (key_Port k) (protocolFromString (key_Protocol k)) false) <$> keys.

(** ** Sorting by port, then protocol

    The order [sort.Slice] is given: [less i j] is [Port] smaller, or equal
    ports and [Protocol] smaller. *)

Definition port_le (a b : PortSpec) : Prop :=
  Port a < Port b \/ Port a = Port b /\ String.le (PortProtocol a) (PortProtocol b).

#[export] Instance port_le_dec : RelDecision port_le.
Proof. intros a b. unfold port_le. apply _. Defined.

Definition sort_ports (l : list PortSpec) : list PortSpec := merge_sort port_le l.

(** ** Sets of ports *)

Definition base (p : PortSpec) : PortSpec := MkPortSpec (Port p) (PortProtocol p) false.

(** The loop of [stableUniquePorts]: the first port of each key. *)
Fixpoint uniq_keys (seen : gset PortKey) (ports : list PortSpec) : list PortSpec :=
  match ports with
  | [] => []
  | port :: ports' =>
      if bool_decide (key (base port) ∈ seen) then uniq_keys seen ports'
      else base port :: uniq_keys ({[key (base port)]} ∪ seen) ports'
  end.

Definition stableUniquePorts (ports : list PortSpec) : list PortSpec :=
  sort_ports (uniq_keys ∅ ports).

Definition key_set (ports : list PortSpec) : gset PortKey := list_to_set (key <$> ports).

Definition diffPorts (left right : list PortSpec) : list PortSpec :=
  stableUniquePorts (base <$> filter (fun port => key port ∉ key_set right) left).

Definition intersectPorts (left right : list PortSpec) : list PortSpec :=
  stableUniquePorts (base <$> filter (fun port => key port ∈ key_set right) left).

Definition nextManagedPorts (previousManaged desired current added : list PortSpec) : list PortSpec :=
  stableUniquePorts
    ((base <$> filter (fun port => key port ∈ key_set current)
       (filter (fun port => key port ∈ key_set desired) previousManaged))
     ++ (base <$> added)).

(** ** The desired ports of a node *)

Fixpoint appliesToNode (nodes : list string) (nodeName : string) : bool :=
  match nodes with
  | [] => false
  | node :: nodes' =>
      bool_decide (node = allNodesToken) || bool_decide (node = nodeName)
      || appliesToNode nodes' nodeName
  end.

(** [if protocol == "" { protocol = corev1.ProtocolTCP }] *)
Definition defaultTCP (protocol : Protocol) : Protocol :=
  if bool_decide (protocol = "") then ProtocolTCP else protocol.

Definition lbport_key (lbport : LBPort) : PortKey :=
  MkPortKey (spec_Port (lbp_Spec lbport)) (protocolString (defaultTCP (spec_Protocol (lbp_Spec lbport)))).

(** One iteration of the loop of [DesiredPortsForNode]. *)
Definition add_desired (nodeName : string) (seen : gmap PortKey PortSpec) (lbport : LBPort)
    : gmap PortKey PortSpec :=
  if appliesToNode (spec_Nodes (lbp_Spec lbport)) nodeName then
    let protocol := defaultTCP (spec_Protocol (lbp_Spec lbport)) in
    let k := MkPortKey (spec_Port (lbp_Spec lbport)) (protocolString protocol) in
    let allow :=
      match seen !! k with
      | Some existing =>
          if AllowPrivileged existing then true else spec_AllowPrivileged (lbp_Spec lbport)
      | None => spec_AllowPrivileged (lbp_Spec lbport)
      end in
    <[k := MkPortSpec (spec_Port (lbp_Spec lbport)) protocol allow]> seen
  else seen.

(** The map is then listed, in an order Go leaves open, and sorted. *)
Definition DesiredPortsForNode (lbports : list LBPort) (nodeName : string) : list PortSpec :=
  sort_ports (snd <$> map_to_list (foldl (add_desired nodeName) ∅ lbports)).

(** ** The policy *)

Record FirewallPolicy := MkFirewallPolicy { DeniedPorts : list Z }.

Record RejectedPort := MkRejectedPort { rejected_spec : PortSpec; Reason : string }.

Fixpoint Filter_loop (denied : gset Z) (desired : list PortSpec)
    : list PortSpec * list RejectedPort :=
  match desired with
  | [] => ([], [])
  | spec :: desired' =>
      let '(out, rejected) := Filter_loop denied desired' in
      if bool_decide (Port spec ∈ denied) then (out, MkRejectedPort spec "denylist" :: rejected)
      else if (Port spec <? 1024) && negb (AllowPrivileged spec)
      then (out, MkRejectedPort spec "privileged" :: rejected)
      else (spec :: out, rejected)
  end.

Definition Filter (p : FirewallPolicy) (desired : list PortSpec)
    : list PortSpec * list RejectedPort :=
  Filter_loop (list_to_set (DeniedPorts p)) desired.

Definition formatPorts (ports : list PortSpec) : list string := PortSpec_String <$> ports.

Definition formatRejected (ports : list RejectedPort) : list string :=
  (fun r => PortSpec_String (rejected_spec r) +:+ ":" +:+ Reason r) <$> ports.

(** ** The order on ports *)

#[export] Instance port_le_trans : Transitive port_le.
Proof.
  intros a b c [Hab|[Hab Hs]] [Hbc|[Hbc Ht]]; unfold port_le.
  - left; lia.
  - left; lia.
  - left; lia.
  - right. split; [lia|]. by etrans.
Qed.

#[export] Instance port_le_total : Total port_le.
Proof.
  intros a b. unfold port_le.
  destruct (total String.le (PortProtocol a) (PortProtocol b)),
    (Z.lt_trichotomy (Port a) (Port b)) as [|[Heq|]]; tauto || (left; right; tauto) || (right; right; auto).
Qed.

Lemma port_le_antisym a b :
  port_le a b -> port_le b a -> Port a = Port b /\ PortProtocol a = PortProtocol b.
Proof.
  intros [?|[? ?]] [?|[? ?]]; try lia. split; [done|]. by apply (anti_symm String.le).
Qed.

Lemma port_le_antisym_key a b : port_le a b -> port_le b a -> key a = key b.
Proof.
  intros H1 H2. destruct (port_le_antisym _ _ H1 H2) as [Hn Hp].
  unfold key. by rewrite Hn, Hp.
Qed.

Lemma NoDup_fmap_inj_on {A B} (f : A -> B) (l : list A) x y :
  NoDup (f <$> l) -> x ∈ l -> y ∈ l -> f x = f y -> x = y.
Proof.
  intros Hnd [i Hi]%list_elem_of_lookup [j Hj]%list_elem_of_lookup Hf.
  assert (i = j) as ->; [|congruence].
  apply (NoDup_lookup (f <$> l) i j (f x) Hnd); rewrite list_lookup_fmap.
  - by rewrite Hi.
  - by rewrite Hj, Hf.
Qed.

(** On ports with pairwise distinct keys the sorted list is unique. *)
Lemma sort_ports_unique l l' :
  NoDup (key <$> l) -> l' ≡ₚ l -> StronglySorted port_le l' -> l' = sort_ports l.
Proof.
  intros Hnd. apply merge_sort_unique; [apply _..|].
  intros x y Hx Hy H1 H2. eapply NoDup_fmap_inj_on; eauto using port_le_antisym_key.
Qed.

Lemma sort_ports_perm l : sort_ports l ≡ₚ l.
Proof. apply merge_sort_Permutation. Qed.

Lemma sort_ports_sorted l : StronglySorted port_le (sort_ports l).
Proof. apply merge_sort_Sorted; apply _. Qed.

(** ** [stableUniquePorts] and the set operations *)

Lemma elem_of_key_set k ports : k ∈ key_set ports <-> exists p, p ∈ ports /\ key p = k.
Proof.
  unfold key_set. rewrite elem_of_list_to_set, list_elem_of_fmap. naive_solver.
Qed.

Lemma elem_of_uniq_keys seen ports p :
  p ∈ uniq_keys seen ports -> (exists q, q ∈ ports /\ p = base q) /\ key p ∉ seen.
Proof.
  revert seen. induction ports as [|q ports IH]; intros seen; simpl; [by intros ?%not_elem_of_nil|].
  case_bool_decide as Hin; [intros [(r & ? & ->) ?]%IH; set_solver|].
  intros [->|[(r & ? & ->) ?]%IH]%elem_of_cons; set_solver.
Qed.

Lemma uniq_keys_NoDup seen ports : NoDup (key <$> uniq_keys seen ports).
Proof.
  revert seen. induction ports as [|q ports IH]; intros seen; simpl; [constructor|].
  case_bool_decide; [done|]. csimpl. constructor; [|done].
  intros (p & Hk & [_ Hp]%elem_of_uniq_keys)%list_elem_of_fmap. rewrite <-Hk in Hp. set_solver.
Qed.

Lemma key_set_nil : key_set [] = ∅.
Proof. done. Qed.

Lemma key_set_cons p ports : key_set (p :: ports) = {[key p]} ∪ key_set ports.
Proof. done. Qed.

Lemma key_set_app l1 l2 : key_set (l1 ++ l2) = key_set l1 ∪ key_set l2.
Proof. unfold key_set. by rewrite fmap_app, list_to_set_app_L. Qed.

Lemma key_set_perm l1 l2 : l1 ≡ₚ l2 -> key_set l1 = key_set l2.
Proof. intros Hp. unfold key_set. by rewrite Hp. Qed.

Lemma key_set_base l : key_set (base <$> l) = key_set l.
Proof. unfold key_set. by rewrite <-list_fmap_compose. Qed.

Lemma uniq_keys_key_set seen ports : key_set (uniq_keys seen ports) = key_set ports ∖ seen.
Proof.
  revert seen. induction ports as [|q ports IH]; intros seen; simpl; [set_solver|].
  change (key (base q)) with (key q). case_bool_decide; rewrite !key_set_cons.
  - rewrite IH. set_solver.
  - rewrite IH. change (key (base q)) with (key q).
    apply set_eq. intros k. destruct (decide (k = key q)); set_solver.
Qed.

Lemma stableUniquePorts_key_set ports : key_set (stableUniquePorts ports) = key_set ports.
Proof.
  unfold stableUniquePorts. rewrite (key_set_perm _ _ (sort_ports_perm _)), uniq_keys_key_set.
  set_solver.
Qed.

Lemma stableUniquePorts_NoDup ports : NoDup (key <$> stableUniquePorts ports).
Proof. unfold stableUniquePorts. rewrite sort_ports_perm. apply uniq_keys_NoDup. Qed.

Lemma stableUniquePorts_sorted ports : StronglySorted port_le (stableUniquePorts ports).
Proof. apply sort_ports_sorted. Qed.

Lemma elem_of_stableUniquePorts ports p :
  p ∈ stableUniquePorts ports -> exists q, q ∈ ports /\ p = base q.
Proof. unfold stableUniquePorts. rewrite sort_ports_perm. intros [? _]%elem_of_uniq_keys. done. Qed.

Lemma elem_of_key_set_filter (P : PortSpec -> Prop) `{!forall p, Decision (P p)} ports k :
  k ∈ key_set (filter P ports) <-> exists p, p ∈ ports /\ P p /\ key p = k.
Proof. rewrite elem_of_key_set. setoid_rewrite list_elem_of_filter. naive_solver. Qed.

Lemma diffPorts_key_set left right : key_set (diffPorts left right) = key_set left ∖ key_set right.
Proof.
  unfold diffPorts. rewrite stableUniquePorts_key_set, key_set_base. apply set_eq. intros k.
  rewrite elem_of_key_set_filter, elem_of_difference, (elem_of_key_set k left).
  split; [intros (p & ? & ? & <-); eauto|]. intros [(p & ? & <-) ?]. eauto.
Qed.

Lemma intersectPorts_key_set left right :
  key_set (intersectPorts left right) = key_set left ∩ key_set right.
Proof.
  unfold intersectPorts. rewrite stableUniquePorts_key_set, key_set_base. apply set_eq. intros k.
  rewrite elem_of_key_set_filter, elem_of_intersection, (elem_of_key_set k left).
  split; [intros (p & ? & ? & <-); eauto|]. intros [(p & ? & <-) ?]. eauto.
Qed.

Lemma nextManagedPorts_key_set managed desired current added :
  key_set (nextManagedPorts managed desired current added) =
  (key_set managed ∩ key_set desired ∩ key_set current) ∪ key_set added.
Proof.
  unfold nextManagedPorts. rewrite stableUniquePorts_key_set, key_set_app, !key_set_base.
  f_equal. apply set_eq. intros k. rewrite elem_of_key_set_filter.
  setoid_rewrite list_elem_of_filter. rewrite !elem_of_intersection, (elem_of_key_set k managed).
  split; [intros (p & [? ?] & ? & <-); eauto|]. intros [[(p & ? & <-) ?] ?]. eauto.
Qed.

(** ** Ports as the LBPort schema allows them *)

Definition schema_protocol (p : PortSpec) : Prop :=
  PortProtocol p = ProtocolTCP \/ PortProtocol p = ProtocolUDP.
Definition schema_port (p : PortSpec) : Prop := 1 <= Port p <= 65535 /\ schema_protocol p.

Lemma schema_ports_protocol ports : Forall schema_port ports -> Forall schema_protocol ports.
Proof. intros Hs. eapply Forall_impl; [exact Hs|]. by intros p []. Qed.

Lemma schema_port_diff left right : Forall schema_port left -> Forall schema_port (diffPorts left right).
Proof.
  rewrite !Forall_forall. intros Hs p (q & (q' & -> & [_ Hq]%list_elem_of_filter)%list_elem_of_fmap & ->)
    %elem_of_stableUniquePorts. apply (Hs q' Hq).
Qed.

Lemma schema_port_stable l : Forall schema_port l -> Forall schema_port (stableUniquePorts l).
Proof. rewrite !Forall_forall. intros Hs p (q & Hq & ->)%elem_of_stableUniquePorts. apply (Hs q Hq). Qed.

Lemma elem_of_diffPorts left right p :
  p ∈ diffPorts left right -> key p ∈ key_set left /\ key p ∉ key_set right.
Proof. intros Hp. rewrite <-elem_of_difference, <-diffPorts_key_set, elem_of_key_set. eauto. Qed.

Create HintDb ports.
#[export] Hint Rewrite stableUniquePorts_key_set diffPorts_key_set intersectPorts_key_set
  nextManagedPorts_key_set key_set_base key_set_app : ports.
#[export] Hint Resolve stableUniquePorts_NoDup stableUniquePorts_sorted sort_ports_sorted : ports.

(** Goals about port sets: reduce the operations to set operations on keys. *)
Ltac port_sets := autorewrite with ports in *; set_solver.

(** ** What [DesiredPortsForNode] computes *)

(** The LBPorts that expose the port [k] on a node. *)
Definition exposing (nodeName : string) (k : PortKey) (lbports : list LBPort) : list LBPort :=
  filter (fun l => appliesToNode (spec_Nodes (lbp_Spec l)) nodeName = true /\ lbport_key l = k)
    lbports.

Definition allows (l : LBPort) : bool := spec_AllowPrivileged (lbp_Spec l).

Lemma appliesToNode_spec nodes n : appliesToNode nodes n = true <-> allNodesToken ∈ nodes \/ n ∈ nodes.
Proof.
  induction nodes as [|m nodes IH]; simpl; [set_solver|].
  rewrite !orb_true_iff, !bool_decide_eq_true, IH. set_solver.
Qed.

Lemma exposing_snoc n k ls l :
  exposing n k (ls ++ [l]) =
  exposing n k ls ++
  (if decide (appliesToNode (spec_Nodes (lbp_Spec l)) n = true /\ lbport_key l = k) then [l] else []).
Proof. unfold exposing. by rewrite filter_app. Qed.

(** The loop invariant, as a closed form of the map the loop builds. *)
Lemma lookup_desired n lbports k :
  foldl (add_desired n) ∅ lbports !! k =
  (fun l => MkPortSpec (spec_Port (lbp_Spec l)) (defaultTCP (spec_Protocol (lbp_Spec l)))
              (existsb allows (exposing n k lbports))) <$> last (exposing n k lbports).
Proof.
  induction lbports as [|l lbports IH] using rev_ind; [done|].
  rewrite foldl_snoc, exposing_snoc. unfold add_desired at 1.
  destruct (appliesToNode (spec_Nodes (lbp_Spec l)) n) eqn:Happ;
    [|by rewrite decide_False, app_nil_r by naive_solver].
  change (MkPortKey _ _) with (lbport_key l). destruct (decide (lbport_key l = k)) as [<-|Hk].
  - rewrite lookup_insert_eq, decide_True by done. rewrite last_snoc, existsb_app. simpl.
    rewrite IH, orb_false_r. do 2 f_equal.
    destruct (last (exposing n (lbport_key l) lbports)) as [l'|] eqn:Hl; simpl; [by destruct existsb|].
    apply last_None in Hl. by rewrite Hl.
  - by rewrite lookup_insert_ne, decide_False, app_nil_r by naive_solver.
Qed.

Lemma desired_key n lbports k p : foldl (add_desired n) ∅ lbports !! k = Some p -> key p = k.
Proof.
  rewrite lookup_desired. destruct (last _) as [l|] eqn:Hl; [|done]. intros [= <-].
  apply last_Some_elem_of in Hl. unfold exposing in Hl. apply list_elem_of_filter in Hl as [[_ <-] _].
  done.
Qed.

Lemma elem_of_desired n lbports p :
  p ∈ DesiredPortsForNode lbports n <-> foldl (add_desired n) ∅ lbports !! key p = Some p.
Proof.
  unfold DesiredPortsForNode. rewrite sort_ports_perm, list_elem_of_fmap. split.
  - intros ([k q] & -> & Hq%elem_of_map_to_list). simpl. by rewrite (desired_key _ _ _ _ Hq).
  - intros Hp. exists (key p, p). by rewrite elem_of_map_to_list.
Qed.

Lemma desired_NoDup n lbports : NoDup (key <$> (map_to_list (foldl (add_desired n) ∅ lbports)).*2).
Proof.
  set (m := foldl _ _ _).
  replace (key <$> (map_to_list m).*2) with (map_to_list m).*1; [apply NoDup_fst_map_to_list|].
  rewrite <-list_fmap_compose. apply list_fmap_ext. intros i [k p] Hi. simpl.
  symmetry. apply (desired_key n lbports). apply elem_of_map_to_list. by eapply list_elem_of_lookup_2.
Qed.

(** ** Properties *)

Lemma DesiredPortsForNode_spec (lbports : list LBPort) (n : string) :
  let out := DesiredPortsForNode lbports n in
  StronglySorted port_le out /\
  NoDup (key <$> out) /\
  (forall k, (exists p, p ∈ out /\ key p = k) <->
     exists l, l ∈ lbports /\ (allNodesToken ∈ spec_Nodes (lbp_Spec l) \/ n ∈ spec_Nodes (lbp_Spec l))
       /\ lbport_key l = k) /\
  (forall p, p ∈ out ->
     AllowPrivileged p = true <->
     exists l, l ∈ lbports /\ (allNodesToken ∈ spec_Nodes (lbp_Spec l) \/ n ∈ spec_Nodes (lbp_Spec l))
       /\ lbport_key l = key p /\ spec_AllowPrivileged (lbp_Spec l) = true).
Proof.
  assert (forall k l, l ∈ exposing n k lbports <->
    l ∈ lbports /\ (allNodesToken ∈ spec_Nodes (lbp_Spec l) \/ n ∈ spec_Nodes (lbp_Spec l))
    /\ lbport_key l = k) as Hexp.
  { intros k l. unfold exposing. rewrite list_elem_of_filter, appliesToNode_spec. tauto. }
  split_and!.
  - apply sort_ports_sorted.
  - unfold DesiredPortsForNode. rewrite sort_ports_perm. apply desired_NoDup.
  - intros k. setoid_rewrite elem_of_desired. setoid_rewrite <-Hexp. split.
    + intros (p & Hp & <-). rewrite lookup_desired in Hp. destruct (last _) as [l|] eqn:Hl; [|done].
      exists l. by apply last_Some_elem_of.
    + intros (l & Hl). destruct (foldl (add_desired n) ∅ lbports !! k) as [p|] eqn:Hp.
      * exists p. rewrite (desired_key _ _ _ _ Hp). auto.
      * rewrite lookup_desired in Hp. apply fmap_None, last_None in Hp. rewrite Hp in Hl. set_solver.
  - intros p Hp. apply elem_of_desired in Hp. rewrite lookup_desired in Hp.
    destruct (last _) as [l|]; [|done]. injection Hp as Hp. rewrite <-Hp at 1. simpl.
    rewrite existsb_exists. setoid_rewrite <-list_elem_of_In. setoid_rewrite Hexp. unfold allows.
    clear. naive_solver.
Qed.

(** A desired port is the port of one of the LBPorts that expose it. *)
Lemma desired_origin n lbports p : p ∈ DesiredPortsForNode lbports n ->
  exists l, l ∈ lbports /\ Port p = spec_Port (lbp_Spec l) /\
    PortProtocol p = defaultTCP (spec_Protocol (lbp_Spec l)).
Proof.
  rewrite elem_of_desired, lookup_desired. destruct (last _) as [l|] eqn:Hl; [|done].
  intros [= <-]. exists l. split_and!; [|done|done].
  apply last_Some_elem_of in Hl. by apply list_elem_of_filter in Hl as [_ Hl].
Qed.

(** [DesiredPortsForNode] lists each port and protocol exposed on the node by
    at least one LBPort exactly once, in the order of port then protocol; a port
    is privileged exactly when one of the LBPorts exposing it on this node
    allows it. *)
Theorem DesiredPortsForNode_correct (lbports : list LBPort) (n : string) :
  let out := DesiredPortsForNode lbports n in
  StronglySorted port_le out /\
  NoDup (key <$> out) /\
  (forall k, (exists p, p ∈ out /\ key p = k) <->
     exists l, l ∈ lbports /\ (allNodesToken ∈ spec_Nodes (lbp_Spec l) \/ n ∈ spec_Nodes (lbp_Spec l))
       /\ lbport_key l = k) /\
  (forall p, p ∈ out ->
     AllowPrivileged p = true <->
     exists l, l ∈ lbports /\ (allNodesToken ∈ spec_Nodes (lbp_Spec l) \/ n ∈ spec_Nodes (lbp_Spec l))
       /\ lbport_key l = key p /\ spec_AllowPrivileged (lbp_Spec l) = true).
Proof. apply DesiredPortsForNode_spec. Qed.

(** The order in which Go walks the map of ports cannot be seen in the result
    of [DesiredPortsForNode]: whatever order the values come out in, and whatever
    sorting algorithm is used, the list is the same. *)
Theorem DesiredPortsForNode_any_order (lbports : list LBPort) (n : string) (walked sorted : list PortSpec)
    (Hwalk : walked ≡ₚ (map_to_list (foldl (add_desired n) ∅ lbports)).*2)
    (Hperm : sorted ≡ₚ walked) (Hsorted : StronglySorted port_le sorted) :
  sorted = DesiredPortsForNode lbports n.
Proof.
  apply sort_ports_unique; [apply desired_NoDup| |done]. by rewrite Hperm.
Qed.

Definition lbport_on (name : string) (port : Z) (proto : Protocol) (nodes : list string) (priv : bool)
    : LBPort :=
  MkLBPort name ∅ (MkLBPortSpec port proto nodes "bulb-controller" priv) (MkLBPortStatus []).

Definition two_lbports : list LBPort :=
  [lbport_on "a" 8443 "TCP" ["*"] false; lbport_on "b" 53 "UDP" ["n1"; "n2"] true;
   lbport_on "c" 8443 "" ["n1"] true; lbport_on "d" 9000 "TCP" ["n2"] false].

Example DesiredPortsForNode_two :
  DesiredPortsForNode two_lbports "n1" = [MkPortSpec 53 "UDP" true; MkPortSpec 8443 "TCP" true].
Proof. vm_compute. reflexivity. Qed.

Lemma DesiredPortsForNode_any_order_witness :
  [MkPortSpec 53 "UDP" true; MkPortSpec 8443 "TCP" true] = DesiredPortsForNode two_lbports "n1".
Proof.
  apply (DesiredPortsForNode_any_order two_lbports "n1"
    (map_to_list (foldl (add_desired "n1") ∅ two_lbports)).*2).
  - reflexivity.
  - assert ((map_to_list (foldl (add_desired "n1") ∅ two_lbports)).*2
      ∈ [[MkPortSpec 53 "UDP" true; MkPortSpec 8443 "TCP" true];
         [MkPortSpec 8443 "TCP" true; MkPortSpec 53 "UDP" true]]) as H.
    { apply (bool_decide_unpack _). vm_compute. exact I. }
    apply elem_of_cons in H as [->|H]; [reflexivity|].
    apply elem_of_cons in H as [->|H]; [apply perm_swap|]. by apply not_elem_of_nil in H.
  - apply (bool_decide_unpack _). vm_compute. exact I.
Defined.

(** A port the policy lets through. *)
Definition permitted (p : FirewallPolicy) (spec : PortSpec) : Prop :=
  Port spec ∉ DeniedPorts p /\ (1024 <= Port spec \/ AllowPrivileged spec = true).

#[export] Instance permitted_dec p spec : Decision (permitted p spec).
Proof. unfold permitted. apply _. Defined.

(** Why the policy rejects a port: the denylist is looked at first. *)
Definition reject_reason (p : FirewallPolicy) (spec : PortSpec) : string :=
  if decide (Port spec ∈ DeniedPorts p) then "denylist" else "privileged".

Lemma reject_denied p spec : Port spec ∈ DeniedPorts p -> reject_reason p spec = "denylist".
Proof. intros. unfold reject_reason. by rewrite decide_True. Qed.

Lemma reject_privileged p spec : Port spec ∉ DeniedPorts p -> reject_reason p spec = "privileged".
Proof. intros. unfold reject_reason. by rewrite decide_False. Qed.

Lemma Filter_spec (p : FirewallPolicy) (desired : list PortSpec) :
  Filter p desired =
  (filter (permitted p) desired,
   (fun spec => MkRejectedPort spec (reject_reason p spec)) <$>
     filter (fun spec => ~ permitted p spec) desired).
Proof.
  unfold Filter. induction desired as [|spec desired IH]; [done|]. simpl. rewrite IH.
  destruct (decide (permitted p spec)) as [Hp|Hp].
  - rewrite filter_cons_True, (filter_cons_False (fun spec => ~ permitted p spec)) by tauto.
    destruct Hp as [Hd Hp]. rewrite bool_decide_false by by rewrite elem_of_list_to_set.
    destruct (Z.ltb_spec (Port spec) 1024); simpl; [|done].
    destruct (AllowPrivileged spec); [done|]. destruct Hp; [lia|done].
  - rewrite filter_cons_False, (filter_cons_True (fun spec => ~ permitted p spec)) by tauto.
    unfold permitted in Hp. csimpl.
    destruct (decide (Port spec ∈ DeniedPorts p)) as [Hd|Hd].
    + rewrite bool_decide_true by by rewrite elem_of_list_to_set.
      by rewrite (reject_denied p spec).
    + rewrite bool_decide_false by by rewrite elem_of_list_to_set.
      rewrite (reject_privileged p spec) by done.
      destruct (Z.ltb_spec (Port spec) 1024); simpl; [|by destruct Hp; auto].
      destruct (AllowPrivileged spec) eqn:Ha; simpl; [by destruct Hp; auto|done].
Qed.

Lemma Filter_fst p desired : fst (Filter p desired) = filter (permitted p) desired.
Proof. by rewrite Filter_spec. Qed.

(** [FirewallPolicy.Filter] splits the desired ports, in their order, into the
    permitted ones (not on the denylist, and at least 1024 unless privileged
    ports are allowed) and the rejected ones, each with the reason that applies. *)
Theorem Filter_correct (p : FirewallPolicy) (desired : list PortSpec) :
  Filter p desired =
  (filter (permitted p) desired,
   (fun spec => MkRejectedPort spec (reject_reason p spec)) <$>
     filter (fun spec => ~ permitted p spec) desired).
Proof. apply Filter_spec. Qed.
