(* ===== verification/FwBackend.v ===== *)
(** * FwBackend: the interface between the agent and its firewall backends

    Models the interface and the dry-run wrapper of internal/firewall/backend.go.
    [Backend] is the Go interface, over the requests [E] its implementation
    makes; [BackendContract] is what the agent may rely on, which each backend
    that keeps the promise discharges in its own file. *)
From S2P Require Import Prelude Effects FwPorts.

Class Backend (B : Type) (E : Type -> Type) := {
  Name : B -> string;
  Validate : B -> prog E (result unit);
  Apply : B -> list PortSpec -> prog E (result unit)
}.

(** On a host in a valid state [Apply] succeeds, opens exactly the desired ports
    besides those that were open and not bulb's, and owns none but desired ones.
    [opened] and [owned] read the ports off the state of the host. *)
Class BackendContract {B : Type} {E : Type -> Type} `{!Backend B E} {W} (b : B) (h : handler E W)
    (valid : W -> Prop) (opened owned : W -> gset PortKey) : Prop := {
  apply_contract : forall w desired, valid w -> Forall schema_port desired -> exists w',
    run h (Apply b desired) w = (OK tt, w') /\ valid w' /\
    opened w' = (opened w ∖ owned w) ∪ key_set desired /\
    owned w' ⊆ key_set desired
}.

(** [DryRunBackend] asks its inner backend for its name and its validity only. *)
Record DryRunBackend (B : Type) := MkDryRunBackend { inner : B }.
Arguments MkDryRunBackend {B} inner.
Arguments inner {B} d.

(** [NewDryRunBackend]; [None] is a nil interface value. *)
Definition NewDryRunBackend {B} (i : option B) : result (DryRunBackend B) :=
  match i with
  | None => Fail (errorf "inner backend is required")
  | Some b => OK (MkDryRunBackend b)
  end.

Definition DryRun_Apply {E} {B} (b : DryRunBackend B) (desired : list PortSpec)
    : prog E (result unit) := Ret (OK tt).

#[export] Instance DryRunBackend_Backend {B E} `{!Backend B E} : Backend (DryRunBackend B) E :=
  { Name b := Name (inner b); Validate b := Validate (inner b); Apply := DryRun_Apply }.
