(* ===== verification/FwState.v ===== *)
(** * FwState: the state file of the firewalld backend

    Models [FileStateStore] of internal/firewall/state.go: the ports bulb owns, as
    JSON in a file that is replaced by renaming. The operating system is the
    environment: any call may fail, and the agent may be stopped at any point, in
    the middle of writing a file too. *)
From S2P Require Import Prelude GoStrings Json Effects ApiTypes FwPorts.
From Stdlib Require Import Ascii.
Open Scope Z_scope.

Record FileStateStore := MkFileStateStore { Path : string }.

Inductive ReadAnswer := Data (data : string) | NotExist | ReadError (e : error).

Inductive FileE : Type -> Type :=
| ReadFile (path : string) : FileE ReadAnswer
| MkdirParent (path : string) : FileE (result unit)          (* os.MkdirAll(filepath.Dir(path), 0o755) *)
| WriteFile (path data : string) : FileE (result unit)
| Rename (oldpath newpath : string) : FileE (result unit).

(** ** The JSON of a list of ports *)

(** [json.Marshal] of the keys, a slice that is not nil. *)
Definition marshal_key (k : PortKey) : string :=
  "{" +:+ json_string "port" +:+ ":" +:+ fmt_d (key_Port k) +:+ "," +:+
  json_string "protocol" +:+ ":" +:+ json_string (key_Protocol k) +:+ "}".

Definition marshal_keys (keys : list PortKey) : string :=
  "[" +:+ Join (marshal_key <$> keys) "," +:+ "]".

(** [json.Unmarshal] into the fields of a key: names in any case, null leaves the
    field, anything else of another type is an error. *)
Definition store_field (k : PortKey) (name : string) (j : json) : option PortKey :=
  if bool_decide (ToLower name = "port") then
    match j with
    | JNull => Some k
    | JNumber literal =>
        match ParseInt literal 32 with
        | Some n => Some (MkPortKey n (key_Protocol k))
        | None => None
        end
    | _ => None
    end
  else if bool_decide (ToLower name = "protocol") then
    match j with
    | JNull => Some k
    | JString s => Some (MkPortKey (key_Port k) s)
    | _ => None
    end
  else Some k.

Fixpoint store_fields (k : PortKey) (fields : list (string * json)) : option PortKey :=
  match fields with
  | [] => Some k
  | (name, j) :: fields' =>
      match store_field k name j with
      | Some k => store_fields k fields'
      | None => None
      end
  end.

Definition store_key (j : json) : option PortKey :=
  match j with
  | JNull => Some (MkPortKey 0 "")
  | JObject fields => store_fields (MkPortKey 0 "") fields
  | _ => None
  end.

Definition store_keys (j : json) : option (list PortKey) :=
  match j with
  | JNull => Some []
  | JArray l => mapM store_key l
  | _ => None
  end.

Definition unmarshal_keys (data : string) : option (list PortKey) :=
  match parse_json data with Some j => store_keys j | None => None end.

(** ** Load and Save *)

Module FileStore.
Section store.
(** The error [json.Unmarshal] describes a text with. *)
Context (decode_error : string -> error).

Definition Load (s : FileStateStore) : prog FileE (result (list PortKey)) :=
  let* data := call (ReadFile (Path s)) in
  match data with
  | NotExist => Ret (OK [])
  | ReadError e => Ret (Fail (wrap "read state file: " e))
  | Data data =>
      match unmarshal_keys data with
      | None => Ret (Fail (wrap "decode state file: " (decode_error data)))
      | Some keys => Ret (OK keys)
      end
  end.
End store.

Definition Save (s : FileStateStore) (keys : list PortKey) : prog FileE (result unit) :=
  let? _ := wrapped "mkdir state dir: " (call (MkdirParent (Path s))) in
  let data := marshal_keys keys in
  let tmp := Path s +:+ ".tmp" in
  let? _ := wrapped "write temp state file: " (call (WriteFile tmp data)) in
  let? _ := wrapped "replace state file: " (call (Rename tmp (Path s))) in
  Ret (OK tt).
End FileStore.

(** ** The files *)

Abbreviation Files := (gmap string string).

(** What a call may do. A write that fails may have written part of the data; a
    rename replaces the file at once or does nothing. *)
Definition file_step (X : Type) (e : FileE X) (fs : Files) (x : X) (fs' : Files) : Prop :=
  match e in FileE Y return Y -> Prop with
  | ReadFile path => fun x => fs' = fs /\
      ((exists err, x = ReadError err) \/ x = match fs !! path with Some d => Data d | None => NotExist end)
  | MkdirParent _ => fun _ => fs' = fs
  | WriteFile path data => fun x =>
      (x = OK tt /\ fs' = <[path := data]> fs) \/
      (exists err part, x = Fail err /\ (fs' = fs \/ fs' = <[path := part]> fs))
  | Rename old new => fun x =>
      (x = OK tt /\ exists d, fs !! old = Some d /\ fs' = <[new := d]> (delete old fs)) \/
      (exists err, x = Fail err /\ fs' = fs)
  end x.

(** The files when a program is stopped: between two calls, or while it writes. *)
Definition stopped_in {X} (e : FileE X) (fs fs' : Files) : Prop :=
  match e with
  | WriteFile path _ => exists part, fs' = <[path := part]> fs
  | _ => False
  end.

Fixpoint interrupted {A} (p : prog FileE A) (fs fs' : Files) : Prop :=
  fs' = fs \/
  match p with
  | Ret _ => False
  | Vis e k => stopped_in e fs fs' \/ exists x fs1, file_step _ e fs x fs1 /\ interrupted (k x) fs1 fs'
  end.

(** A system on which every call works. *)
Definition sim_files : handler FileE Files := fun X e fs =>
  match e in FileE Y return Y * Files with
  | ReadFile path => (match fs !! path with Some d => Data d | None => NotExist end, fs)
  | MkdirParent _ => (OK tt, fs)
  | WriteFile path data => (OK tt, <[path := data]> fs)
  | Rename old new =>
      match fs !! old with
      | Some d => (OK tt, <[new := d]> (delete old fs))
      | None => (Fail (errorf "no such file"), fs)
      end
  end.

(** What the next [Load] that can read the file returns. *)
Definition loads (decode_error : string -> error) (s : FileStateStore) (fs : Files) : result (list PortKey) :=
  fst (run sim_files (FileStore.Load decode_error s) fs).

Lemma loads_path decode_error s fs fs' :
  fs' !! Path s = fs !! Path s -> loads decode_error s fs' = loads decode_error s fs.
Proof.
  intros Hp. unfold loads. simpl. rewrite Hp. destruct (fs !! Path s) as [d|]; [|done].
  by destruct (unmarshal_keys d).
Qed.

(** ** Reading back what was written *)

(** A port that fits an int32, not negative, and a protocol in ASCII. *)
Definition key_ok (k : PortKey) : Prop := 0 <= key_Port k < 2 ^ 31 /\ ascii_text (key_Protocol k).

Definition key_json (k : PortKey) : json :=
  JObject [("port", JNumber (fmt_d (key_Port k))); ("protocol", JString (key_Protocol k))].

Lemma store_key_json k : key_ok k -> store_key (key_json k) = Some k.
Proof.
  intros [Hp _]. unfold key_json. simpl. unfold store_field. simpl.
  rewrite ParseInt_fmt_d; [by destruct k|lia|]. apply in_bits_true. lia.
Qed.

Lemma json_string_app s t : json_string s +:+ t = String dquote (quote_chars s +:+ String dquote t).
Proof. unfold json_string. by rewrite app_string_cons, app_string_assoc. Qed.

Lemma marshal_key_text k rest :
  marshal_key k +:+ rest =
  String "{" (String dquote (quote_chars "port" +:+ String dquote (String ":" (fmt_d (key_Port k) +:+
    String "," (String dquote (quote_chars "protocol" +:+ String dquote (String ":" (String dquote
      (quote_chars (key_Protocol k) +:+ String dquote (String "}" rest)))))))))).
Proof. unfold marshal_key. by rewrite !app_string_assoc, !json_string_app. Qed.

Lemma parse_marshal_key f k rest : key_ok k ->
  parse_value (4 + f) (marshal_key k +:+ rest) = Some (key_json k, rest).
Proof.
  intros [Hp _]. rewrite marshal_key_text. apply parse_value_object. eapply parse_members_more.
  - apply scan_json_string.
  - apply parse_value_fmt_d; [lia|done].
  - eapply parse_members_last; [apply scan_json_string|]. apply parse_value_string, scan_json_string.
Qed.

Lemma parse_marshal_elements f k keys rest : Forall key_ok (k :: keys) ->
  parse_elements (5 + length keys + f) (Join (marshal_key <$> k :: keys) "," +:+ String "]" rest) =
  Some (key_json <$> k :: keys, rest).
Proof.
  revert k. induction keys as [|k' keys IH]; intros k Hk; inversion_clear Hk as [|? ? Hok Hks].
  - apply parse_elements_last. by apply (parse_marshal_key f).
  - change (Join (marshal_key <$> k :: k' :: keys) ",") with
      (marshal_key k +:+ "," +:+ Join (marshal_key <$> k' :: keys) ",").
    rewrite !app_string_assoc. eapply parse_elements_more.
    + by apply (parse_marshal_key (1 + length keys + f)).
    + by apply IH.
Qed.

Lemma marshal_key_length k : (2 <= String.length (marshal_key k))%nat.
Proof. unfold marshal_key. simpl. lia. Qed.

Lemma Join_length k keys :
  (2 + length keys <= String.length (Join (marshal_key <$> k :: keys) ","))%nat.
Proof.
  revert k. induction keys as [|k' keys IH]; intros k; [apply marshal_key_length|].
  change (Join (marshal_key <$> k :: k' :: keys) ",") with
    (marshal_key k +:+ "," +:+ Join (marshal_key <$> k' :: keys) ",").
  rewrite !length_app_string. specialize (IH k'). pose proof (marshal_key_length k). simpl length in *. lia.
Qed.

Lemma store_keys_json keys : Forall key_ok keys -> mapM store_key (key_json <$> keys) = Some keys.
Proof.
  induction 1 as [|k keys Hok _ IH]; [done|]. rewrite fmap_cons. cbn [mapM].
  rewrite store_key_json by done. simpl. by rewrite IH.
Qed.

Lemma unmarshal_marshal keys : Forall key_ok keys -> unmarshal_keys (marshal_keys keys) = Some keys.
Proof.
  intros Hk. unfold unmarshal_keys, parse_json. destruct keys as [|k keys]; [done|].
  assert (parse_value (2 * String.length (marshal_keys (k :: keys))) (marshal_keys (k :: keys)) =
    Some (JArray (key_json <$> k :: keys), "")) as ->.
  { pose proof (Join_length k keys) as Hlen.
    assert (exists f, 2 * String.length (marshal_keys (k :: keys)) = S (5 + length keys + f))%nat as [f ->].
    { unfold marshal_keys. rewrite !length_app_string.
      change (String.length "[") with 1%nat. change (String.length "]") with 1%nat.
      exists (2 * String.length (Join (marshal_key <$> k :: keys) ",") - length keys - 2)%nat. lia. }
    pose proof (parse_marshal_elements f k keys "" Hk) as Hp.
    unfold marshal_keys. change ("[" +:+ ?x) with (String "[" x).
    destruct (Join (marshal_key <$> k :: keys) "," +:+ "]") as [|c s] eqn:Hj; [done|].
    assert (c = "{"%char) as ->.
    { destruct keys; simpl in Hj; by injection Hj as <- _. }
    by apply parse_value_array. }
  cbn [String.length skip_space]. rewrite bool_decide_true by done. by apply store_keys_json.
Qed.

(** ** Replacing the file *)

Abbreviation fwp := (wp (fun (X : Type) (_ : FileE X) (_ : Files) => True) file_step).

(** Of all files only the temporary one may differ. *)
Definition same_but (tmp : string) (fs fs' : Files) : Prop := forall p, p <> tmp -> fs' !! p = fs !! p.

Lemma same_but_trans tmp fs fs1 fs2 : same_but tmp fs fs1 -> same_but tmp fs1 fs2 -> same_but tmp fs fs2.
Proof. intros H1 H2 p Hp. by rewrite H2, H1. Qed.

Lemma same_but_insert tmp d (fs : Files) : same_but tmp fs (<[tmp := d]> fs).
Proof. intros p Hp. by rewrite lookup_insert_ne. Qed.

Lemma tmp_ne path : path <> path +:+ ".tmp".
Proof. intros H. apply (f_equal String.length) in H. rewrite length_app_string in H. simpl in H. lia. Qed.

(** The file is as before, or it has been replaced by the whole new text. *)
Definition old_or_new (path data : string) (fs fs' : Files) : Prop :=
  same_but (path +:+ ".tmp") fs fs' \/
  fs' !! path = Some data /\ forall p, p <> path -> p <> path +:+ ".tmp" -> fs' !! p = fs !! p.

Lemma renamed path data (fs : Files) : fs !! (path +:+ ".tmp") = Some data ->
  let fs' := <[path := data]> (delete (path +:+ ".tmp") fs) in
  fs' !! path = Some data /\ forall p, p <> path -> p <> path +:+ ".tmp" -> fs' !! p = fs !! p.
Proof.
  intros Hd fs'. split; [apply lookup_insert_eq|]. intros p H1 H2. unfold fs'.
  by rewrite lookup_insert_ne, lookup_delete_ne.
Qed.

(** Every run of [Save], stopped or finished. *)
Lemma Save_interrupted s keys fs fs' :
  interrupted (FileStore.Save s keys) fs fs' -> old_or_new (Path s) (marshal_keys keys) fs fs'.
Proof.
  set (data := marshal_keys keys). set (tmp := Path s +:+ ".tmp").
  assert (forall fs1, same_but tmp fs fs1 -> forall fs2, fs2 = fs1 -> old_or_new (Path s) data fs fs2) as Hold
    by (intros fs1 ? fs2 ->; by left).
  simpl. intros [H|[[]|([[]|e] & fs1 & -> & H)]]; [by apply (Hold fs)| |by destruct H as [H|[]]; apply (Hold fs)].
  simpl in H. fold tmp data in H. destruct H as [H|[[part H]|(x & fs1 & Hstep & H)]].
  - by apply (Hold fs).
  - apply (Hold _ (same_but_insert tmp part fs) _ H).
  - destruct Hstep as [[-> ->]|(e & part & -> & Hfs)].
    + simpl in H. fold tmp in H. pose proof (same_but_insert tmp data fs) as Hsame.
      destruct H as [H|[[]|(x & fs2 & Hstep & H)]]; [by apply (Hold _ Hsame)|].
      destruct Hstep as [[-> (d & Hd & ->)]|(e & -> & ->)]; simpl in H; destruct H as [->|[]].
      * rewrite lookup_insert_eq in Hd. injection Hd as <-. right.
        destruct (renamed (Path s) data (<[tmp := data]> fs) ltac:(apply lookup_insert_eq)) as [H1 H2].
        split; [done|]. intros p Hp Ht. rewrite H2 by done. by rewrite lookup_insert_ne.
      * by apply (Hold _ Hsame).
    + simpl in H. destruct H as [->|[]]. destruct Hfs as [->| ->]; [by apply (Hold fs)|].
      apply (Hold _ (same_but_insert tmp part fs)). done.
Qed.

Lemma loads_old_or_new decode_error s keys fs fs' : Forall key_ok keys ->
  old_or_new (Path s) (marshal_keys keys) fs fs' ->
  loads decode_error s fs' = loads decode_error s fs \/ loads decode_error s fs' = OK keys.
Proof.
  intros Hk [Hsame|[Hd _]].
  - left. apply loads_path, Hsame, tmp_ne.
  - right. unfold loads. simpl. rewrite Hd. by rewrite unmarshal_marshal.
Qed.

(** The calls of [Save] when it returns. *)
Lemma Save_returns s keys fs :
  fwp (FileStore.Save s keys) (fun r fs' =>
    match r with
    | OK _ => fs' !! Path s = Some (marshal_keys keys)
    | Fail _ => same_but (Path s +:+ ".tmp") fs fs'
    end) fs.
Proof.
  set (data := marshal_keys keys). set (tmp := Path s +:+ ".tmp").
  apply wp_bindr, wp_wrapped. split; [done|]. intros [[]|e] fs1 ->; [|by intros p _].
  cbn beta iota zeta delta [wrap_result]. fold data tmp. apply wp_bindr, wp_wrapped. split; [done|].
  intros x fs1 [[-> ->]|(e & part & -> & Hfs)]; cbn beta iota delta [wrap_result].
  - apply wp_bindr, wp_wrapped. split; [done|].
    intros x fs2 [[-> (d & Hd & ->)]|(e & -> & ->)]; cbn beta iota delta [wrap_result].
    + rewrite lookup_insert_eq in Hd. injection Hd as <-. by apply (renamed (Path s) data), lookup_insert_eq.
    + apply same_but_insert.
  - destruct Hfs as [->| ->]; [by intros p _|apply same_but_insert].
Qed.

(** C27: The record of the ports bulb owns survives anything. Whatever calls fail and
    wherever [Save] is stopped, in the middle of writing too, the next [Load] gives
    the ports recorded before or exactly the ports that were being saved, never
    something in between; no other file has changed but the temporary one. When
    [Save] returns, it is the saved ports if it reports success and the old ones if
    it reports an error. *)
Theorem Save_atomic (decode_error : string -> error) (s : FileStateStore) (keys : list PortKey) (fs : Files)
    (Hkeys : Forall key_ok keys) :
  (forall fs', interrupted (FileStore.Save s keys) fs fs' ->
     (loads decode_error s fs' = loads decode_error s fs \/ loads decode_error s fs' = OK keys) /\
     forall p, p <> Path s -> p <> Path s +:+ ".tmp" -> fs' !! p = fs !! p) /\
  wp (fun (X : Type) (_ : FileE X) (_ : Files) => True) file_step (FileStore.Save s keys)
    (fun r fs' => loads decode_error s fs' =
       match r with OK _ => OK keys | Fail _ => loads decode_error s fs end) fs.
Proof.
  split.
  - intros fs' H%Save_interrupted. split; [by apply loads_old_or_new|].
    intros p H1 H2. destruct H as [Hs|[_ Hs]]; by apply Hs.
  - eapply wp_mono, Save_returns. intros [[]|e] fs' H; simpl in H.
    + unfold loads. simpl. rewrite H. by rewrite unmarshal_marshal.
    + apply loads_path, H, tmp_ne.
Qed.

(** *** An agent stopped while it writes *)

Definition sample_store : FileStateStore := MkFileStateStore "/var/lib/bulb/firewall.json".
Definition sample_error (data : string) : error := errorf "unexpected end of JSON input".
Definition sample_keys : list PortKey := [MkPortKey 443 "tcp"; MkPortKey 53 "udp"].
Definition sample_files : Files := {[ Path sample_store := marshal_keys [MkPortKey 80 "tcp"] ]}.

Lemma Save_atomic_witness :
  let fs' := <["/var/lib/bulb/firewall.json.tmp" := "[{"]> sample_files in
  interrupted (FileStore.Save sample_store sample_keys) sample_files fs' /\
  (loads sample_error sample_store fs' = loads sample_error sample_store sample_files \/
   loads sample_error sample_store fs' = OK sample_keys) /\
  loads sample_error sample_store sample_files = OK [MkPortKey 80 "tcp"].
Proof.
  intros fs'. assert (interrupted (FileStore.Save sample_store sample_keys) sample_files fs') as Hint.
  { right. right. exists (OK tt), sample_files. split; [reflexivity|]. right. left. by exists "[{". }
  assert (Forall key_ok sample_keys) as Hok by by repeat constructor.
  split; [exact Hint|]. split; [|vm_compute; reflexivity].
  exact (proj1 (proj1 (Save_atomic sample_error sample_store sample_keys sample_files Hok) fs' Hint)).
Defined.

Example loads_samples :
  let loaded text := loads sample_error sample_store {[ Path sample_store := text ]} in
  loaded "null" = OK [] /\ loaded " [ null , {} ]
" = OK [MkPortKey 0 ""; MkPortKey 0 ""] /\
  loaded (String "[" ("{" +:+ json_string "PORT" +:+ " : 8080, " +:+ json_string "x" +:+ ":[1,-2.5e3]}]"))
    = OK [MkPortKey 8080 ""] /\
  is_ok (loaded "[") = false /\ is_ok (loaded "{}") = false /\
  is_ok (loaded ("[{" +:+ json_string "port" +:+ ":1.0}]")) = false /\
  is_ok (loaded ("[{" +:+ json_string "port" +:+ ":2147483648}]")) = false /\
  is_ok (loaded "[] []") = false /\
  loads sample_error sample_store ∅ = OK [].
Proof. vm_compute. repeat split. Qed.
