(* ===== verification/Firewalld.v ===== *)
(** * Firewalld: the firewalld backend of the firewall agent

    Models internal/firewall/firewalld.go. The backend is written against the
    two interfaces of the source, [StateStore] (the file that records which
    ports bulb added) and [firewalldZoneClient] (the D-Bus zone interface); they
    are the requests of [FwdE]. [DBus] below is the client that implements the
    second over D-Bus. *)
From S2P Require Import Prelude GoStrings Effects ApiTypes FwPorts FwBackend.
Open Scope Z_scope.

Inductive FwdE : Type -> Type :=
| Load : FwdE (result (list PortKey))
| Save (keys : list PortKey) : FwdE (result unit)
| GetPorts (zone : string) : FwdE (result (list PortSpec))
| AddPort (zone : string) (port : PortSpec) : FwdE (result unit)
| RemovePort (zone : string) (port : PortSpec) : FwdE (result unit).

(** [store] and [dbus] say whether the interface fields are non-nil. *)
Record FirewalldBackend := MkFirewalldBackend { zone : string; store : bool; dbus : bool }.

Definition Firewalld_Name (b : FirewalldBackend) : string := "firewalld".

Definition Firewalld_Validate (b : FirewalldBackend) : prog FwdE (result unit) :=
  if bool_decide (zone b = "") then Ret (Fail (errorf "firewalld zone is required"))
  else if negb (store b) then Ret (Fail (errorf "state store is required"))
  else if negb (dbus b) then Ret (Fail (errorf "firewalld D-Bus client is required"))
  else
    let? _ := wrapped ("query zone " +:+ zone b +:+ " ports: ") (call (GetPorts (zone b))) in
    Ret (OK tt).

Definition add_context (b : FirewalldBackend) (port : PortSpec) : string :=
  "add " +:+ PortSpec_String port +:+ " to zone " +:+ zone b +:+ ": ".
Definition remove_context (b : FirewalldBackend) (port : PortSpec) : string :=
  "remove " +:+ PortSpec_String port +:+ " from zone " +:+ zone b +:+ ": ".

Definition Firewalld_Apply (b : FirewalldBackend) (desired : list PortSpec)
    : prog FwdE (result unit) :=
  let? managedKeys := call Load in
  let managed := specsFromKeys managedKeys in
  let? current := call (GetPorts (zone b)) in
  let toAdd := diffPorts desired current in
  let trackedCurrent := intersectPorts managed current in
  let toRemove := diffPorts trackedCurrent desired in
  let? _ := for_each toAdd (fun port => wrapped (add_context b port) (call (AddPort (zone b) port))) in
  let? _ := for_each toRemove
    (fun port => wrapped (remove_context b port) (call (RemovePort (zone b) port))) in
  let nextManaged := nextManagedPorts managed desired current toAdd in
  let? _ := call (Save (portKeys nextManaged)) in
  Ret (OK tt).

#[export] Instance FirewalldBackend_Backend : Backend FirewalldBackend FwdE :=
  { Name := Firewalld_Name; Validate := Firewalld_Validate; Apply := Firewalld_Apply }.

(** ** The D-Bus client *)

Module DBus.
Section client.
(** The reply body and its decoding ([Call.Store]) belong to the D-Bus library. *)
Context (body : Type) (Store : body -> result (list (list string))).

(** [obj.CallWithContext(ctx, method, 0, args...)]; the last argument of
    addPort, a timeout, is an integer and the others are strings. *)
Inductive DBusE : Type -> Type :=
| CallWithContext (method : string) (args : list string) (timeout : option Z)
    : DBusE (result body).

Definition firewalldZoneIface : string := "org.fedoraproject.FirewallD1.zone".

Definition decode_ports (raw : list (list string)) : list PortSpec :=
  omap (fun entry =>
    match entry with
    | [port; protocol] => Some (MkPortSpec (parsePort port) (protocolFromString protocol) false)
    | _ => None
    end) raw.

Definition GetPorts (zone : string) : prog DBusE (result (list PortSpec)) :=
  let? reply := call (CallWithContext (firewalldZoneIface +:+ ".getPorts") [zone] None) in
  match wrap_result "store getPorts result: " (Store reply) with
  | OK raw => Ret (OK (stableUniquePorts (decode_ports raw)))
  | Fail e => Ret (Fail e)
  end.

Definition AddPort (zone : string) (port : PortSpec) : prog DBusE (result unit) :=
  let? _ := call (CallWithContext (firewalldZoneIface +:+ ".addPort")
               [zone; fmt_d (Port port); protocolString (PortProtocol port)] (Some 0)) in
  Ret (OK tt).

Definition RemovePort (zone : string) (port : PortSpec) : prog DBusE (result unit) :=
  let? _ := call (CallWithContext (firewalldZoneIface +:+ ".removePort")
               [zone; fmt_d (Port port); protocolString (PortProtocol port)] None) in
  Ret (OK tt).
End client.
End DBus.

(** ** The exchanges of [Apply]

    The requests that change the zone, and what is saved, read off an exchange. *)

Definition adds_of (tr : list (event FwdE)) : list PortSpec :=
  omap (fun ev => match ev with Ev (AddPort _ p) _ => Some p | _ => None end) tr.
Definition removes_of (tr : list (event FwdE)) : list PortSpec :=
  omap (fun ev => match ev with Ev (RemovePort _ p) _ => Some p | _ => None end) tr.
Definition saves_of (tr : list (event FwdE)) : list (list PortKey) :=
  omap (fun ev => match ev with Ev (Save ks) _ => Some ks | _ => None end) tr.

Definition add_ok (z : string) (p : PortSpec) : event FwdE := Ev (AddPort z p) (OK tt).
Definition remove_ok (z : string) (p : PortSpec) : event FwdE := Ev (RemovePort z p) (OK tt).

Section exchange.
Context (b : FirewalldBackend) (desired : list PortSpec).

(** The plan [Apply] makes from the state file [ks] and the zone's ports [cur]. *)
Definition to_add (cur : list PortSpec) : list PortSpec := diffPorts desired cur.
Definition to_remove (ks : list PortKey) (cur : list PortSpec) : list PortSpec :=
  diffPorts (intersectPorts (specsFromKeys ks) cur) desired.
Definition to_save (ks : list PortKey) (cur : list PortSpec) : list PortKey :=
  portKeys (nextManagedPorts (specsFromKeys ks) desired cur (to_add cur)).

(** The exchange after the state and the zone have been read: the additions in
    order, then the removals in order, then one save; a failure stops it. *)
Inductive plan_run (ks : list PortKey) (cur : list PortSpec)
    : list (event FwdE) -> result unit -> Prop :=
| add_failed l1 p l2 e :
    to_add cur = l1 ++ p :: l2 ->
    plan_run ks cur ((add_ok (zone b) <$> l1) ++ [Ev (AddPort (zone b) p) (Fail e)])
      (Fail (wrap (add_context b p) e))
| remove_failed l1 p l2 e :
    to_remove ks cur = l1 ++ p :: l2 ->
    plan_run ks cur
      ((add_ok (zone b) <$> to_add cur) ++
       (remove_ok (zone b) <$> l1) ++ [Ev (RemovePort (zone b) p) (Fail e)])
      (Fail (wrap (remove_context b p) e))
| saved r :
    plan_run ks cur
      ((add_ok (zone b) <$> to_add cur) ++
       (remove_ok (zone b) <$> to_remove ks cur) ++ [Ev (Save (to_save ks cur)) r]) r.

Lemma exec_Apply tr r :
  exec (Firewalld_Apply b desired) tr r ->
  (exists e, r = Fail e /\ tr = [Ev Load (Fail e)]) \/
  (exists ks e, r = Fail e /\ tr = [Ev Load (OK ks); Ev (GetPorts (zone b)) (Fail e)]) \/
  (exists ks cur tr', tr = Ev Load (OK ks) :: Ev (GetPorts (zone b)) (OK cur) :: tr' /\
     plan_run ks cur tr' r).
Proof.
  unfold Firewalld_Apply. rewrite exec_bindr. setoid_rewrite exec_call.
  intros [(e & -> & ->)|(ks & t1 & t2 & -> & -> & H)]; [by eauto|]. right.
  rewrite exec_bindr in H. setoid_rewrite exec_call in H.
  destruct H as [(e & -> & ->)|(cur & t3 & t4 & -> & -> & H)]; [by eauto|]. right.
  exists ks, cur, t4. split; [done|].
  rewrite exec_bindr in H. setoid_rewrite (exec_for_each_calls (AddPort (zone b))) in H.
  destruct H as [(e & -> & [[? _]|(l1 & p & l2 & e' & Heq & [= ->] & ->)])|
                 ([] & t5 & t6 & -> & [[_ ->]|(? & ? & ? & ? & _ & ? & _)] & H)]; try done.
  { by eapply add_failed. }
  rewrite exec_bindr in H. setoid_rewrite (exec_for_each_calls (RemovePort (zone b))) in H.
  destruct H as [(e & -> & [[? _]|(l1 & p & l2 & e' & Heq & [= ->] & ->)])|
                 ([] & t7 & t8 & -> & [[_ ->]|(? & ? & ? & ? & _ & ? & _)] & H)]; try done.
  { by eapply remove_failed. }
  rewrite exec_bindr in H. setoid_rewrite exec_call in H.
  destruct H as [(e & -> & ->)|([] & ? & ? & -> & -> & [-> ->])]; apply saved.
Qed.
End exchange.

Lemma omap_none {A B} (f : A -> option B) l : (forall x, x ∈ l -> f x = None) -> omap f l = [].
Proof.
  induction l as [|x l IH]; intros H; [done|]. csimpl. rewrite H by left. apply IH. set_solver.
Qed.

Lemma adds_of_adds z l : adds_of (add_ok z <$> l) = l.
Proof. induction l; csimpl; by f_equal. Qed.
Lemma removes_of_removes z l : removes_of (remove_ok z <$> l) = l.
Proof. induction l; csimpl; by f_equal. Qed.
Lemma adds_of_removes z l : adds_of (remove_ok z <$> l) = [].
Proof. by induction l. Qed.
Lemma removes_of_adds z l : removes_of (add_ok z <$> l) = [].
Proof. by induction l. Qed.
Lemma saves_of_adds z l : saves_of (add_ok z <$> l) = [].
Proof. by induction l. Qed.
Lemma saves_of_removes z l : saves_of (remove_ok z <$> l) = [].
Proof. by induction l. Qed.
Lemma adds_of_app t1 t2 : adds_of (t1 ++ t2) = adds_of t1 ++ adds_of t2.
Proof. apply omap_app. Qed.
Lemma removes_of_app t1 t2 : removes_of (t1 ++ t2) = removes_of t1 ++ removes_of t2.
Proof. apply omap_app. Qed.
Lemma saves_of_app t1 t2 : saves_of (t1 ++ t2) = saves_of t1 ++ saves_of t2.
Proof. apply omap_app. Qed.

Create HintDb exchange.
#[export] Hint Rewrite adds_of_app removes_of_app saves_of_app adds_of_adds removes_of_removes
  adds_of_removes removes_of_adds saves_of_adds saves_of_removes
  (@app_nil_r PortSpec) (@app_nil_l PortSpec) : exchange.

(** What any exchange, complete or cut short by a failure, asks of the zone. *)
Lemma plan_run_requests b desired ks cur tr r :
  plan_run b desired ks cur tr r ->
  adds_of tr `prefix_of` to_add desired cur /\
  removes_of tr `prefix_of` to_remove desired ks cur /\
  (removes_of tr = [] \/ adds_of tr = to_add desired cur) /\
  (saves_of tr = [] \/ adds_of tr = to_add desired cur /\
     removes_of tr = to_remove desired ks cur /\ saves_of tr = [to_save desired ks cur]).
Proof.
  destruct 1 as [l1 p l2 e Heq|l1 p l2 e Heq|r]; autorewrite with exchange; csimpl;
    autorewrite with exchange; split_and!; auto; rewrite ?Heq.
  - exists l2. by rewrite <-app_assoc.
  - apply prefix_nil.
  - exists l2. by rewrite <-app_assoc.
Qed.

(** C26: Whatever the state file and D-Bus answer, and wherever a failure cuts the
    exchange short, [FirewalldBackend.Apply] only ever removes a port that the
    state file lists as bulb's own, that the zone has, and that is not desired;
    and only ever adds a desired port the zone lacks. Ports an operator opened
    are not touched. *)
Theorem Firewalld_Apply_touches_only_owned (b : FirewalldBackend) (desired : list PortSpec)
    (tr : list (event FwdE)) (r : result unit)
    (Hexec : exec (Firewalld_Apply b desired) tr r) :
  (adds_of tr = [] /\ removes_of tr = []) \/
  exists ks cur,
    [Ev Load (OK ks); Ev (GetPorts (zone b)) (OK cur)] `prefix_of` tr /\
    (forall p, p ∈ removes_of tr ->
       key p ∈ key_set (specsFromKeys ks) /\ key p ∈ key_set cur /\ key p ∉ key_set desired) /\
    (forall p, p ∈ adds_of tr -> key p ∈ key_set desired /\ key p ∉ key_set cur).
Proof.
  apply exec_Apply in Hexec as [(e & -> & ->)|[(ks & e & -> & ->)|(ks & cur & tr' & -> & Hp)]];
    [by left..|right].
  exists ks, cur. split; [by exists tr'|]. apply plan_run_requests in Hp as (Ha & Hr & _).
  split; intros p Hin.
  - assert (key p ∈ key_set (to_remove desired ks cur)) as Hk
      by (apply elem_of_key_set; exists p; eauto using elem_of_prefix).
    unfold to_remove in Hk. autorewrite with ports in Hk.
    rewrite elem_of_difference, elem_of_intersection in Hk. tauto.
  - assert (key p ∈ key_set (to_add desired cur)) as Hk
      by (apply elem_of_key_set; exists p; eauto using elem_of_prefix).
    unfold to_add in Hk. autorewrite with ports in Hk. by rewrite elem_of_difference in Hk.
Qed.

(** The state file is written at most once, last, and only after every planned
    addition and removal has been accepted; [Apply] succeeds exactly when that
    write does. When an addition or a removal fails, nothing is written. *)
Theorem Firewalld_Apply_saves_last (b : FirewalldBackend) (desired : list PortSpec)
    (tr : list (event FwdE)) (r : result unit)
    (Hexec : exec (Firewalld_Apply b desired) tr r) :
  (saves_of tr = [] /\ is_ok r = false) \/
  exists ks cur,
    tr = [Ev Load (OK ks); Ev (GetPorts (zone b)) (OK cur)] ++
         (add_ok (zone b) <$> to_add desired cur) ++
         (remove_ok (zone b) <$> to_remove desired ks cur) ++
         [Ev (Save (to_save desired ks cur)) r].
Proof.
  apply exec_Apply in Hexec as [(e & -> & ->)|[(ks & e & -> & ->)|(ks & cur & tr' & -> & Hp)]];
    [by left..|].
  destruct Hp as [l1 p l2 e Heq|l1 p l2 e Heq|r]; [left|left|right; by exists ks, cur].
  all: csimpl; autorewrite with exchange; csimpl; autorewrite with exchange; done.
Qed.

(** ** Refinement of the ownership contract

    What the backend relies on: the state file keeps what is saved; a zone with tcp and
    udp ports, no ranges, lists those that are open; and firewalld adds a port that is not
    open and removes one that is, and refuses anything else with the errors it documents,
    ALREADY_ENABLED, NOT_ENABLED and INVALID_PORT, which the D-Bus client returns.
    [opened] and [recorded] read the zone and the file off the state [W] of the world. *)

Class FirewalldLaws {W} (h : handler FwdE W) (z : string) (opened : W -> gset PortKey)
    (recorded : W -> list PortKey) : Prop := {
  load_law : forall w, h _ Load w = (OK (recorded w), w);
  save_law : forall w ks, exists w', h _ (Save ks) w = (OK tt, w') /\
    opened w' = opened w /\ recorded w' = ks;
  get_ports_law : forall w, exists ports, h _ (GetPorts z) w = (OK ports, w) /\
    key_set ports = opened w;
  add_port_law : forall w p, schema_port p -> key p ∉ opened w -> exists w',
    h _ (AddPort z p) w = (OK tt, w') /\
    opened w' = {[key p]} ∪ opened w /\ recorded w' = recorded w;
  already_enabled_law : forall w p, key p ∈ opened w -> exists e, h _ (AddPort z p) w = (Fail e, w);
  invalid_port_law : forall w p, Port p < 0 \/ 65535 < Port p -> exists e, h _ (AddPort z p) w = (Fail e, w);
  remove_port_law : forall w p, schema_protocol p -> key p ∈ opened w -> exists w',
    h _ (RemovePort z p) w = (OK tt, w') /\
    opened w' = opened w ∖ {[key p]} /\ recorded w' = recorded w;
  not_enabled_law : forall w p, key p ∉ opened w -> exists e, h _ (RemovePort z p) w = (Fail e, w)
}.

(** The contract: bulb's own ports follow the desired set, and the others stay. *)
Definition owned_keys (ks : list PortKey) : gset PortKey := key_set (specsFromKeys ks).

Definition contract_opened (desired : gset PortKey) (op own : gset PortKey) : gset PortKey :=
  (op ∖ own) ∪ desired.
Definition contract_owned (desired : gset PortKey) (op own : gset PortKey) : gset PortKey :=
  (own ∩ desired ∩ op) ∪ (desired ∖ op).

Lemma key_of_key p : schema_protocol p ->
  key (MkPortSpec (key_Port (key p)) (protocolFromString (key_Protocol (key p))) false) = key p.
Proof. destruct p as [n pr a]. unfold schema_protocol. simpl. by intros [-> | ->]. Qed.

Lemma owned_portKeys ports : Forall schema_protocol ports -> owned_keys (portKeys ports) = key_set ports.
Proof.
  intros Hs. unfold owned_keys, key_set, specsFromKeys, portKeys. rewrite <-!list_fmap_compose.
  f_equal. apply list_fmap_ext. intros i p Hi. apply key_of_key.
  rewrite Forall_forall in Hs. apply Hs. by eapply list_elem_of_lookup_2.
Qed.

Lemma protocolFromString_schema s :
  protocolFromString s = ProtocolTCP \/ protocolFromString s = ProtocolUDP.
Proof. unfold protocolFromString. case_bool_decide; auto. Qed.

Lemma schema_stable ports : Forall schema_protocol ports -> Forall schema_protocol (stableUniquePorts ports).
Proof.
  rewrite !Forall_forall. intros H p (q & Hq & ->)%elem_of_stableUniquePorts.
  apply (H q Hq).
Qed.

Lemma schema_base (P : PortSpec -> Prop) `{!forall p, Decision (P p)} ports :
  Forall schema_protocol ports -> Forall schema_protocol (base <$> filter P ports).
Proof.
  rewrite !Forall_forall. intros Hs p (q & -> & [_ Hq]%list_elem_of_filter)%list_elem_of_fmap.
  apply (Hs q Hq).
Qed.

Lemma schema_specsFromKeys ks : Forall schema_protocol (specsFromKeys ks).
Proof.
  rewrite Forall_forall. intros p (k & -> & _)%list_elem_of_fmap. apply protocolFromString_schema.
Qed.

Lemma schema_next managed desired current added :
  Forall schema_protocol managed -> Forall schema_protocol added ->
  Forall schema_protocol (nextManagedPorts managed desired current added).
Proof.
  intros Hm Ha. apply schema_stable, Forall_app. split.
  - apply schema_base. rewrite Forall_forall in Hm |- *.
    intros p [_ Hp]%list_elem_of_filter. auto.
  - rewrite Forall_fmap. done.
Qed.

Section refinement.
Context {W : Type} (h : handler FwdE W) (b : FirewalldBackend)
  (opened : W -> gset PortKey) (recorded : W -> list PortKey).
Context `{Hlaws : !FirewalldLaws h (zone b) opened recorded}.

Lemma run_adds l w : Forall schema_port l -> NoDup (key <$> l) -> (forall p, p ∈ l -> key p ∉ opened w) ->
  exists w',
  run h (for_each l (fun p => wrapped (add_context b p) (call (AddPort (zone b) p)))) w = (OK tt, w')
  /\ opened w' = key_set l ∪ opened w /\ recorded w' = recorded w.
Proof.
  revert w. induction l as [|p l IH]; intros w; cbn [for_each].
  { intros. exists w. split_and!; [done| |done]. unfold key_set. set_solver. }
  intros [Hp Hs]%Forall_cons [Hnp Hnd]%NoDup_cons Hl.
  destruct (add_port_law w p Hp) as (w1 & Hh & Ho & Hr); [by apply Hl; left|].
  destruct (IH w1) as (w2 & Hrun & Ho2 & Hr2); [done..| |].
  { intros q Hq. rewrite Ho, not_elem_of_union, not_elem_of_singleton. split; [|by apply Hl; right].
    intros Heq. apply Hnp, list_elem_of_fmap. eauto. }
  exists w2. rewrite run_bindr, run_wrapped, run_call, Hh. simpl. rewrite Hrun.
  rewrite Ho2, Ho, Hr2, Hr, key_set_cons. split_and!; [done|set_solver|done].
Qed.

Lemma run_removes l w : Forall schema_protocol l -> NoDup (key <$> l) -> (forall p, p ∈ l -> key p ∈ opened w) ->
  exists w',
  run h (for_each l (fun p => wrapped (remove_context b p) (call (RemovePort (zone b) p)))) w
    = (OK tt, w')
  /\ opened w' = opened w ∖ key_set l /\ recorded w' = recorded w.
Proof.
  revert w. induction l as [|p l IH]; intros w; cbn [for_each].
  { intros. exists w. split_and!; [done| |done]. unfold key_set. set_solver. }
  intros [Hp Hs]%Forall_cons [Hnp Hnd]%NoDup_cons Hl.
  destruct (remove_port_law w p Hp) as (w1 & Hh & Ho & Hr); [by apply Hl; left|].
  destruct (IH w1) as (w2 & Hrun & Ho2 & Hr2); [done..| |].
  { intros q Hq. rewrite Ho, elem_of_difference, not_elem_of_singleton. split; [by apply Hl; right|].
    intros Heq. apply Hnp, list_elem_of_fmap. eauto. }
  exists w2. rewrite run_bindr, run_wrapped, run_call, Hh. simpl. rewrite Hrun.
  rewrite Ho2, Ho, Hr2, Hr, key_set_cons. split_and!; [done|set_solver|done].
Qed.

(** The plan asks nothing that firewalld refuses. *)
Lemma to_add_allowed desired cur w : Forall schema_port desired -> key_set cur = opened w ->
  Forall schema_port (to_add desired cur) /\ NoDup (key <$> to_add desired cur) /\
  forall p, p ∈ to_add desired cur -> key p ∉ opened w.
Proof.
  intros Hs <-. split_and!; [by apply schema_port_diff|apply stableUniquePorts_NoDup|].
  by intros p [_ ?]%elem_of_diffPorts.
Qed.

Lemma to_remove_allowed desired ks cur w : key_set cur ⊆ opened w ->
  Forall schema_protocol (to_remove desired ks cur) /\ NoDup (key <$> to_remove desired ks cur) /\
  forall p, p ∈ to_remove desired ks cur -> key p ∈ opened w.
Proof.
  intros Hcur. split_and!; [|apply stableUniquePorts_NoDup|].
  - apply schema_stable, schema_base, schema_stable, schema_base, schema_specsFromKeys.
  - intros p [Hp _]%elem_of_diffPorts. rewrite intersectPorts_key_set in Hp. apply Hcur. by apply elem_of_intersection in Hp as [_ ?].
Qed.

Lemma run_Apply desired w : Forall schema_port desired -> exists w' cur,
  run h (Firewalld_Apply b desired) w = (OK tt, w') /\ key_set cur = opened w /\
  opened w' = (key_set (to_add desired cur) ∪ opened w) ∖ key_set (to_remove desired (recorded w) cur) /\
  recorded w' = to_save desired (recorded w) cur.
Proof.
  intros Hschema. destruct (get_ports_law w) as (cur & Hg & Hcur).
  destruct (to_add_allowed desired cur w Hschema Hcur) as (Ha1 & Ha2 & Ha3).
  destruct (run_adds (to_add desired cur) w Ha1 Ha2 Ha3) as (w1 & Hr1 & Ho1 & Hs1).
  destruct (to_remove_allowed desired (recorded w) cur w1) as (Hb1 & Hb2 & Hb3);
    [rewrite Ho1, Hcur; apply union_subseteq_r|].
  destruct (run_removes (to_remove desired (recorded w) cur) w1 Hb1 Hb2 Hb3) as (w2 & Hr2 & Ho2 & Hs2).
  destruct (save_law w2 (to_save desired (recorded w) cur)) as (w3 & Hh & Ho3 & Hs3).
  exists w3, cur. split_and!; [|done|by rewrite Ho3, Ho2, Ho1|done].
  unfold Firewalld_Apply. rewrite run_bindr, run_call, load_law, run_bindr, run_call, Hg.
  fold (to_add desired cur). fold (to_remove desired (recorded w) cur).
  rewrite run_bindr, Hr1, run_bindr, Hr2, run_bindr, run_call.
  fold (to_save desired (recorded w) cur). by rewrite Hh.
Qed.
End refinement.

Lemma Firewalld_Apply_implements {W} (h : handler FwdE W) (b : FirewalldBackend)
    (opened : W -> gset PortKey) (recorded : W -> list PortKey)
    `{!FirewalldLaws h (zone b) opened recorded}
    (desired : list PortSpec) (Hschema : Forall schema_port desired) (w : W) :
  exists w', run h (Firewalld_Apply b desired) w = (OK tt, w') /\
    opened w' = contract_opened (key_set desired) (opened w) (owned_keys (recorded w)) /\
    owned_keys (recorded w') =
      contract_owned (key_set desired) (opened w) (owned_keys (recorded w)).
Proof.
  destruct (run_Apply h b opened recorded desired w Hschema) as (w' & cur & Hrun & Hcur & Ho & Hr).
  exists w'. split; [done|]. rewrite Ho, Hr. unfold to_add, to_remove, to_save.
  rewrite owned_portKeys.
  2: { apply schema_next; [apply schema_specsFromKeys|]. by apply schema_stable, schema_base, schema_ports_protocol. }
  unfold contract_opened, contract_owned. rewrite <-Hcur. autorewrite with ports.
  fold (owned_keys (recorded w)). generalize (owned_keys (recorded w)). intros own.
  split; gset_tauto.
Qed.

(** C19: With a firewall that does what firewalld documents, which refuses to add a port
    that is open, to remove one that is not, and a port that is none, [Apply] succeeds and
    implements the ownership contract: the zone ends up with exactly the desired
    ports and the ports bulb did not own, and bulb owns the desired ports it owned
    before or had to add. *)
Theorem Firewalld_Apply_refines {W} (h : handler FwdE W) (b : FirewalldBackend)
    (opened : W -> gset PortKey) (recorded : W -> list PortKey)
    (Hlaws : FirewalldLaws h (zone b) opened recorded)
    (desired : list PortSpec) (Hschema : Forall schema_port desired) (w : W) :
  exists w', run h (Firewalld_Apply b desired) w = (OK tt, w') /\
    opened w' = contract_opened (key_set desired) (opened w) (owned_keys (recorded w)) /\
    owned_keys (recorded w') =
      contract_owned (key_set desired) (opened w) (owned_keys (recorded w)).
Proof. by apply Firewalld_Apply_implements. Qed.

#[export] Instance FirewalldBackend_contract {W} (h : handler FwdE W) (b : FirewalldBackend)
    (opened : W -> gset PortKey) (recorded : W -> list PortKey)
    `{!FirewalldLaws h (zone b) opened recorded} :
  BackendContract b h (fun _ => True) opened (fun w => owned_keys (recorded w)).
Proof.
  split. intros w desired _ Hs.
  destruct (Firewalld_Apply_implements h b opened recorded desired Hs w)
    as (w' & Hrun & Ho & Hk).
  exists w'. split_and!; [done|done|done|]. rewrite Hk. unfold contract_owned. set_solver.
Qed.

Lemma key_set_empty_nil ports : key_set ports = ∅ -> ports = [].
Proof. destruct ports as [|p ports]; [done|]. rewrite key_set_cons. set_solver. Qed.

(** Applying the same desired set again is a no-op: the second call plans no
    addition and no removal, whatever order the zone lists its ports in, and
    leaves the zone and the ownership record as they were. *)
Theorem Firewalld_Apply_idempotent {W} (h : handler FwdE W) (b : FirewalldBackend)
    (opened : W -> gset PortKey) (recorded : W -> list PortKey)
    (Hlaws : FirewalldLaws h (zone b) opened recorded)
    (desired : list PortSpec) (Hschema : Forall schema_port desired) (w : W) :
  let w1 := snd (run h (Firewalld_Apply b desired) w) in
  let w2 := snd (run h (Firewalld_Apply b desired) w1) in
  (forall cur, key_set cur = opened w1 ->
     to_add desired cur = [] /\ to_remove desired (recorded w1) cur = []) /\
  opened w2 = opened w1 /\ owned_keys (recorded w2) = owned_keys (recorded w1).
Proof.
  destruct (Firewalld_Apply_implements h b opened recorded desired Hschema w) as (w1 & Hr1 & Ho1 & Hk1).
  cbv zeta. rewrite Hr1. cbn [snd].
  destruct (Firewalld_Apply_implements h b opened recorded desired Hschema w1) as (w2 & Hr2 & Ho2 & Hk2).
  rewrite Hr2. cbn [snd]. rewrite Ho2, Hk2. split; [|].
  - intros cur Hcur. split; apply key_set_empty_nil; unfold to_add, to_remove; autorewrite with ports.
    + rewrite Hcur, Ho1. unfold contract_opened. gset_tauto.
    + fold (owned_keys (recorded w1)). rewrite Hk1. unfold contract_owned. gset_tauto.
  - rewrite Ho1, Hk1. unfold contract_opened, contract_owned.
    generalize (owned_keys (recorded w)) (opened w). intros own op.
    split; gset_tauto.
Qed.

(** ** Sequences of calls *)

(** One [Apply] per desired set, as the agent makes them. *)
Fixpoint run_applies {W} (h : handler FwdE W) (b : FirewalldBackend) (ds : list (list PortSpec)) (w : W)
    : W :=
  match ds with
  | [] => w
  | d :: ds' => run_applies h b ds' (snd (run h (Firewalld_Apply b d) w))
  end.

Lemma unowned_stays_open {W} (h : handler FwdE W) (b : FirewalldBackend)
    (opened : W -> gset PortKey) (recorded : W -> list PortKey)
    `{!FirewalldLaws h (zone b) opened recorded}
    (ds : list (list PortSpec)) (Hschema : Forall (Forall schema_port) ds) (k : PortKey) (w : W) :
  k ∈ opened w -> k ∉ owned_keys (recorded w) ->
  k ∈ opened (run_applies h b ds w) /\ k ∉ owned_keys (recorded (run_applies h b ds w)).
Proof.
  revert w. induction Hschema as [|d ds Hd _ IH]; intros w Ho Hk; [done|]. cbn [run_applies].
  destruct (Firewalld_Apply_implements h b opened recorded d Hd w) as (w1 & -> & Ho1 & Hk1).
  apply IH; cbn [snd]; rewrite ?Ho1, ?Hk1; unfold contract_opened, contract_owned; set_solver.
Qed.

(** A port that is open in the zone and that bulb does not own, such as one an
    operator opened, stays open and unowned through any sequence of calls of
    [Apply], whether or not it is desired along the way. *)
Theorem Firewalld_operator_port_stays_open {W} (h : handler FwdE W) (b : FirewalldBackend)
    (opened : W -> gset PortKey) (recorded : W -> list PortKey)
    (Hlaws : FirewalldLaws h (zone b) opened recorded)
    (ds : list (list PortSpec)) (Hschema : Forall (Forall schema_port) ds)
    (k : PortKey) (w : W)
    (Hopen : k ∈ opened w) (Hunowned : k ∉ owned_keys (recorded w)) :
  k ∈ opened (run_applies h b ds w) /\ k ∉ owned_keys (recorded (run_applies h b ds w)).
Proof. by apply unowned_stays_open. Qed.


Section leak.
Context {W : Type} (h : handler FwdE W) (b : FirewalldBackend)
  (opened : W -> gset PortKey) (recorded : W -> list PortKey).
Context `{Hlaws : !FirewalldLaws h (zone b) opened recorded}.

End leak.


(** ** A zone and a state file in memory *)

Record Sim := MkSim { sim_ports : list PortSpec; sim_file : list PortKey }.

Definition sim_handler : handler FwdE Sim :=
  fun X req =>
    match req in FwdE Y return Sim -> Y * Sim with
    | Load => fun w => (OK (sim_file w), w)
    | Save ks => fun w => (OK tt, MkSim (sim_ports w) ks)
    | GetPorts _ => fun w => (OK (sim_ports w), w)
    | AddPort _ p => fun w =>
        if decide (key p ∈ key_set (sim_ports w)) then (Fail (errorf "ALREADY_ENABLED"), w)
        else if decide (0 <= Port p <= 65535) then (OK tt, MkSim (base p :: sim_ports w) (sim_file w))
        else (Fail (errorf "INVALID_PORT"), w)
    | RemovePort _ p => fun w =>
        if decide (key p ∈ key_set (sim_ports w))
        then (OK tt, MkSim (filter (fun q => key q <> key p) (sim_ports w)) (sim_file w))
        else (Fail (errorf "NOT_ENABLED"), w)
    end.

Definition sim_opened (w : Sim) : gset PortKey := key_set (sim_ports w).

Lemma sim_laws z : FirewalldLaws sim_handler z sim_opened sim_file.
Proof.
  split; intros w; [done|by eexists|by eexists|..]; unfold sim_opened; intros p; simpl.
  - intros [? _] Hk. rewrite decide_False, decide_True by (done || lia). by eexists.
  - intros Hk. rewrite decide_True by done. by eexists.
  - intros Hp. case_decide; [by eexists|]. rewrite decide_False by lia. by eexists.
  - intros _ Hk. rewrite decide_True by done. eexists. split_and!; [done| |done]. simpl. apply set_eq. intros k.
    rewrite elem_of_key_set_filter, elem_of_difference, elem_of_key_set, elem_of_singleton. naive_solver.
  - intros Hk. rewrite decide_False by done. by eexists.
Qed.

Definition sim_backend : FirewalldBackend := MkFirewalldBackend "public" true true.
Definition tcp (n : Z) : PortSpec := MkPortSpec n ProtocolTCP false.
Definition udp (n : Z) : PortSpec := MkPortSpec n ProtocolUDP false.

(** The zone has an operator's port 22 and bulb's 8080; 8443 is wanted instead. *)
Definition sim_start : Sim := MkSim [tcp 22; tcp 8080] [key (tcp 8080)].

Example Firewalld_Apply_sim :
  run sim_handler (Firewalld_Apply sim_backend [tcp 8443]) sim_start =
  (OK tt, MkSim [tcp 8443; tcp 22] [key (tcp 8443)]).
Proof. vm_compute. reflexivity. Qed.

Lemma schema_tcp l : Forall (fun n => 1 <= n <= 65535) l -> Forall schema_port (tcp <$> l).
Proof. intros Hl. rewrite Forall_fmap. eapply Forall_impl; [exact Hl|]. intros n Hn. split; [exact Hn|by left]. Qed.

Lemma schema_8443 : Forall schema_port [tcp 8443].
Proof. apply (schema_tcp [8443]). by apply Forall_singleton. Qed.

Lemma Firewalld_Apply_touches_only_owned_witness :
  exists tr, exec (Firewalld_Apply sim_backend [tcp 8443]) tr (OK tt) /\
    ((adds_of tr = [] /\ removes_of tr = []) \/ exists ks cur,
      [Ev Load (OK ks); Ev (GetPorts (zone sim_backend)) (OK cur)] `prefix_of` tr /\
      (forall p, p ∈ removes_of tr -> key p ∈ key_set (specsFromKeys ks) /\ key p ∈ key_set cur
         /\ key p ∉ key_set [tcp 8443]) /\
      (forall p, p ∈ adds_of tr -> key p ∈ key_set [tcp 8443] /\ key p ∉ key_set cur)).
Proof.
  destruct (run_exec sim_handler (Firewalld_Apply sim_backend [tcp 8443]) sim_start) as [tr Htr].
  exists tr. split; [exact Htr|].
  exact (Firewalld_Apply_touches_only_owned sim_backend [tcp 8443] tr (OK tt) Htr).
Defined.

Lemma Firewalld_Apply_saves_last_witness :
  exists tr, (saves_of tr = [] /\ is_ok (OK tt) = false) \/ exists ks cur,
    tr = [Ev Load (OK ks); Ev (GetPorts (zone sim_backend)) (OK cur)] ++
         (add_ok (zone sim_backend) <$> to_add [tcp 8443] cur) ++
         (remove_ok (zone sim_backend) <$> to_remove [tcp 8443] ks cur) ++
         [Ev (Save (to_save [tcp 8443] ks cur)) (OK tt)].
Proof.
  destruct (run_exec sim_handler (Firewalld_Apply sim_backend [tcp 8443]) sim_start) as [tr Htr].
  exists tr. exact (Firewalld_Apply_saves_last sim_backend [tcp 8443] tr (OK tt) Htr).
Defined.

Lemma Firewalld_Apply_refines_witness :
  exists w', run sim_handler (Firewalld_Apply sim_backend [tcp 8443]) sim_start = (OK tt, w') /\
    sim_opened w' = contract_opened (key_set [tcp 8443]) (sim_opened sim_start) (owned_keys (sim_file sim_start)) /\
    owned_keys (sim_file w') =
      contract_owned (key_set [tcp 8443]) (sim_opened sim_start) (owned_keys (sim_file sim_start)).
Proof.
  exact (Firewalld_Apply_refines sim_handler sim_backend sim_opened sim_file (sim_laws _)
           [tcp 8443] schema_8443 sim_start).
Defined.

Lemma Firewalld_Apply_idempotent_witness :
  let w1 := snd (run sim_handler (Firewalld_Apply sim_backend [tcp 8443]) sim_start) in
  let w2 := snd (run sim_handler (Firewalld_Apply sim_backend [tcp 8443]) w1) in
  (forall cur, key_set cur = sim_opened w1 ->
     to_add [tcp 8443] cur = [] /\ to_remove [tcp 8443] (sim_file w1) cur = []) /\
  sim_opened w2 = sim_opened w1 /\ owned_keys (sim_file w2) = owned_keys (sim_file w1).
Proof.
  exact (Firewalld_Apply_idempotent sim_handler sim_backend sim_opened sim_file (sim_laws _)
           [tcp 8443] schema_8443 sim_start).
Defined.

Lemma Firewalld_operator_port_stays_open_witness :
  key (tcp 22) ∈ sim_opened (run_applies sim_handler sim_backend [[tcp 22]; []] sim_start) /\
  key (tcp 22) ∉ owned_keys (sim_file (run_applies sim_handler sim_backend [[tcp 22]; []] sim_start)).
Proof.
  apply (Firewalld_operator_port_stays_open sim_handler sim_backend sim_opened sim_file (sim_laws _)
           [[tcp 22]; []]).
  - apply Forall_cons. split; [|by apply Forall_singleton].
    apply (schema_tcp [22]). by apply Forall_singleton.
  - apply (bool_decide_unpack _). vm_compute. exact I.
  - apply (bool_decide_unpack _). vm_compute. exact I.
Defined.

