(* ===== verification/Commands.v ===== *)
(** * Commands: the command runner of the firewall backends

    Models internal/firewall/command_runner.go. [CmdE] is the interface
    [CommandRunner]; [ExecRunner] implements it on top of [os/exec], whose
    combined output and error are the answer to a [CombinedOutput] request. *)
From S2P Require Import Prelude GoStrings Effects.
Open Scope Z_scope.

(** [Output] returns the text it collected along with the error. *)
Inductive CmdE : Type -> Type :=
| Run (name : string) (args : list string) : CmdE (result unit)
| RunInput (input name : string) (args : list string) : CmdE (result unit)
| Output (name : string) (args : list string) : CmdE (string * option error).

Inductive ExecE : Type -> Type :=
| CombinedOutput (name : string) (args : list string) (stdin : option string)
    : ExecE (string * option error).

Definition runCombined (input name : string) (args : list string)
    : prog ExecE (string * option error) :=
  let* (output, err) :=
    call (CombinedOutput name args (if bool_decide (input = "") then None else Some input)) in
  let trimmed := TrimSpace output in
  match err with
  | Some e =>
      Ret (trimmed, Some (MkError (name +:+ " [" +:+ Join args " " +:+ "]: " +:+ Error e +:+ ": "
                                     +:+ TrimSpace output) (IsNotFound e)))
  | None => Ret (trimmed, None)
  end.

Definition err_of (r : string * option error) : result unit :=
  match snd r with Some e => Fail e | None => OK tt end.

Definition ExecRunner_Run (name : string) (args : list string) : prog ExecE (result unit) :=
  let* r := runCombined "" name args in Ret (err_of r).
Definition ExecRunner_RunInput (input name : string) (args : list string)
    : prog ExecE (result unit) :=
  let* r := runCombined input name args in Ret (err_of r).
Definition ExecRunner_Output (name : string) (args : list string)
    : prog ExecE (string * option error) :=
  runCombined "" name args.

(** A backend whose runner is [ExecRunner{}], as its constructor makes it. *)
Definition ExecRunner (X : Type) (c : CmdE X) : prog ExecE X :=
  match c in CmdE Y return prog ExecE Y with
  | Run name args => ExecRunner_Run name args
  | RunInput input name args => ExecRunner_RunInput input name args
  | Output name args => ExecRunner_Output name args
  end.

(** [if err != nil { return fmt.Errorf(prefix + "%w", err) }] after [Output]. *)
Definition output_ok {E} (prefix : string) (p : prog E (string * option error))
    : prog E (result string) :=
  let* r := p in
  match snd r with
  | Some e => Ret (Fail (wrap prefix e))
  | None => Ret (OK (fst r))
  end.

Lemma exec_output_ok {E : Type -> Type} prefix (e : E (string * option error)%type) tr r :
  exec (output_ok prefix (call e)) tr r <->
  exists out err, tr = [Ev e (out, err)] /\
    r = match err with Some e => Fail (wrap prefix e) | None => OK out end.
Proof.
  unfold output_ok. rewrite exec_bind. setoid_rewrite exec_call. split.
  - intros ([out [err|]] & t1 & t2 & -> & -> & [-> ->]); eauto.
  - intros (out & err & -> & ->). eexists (out, err), [_], []. by destruct err.
Qed.

Lemma run_output_ok {E : Type -> Type} {S} (h : handler E S) prefix (e : E (string * option error)%type) s :
  run h (output_ok prefix (call e)) s =
  let '((out, err), s') := h _ e s in
  (match err with Some e => Fail (wrap prefix e) | None => OK out end, s').
Proof.
  unfold output_ok. rewrite run_bind, run_call. by destruct (h _ e s) as [[out [err|]] s'].
Qed.
