(* ===== verification/Iptables.v ===== *)
(** * Iptables: the iptables backend of the firewall agent

    Models internal/firewall/iptables.go, against the command-runner interface
    of Commands. The backend keeps its rules in a chain of its own, BULB-INPUT,
    which one jump from INPUT reaches, for IPv4 and IPv6. *)
From S2P Require Import Prelude GoStrings Effects ApiTypes FwPorts FwBackend Commands.
From Stdlib Require Import Ascii.
Open Scope Z_scope.

Definition iptablesChain : string := "BULB-INPUT".

(** [runner] says whether the interface field is non-nil. *)
Record IPTablesBackend := MkIPTablesBackend { runner : bool }.

Definition IPTables_Name (b : IPTablesBackend) : string := "iptables".

Definition binaries : list string := ["iptables"; "ip6tables"].

Definition newline : ascii := "010".

Definition IPTables_Validate (b : IPTablesBackend) : prog CmdE (result unit) :=
  if negb (runner b) then Ret (Fail (errorf "command runner is required"))
  else for_each binaries (fun binary =>
    let? _ := output_ok ("inspect " +:+ binary +:+ " INPUT chain: ")
                (call (Output binary ["-w"; "-S"; "INPUT"])) in
    Ret (OK tt)).

Definition isAlreadyExistsError (e : error) : bool :=
  Contains (Error e) "Chain already exists" || Contains (Error e) "already exists".

Definition countLine (raw want : string) : Z :=
  Z.of_nat (length (filter (fun line => TrimSpace line = want) (Split raw newline))).

(** The scan of one rule's words; a later -p or --dport overrides an earlier one. *)
Fixpoint scan_fields (fields : list string) (port : Z) (protocol : string) : Z * string :=
  match fields with
  | f :: ((g :: _) as rest) =>
      scan_fields rest (if bool_decide (f = "--dport") then parsePort g else port)
        (if bool_decide (f = "-p") then g else protocol)
  | _ => (port, protocol)
  end.

Definition parse_rule (line : string) : option PortSpec :=
  let line := TrimSpace line in
  if bool_decide (line = "") || bool_decide (line = "-N " +:+ iptablesChain) then None
  else
    let '(port, protocol) := scan_fields (Fields line) 0 "" in
    if port =? 0 then None else Some (MkPortSpec port (protocolFromString protocol) false).

Definition parseIPTablesChainRules (raw : string) : list PortSpec :=
  stableUniquePorts (omap parse_rule (Split (TrimSpace raw) newline)).

Definition ensureChain (b : IPTablesBackend) (binary : string) : prog CmdE (result unit) :=
  let* err := call (Run binary ["-w"; "-N"; iptablesChain]) in
  match err with
  | Fail e =>
      if negb (isAlreadyExistsError e)
      then Ret (Fail (wrap ("create " +:+ binary +:+ " chain: ") e))
      else Ret (OK tt)
  | OK _ => Ret (OK tt)
  end.

Definition jumpRule : string := "-A INPUT -j " +:+ iptablesChain.

Definition ensureJump (b : IPTablesBackend) (binary : string) : prog CmdE (result unit) :=
  let? out := output_ok ("list " +:+ binary +:+ " INPUT chain: ")
                (call (Output binary ["-w"; "-S"; "INPUT"])) in
  if countLine out jumpRule =? 1 then Ret (OK tt)
  else if 1 <? countLine out jumpRule then
    Ret (Fail (errorf (binary +:+ " INPUT chain has multiple " +:+ iptablesChain +:+ " jumps")))
  else
    let? _ := wrapped ("insert " +:+ binary +:+ " jump: ")
                (call (Run binary ["-w"; "-I"; "INPUT"; "1"; "-j"; iptablesChain])) in
    Ret (OK tt).

(** The rule a port has in the chain, as command arguments. *)
Definition rule_args (action : string) (port : PortSpec) : list string :=
  ["-w"; action; iptablesChain; "-p"; protocolString (PortProtocol port);
   "--dport"; fmt_d (Port port); "-j"; "ACCEPT"].

Definition reconcileOwnedRules (b : IPTablesBackend) (binary : string) (desired : list PortSpec)
    : prog CmdE (result unit) :=
  let? out := output_ok ("list " +:+ binary +:+ " owned chain: ")
                (call (Output binary ["-w"; "-S"; iptablesChain])) in
  let current := parseIPTablesChainRules out in
  let want := stableUniquePorts desired in
  let? _ := for_each (diffPorts current want) (fun port =>
    wrapped ("delete " +:+ binary +:+ " rule for " +:+ PortSpec_String port +:+ ": ")
      (call (Run binary (rule_args "-D" port)))) in
  let? _ := for_each (diffPorts want current) (fun port =>
    wrapped ("append " +:+ binary +:+ " rule for " +:+ PortSpec_String port +:+ ": ")
      (call (Run binary (rule_args "-A" port)))) in
  Ret (OK tt).

Definition IPTables_Apply (b : IPTablesBackend) (desired : list PortSpec) : prog CmdE (result unit) :=
  for_each binaries (fun binary =>
    let? _ := ensureChain b binary in
    let? _ := ensureJump b binary in
    let? _ := reconcileOwnedRules b binary desired in
    Ret (OK tt)).

#[export] Instance IPTablesBackend_Backend : Backend IPTablesBackend CmdE :=
  { Name := IPTables_Name; Validate := IPTables_Validate; Apply := IPTables_Apply }.

(** ** Reading a listing back *)

(** The line `iptables -S` prints for an accepting rule of the chain. *)
Definition rule_words (port : PortSpec) : list string :=
  let proto := protocolString (PortProtocol port) in
  ["-A"; iptablesChain; "-p"; proto; "-m"; proto; "--dport"; fmt_d (Port port); "-j"; "ACCEPT"].
Definition rule_line (port : PortSpec) : string := Join (rule_words port) " ".

Definition listing (rules : list PortSpec) : string :=
  Join (("-N " +:+ iptablesChain) :: (rule_line <$> rules)) (String newline "").

(** Case analysis on a schema port: its protocol becomes a literal. *)
Ltac schema_cases p Hp :=
  let n := fresh "n" in let a := fresh "a" in let Hn := fresh "Hn" in
  destruct p as [n ? a]; destruct Hp as [Hn [? | ?]]; simpl in *; subst.

Lemma rule_words_ok p : schema_port p -> Forall (fun w => no_space w /\ w <> "") (rule_words p).
Proof.
  intros Hp. assert (no_space (fmt_d (Port p))) by (apply digits_no_space, fmt_d_digits; destruct Hp; lia).
  pose proof (fmt_d_nonempty (Port p)). schema_cases p Hp; by repeat constructor.
Qed.

Lemma rule_line_no_newline p : schema_port p -> no_char newline (rule_line p).
Proof.
  intros Hp. assert (no_char newline (fmt_d (Port p)))
    by (apply digits_no_char; [done|]; apply fmt_d_digits; destruct Hp; lia).
  unfold rule_line, rule_words. schema_cases p Hp; rewrite !no_char_app; done.
Qed.

Lemma rule_line_trim p : TrimSpace (rule_line p) = rule_line p.
Proof.
  unfold rule_line, rule_words. simpl Join.
  change ("-A" +:+ ?x) with (String "-" ("A" +:+ x)).
  eapply (TrimSpace_id _ _ "T"%char); [done| |done].
  rewrite <-app_string_cons. do 20 (apply last_char_app || reflexivity).
Qed.

Lemma parse_rule_line p : schema_port p -> parse_rule (rule_line p) = Some (base p).
Proof.
  intros Hp. unfold parse_rule. rewrite rule_line_trim.
  rewrite !bool_decide_false by (unfold rule_line; done). simpl orb.
  unfold rule_line. rewrite Fields_Join by by apply rule_words_ok.
  assert (parsePort (fmt_d (Port p)) = Port p) as Hparse
    by (unfold parsePort; rewrite Sscanf_fmt_d; [done|destruct Hp; lia]).
  assert (forall s, fmt_d (Port p) = s -> bool_decide (s = "--dport") = false
    /\ bool_decide (s = "-p") = false) as Hne.
  { intros s <-. pose proof (fmt_d_digits (Port p) ltac:(destruct Hp; lia)) as Hd.
    split; apply bool_decide_false; intros Heq; by rewrite Heq in Hd. }
  destruct (Hne _ eq_refl) as [Hne1 Hne2].
  schema_cases p Hp; unfold rule_words; simpl scan_fields; rewrite Hne1, Hne2, Hparse; simpl;
    rewrite (proj2 (Z.eqb_neq n 0)) by lia; done.
Qed.

Lemma last_char_Join ws sep d :
  ws <> [] -> Forall (fun w => last_char w = Some d) ws -> last_char (Join ws sep) = Some d.
Proof.
  intros Hne Hws. induction Hws as [|w ws Hw Hws IH]; [done|]. destruct ws as [|w' ws]; [done|].
  change (Join (w :: w' :: ws) sep) with (w +:+ sep +:+ Join (w' :: ws) sep).
  do 2 apply last_char_app. by apply IH.
Qed.

Lemma rule_line_last p : last_char (rule_line p) = Some "T"%char.
Proof. unfold rule_line, rule_words. simpl Join. do 20 (apply last_char_app || reflexivity). Qed.

Lemma parse_listing rules : Forall schema_port rules ->
  parseIPTablesChainRules (listing rules) = stableUniquePorts (base <$> rules).
Proof.
  intros Hs. unfold parseIPTablesChainRules.
  assert (TrimSpace (listing rules) = listing rules) as ->.
  { assert (last_char (listing rules) = Some "T"%char) as Hl.
    { apply last_char_Join; [done|]. constructor; [done|]. rewrite Forall_fmap.
      apply Forall_true. intros p. apply rule_line_last. }
    unfold listing in *. destruct (rule_line <$> rules); by eapply TrimSpace_id. }
  unfold listing. rewrite Split_Join; [|done|].
  - csimpl. f_equal. induction Hs as [|p rules Hp Hs IH]; [done|]. csimpl.
    by rewrite parse_rule_line, IH.
  - constructor; [done|]. rewrite Forall_fmap. eapply Forall_impl; [done|].
    intros p. apply rule_line_no_newline.
Qed.

(** ** Properties *)

(** The listing of a chain reads back: printing the rules the way `iptables -S`
    does and parsing the text gives the same ports, once each and in order. *)
Theorem parse_listing_roundtrip (rules : list PortSpec) (Hschema : Forall schema_port rules) :
  key_set (parseIPTablesChainRules (listing rules)) = key_set rules /\
  NoDup (key <$> parseIPTablesChainRules (listing rules)) /\
  StronglySorted port_le (parseIPTablesChainRules (listing rules)).
Proof.
  rewrite parse_listing by done. split_and!; [|auto with ports..]. by autorewrite with ports.
Qed.

(** The commands that change a firewall and what the backend may do with them. *)
Definition owned_command (desired : list PortSpec) (args : list string) : Prop :=
  args = ["-w"; "-N"; iptablesChain] \/
  args = ["-w"; "-I"; "INPUT"; "1"; "-j"; iptablesChain] \/
  (exists p, args = rule_args "-D" p /\ key p ∉ key_set desired) \/
  (exists p, args = rule_args "-A" p /\ key p ∈ key_set desired).

(** The request just before was a listing of INPUT with no jump to the chain. *)
Definition listed_no_jump (name : string) (hist : list (event CmdE)) : Prop :=
  exists hist' out, hist = hist' ++ [Ev (Output name ["-w"; "-S"; "INPUT"]) (out, None)] /\
    countLine out jumpRule = 0.

Definition owned_request (desired : list PortSpec) X (e : CmdE X) (hist : list (event CmdE)) : Prop :=
  match e with
  | Run name args =>
      name ∈ binaries /\ owned_command desired args /\
      (args = ["-w"; "-I"; "INPUT"; "1"; "-j"; iptablesChain] -> listed_no_jump name hist)
  | RunInput _ _ _ => False
  | Output _ _ => True
  end.

Section owned.
Context (b : IPTablesBackend) (desired : list PortSpec) (binary : string).
Context (Hbin : binary ∈ binaries).

Abbreviation wp_owned p := (wp (owned_request desired) trace_step p).

Lemma wp_ensureChain hist : wp_owned (ensureChain b binary) (fun _ _ => True) hist.
Proof.
  simpl. split; [split_and!; [done|by left|done]|]. intros [[]|e] s' _; [done|].
  by destruct (isAlreadyExistsError e).
Qed.

Lemma countLine_nonneg raw want : 0 <= countLine raw want.
Proof. unfold countLine. lia. Qed.

Lemma wp_ensureJump hist : wp_owned (ensureJump b binary) (fun _ _ => True) hist.
Proof.
  unfold ensureJump. apply wp_bindr. unfold output_ok. apply wp_bind. simpl. split; [done|].
  intros [out [err|]] s' ->; [done|]. simpl.
  destruct (Z.eqb_spec (countLine out jumpRule) 1); [done|].
  destruct (Z.ltb_spec 1 (countLine out jumpRule)); [done|].
  simpl. split; [|by intros [[]|]].
  split_and!; [done|by right; left|]. intros _. exists hist, out. split; [done|].
  pose proof (countLine_nonneg out jumpRule). lia.
Qed.

(** Rule changes, whatever the requests before them were. *)
Lemma wp_rules action l pre hist (Q : result unit -> list (event CmdE) -> Prop) :
  (action = "-D" /\ (forall p, p ∈ l -> key p ∉ key_set desired) \/
   action = "-A" /\ (forall p, p ∈ l -> key p ∈ key_set desired)) ->
  (forall r hist', Q r hist') ->
  wp_owned (for_each l (fun p => wrapped (pre p) (call (Run binary (rule_args action p))))) Q hist.
Proof.
  intros Hl HQ. apply (wp_for_each _ _ l _ (fun l' _ => forall p, p ∈ l' -> p ∈ l)); [done|auto|].
  intros p l' s' Hin. simpl. split.
  - split_and!; [done| |].
    + destruct Hl as [[-> Hl]|[-> Hl]]; right; right; [left|right]; exists p; eauto using list_elem_of_here.
    + destruct Hl as [[-> _]|[-> _]]; done.
  - intros [[]|e] s'' _; simpl; [|apply HQ]. intros q Hq. apply Hin. by right.
Qed.

Lemma wp_reconcileOwnedRules hist : wp_owned (reconcileOwnedRules b binary desired) (fun _ _ => True) hist.
Proof.
  unfold reconcileOwnedRules. apply wp_bindr. unfold output_ok. apply wp_bind. simpl. split; [done|].
  intros [out [err|]] s' ->; [done|]. simpl. apply wp_bindr.
  apply wp_rules.
  - left. split; [done|]. intros p [_ Hp]%elem_of_diffPorts. by autorewrite with ports in Hp.
  - intros [a|e] hist'; [|done]. apply wp_bindr. apply wp_rules.
    + right. split; [done|]. intros p [Hp _]%elem_of_diffPorts. by autorewrite with ports in Hp.
    + by intros [[]|] ?.
Qed.
End owned.

(** Whatever the tools answer, [IPTablesBackend.Apply] stays inside its own rule
    space: the only commands that change a firewall create the BULB-INPUT chain,
    insert the jump to it, delete from that chain a rule for a port that is not
    desired, or append one for a desired port; and the jump is inserted only right
    after a listing of INPUT without it. *)
Theorem IPTables_Apply_owned (b : IPTablesBackend) (desired : list PortSpec)
    (tr : list (event CmdE)) (r : result unit)
    (Hexec : exec (IPTables_Apply b desired) tr r) :
  respects (owned_request desired) tr.
Proof.
  apply (wp_exec (owned_request desired) (IPTables_Apply b desired) (fun _ _ => True) tr r); [|done].
  unfold IPTables_Apply.
  apply (wp_for_each _ _ binaries _ (fun l _ => forall x, x ∈ l -> x ∈ binaries)); [done..|].
  intros binary l' hist Hin. assert (binary ∈ binaries) by set_solver.
  apply wp_bindr. eapply wp_mono, wp_ensureChain; [|done]. intros [a|e] h1 _; [|done].
  apply wp_bindr. eapply wp_mono, wp_ensureJump; [|done]. intros [a'|e] h2 _; [|done].
  apply wp_bindr. eapply wp_mono, wp_reconcileOwnedRules; [|done]. intros [a''|e] h3 _; [|done].
  simpl. set_solver.
Qed.

(** ** Refinement: the chain follows the desired set

    What the backend relies on, as the iptables manual has it. [chains w binary]
    reads off the world whether there is a BULB-INPUT chain, its rules, in order, and
    the number of jumps to it from INPUT. *)

Record Chain := MkChain { present : bool; rules : list PortSpec; jumps : nat }.

Fixpoint delete_first (k : PortKey) (l : list PortSpec) : list PortSpec :=
  match l with
  | [] => []
  | p :: l' => if decide (key p = k) then l' else p :: delete_first k l'
  end.

(** [w'] is [w] with the chain of one binary replaced. *)
Definition updated {W} (chains : W -> string -> Chain) (w w' : W) (binary : string) (c : Chain) : Prop :=
  forall other, chains w' other = if decide (other = binary) then c else chains w other.

Definition insert_args : list string := ["-w"; "-I"; "INPUT"; "1"; "-j"; iptablesChain].

(** The commands that need the chain, and what they do if it is there; -N makes it. *)
Class IptablesLaws {W} (h : handler CmdE W) (chains : W -> string -> Chain) : Prop := {
  new_chain_law : forall w binary, binary ∈ binaries -> present (chains w binary) = false -> exists w',
    h _ (Run binary ["-w"; "-N"; iptablesChain]) w = (OK tt, w') /\
    updated chains w w' binary (MkChain true [] (jumps (chains w binary)));
  chain_exists_law : forall w binary, binary ∈ binaries -> present (chains w binary) = true -> exists e,
    h _ (Run binary ["-w"; "-N"; iptablesChain]) w = (Fail e, w) /\ isAlreadyExistsError e = true;
  list_input_law : forall w binary, binary ∈ binaries -> exists out,
    h _ (Output binary ["-w"; "-S"; "INPUT"]) w = ((out, None), w) /\
    countLine out jumpRule = Z.of_nat (jumps (chains w binary));
  insert_jump_law : forall w binary, binary ∈ binaries -> present (chains w binary) = true -> exists w',
    h _ (Run binary insert_args) w = (OK tt, w') /\
    updated chains w w' binary (MkChain true (rules (chains w binary)) (S (jumps (chains w binary))));
  list_chain_law : forall w binary, binary ∈ binaries -> present (chains w binary) = true ->
    h _ (Output binary ["-w"; "-S"; iptablesChain]) w
      = ((listing (rules (chains w binary)), None), w);
  append_rule_law : forall w binary p, binary ∈ binaries -> schema_port p ->
    present (chains w binary) = true -> exists w',
    h _ (Run binary (rule_args "-A" p)) w = (OK tt, w') /\
    updated chains w w' binary
      (MkChain true (rules (chains w binary) ++ [base p]) (jumps (chains w binary)));
  delete_rule_law : forall w binary p, binary ∈ binaries -> schema_port p ->
    present (chains w binary) = true -> key p ∈ key_set (rules (chains w binary)) -> exists w',
    h _ (Run binary (rule_args "-D" p)) w = (OK tt, w') /\
    updated chains w w' binary
      (MkChain true (delete_first (key p) (rules (chains w binary))) (jumps (chains w binary)));
  no_rule_law : forall w binary p, binary ∈ binaries -> schema_port p ->
    key p ∉ key_set (rules (chains w binary)) -> exists e, h _ (Run binary (rule_args "-D" p)) w = (Fail e, w);
  no_chain_law : forall w binary args, binary ∈ binaries -> present (chains w binary) = false ->
    args = insert_args \/ (exists p, args = rule_args "-A" p \/ args = rule_args "-D" p) ->
    exists e, h _ (Run binary args) w = (Fail e, w);
  list_no_chain_law : forall w binary, binary ∈ binaries -> present (chains w binary) = false -> exists out e,
    h _ (Output binary ["-w"; "-S"; iptablesChain]) w = ((out, Some e), w)
}.

(** A chain as the backend keeps it; none has no rules and no jumps to it. *)
Definition chain_ok (c : Chain) : Prop :=
  Forall schema_port (rules c) /\ NoDup (key <$> rules c) /\
  (present c = false -> rules c = [] /\ jumps c = 0%nat).

Lemma delete_first_key_set k l : NoDup (key <$> l) -> key_set (delete_first k l) = key_set l ∖ {[k]}.
Proof.
  induction l as [|p l IH]; simpl; [set_solver|]. intros [Hp Hl]%NoDup_cons.
  assert (key p ∉ key_set l) as Hp'.
  { intros (q & ? & Hq)%elem_of_key_set. apply Hp, list_elem_of_fmap. eauto. }
  rewrite key_set_cons. case_decide as Hk; [subst k|rewrite key_set_cons, IH by done];
    apply set_eq; intros k'; rewrite ?elem_of_difference, ?elem_of_union, ?elem_of_singleton,
    ?elem_of_difference, ?elem_of_singleton; naive_solver.
Qed.

Lemma elem_of_delete_first k l p : p ∈ delete_first k l -> p ∈ l.
Proof.
  induction l as [|q l IH]; simpl; [done|]. case_decide; [by right|].
  intros [->|?]%elem_of_cons; [by left|right; auto].
Qed.

Lemma delete_first_ok k c n : chain_ok c -> chain_ok (MkChain true (delete_first k (rules c)) n).
Proof.
  destruct c as [pr l j]. intros (Hs & Hn & _). split_and!; simpl in *; [| |done].
  - rewrite Forall_forall in *. intros p Hp%elem_of_delete_first. auto.
  - clear Hs. induction l as [|p l IH]; simpl; [done|]. apply NoDup_cons in Hn as [Hp Hl].
    case_decide; [done|]. csimpl. apply NoDup_cons. split; [|auto].
    intros (q & ? & Hq%elem_of_delete_first)%list_elem_of_fmap. apply Hp, list_elem_of_fmap. eauto.
Qed.

Lemma append_ok p c n : chain_ok c -> schema_port p -> key p ∉ key_set (rules c) ->
  chain_ok (MkChain true (rules c ++ [base p]) n).
Proof.
  intros (Hs & Hn & _) Hp Hk. split_and!; simpl; [| |done].
  - apply Forall_app. split; [done|]. apply Forall_singleton. destruct Hp. by split.
  - rewrite fmap_app. apply NoDup_app. split_and!; [done| |apply NoDup_singleton].
    intros k (q & -> & Hq)%list_elem_of_fmap. csimpl. rewrite list_elem_of_singleton.
    change (key (base p)) with (key p). intros Heq. apply Hk, elem_of_key_set. eauto.
Qed.

Section convergence.
Context {W : Type} (h : handler CmdE W) (chains : W -> string -> Chain) (b : IPTablesBackend).
Context `{Hlaws : !IptablesLaws h chains}.
Context (binary : string) (Hbin : binary ∈ binaries).

(** [w'] differs from [w] in the chain of [binary] only. *)
Definition only_here (w w' : W) : Prop := forall other, other <> binary -> chains w' other = chains w other.

Lemma only_here_trans w1 w2 w3 : only_here w1 w2 -> only_here w2 w3 -> only_here w1 w3.
Proof. intros H1 H2 other Hne. by rewrite H2, H1. Qed.

Lemma updated_here w w' c : updated chains w w' binary c -> chains w' binary = c /\ only_here w w'.
Proof.
  intros H. split; [by rewrite H, decide_True|]. intros other Hne. by rewrite H, decide_False.
Qed.

Lemma run_ensureChain w : chain_ok (chains w binary) -> exists w',
  run h (ensureChain b binary) w = (OK tt, w') /\
  chains w' binary = MkChain true (rules (chains w binary)) (jumps (chains w binary)) /\ only_here w w'.
Proof.
  intros (_ & _ & Hno). unfold ensureChain. rewrite run_bind, run_call.
  destruct (present (chains w binary)) eqn:Hp.
  - destruct (chain_exists_law w binary Hbin Hp) as (e & -> & He). rewrite He. exists w.
    split_and!; [done| |by intros ??]. rewrite <-Hp. by destruct (chains w binary).
  - destruct (new_chain_law w binary Hbin Hp) as (w' & -> & [Hc Ho]%updated_here). exists w'.
    split_and!; [done| |done]. by rewrite Hc, (proj1 (Hno eq_refl)).
Qed.

Lemma run_ensureJump w : present (chains w binary) = true -> (jumps (chains w binary) <= 1)%nat -> exists w',
  run h (ensureJump b binary) w = (OK tt, w') /\
  chains w' binary = MkChain true (rules (chains w binary)) 1%nat /\ only_here w w'.
Proof.
  intros Hp Hj. destruct (list_input_law w binary Hbin) as (out & Hh & Hc).
  unfold ensureJump. rewrite run_bindr, run_output_ok, Hh. rewrite Hc.
  destruct (Z.eqb_spec (Z.of_nat (jumps (chains w binary))) 1) as [H1|H1].
  - exists w. split_and!; [done| |by intros ??].
    replace 1%nat with (jumps (chains w binary)) by lia. rewrite <-Hp. by destruct (chains w binary).
  - destruct (Z.ltb_spec 1 (Z.of_nat (jumps (chains w binary)))); [lia|].
    destruct (insert_jump_law w binary Hbin Hp) as (w' & Hi & [Hu ?]%updated_here).
    exists w'. rewrite run_bindr, run_wrapped, run_call. unfold insert_args in Hi. rewrite Hi. split_and!; [done| |done].
    rewrite Hu. f_equal. lia.
Qed.

Lemma run_deletes l pre w :
  present (chains w binary) = true -> chain_ok (chains w binary) -> NoDup (key <$> l) -> Forall schema_port l ->
  (forall p, p ∈ l -> key p ∈ key_set (rules (chains w binary))) -> exists w',
  run h (for_each l (fun p => wrapped (pre p) (call (Run binary (rule_args "-D" p))))) w = (OK tt, w') /\
  key_set (rules (chains w' binary)) = key_set (rules (chains w binary)) ∖ key_set l /\
  jumps (chains w' binary) = jumps (chains w binary) /\
  present (chains w' binary) = true /\ chain_ok (chains w' binary) /\ only_here w w'.
Proof.
  revert w. induction l as [|p l IH]; intros w Hpr Hok Hnd Hs Hl; cbn [for_each].
  { exists w. split_and!; [done| |done|done|done|done]. by rewrite key_set_nil, difference_empty_L. }
  apply NoDup_cons in Hnd as [Hp Hnd]. apply Forall_cons in Hs as [Hsp Hs].
  destruct (delete_rule_law w binary p Hbin Hsp Hpr) as (w1 & Hh & [Hu Ho]%updated_here);
    [apply Hl; by left|].
  destruct (IH w1) as (w2 & Hrun & Hk & Hj & Hpr2 & Hok2 & Ho2); rewrite ?Hu.
  - done.
  - by apply delete_first_ok.
  - done.
  - done.
  - intros q Hq. simpl. rewrite delete_first_key_set by apply Hok. apply elem_of_difference.
    split; [apply Hl; by right|]. rewrite elem_of_singleton. intros Heq. apply Hp.
    apply list_elem_of_fmap. eauto.
  - exists w2. rewrite run_bindr, run_wrapped, run_call, Hh. simpl. rewrite Hrun.
    split_and!; [done| |by rewrite Hj, Hu|done|done|by eapply only_here_trans].
    rewrite Hk, Hu, key_set_cons. simpl. rewrite delete_first_key_set by apply Hok. gset_tauto.
Qed.

Lemma run_appends l pre w :
  present (chains w binary) = true -> chain_ok (chains w binary) -> NoDup (key <$> l) -> Forall schema_port l ->
  (forall p, p ∈ l -> key p ∉ key_set (rules (chains w binary))) -> exists w',
  run h (for_each l (fun p => wrapped (pre p) (call (Run binary (rule_args "-A" p))))) w = (OK tt, w') /\
  key_set (rules (chains w' binary)) = key_set (rules (chains w binary)) ∪ key_set l /\
  jumps (chains w' binary) = jumps (chains w binary) /\
  present (chains w' binary) = true /\ chain_ok (chains w' binary) /\ only_here w w'.
Proof.
  revert w. induction l as [|p l IH]; intros w Hpr Hok Hnd Hs Hl; cbn [for_each].
  { exists w. split_and!; [done| |done|done|done|done]. by rewrite key_set_nil, union_empty_r_L. }
  apply NoDup_cons in Hnd as [Hp Hnd]. apply Forall_cons in Hs as [Hsp Hs].
  destruct (append_rule_law w binary p Hbin Hsp Hpr) as (w1 & Hh & [Hu Ho]%updated_here).
  assert (key_set (rules (chains w binary) ++ [base p]) = key_set (rules (chains w binary)) ∪ {[key p]})
    as Hkp by (rewrite key_set_app, key_set_cons; by rewrite key_set_nil, union_empty_r_L).
  destruct (IH w1) as (w2 & Hrun & Hk & Hj & Hpr2 & Hok2 & Ho2); rewrite ?Hu.
  - done.
  - apply append_ok; [done..|]. apply Hl. by left.
  - done.
  - done.
  - intros q Hq. simpl. rewrite Hkp, not_elem_of_union, not_elem_of_singleton.
    split; [apply Hl; by right|]. intros Heq. apply Hp, list_elem_of_fmap. eauto.
  - exists w2. rewrite run_bindr, run_wrapped, run_call, Hh. simpl. rewrite Hrun.
    split_and!; [done| |by rewrite Hj, Hu|done|done|by eapply only_here_trans].
    rewrite Hk, Hu, key_set_cons. simpl. rewrite Hkp. gset_tauto.
Qed.

Lemma run_reconcile desired w :
  present (chains w binary) = true -> chain_ok (chains w binary) -> Forall schema_port desired -> exists w',
  run h (reconcileOwnedRules b binary desired) w = (OK tt, w') /\
  key_set (rules (chains w' binary)) = key_set desired /\
  jumps (chains w' binary) = jumps (chains w binary) /\
  present (chains w' binary) = true /\ chain_ok (chains w' binary) /\ only_here w w'.
Proof.
  intros Hpr Hok Hd. unfold reconcileOwnedRules.
  rewrite run_bindr, run_output_ok, list_chain_law by done.
  set (cur := parseIPTablesChainRules _). set (want := stableUniquePorts desired).
  assert (key_set cur = key_set (rules (chains w binary))) as Hcur.
  { unfold cur. rewrite parse_listing by apply Hok. by autorewrite with ports. }
  rewrite run_bindr.
  destruct (run_deletes (diffPorts cur want)
    (fun port => "delete " +:+ binary +:+ " rule for " +:+ PortSpec_String port +:+ ": ") w)
    as (w1 & -> & Hk1 & Hj1 & Hp1 & Hok1 & Ho1).
  { done. } { done. } { apply stableUniquePorts_NoDup. }
  { apply schema_port_diff. unfold cur. rewrite parse_listing by apply Hok.
    apply schema_port_stable. rewrite Forall_fmap. apply Hok. }
  { intros p [Hp _]%elem_of_diffPorts. by rewrite <-Hcur. }
  rewrite run_bindr.
  destruct (run_appends (diffPorts want cur)
    (fun port => "append " +:+ binary +:+ " rule for " +:+ PortSpec_String port +:+ ": ") w1)
    as (w2 & -> & Hk2 & Hj2 & Hp2 & Hok2 & Ho2).
  { done. } { done. } { apply stableUniquePorts_NoDup. } { by apply schema_port_diff, schema_port_stable. }
  { intros p [_ Hp]%elem_of_diffPorts. rewrite Hk1, <-Hcur, elem_of_difference. tauto. }
  exists w2. split_and!; [done| |by rewrite Hj2|done|done|by eapply only_here_trans].
  rewrite Hk2, Hk1, <-Hcur. unfold want. autorewrite with ports. gset_tauto.
Qed.

Lemma run_binary desired w :
  chain_ok (chains w binary) -> (jumps (chains w binary) <= 1)%nat -> Forall schema_port desired ->
  exists w',
  run h (let? _ := ensureChain b binary in let? _ := ensureJump b binary in
         let? _ := reconcileOwnedRules b binary desired in Ret (OK tt)) w = (OK tt, w') /\
  key_set (rules (chains w' binary)) = key_set desired /\ jumps (chains w' binary) = 1%nat /\
  present (chains w' binary) = true /\ chain_ok (chains w' binary) /\ only_here w w'.
Proof.
  intros Hok Hj Hd. destruct (run_ensureChain w Hok) as (w1 & H1 & Hc1 & Ho1).
  destruct (run_ensureJump w1) as (w2 & H2 & Hc2 & Ho2); [by rewrite Hc1..|].
  destruct (run_reconcile desired w2) as (w3 & H3 & Hk & Hj3 & Hp3 & Hok3 & Ho3); [by rewrite Hc2|..|done|].
  { rewrite Hc2, Hc1. split_and!; [apply Hok|apply Hok|done]. }
  exists w3. rewrite run_bindr, H1, run_bindr, H2, run_bindr, H3.
  split_and!; [done|done|by rewrite Hj3, Hc2|done|done|].
  eapply only_here_trans, only_here_trans; done.
Qed.
End convergence.

Lemma IPTables_Apply_implements {W} (h : handler CmdE W) (chains : W -> string -> Chain)
    (Hlaws : IptablesLaws h chains) (b : IPTablesBackend) (desired : list PortSpec) (w : W)
    (Hdesired : Forall schema_port desired)
    (Hok : forall binary, binary ∈ binaries ->
       chain_ok (chains w binary) /\ (jumps (chains w binary) <= 1)%nat) :
  exists w', run h (IPTables_Apply b desired) w = (OK tt, w') /\
    forall binary, binary ∈ binaries ->
      present (chains w' binary) = true /\ key_set (rules (chains w' binary)) = key_set desired /\
      jumps (chains w' binary) = 1%nat /\ chain_ok (chains w' binary).
Proof.
  assert ("iptables" ∈ binaries /\ "ip6tables" ∈ binaries) as [Hb4 Hb6]
    by (split; apply (bool_decide_unpack _); exact I).
  destruct (Hok _ Hb4) as [Hok4 Hj4]. destruct (Hok _ Hb6) as [Hok6 Hj6].
  destruct (run_binary h chains b "iptables" Hb4 desired w) as (w1 & Hr1 & Hk1 & Hn1 & Hp1 & Hd1 & Ho1);
    [done..|].
  rewrite <-(Ho1 "ip6tables") in Hok6, Hj6 by done.
  destruct (run_binary h chains b "ip6tables" Hb6 desired w1) as (w2 & Hr2 & Hk2 & Hn2 & Hp2 & Hd2 & Ho2);
    [done..|].
  exists w2. unfold IPTables_Apply, binaries. cbn [for_each].
  rewrite run_bindr, Hr1, run_bindr, Hr2. split; [done|].
  intros binary [->|[->|[]%elem_of_nil]%elem_of_cons]%elem_of_cons; [|done].
  by rewrite Ho2.
Qed.

#[export] Instance IPTablesBackend_contract {W} (h : handler CmdE W) (chains : W -> string -> Chain)
    (b : IPTablesBackend) (binary : string) `{Hlaws : !IptablesLaws h chains} :
  binary ∈ binaries ->
  BackendContract b h
    (fun w => forall binary, binary ∈ binaries ->
       chain_ok (chains w binary) /\ (jumps (chains w binary) <= 1)%nat)
    (fun w => key_set (rules (chains w binary))) (fun w => key_set (rules (chains w binary))).
Proof.
  intros Hb. split. intros w desired Hok Hs.
  destruct (IPTables_Apply_implements h chains Hlaws b desired w Hs Hok) as (w' & Hrun & Hw').
  exists w'. destruct (Hw' binary Hb) as (_ & -> & _). split_and!; [done| |gset_tauto|done].
  intros other Ho. destruct (Hw' other Ho) as (_ & _ & -> & ?). auto.
Qed.

(** C24: With tools that do what the iptables manual says, [IPTablesBackend.Apply]
    brings both chains to the desired set, also on a host without a BULB-INPUT chain, where
    every command on it is refused until it is made: from chains without repeated rules and
    with at most one jump, or none at all, it succeeds, and each chain is there, accepts
    exactly the desired ports, each by one rule, and is reached by exactly one jump. *)
Theorem IPTables_Apply_converges {W} (h : handler CmdE W) (chains : W -> string -> Chain)
    (Hlaws : IptablesLaws h chains) (b : IPTablesBackend) (desired : list PortSpec) (w : W)
    (Hdesired : Forall schema_port desired)
    (Hok : forall binary, binary ∈ binaries ->
       chain_ok (chains w binary) /\ (jumps (chains w binary) <= 1)%nat) :
  exists w', run h (IPTables_Apply b desired) w = (OK tt, w') /\
    forall binary, binary ∈ binaries ->
      present (chains w' binary) = true /\ key_set (rules (chains w' binary)) = key_set desired /\
      NoDup (key <$> rules (chains w' binary)) /\ jumps (chains w' binary) = 1%nat.
Proof.
  destruct (IPTables_Apply_implements h chains Hlaws b desired w Hdesired Hok) as (w' & Hrun & Hw').
  exists w'. split; [done|]. intros binary Hb. destruct (Hw' binary Hb) as (? & ? & ? & (_ & ? & _)). done.
Qed.

(** ** Chains in memory *)

Definition set_chain (w : string -> Chain) (binary : string) (c : Chain) : string -> Chain :=
  fun other => if decide (other = binary) then c else w other.

Definition sim_run (name : string) (args : list string) (w : string -> Chain)
    : result unit * (string -> Chain) :=
  let c := w name in
  if bool_decide (args = ["-w"; "-N"; iptablesChain]) then
    if present c then (Fail (errorf "Chain already exists."), w)
    else (OK tt, set_chain w name (MkChain true [] (jumps c)))
  else if negb (present c) then (Fail (errorf "No chain/target/match by that name."), w)
  else if bool_decide (args = insert_args)
  then (OK tt, set_chain w name (MkChain true (rules c) (S (jumps c))))
  else
    match args with
    | [_; action; _; _; proto; _; n; _; _] =>
        let p := MkPortSpec (parsePort n) (protocolFromString proto) false in
        if bool_decide (action = "-A")
        then (OK tt, set_chain w name (MkChain true (rules c ++ [p]) (jumps c)))
        else if bool_decide (key p ∈ key_set (rules c))
        then (OK tt, set_chain w name (MkChain true (delete_first (key p) (rules c)) (jumps c)))
        else (Fail (errorf "Bad rule (does a matching rule exist in that chain?)."), w)
    | _ => (Fail (errorf "bad command"), w)
    end.

Definition sim_iptables : handler CmdE (string -> Chain) :=
  fun X req =>
    match req in CmdE Y return (string -> Chain) -> Y * (string -> Chain) with
    | Run name args => sim_run name args
    | RunInput _ _ _ => fun w => (Fail (errorf "no input expected"), w)
    | Output name args => fun w =>
        (if bool_decide (args = ["-w"; "-S"; "INPUT"])
         then (Join (replicate (jumps (w name)) jumpRule) (String newline ""), None)
         else if present (w name) then (listing (rules (w name)), None)
         else ("No chain/target/match by that name.", Some (errorf "exit status 1")), w)
    end.

Lemma schema_port_base p : schema_port p ->
  MkPortSpec (parsePort (fmt_d (Port p))) (protocolFromString (protocolString (PortProtocol p))) false
    = base p.
Proof.
  intros Hp. unfold parsePort. rewrite Sscanf_fmt_d by (destruct Hp; lia).
  schema_cases p Hp; done.
Qed.

Lemma countLine_jumps n :
  countLine (Join (replicate n jumpRule) (String newline "")) jumpRule = Z.of_nat n.
Proof.
  unfold countLine. destruct n as [|n]; [done|]. rewrite Split_Join; [|done|].
  - f_equal. generalize (S n). intros m. induction m as [|m IH]; [done|].
    rewrite replicate_S, filter_cons_True by done. simpl. by rewrite IH.
  - by apply Forall_replicate.
Qed.

Lemma sim_iptables_laws : IptablesLaws sim_iptables (fun w => w).
Proof.
  assert (forall (w : string -> Chain) name c, updated (fun w => w) w (set_chain w name c) name c) as Hset by done.
  split; intros w binary.
  - intros _ Hp. simpl. unfold sim_run. rewrite bool_decide_true, Hp by done. by eexists.
  - intros _ Hp. simpl. unfold sim_run. rewrite bool_decide_true, Hp by done. by eexists.
  - intros _. eexists. split; [done|]. apply countLine_jumps.
  - intros _ Hp. simpl. unfold sim_run. rewrite Hp. by eexists.
  - intros _ Hp. simpl. by rewrite Hp.
  - intros p _ Hs Hp. simpl. unfold sim_run. rewrite Hp. cbn -[parsePort].
    rewrite (schema_port_base p Hs). by eexists.
  - intros p _ Hs Hp Hin. simpl. unfold sim_run. rewrite Hp. cbn -[parsePort key_set].
    rewrite (schema_port_base p Hs), (bool_decide_true (key (base p) ∈ _)) by done. by eexists.
  - intros p _ Hs Hin. simpl. unfold sim_run. destruct (present (w binary)); cbn -[parsePort key_set]; [|by eexists].
    rewrite (schema_port_base p Hs), (bool_decide_false (key (base p) ∈ _)) by done. by eexists.
  - intros args _ Hp Hargs. simpl. unfold sim_run. rewrite Hp.
    destruct Hargs as [-> | (p & [-> | ->])]; cbn; by eexists.
  - intros _ Hp. simpl. rewrite Hp. by do 2 eexists.
Qed.

(** The IPv4 chain allows 8080; there is no IPv6 one yet. *)
Definition chains_start : string -> Chain :=
  fun binary => if decide (binary = "iptables")
    then MkChain true [MkPortSpec 8080 "TCP" false] 1 else MkChain false [] 0.

Definition ports_wanted : list PortSpec := [MkPortSpec 8443 "TCP" false; MkPortSpec 53 "UDP" true].

Lemma ports_wanted_schema : Forall schema_port ports_wanted.
Proof. repeat constructor; simpl; lia || (by left) || (by right). Qed.

Example IPTables_Apply_sim :
  let w := snd (run sim_iptables (IPTables_Apply (MkIPTablesBackend true) ports_wanted) chains_start) in
  (w "iptables", w "ip6tables") =
  (MkChain true [MkPortSpec 53 "UDP" false; MkPortSpec 8443 "TCP" false] 1,
   MkChain true [MkPortSpec 53 "UDP" false; MkPortSpec 8443 "TCP" false] 1).
Proof. vm_compute. reflexivity. Qed.

Lemma parse_listing_roundtrip_witness :
  key_set (parseIPTablesChainRules (listing ports_wanted)) = key_set ports_wanted /\
  NoDup (key <$> parseIPTablesChainRules (listing ports_wanted)) /\
  StronglySorted port_le (parseIPTablesChainRules (listing ports_wanted)).
Proof. exact (parse_listing_roundtrip ports_wanted ports_wanted_schema). Defined.

Lemma IPTables_Apply_owned_witness :
  exists tr, respects (owned_request ports_wanted) tr.
Proof.
  destruct (run_exec sim_iptables (IPTables_Apply (MkIPTablesBackend true) ports_wanted) chains_start)
    as [tr Htr].
  exists tr. exact (IPTables_Apply_owned (MkIPTablesBackend true) ports_wanted tr _ Htr).
Defined.

Lemma IPTables_Apply_converges_witness :
  exists w', run sim_iptables (IPTables_Apply (MkIPTablesBackend true) ports_wanted) chains_start
      = (OK tt, w') /\
    forall binary, binary ∈ binaries ->
      present (w' binary) = true /\ key_set (rules (w' binary)) = key_set ports_wanted /\
      NoDup (key <$> rules (w' binary)) /\ jumps (w' binary) = 1%nat.
Proof.
  apply (IPTables_Apply_converges sim_iptables (fun w => w) sim_iptables_laws
           (MkIPTablesBackend true) ports_wanted chains_start ports_wanted_schema).
  intros binary _. unfold chains_start. case_decide; (split; [split_and!|simpl; lia]); try done.
  - repeat constructor; simpl; lia || by left.
  - apply NoDup_singleton.
  - apply NoDup_nil_2.
Defined.
