(* ===== verification/NftScript.v ===== *)
(** * NftScript: what nft makes of a script

    nft is not part of the program, but the nftables backend talks to it in its own
    language. This file reads the part of that language that matters here, as nft(8)
    documents it: tables of the inet family that are declared, added, flushed and deleted,
    in them sets of ports with elements and base chains of the input hook with rules that
    accept the ports of a set. A declaration adds to what is there. A script the reader does
    not take is one about which nothing is said. *)
From S2P Require Import Prelude GoStrings.
From Stdlib Require Import Ascii.
Open Scope Z_scope.

(** ** Words and punctuation *)

Inductive Token := TWord (w : string) | TOpen | TClose | TEquals | TComma | TSep.

(** What a character that ends a word stands for; new lines and semicolons separate statements. *)
Definition punctuation (c : ascii) : option (list Token) :=
  if Ascii.eqb c "{" then Some [TOpen]
  else if Ascii.eqb c "}" then Some [TClose]
  else if Ascii.eqb c "=" then Some [TEquals]
  else if Ascii.eqb c "," then Some [TComma]
  else if Ascii.eqb c ";" || Ascii.eqb c "010" then Some [TSep]
  else if is_space c then Some []
  else None.

Definition end_word (w : string) : list Token := if bool_decide (w = "") then [] else [TWord w].

(** [w] is the word being read. *)
Fixpoint lex (w s : string) : list Token :=
  match s with
  | EmptyString => end_word w
  | String c s' =>
      match punctuation c with
      | Some ts => end_word w ++ ts ++ lex "" s'
      | None => lex (w +:+ String c "") s'
      end
  end.

(** ** Commands *)

(** The rule "tcp dport @ports accept". *)
Inductive Rule := AcceptIn (proto set : string).

(** A chain is hooked if its declaration says "type filter hook input priority 0". *)
Inductive Block :=
| SetBlock (name : string) (elements : list Z)
| ChainBlock (name : string) (hooked : bool) (rules : list Rule).

Inductive Command :=
| AddTable (name : string) (blocks : list Block)
| FlushTable (name : string)
| DeleteTable (name : string).

Fixpoint skip (ts : list Token) : list Token :=
  match ts with TSep :: ts' => skip ts' | _ => ts end.

Definition read_port (w : string) : option Z :=
  n ← ParseInt w 32; if (0 <=? n) && (n <? 2 ^ 16) then Some n else None.

(** The elements of a set, after the opening brace; there is at least one. *)
Fixpoint read_elements (ts : list Token) : option (list Z * list Token) :=
  match ts with
  | TWord w :: TClose :: ts' => n ← read_port w; Some ([n], ts')
  | TWord w :: TComma :: ts' => n ← read_port w; '(ns, r) ← read_elements ts'; Some (n :: ns, r)
  | _ => None
  end.

Definition read_rule (proto dport set accept : string) : option Rule :=
  match set with
  | String "@" set =>
      if bool_decide (proto ∈ ["tcp"; "udp"]) && bool_decide (dport = "dport") && bool_decide (accept = "accept")
      then Some (AcceptIn proto set) else None
  | _ => None
  end.

Definition is_input_hook (ws : list string) : bool :=
  bool_decide (ws = ["type"; "filter"; "hook"; "input"; "priority"; "0"]).

(** The body of a chain, up to the closing brace. *)
Fixpoint read_chain (ts : list Token) : option (bool * list Rule * list Token) :=
  match ts with
  | TSep :: ts' => read_chain ts'
  | TClose :: ts' => Some (false, [], ts')
  | TWord a :: TWord b :: TWord c :: TWord d :: TSep :: ts' =>
      rule ← read_rule a b c d; '(hooked, rules, r) ← read_chain ts'; Some (hooked, rule :: rules, r)
  | TWord a :: TWord b :: TWord c :: TWord d :: TWord e :: TWord f :: TSep :: ts' =>
      if is_input_hook [a; b; c; d; e; f] then '(_, rules, r) ← read_chain ts'; Some (true, rules, r) else None
  | _ => None
  end.

(** The body of a set, up to the closing brace. *)
Definition read_set (ts : list Token) : option (list Z * list Token) :=
  match skip ts with
  | TWord ty :: TWord inet_service :: TSep :: ts' =>
      if bool_decide (ty = "type") && bool_decide (inet_service = "inet_service") then
        match skip ts' with
        | TClose :: r => Some ([], r)
        | TWord elements :: TEquals :: TOpen :: ts'' =>
            if bool_decide (elements = "elements") then
              '(ns, r) ← read_elements ts'';
              match r with
              | TSep :: r' => match skip r' with TClose :: r'' => Some (ns, r'') | _ => None end
              | _ => None
              end
            else None
        | _ => None
        end
      else None
  | _ => None
  end.

(** The sets and chains of a table, up to the closing brace. Every round takes a token, so
    that [fuel] need not be more than the number of tokens. *)
Fixpoint read_blocks (fuel : nat) (ts : list Token) : option (list Block * list Token) :=
  match fuel with
  | O => None
  | S fuel =>
      match ts with
      | TSep :: ts' => read_blocks fuel ts'
      | TClose :: ts' => Some ([], ts')
      | TWord kind :: TWord name :: TOpen :: ts' =>
          '(block, r) ←
            (if bool_decide (kind = "set") then '(ns, r) ← read_set ts'; Some (SetBlock name ns, r)
             else if bool_decide (kind = "chain") then
               '(hooked, rules, r) ← read_chain ts'; Some (ChainBlock name hooked rules, r)
             else None);
          match r with
          | TSep :: r' => '(blocks, r'') ← read_blocks fuel r'; Some (block :: blocks, r'')
          | _ => None
          end
      | _ => None
      end
  end.

(** The commands of a script, with fuel as before. *)
Fixpoint read_commands (fuel : nat) (ts : list Token) : option (list Command) :=
  match fuel with
  | O => match ts with [] => Some [] | _ => None end
  | S fuel =>
      match ts with
      | [] => Some []
      | TSep :: ts' => read_commands fuel ts'
      | TWord table :: TWord inet :: TWord name :: TOpen :: ts' =>
          if bool_decide (table = "table") && bool_decide (inet = "inet") then
            '(blocks, r) ← read_blocks (length ts') ts';
            match r with
            | TSep :: r' => cmds ← read_commands fuel r'; Some (AddTable name blocks :: cmds)
            | _ => None
            end
          else None
      | TWord verb :: TWord table :: TWord inet :: TWord name :: TSep :: ts' =>
          if bool_decide (table = "table") && bool_decide (inet = "inet") then
            cmd ← (if bool_decide (verb = "add") then Some (AddTable name [])
                   else if bool_decide (verb = "flush") then Some (FlushTable name)
                   else if bool_decide (verb = "delete") then Some (DeleteTable name)
                   else None);
            cmds ← read_commands fuel ts'; Some (cmd :: cmds)
          else None
      | _ => None
      end
  end.

Definition read_script (s : string) : option (list Command) :=
  let ts := lex "" s in read_commands (length ts) ts.

(** ** What the commands do *)

Record Table := MkTable {
  table_sets : gmap string (gset Z);
  table_chains : gmap string (bool * list Rule)
}.

Definition empty_table : Table := MkTable ∅ ∅.
Definition Ruleset : Type := gmap string Table.

(** A set gets elements, a chain rules, behind those it has. A rule needs its set, and a
    chain that is not hooked cannot become it. *)
Definition add_block (t : Table) (b : Block) : option Table :=
  match b with
  | SetBlock name ns =>
      Some (MkTable (<[name := default ∅ (table_sets t !! name) ∪ list_to_set ns]> (table_sets t)) (table_chains t))
  | ChainBlock name hooked rules =>
      if forallb (fun r => match r with AcceptIn _ set => bool_decide (is_Some (table_sets t !! set)) end) rules then
        match table_chains t !! name with
        | None => Some (MkTable (table_sets t) (<[name := (hooked, rules)]> (table_chains t)))
        | Some (was, old) =>
            if hooked && negb was then None
            else Some (MkTable (table_sets t) (<[name := (was, old ++ rules)]> (table_chains t)))
        end
      else None
  end.

Fixpoint add_blocks (t : Table) (bs : list Block) : option Table :=
  match bs with [] => Some t | b :: bs' => t' ← add_block t b; add_blocks t' bs' end.

Definition run_command (rs : Ruleset) (cmd : Command) : option Ruleset :=
  match cmd with
  | AddTable name bs =>
      t ← add_blocks (default empty_table (rs !! name)) bs; Some (<[name := t]> rs)
  | FlushTable name =>
      t ← rs !! name; Some (<[name := MkTable (table_sets t) ((fun c => (fst c, [])) <$> table_chains t)]> rs)
  | DeleteTable name => _ ← rs !! name; Some (delete name rs)
  end.

Fixpoint run_commands (rs : Ruleset) (cmds : list Command) : option Ruleset :=
  match cmds with [] => Some rs | c :: cmds' => rs' ← run_command rs c; run_commands rs' cmds' end.

(** ** What a table lets in *)

Definition set_of (t : Table) (name : string) : gset Z := default ∅ (table_sets t !! name).

(** A packet to the port is accepted by a rule of a hooked chain. *)
Definition table_accepts (t : Table) (proto : string) (n : Z) : Prop :=
  exists chain rules set, table_chains t !! chain = Some (true, rules) /\
    AcceptIn proto set ∈ rules /\ n ∈ set_of t set.

(** ** Reading what a template makes *)

(** A text up to a character that ends a word can be read by itself. *)
Lemma lex_app w s x t : is_Some (punctuation x) -> lex w (s +:+ String x t) = lex w (s +:+ String x "") ++ lex "" t.
Proof.
  intros [ts Hx]. revert w. induction s as [|c s IH]; intros w.
  - simpl. rewrite Hx, app_nil_r. by rewrite <-app_assoc.
  - rewrite !app_string_cons. simpl. destruct (punctuation c); [|apply IH]. by rewrite IH, <-!app_assoc.
Qed.

Lemma lex_digits w d s : forallb_string is_digit d = true -> lex w (d +:+ s) = lex (w +:+ d) s.
Proof.
  revert w. induction d as [|c d IH]; intros w; [by rewrite app_string_nil_r|].
  cbn [forallb_string]. rewrite andb_true_iff. intros [Hc Hd]. rewrite app_string_cons. cbn [lex].
  assert (punctuation c = None) as ->.
  { revert Hc. clear. by destruct c as [[] [] [] [] [] [] [] []]. }
  by rewrite IH, app_string_assoc.
Qed.

Lemma lex_port n s : 0 <= n -> lex "" (fmt_d n +:+ String " " s) = TWord (fmt_d n) :: lex "" s.
Proof.
  intros Hn. rewrite lex_digits by by apply fmt_d_digits. cbn. unfold end_word.
  by rewrite bool_decide_eq_false_2 by apply fmt_d_nonempty.
Qed.

(** The tokens of a list of ports. *)
Fixpoint port_tokens (ports : list Z) : list Token :=
  match ports with
  | [] => []
  | [n] => [TWord (fmt_d n)]
  | n :: ports' => TWord (fmt_d n) :: TComma :: port_tokens ports'
  end.

Lemma lex_ports ports s : Forall (fun n => 0 <= n < 2 ^ 16) ports ->
  lex "" (Join (fmt_d <$> ports) ", " +:+ String " " s) = port_tokens ports ++ lex "" s.
Proof.
  induction 1 as [|n ports Hn Hp IH]; [done|]. destruct ports as [|m ports].
  { simpl Join. rewrite lex_port by lia. done. }
  change (Join (fmt_d <$> n :: m :: ports) ", ") with (fmt_d n +:+ ", " +:+ Join (fmt_d <$> m :: ports) ", ").
  rewrite !app_string_assoc, lex_digits by (apply fmt_d_digits; lia).
  change (port_tokens (n :: m :: ports) ++ lex "" s)
    with (TWord (fmt_d n) :: TComma :: (port_tokens (m :: ports) ++ lex "" s)).
  rewrite <-IH. generalize (Join (fmt_d <$> m :: ports) ", " +:+ String " " s). intros rest. simpl.
  unfold end_word. by rewrite bool_decide_eq_false_2 by apply fmt_d_nonempty.
Qed.

Lemma read_port_fmt_d n : 0 <= n < 2 ^ 16 -> read_port (fmt_d n) = Some n.
Proof.
  intros Hn. unfold read_port. rewrite ParseInt_fmt_d; [|lia|].
  - simpl. rewrite (proj2 (Z.leb_le _ _)), (proj2 (Z.ltb_lt _ _)) by lia. done.
  - apply in_bits_true. change (2 ^ (32 - 1)) with 2147483648. change (2 ^ 16) with 65536 in Hn. lia.
Qed.

Lemma read_port_tokens ports r : ports <> [] -> Forall (fun n => 0 <= n < 2 ^ 16) ports ->
  read_elements (port_tokens ports ++ TClose :: r) = Some (ports, r).
Proof.
  intros Hne. induction 1 as [|n ports Hn Hp IH]; [done|]. destruct ports as [|m ports].
  { cbn -[read_port fmt_d]. by rewrite read_port_fmt_d. }
  change (port_tokens (n :: m :: ports)) with (TWord (fmt_d n) :: TComma :: port_tokens (m :: ports)).
  cbn -[read_port fmt_d port_tokens]. rewrite read_port_fmt_d by done. cbn -[port_tokens].
  by rewrite IH.
Qed.

(** The equations of the readers, one per kind of block. *)
Lemma read_set_ports ports r : ports <> [] -> Forall (fun n => 0 <= n < 2 ^ 16) ports ->
  read_set (TSep :: TWord "type" :: TWord "inet_service" :: TSep :: TWord "elements" :: TEquals :: TOpen ::
    (port_tokens ports ++ TClose :: TSep :: TClose :: r)) = Some (ports, r).
Proof.
  intros Hne Hp. unfold read_set. cbn [skip]. cbn -[read_elements]. by rewrite read_port_tokens.
Qed.

Lemma read_blocks_sep fuel ts : read_blocks (S fuel) (TSep :: ts) = read_blocks fuel ts.
Proof. done. Qed.

Lemma read_blocks_set fuel name ts ns r : read_set ts = Some (ns, TSep :: r) ->
  read_blocks (S fuel) (TWord "set" :: TWord name :: TOpen :: ts) =
    ('(blocks, r') ← read_blocks fuel r; Some (SetBlock name ns :: blocks, r')).
Proof. intros H. cbn [read_blocks]. by rewrite bool_decide_eq_true_2, H. Qed.

Lemma read_blocks_chain fuel name ts hooked rules r : read_chain ts = Some (hooked, rules, TSep :: r) ->
  read_blocks (S fuel) (TWord "chain" :: TWord name :: TOpen :: ts) =
    ('(blocks, r') ← read_blocks fuel r; Some (ChainBlock name hooked rules :: blocks, r')).
Proof. intros H. cbn [read_blocks]. by rewrite bool_decide_eq_false_2, bool_decide_eq_true_2, H. Qed.

Lemma read_commands_table fuel name ts blocks r : read_blocks (length ts) ts = Some (blocks, TSep :: r) ->
  read_commands (S fuel) (TWord "table" :: TWord "inet" :: TWord name :: TOpen :: ts) =
    (cmds ← read_commands fuel r; Some (AddTable name blocks :: cmds)).
Proof. intros H. cbn [read_commands]. by rewrite !bool_decide_eq_true_2, H. Qed.

Example read_some_commands :
  read_script "add table inet t
delete table inet t
table inet t { set s {
  type inet_service; elements = { 22, 80 } ;
} ;
}
" = Some [AddTable "t" []; DeleteTable "t"; AddTable "t" [SetBlock "s" [22; 80]]].
Proof. vm_compute. reflexivity. Qed.

(** ** Tables grow *)

Lemma set_of_insert sets chains name s other :
  set_of (MkTable (<[name := s]> sets) chains) other = if decide (other = name) then s else set_of (MkTable sets chains) other.
Proof.
  unfold set_of. simpl. case_decide as Hn; [subst; by rewrite lookup_insert_eq|by rewrite lookup_insert_ne].
Qed.

(** What is added to a table closes nothing. *)
Lemma add_block_accepts t b t' proto n : add_block t b = Some t' -> table_accepts t proto n -> table_accepts t' proto n.
Proof.
  intros Hb (chain & rules & set & Hc & Hr & Hn). destruct b as [name ns|name hooked rs]; simpl in Hb.
  - injection Hb as <-. exists chain, rules, set. split_and!; [done|done|]. destruct t as [sets chains].
    rewrite set_of_insert. case_decide as Heq; [|done]. subst. apply elem_of_union. by left.
  - destruct (forallb _ _); [|done]. destruct (decide (name = chain)) as [->|Hne].
    + rewrite Hc in Hb. rewrite andb_false_r in Hb. injection Hb as <-.
      exists chain, (rules ++ rs), set. split_and!; [by simpl; rewrite lookup_insert_eq|apply elem_of_app; by left|done].
    + exists chain, rules, set. destruct (table_chains t !! name) as [[was old]|];
        [destruct (hooked && negb was); [done|]|]; injection Hb as <-; split_and!; try done; simpl; by rewrite lookup_insert_ne.
Qed.

Lemma add_blocks_accepts t bs t' proto n : add_blocks t bs = Some t' -> table_accepts t proto n -> table_accepts t' proto n.
Proof.
  revert t. induction bs as [|b bs IH]; intros t; simpl; [by intros [= ->]|].
  destruct (add_block t b) as [t1|] eqn:Hb; [|done]. intros H Ha. eapply IH; [exact H|]. by eapply add_block_accepts.
Qed.
