(* ===== verification/Nftables.v ===== *)
(** * Nftables: the nftables backend of the firewall agent

    Models internal/firewall/nftables.go: the backend renders one ruleset text
    for its own table and feeds it to `nft -f -`. *)
From S2P Require Import Prelude GoStrings Effects ApiTypes FwPorts FwBackend Commands NftScript.
From Stdlib Require Import Ascii.
Open Scope Z_scope.

Definition nftTableName : string := "bulb_firewall_agent".
Definition nftChainName : string := "input".
Definition nftTCPSetName : string := "tcp_ports".
Definition nftUDPSetName : string := "udp_ports".

(** [runner] says whether the interface field is non-nil. *)
Record NFTablesBackend := MkNFTablesBackend { runner : bool }.

Definition NFTables_Name (b : NFTablesBackend) : string := "nftables".

(** The template with its two %s verbs filled in. *)
Definition nftRuleset (tcp udp : string) : string :=
  "table inet " +:+ nftTableName +:+ " {
	set " +:+ nftTCPSetName +:+ " {
		type inet_service
		elements = { " +:+ tcp +:+ " }
	}

	set " +:+ nftUDPSetName +:+ " {
		type inet_service
		elements = { " +:+ udp +:+ " }
	}

	chain " +:+ nftChainName +:+ " {
		type filter hook input priority 0;
		tcp dport @" +:+ nftTCPSetName +:+ " accept
		udp dport @" +:+ nftUDPSetName +:+ " accept
	}
}
".

Definition NFTables_Validate (b : NFTablesBackend) : prog CmdE (result unit) :=
  if negb (runner b) then Ret (Fail (errorf "command runner is required"))
  else
    let? _ := output_ok "list nftables tables: " (call (Output "nft" ["list"; "tables"])) in
    Ret (OK tt).

Definition isNFTNoSuchTable (e : error) : bool :=
  Contains (Error e) "No such file or directory" || Contains (Error e) "No such table".

(** The loop of [splitPortsByProtocol] over the unique ports. *)
Fixpoint split_loop (ports : list PortSpec) : list Z * list Z :=
  match ports with
  | [] => ([], [])
  | port :: ports' =>
      let '(tcp, udp) := split_loop ports' in
      if bool_decide (PortProtocol port = "UDP") then (tcp, Port port :: udp)
      else (Port port :: tcp, udp)
  end.

Definition splitPortsByProtocol (desired : list PortSpec) : list Z * list Z :=
  split_loop (stableUniquePorts desired).

Definition joinPorts (ports : list Z) : string := Join (fmt_d <$> ports) ", ".

(** What [Apply] does once the table has been inspected. *)
Definition load_ruleset (out : string) (desired : list PortSpec) : prog CmdE (result unit) :=
  if negb (bool_decide (TrimSpace out = "")) && negb (Contains out ("table inet " +:+ nftTableName +:+ " {"))
  then Ret (Fail (errorf ("unexpected nftables table output for " +:+ nftTableName)))
  else
    let '(tcpPorts, udpPorts) := splitPortsByProtocol desired in
    let ruleset := nftRuleset (joinPorts tcpPorts) (joinPorts udpPorts) in
    let? _ := wrapped "apply nftables ruleset: " (call (RunInput ruleset "nft" ["-f"; "-"])) in
    Ret (OK tt).

Definition NFTables_Apply (b : NFTablesBackend) (desired : list PortSpec) : prog CmdE (result unit) :=
  let* (out, err) := call (Output "nft" ["list"; "table"; "inet"; nftTableName]) in
  match err with
  | Some e =>
      if negb (isNFTNoSuchTable e) then Ret (Fail (wrap "inspect nftables table: " e))
      else load_ruleset out desired
  | None => load_ruleset out desired
  end.

#[export] Instance NFTablesBackend_Backend : Backend NFTablesBackend CmdE :=
  { Name := NFTables_Name; Validate := NFTables_Validate; Apply := NFTables_Apply }.

(** ** The rendered port sets *)

Definition tcp_of (desired : list PortSpec) : list Z := (splitPortsByProtocol desired).1.
Definition udp_of (desired : list PortSpec) : list Z := (splitPortsByProtocol desired).2.

Lemma split_loop_filter ports :
  split_loop ports =
  (Port <$> filter (fun p => PortProtocol p <> "UDP") ports,
   Port <$> filter (fun p => PortProtocol p = "UDP") ports).
Proof.
  induction ports as [|p ports IH]; [done|]. simpl. rewrite IH.
  case_bool_decide as Hp.
  - rewrite filter_cons_False, (filter_cons_True (fun p => PortProtocol p = "UDP")) by tauto. done.
  - rewrite filter_cons_True, (filter_cons_False (fun p => PortProtocol p = "UDP")) by tauto. done.
Qed.

Lemma schema_key p n : schema_protocol p ->
  (key p = MkPortKey n "tcp" <-> Port p = n /\ PortProtocol p <> "UDP") /\
  (key p = MkPortKey n "udp" <-> Port p = n /\ PortProtocol p = "UDP").
Proof.
  destruct p as [m pr a]. unfold schema_protocol, key. simpl. intros [-> | ->]; simpl;
    split; split; try (intros [= ->]); try (intros [-> ?]); done.
Qed.

Lemma stable_schema desired p :
  Forall schema_protocol desired -> p ∈ stableUniquePorts desired -> schema_protocol p.
Proof.
  rewrite Forall_forall. intros Hs (q & Hq & ->)%elem_of_stableUniquePorts. apply (Hs q Hq).
Qed.

Lemma elem_of_tcp desired n : Forall schema_protocol desired ->
  n ∈ tcp_of desired <-> MkPortKey n "tcp" ∈ key_set desired.
Proof.
  intros Hs. unfold tcp_of, splitPortsByProtocol. rewrite split_loop_filter. simpl.
  rewrite <-(stableUniquePorts_key_set desired), elem_of_key_set, list_elem_of_fmap.
  setoid_rewrite list_elem_of_filter. split.
  - intros (p & -> & Hne & Hp). exists p. split; [done|].
    apply schema_key; [by eapply stable_schema|done].
  - intros (p & Hp & Hk). apply schema_key in Hk as [<- ?]; [eauto|by eapply stable_schema].
Qed.

Lemma elem_of_udp desired n : Forall schema_protocol desired ->
  n ∈ udp_of desired <-> MkPortKey n "udp" ∈ key_set desired.
Proof.
  intros Hs. unfold udp_of, splitPortsByProtocol. rewrite split_loop_filter. simpl.
  rewrite <-(stableUniquePorts_key_set desired), elem_of_key_set, list_elem_of_fmap.
  setoid_rewrite list_elem_of_filter. split.
  - intros (p & -> & Hne & Hp). exists p. split; [done|].
    apply schema_key; [by eapply stable_schema|done].
  - intros (p & Hp & Hk). apply schema_key in Hk as [<- ?]; [eauto|by eapply stable_schema].
Qed.

(** ** Properties *)

(** Whatever nft answers, [NFTablesBackend.Apply] makes one change at most, one
    `nft -f -` with the ruleset of the desired ports, and only after a look at
    its table that found it missing, empty or under its own name; it succeeds
    exactly when that load does. *)
Theorem NFTables_Apply_exchange (b : NFTablesBackend) (desired : list PortSpec)
    (tr : list (event CmdE)) (r : result unit)
    (Hexec : exec (NFTables_Apply b desired) tr r) :
  exists out err,
    let look := Ev (Output "nft" ["list"; "table"; "inet"; nftTableName]) (out, err) in
    let load := RunInput (nftRuleset (joinPorts (tcp_of desired)) (joinPorts (udp_of desired)))
                  "nft" ["-f"; "-"] in
    (tr = [look] /\ is_ok r = false) \/
    ((TrimSpace out = "" \/ Contains out ("table inet " +:+ nftTableName +:+ " {") = true) /\
     (forall e, err = Some e -> isNFTNoSuchTable e = true) /\
     exists res, tr = [look; Ev load res] /\ r = wrap_result "apply nftables ruleset: " res).
Proof.
  unfold NFTables_Apply in Hexec. apply exec_bind in Hexec as ([out err] & t1 & t2 & -> & Hc & H).
  apply exec_call in Hc as ->. exists out, err.
  assert (exec (load_ruleset out desired) t2 r ->
    (t2 = [] /\ is_ok r = false) \/
    ((TrimSpace out = "" \/ Contains out ("table inet " +:+ nftTableName +:+ " {") = true) /\
     exists res, t2 = [Ev (RunInput (nftRuleset (joinPorts (tcp_of desired)) (joinPorts (udp_of desired)))
                  "nft" ["-f"; "-"]) res] /\ r = wrap_result "apply nftables ruleset: " res)) as Hload.
  { unfold load_ruleset. destruct (negb _ && negb _) eqn:Hchk; [by intros [-> ->]; left|].
    unfold tcp_of, udp_of. destruct (splitPortsByProtocol desired) as [tcp udp]. intros Hx. right. split.
    - apply andb_false_iff in Hchk as [Hb%negb_false_iff%bool_decide_eq_true|Hb%negb_false_iff]; auto.
    - rewrite exec_bindr in Hx. setoid_rewrite exec_wrapped in Hx. setoid_rewrite exec_call in Hx.
      destruct Hx as [(e & -> & res & -> & Hr)|([] & t3 & t4 & -> & (res & -> & Hr) & [-> ->])];
        exists res; by rewrite ?Hr. }
  destruct err as [e|]; [destruct (isNFTNoSuchTable e) eqn:He|].
  - simpl in H. apply Hload in H as [[-> ?]|(? & res & -> & ?)]; [by left|right].
    split_and!; [done| |by exists res]. by intros ? [= <-].
  - simpl in H. destruct H as [-> ->]. by left.
  - apply Hload in H as [[-> ?]|(? & res & -> & ?)]; [by left|right].
    split_and!; [done|done|by exists res].
Qed.

Definition answer (ev : event ExecE) : string * option error :=
  match ev with
  | Ev c x => match c in ExecE Y return Y -> string * option error with
              | CombinedOutput _ _ _ => fun y => y
              end x
  end.

(** C34: Through the real command runner the first [Apply] on a node fails: nft
    explains on standard error that the table does not exist, [runCombined]
    returns that text as the output of the failed command, and [Apply] takes any
    non-blank text without the table's header for a foreign table. It stops
    there: the table is never created. *)
Theorem NFTables_first_Apply_fails (b : NFTablesBackend) (desired : list PortSpec)
    (tr : list (event ExecE)) (r : result unit) (out : string) (e : error)
    (Hexec : exec (interp ExecRunner (NFTables_Apply b desired)) tr r)
    (Hmissing : head tr = Some (Ev (CombinedOutput "nft" ["list"; "table"; "inet"; nftTableName] None)
                                  (out, Some e)))
    (Htext : TrimSpace (TrimSpace out) <> "" /\
       Contains (TrimSpace out) ("table inet " +:+ nftTableName +:+ " {") = false) :
  is_ok r = false /\ length tr = 1%nat.
Proof.
  destruct Htext as [Hblank Hno]. unfold NFTables_Apply in Hexec.
  apply interp_bind, exec_bind in Hexec as ([o err] & t1 & t2 & -> & H1 & H2).
  simpl in H1. destruct H1 as ([o' err'] & t3 & -> & H1).
  assert (err' = Some e /\ o' = out) as [-> ->].
  { apply (f_equal (fun ev => from_option answer ("", None) ev)) in Hmissing.
    by injection Hmissing as -> ->. }
  simpl in H1. destruct H1 as [[= -> ->] ->].
  destruct (isNFTNoSuchTable _); simpl in H2; [|by destruct H2 as [-> ->]].
  unfold load_ruleset in H2. rewrite bool_decide_false, Hno in H2 by done. by destruct H2 as [-> ->].
Qed.

(** ** What the loads add up to *)

(** nft as it is documented: a table that is there can be listed under its name, and a script
    that [NftScript] can read and run is loaded and does what its commands do. [ruleset]
    reads the tables off the state [W] of the host. *)
Class NftLaws {W} (h : handler CmdE W) (ruleset : W -> Ruleset) : Prop := {
  nft_list_law : forall w, is_Some (ruleset w !! nftTableName) -> exists out,
    h _ (Output "nft" ["list"; "table"; "inet"; nftTableName]) w = ((out, None), w) /\
    Contains out ("table inet " +:+ nftTableName +:+ " {") = true;
  nft_load_law : forall w script cmds rs, read_script script = Some cmds ->
    run_commands (ruleset w) cmds = Some rs -> exists w',
    h _ (RunInput script "nft" ["-f"; "-"]) w = (OK tt, w') /\ ruleset w' = rs
}.

(** The commands of the script the backend writes. *)
Definition ruleset_commands (tcp udp : list Z) : list Command :=
  [AddTable nftTableName [SetBlock nftTCPSetName tcp; SetBlock nftUDPSetName udp;
     ChainBlock nftChainName true [AcceptIn "tcp" nftTCPSetName; AcceptIn "udp" nftUDPSetName]]].

Lemma lex_ruleset tcp udp : Forall (fun n => 0 <= n < 2 ^ 16) tcp -> Forall (fun n => 0 <= n < 2 ^ 16) udp ->
  lex "" (nftRuleset (joinPorts tcp) (joinPorts udp)) =
  [TWord "table"; TWord "inet"; TWord nftTableName; TOpen; TSep;
   TWord "set"; TWord nftTCPSetName; TOpen; TSep; TWord "type"; TWord "inet_service"; TSep;
   TWord "elements"; TEquals; TOpen] ++ port_tokens tcp ++
  [TClose; TSep; TClose; TSep; TSep;
   TWord "set"; TWord nftUDPSetName; TOpen; TSep; TWord "type"; TWord "inet_service"; TSep;
   TWord "elements"; TEquals; TOpen] ++ port_tokens udp ++
  [TClose; TSep; TClose; TSep; TSep; TWord "chain"; TWord nftChainName; TOpen; TSep;
   TWord "type"; TWord "filter"; TWord "hook"; TWord "input"; TWord "priority"; TWord "0"; TSep; TSep;
   TWord "tcp"; TWord "dport"; TWord ("@" +:+ nftTCPSetName); TWord "accept"; TSep;
   TWord "udp"; TWord "dport"; TWord ("@" +:+ nftUDPSetName); TWord "accept"; TSep; TClose; TSep; TClose; TSep].
Proof.
  intros Ht Hu. set (start := "table inet bulb_firewall_agent {
	set tcp_ports {
		type inet_service
		elements = {").
  set (between := "}
	}

	set udp_ports {
		type inet_service
		elements = {").
  set (finish := "}
	}

	chain input {
		type filter hook input priority 0;
		tcp dport @tcp_ports accept
		udp dport @udp_ports accept
	}
}
").
  assert (nftRuleset (joinPorts tcp) (joinPorts udp) =
    start +:+ String " " (joinPorts tcp +:+ String " " (between +:+ String " " (joinPorts udp +:+ String " " finish)))) as ->
    by done.
  rewrite lex_app by (by eexists). unfold joinPorts. rewrite lex_ports by done.
  rewrite (lex_app "" between) by (by eexists). rewrite lex_ports by done. done.
Qed.

Lemma read_ruleset tcp udp : tcp <> [] -> udp <> [] ->
  Forall (fun n => 0 <= n < 2 ^ 16) tcp -> Forall (fun n => 0 <= n < 2 ^ 16) udp ->
  read_script (nftRuleset (joinPorts tcp) (joinPorts udp)) = Some (ruleset_commands tcp udp).
Proof.
  intros Ht Hu Hpt Hpu. unfold read_script. rewrite lex_ruleset by done. cbn [app length].
  rewrite (read_commands_table _ _ _ [SetBlock nftTCPSetName tcp; SetBlock nftUDPSetName udp;
    ChainBlock nftChainName true [AcceptIn "tcp" nftTCPSetName; AcceptIn "udp" nftUDPSetName]] []);
    [reflexivity|]. cbn [length]. rewrite read_blocks_sep.
  erewrite read_blocks_set by by apply read_set_ports. rewrite read_blocks_sep.
  erewrite read_blocks_set by by apply read_set_ports. rewrite read_blocks_sep.
  erewrite read_blocks_chain by reflexivity. reflexivity.
Qed.

Definition valid_desired (desired : list PortSpec) : Prop :=
  Forall schema_protocol desired /\ Forall (fun p => 0 <= Port p < 2 ^ 16) desired /\
  tcp_of desired <> [] /\ udp_of desired <> [].

Lemma rendered_key desired k : Forall schema_protocol desired -> k ∈ key_set desired ->
  (exists n, n ∈ tcp_of desired /\ k = MkPortKey n "tcp") \/ (exists n, n ∈ udp_of desired /\ k = MkPortKey n "udp").
Proof.
  intros Hs Hk. pose proof Hk as (p & Hp & <-)%elem_of_key_set. setoid_rewrite elem_of_tcp; [|done].
  setoid_rewrite elem_of_udp; [|done]. pose proof Hs as Hs'. rewrite Forall_forall in Hs'.
  destruct (Hs' p Hp) as [Heq|Heq]; unfold key in *; rewrite Heq in *; eauto.
Qed.

Lemma rendered_range desired :
  Forall (fun p => 0 <= Port p < 2 ^ 16) desired -> Forall schema_protocol desired ->
  Forall (fun n => 0 <= n < 2 ^ 16) (tcp_of desired ++ udp_of desired).
Proof.
  rewrite !Forall_forall. intros Hr Hs n. rewrite elem_of_app, elem_of_tcp, elem_of_udp
    by by apply Forall_forall.
  intros [(p & Hp & Hk)%elem_of_key_set|(p & Hp & Hk)%elem_of_key_set];
    injection Hk as <- _; by apply Hr.
Qed.

(** The backend's table lets a port in. *)
Definition lets_in (rs : Ruleset) (k : PortKey) : Prop :=
  exists t, rs !! nftTableName = Some t /\ table_accepts t (key_Protocol k) (key_Port k).

(** The table is there, and its chain, if there is one, is hooked, as the backend makes it. *)
Definition table_ready (rs : Ruleset) : Prop :=
  exists t, rs !! nftTableName = Some t /\ forall rules, table_chains t !! nftChainName <> Some (false, rules).

(** What loading the backend's script adds up to. *)
Lemma run_ruleset rs tcp udp : table_ready rs -> exists rs',
  run_commands rs (ruleset_commands tcp udp) = Some rs' /\ table_ready rs' /\
  (forall k, lets_in rs k -> lets_in rs' k) /\
  (forall n, n ∈ tcp -> lets_in rs' (MkPortKey n "tcp")) /\ (forall n, n ∈ udp -> lets_in rs' (MkPortKey n "udp")).
Proof.
  intros (t & Ht & Hchain).
  set (bs := [SetBlock nftTCPSetName tcp; SetBlock nftUDPSetName udp;
    ChainBlock nftChainName true [AcceptIn "tcp" nftTCPSetName; AcceptIn "udp" nftUDPSetName]]).
  assert (exists t' rules, add_blocks t bs = Some t' /\ table_chains t' !! nftChainName = Some (true, rules) /\
    AcceptIn "tcp" nftTCPSetName ∈ rules /\ AcceptIn "udp" nftUDPSetName ∈ rules /\
    list_to_set tcp ⊆ set_of t' nftTCPSetName /\ list_to_set udp ⊆ set_of t' nftUDPSetName)
    as (t' & rules & Hadd & Hc & Hrt & Hru & Hst & Hsu).
  { subst bs. cbn [add_blocks add_block mbind option_bind table_sets table_chains forallb andb negb].
    rewrite (bool_decide_eq_true_2 (is_Some (_ !! nftTCPSetName)))
      by (rewrite lookup_insert_ne, lookup_insert_eq by done; by eexists).
    rewrite (bool_decide_eq_true_2 (is_Some (_ !! nftUDPSetName))) by (rewrite lookup_insert_eq; by eexists). cbn [add_blocks add_block mbind option_bind table_sets table_chains forallb andb negb].
    destruct (table_chains t !! nftChainName) as [[[] old]|] eqn:Hold; [| |]; cbn [add_blocks add_block mbind option_bind table_sets table_chains forallb andb negb].
    2: by destruct (Hchain old).
    all: do 2 eexists; split; [reflexivity|]; cbn [add_blocks add_block mbind option_bind table_sets table_chains forallb andb negb];
      rewrite lookup_insert_eq; split; [reflexivity|]; split_and!;
      try (rewrite ?elem_of_app, !elem_of_cons; tauto).
    all: rewrite !set_of_insert; repeat case_decide; done || apply union_subseteq_r. }
  exists (<[nftTableName := t']> rs). unfold lets_in, table_ready. setoid_rewrite lookup_insert_eq. split_and!.
  - unfold ruleset_commands. cbn [run_commands run_command]. rewrite Ht. change (default empty_table (Some t)) with t. fold bs. by rewrite Hadd.
  - exists t'. split; [done|]. intros r. by rewrite Hc.
  - intros k (t0 & Ht0 & Ha). assert (t0 = t) as -> by congruence. exists t'. split; [done|]. by eapply add_blocks_accepts.
  - intros n Hn. exists t'. split; [done|]. exists nftChainName, rules, nftTCPSetName.
    split_and!; [done..|]. by apply Hst, elem_of_list_to_set.
  - intros n Hn. exists t'. split; [done|]. exists nftChainName, rules, nftUDPSetName.
    split_and!; [done..|]. by apply Hsu, elem_of_list_to_set.
Qed.

Lemma run_NFTables_Apply {W} (h : handler CmdE W) ruleset (Hlaws : NftLaws h ruleset) b desired w :
  valid_desired desired -> table_ready (ruleset w) -> exists w',
  run h (NFTables_Apply b desired) w = (OK tt, w') /\ table_ready (ruleset w') /\
  (forall k, lets_in (ruleset w) k \/ k ∈ key_set desired -> lets_in (ruleset w') k).
Proof.
  intros (Hs & Hr & Ht & Hu) Hready. destruct (nft_list_law w) as (out & Hl & Hc).
  { destruct Hready as (t & -> & _). by eexists. }
  destruct (run_ruleset (ruleset w) (tcp_of desired) (udp_of desired) Hready) as (rs & Hrs & Hready' & Hk & Htcp & Hudp).
  pose proof (rendered_range desired Hr Hs) as [Hpt Hpu]%Forall_app.
  destruct (nft_load_law w _ _ rs (read_ruleset _ _ Ht Hu Hpt Hpu) Hrs) as (w' & Hload & <-).
  exists w'. split_and!; [|done|].
  - unfold NFTables_Apply. rewrite run_bind, run_call, Hl. unfold load_ruleset.
    rewrite Hc, andb_false_r. unfold tcp_of, udp_of in Hload.
    destruct (splitPortsByProtocol desired) as [tcp udp]. cbn [fst snd] in Hload.
    by rewrite run_bindr, run_wrapped, run_call, Hload.
  - intros k [?|[(n & ? & ->)|(n & ? & ->)]%(rendered_key _ _ Hs)]; auto.
Qed.

(** C35: The nftables backend opens ports and never closes one. nft being what its manual
    says, a declaration adds to the table that is there, and the ruleset the backend loads
    is nothing but declarations; so a port that leaves the desired set stays accepted after
    an [Apply] that reports success, like every other port the table let in before. *)
Theorem NFTables_Apply_never_closes {W} (h : handler CmdE W) (ruleset : W -> Ruleset)
    (Hlaws : NftLaws h ruleset) (b : NFTablesBackend) (before after : list PortSpec) (w : W)
    (Hready : table_ready (ruleset w)) (Hbefore : valid_desired before) (Hafter : valid_desired after) :
  exists w', run h (let? _ := NFTables_Apply b before in NFTables_Apply b after) w = (OK tt, w') /\
    forall k, lets_in (ruleset w) k \/ k ∈ key_set before \/ k ∈ key_set after -> lets_in (ruleset w') k.
Proof.
  destruct (run_NFTables_Apply h ruleset Hlaws b before w Hbefore Hready) as (w1 & H1 & Hready1 & Ha1).
  destruct (run_NFTables_Apply h ruleset Hlaws b after w1 Hafter Hready1) as (w2 & H2 & _ & Ha2).
  exists w2. rewrite run_bindr, H1. split; [done|]. intros k [?|[?|?]]; auto.
Qed.

(** ** Tables in memory *)

Definition sim_nft : handler CmdE Ruleset :=
  fun X req =>
    match req in CmdE Y return Ruleset -> Y * Ruleset with
    | Run _ _ => fun w => (Fail (errorf "no command expected"), w)
    | RunInput input _ _ => fun w =>
        match read_script input ≫= run_commands w with
        | Some w' => (OK tt, w')
        | None => (Fail (errorf "syntax error"), w)
        end
    | Output _ _ => fun w =>
        (match w !! nftTableName with
         | Some _ => ("table inet " +:+ nftTableName +:+ " {}", None)
         | None => ("Error: No such file or directory", Some (errorf "exit status 1"))
         end, w)
    end.

Lemma sim_nft_laws : NftLaws sim_nft (fun w => w).
Proof.
  split.
  - intros w [t Ht]. simpl. rewrite Ht. by eexists.
  - intros w script cmds rs Hread Hrun. simpl. rewrite Hread. simpl. rewrite Hrun. by eexists.
Qed.

(** The table as [nft add table] makes it. *)
Definition nft_start : Ruleset := {[ nftTableName := empty_table ]}.

Lemma nft_start_ready : table_ready nft_start.
Proof. exists empty_table. split; [done|]. by intros rules. Qed.

Definition ports_before : list PortSpec := [MkPortSpec 8443 "TCP" false; MkPortSpec 53 "UDP" true].
Definition ports_after : list PortSpec := [MkPortSpec 9000 "TCP" false; MkPortSpec 53 "UDP" true].

Lemma NFTables_Apply_exchange_witness :
  exists tr out err,
    let look := Ev (Output "nft" ["list"; "table"; "inet"; nftTableName]) (out, err) in
    let load := RunInput (nftRuleset "8443" "53") "nft" ["-f"; "-"] in
    (tr = [look] /\ is_ok (A := unit) (OK tt) = false) \/
    ((TrimSpace out = "" \/ Contains out ("table inet " +:+ nftTableName +:+ " {") = true) /\
     (forall e, err = Some e -> isNFTNoSuchTable e = true) /\
     exists res, tr = [look; Ev load res] /\ OK tt = wrap_result "apply nftables ruleset: " res).
Proof.
  destruct (run_exec sim_nft (NFTables_Apply (MkNFTablesBackend true) ports_before) nft_start) as [tr Htr].
  exists tr. exact (NFTables_Apply_exchange (MkNFTablesBackend true) ports_before tr _ Htr).
Defined.

(** Port 8443 is let in after a call that wants 9000 instead. *)
Lemma NFTables_Apply_never_closes_witness :
  exists w', run sim_nft (let? _ := NFTables_Apply (MkNFTablesBackend true) ports_before in
                          NFTables_Apply (MkNFTablesBackend true) ports_after) nft_start = (OK tt, w') /\
    lets_in w' (MkPortKey 8443 "tcp") /\ MkPortKey 8443 "tcp" ∉ key_set ports_after.
Proof.
  destruct (NFTables_Apply_never_closes sim_nft (fun w => w) sim_nft_laws
           (MkNFTablesBackend true) ports_before ports_after nft_start nft_start_ready) as (w' & Hrun & Hk).
  1, 2: split_and!; [repeat constructor; done..|repeat constructor; simpl; lia|done|done].
  exists w'. split; [exact Hrun|]. split; [|apply (bool_decide_unpack _); vm_compute; exact I].
  apply Hk. right. left. apply (bool_decide_unpack _). vm_compute. exact I.
Defined.

Definition no_table_text : string :=
  "Error: No such file or directory
list table inet bulb_firewall_agent".

Lemma NFTables_first_Apply_fails_witness :
  exists tr : list (event ExecE), is_ok (A := unit)
    (Fail (errorf ("unexpected nftables table output for " +:+ nftTableName))) = false /\
  length tr = 1%nat.
Proof.
  exists [Ev (CombinedOutput "nft" ["list"; "table"; "inet"; nftTableName] None)
        (no_table_text, Some (errorf "exit status 1"))].
  apply (NFTables_first_Apply_fails (MkNFTablesBackend true) ports_before
    [Ev (CombinedOutput "nft" ["list"; "table"; "inet"; nftTableName] None)
        (no_table_text, Some (errorf "exit status 1"))]
    (Fail (errorf ("unexpected nftables table output for " +:+ nftTableName)))
    no_table_text (errorf "exit status 1")).
  - eexists _, []. split; [reflexivity|]. vm_compute. done.
  - reflexivity.
  - split; [discriminate|reflexivity].
Defined.
