(* ===== verification/FwConfig.v ===== *)
(** * FwConfig: the configuration of the firewall agent

    Models internal/firewall/config.go: the defaults, the ConfigMap keys that
    override them, and the parser of the denied ports. *)
From S2P Require Import Prelude GoStrings Effects ApiTypes.
From Stdlib Require Import Ascii.
Open Scope Z_scope.

Definition defaultConfigNamespace : string := "bulb-system".
Definition defaultConfigMapName : string := "bulb-firewall-agent".
Definition defaultZone : string := "public".
Definition defaultStateFile : string := "/var/lib/bulb/firewall-agent-state.json".

Record AgentConfig := MkAgentConfig {
  cfg_Backend : string;
  cfg_Zone : string;
  cfg_StateFile : string;
  cfg_DeniedPorts : list Z;  (* int32 *)
  cfg_DryRun : bool
}.

Definition DefaultConfig : AgentConfig :=
  MkAgentConfig "firewalld" defaultZone defaultStateFile [22; 80; 443] false.

Inductive ConfigE : Type -> Type :=
| GetConfigMap (namespace name : string) : ConfigE (result str_map).

(** The loop of [parseDeniedPorts]. *)
Fixpoint parse_parts (parts : list string) : result (list Z) :=
  match parts with
  | [] => OK []
  | part :: parts' =>
      let part := TrimSpace part in
      if bool_decide (part = "") then parse_parts parts'
      else
        match ParseInt part 32 with
        | None => Fail (errorf ("invalid port " +:+ fmt_q part))
        | Some n =>
            if (n <? 1) || (65535 <? n) then Fail (errorf ("port " +:+ fmt_d n +:+ " out of range"))
            else let! ports := parse_parts parts' in OK (n :: ports)
        end
  end.

Definition parseDeniedPorts (raw : string) : result (list Z) := parse_parts (Split raw ","%char).

(** [if v := strings.TrimSpace(cm.Data[key]); v != "" { f(v) }] *)
Definition if_set {A} (data : str_map) (key : string) (f : string -> A) (otherwise : A) : A :=
  let v := TrimSpace (lookup_str data key) in
  if bool_decide (v = "") then otherwise else f v.

(** What [LoadConfig] makes of the data of the ConfigMap; like the Go function
    it returns the configuration built so far along with an error. *)
Definition config_of (data : str_map) : AgentConfig * option error :=
  let cfg := DefaultConfig in
  let backend := if_set data "backend" id (cfg_Backend cfg) in
  let zone := if_set data "zone" id (cfg_Zone cfg) in
  let stateFile := if_set data "stateFile" id (cfg_StateFile cfg) in
  let mk ports dryRun := MkAgentConfig backend zone stateFile ports dryRun in
  match if_set data "deniedPorts" parseDeniedPorts (OK (cfg_DeniedPorts cfg)) with
  | Fail e => (mk (cfg_DeniedPorts cfg) (cfg_DryRun cfg), Some (wrap "parse deniedPorts: " e))
  | OK ports =>
      match if_set data "dryRun" ParseBool (Some (cfg_DryRun cfg)) with
      | None =>
          (mk ports (cfg_DryRun cfg),
           Some (errorf ("parse dryRun: strconv.ParseBool: parsing "
                           +:+ fmt_q (TrimSpace (lookup_str data "dryRun")) +:+ ": invalid syntax")))
      | Some dryRun => (mk ports dryRun, None)
      end
  end.

Definition LoadConfig (namespace name : string) : prog ConfigE (AgentConfig * option error) :=
  let namespace := if bool_decide (namespace = "") then defaultConfigNamespace else namespace in
  let name := if bool_decide (name = "") then defaultConfigMapName else name in
  let* cm := call (GetConfigMap namespace name) in
  match cm with
  | Fail e =>
      Ret (DefaultConfig,
           Some (wrap ("get firewall-agent configmap " +:+ namespace +:+ "/" +:+ name +:+ ": ") e))
  | OK data => Ret (config_of data)
  end.

(** ** Properties *)

(** The parts of the setting that are not blank. *)
Definition port_parts (raw : string) : list string :=
  filter (fun part => part <> "") (TrimSpace <$> Split raw ","%char).

Definition port_number (part : string) (n : Z) : Prop :=
  ParseInt part 32 = Some n /\ 1 <= n <= 65535.

Lemma parse_parts_spec parts ports :
  parse_parts parts = OK ports <->
  Forall2 port_number (filter (fun part => part <> "") (TrimSpace <$> parts)) ports.
Proof.
  revert ports. induction parts as [|part parts IH]; intros ports.
  { csimpl. split; [by intros [= <-]|]. by inversion 1. }
  csimpl. case_bool_decide as Hb.
  { rewrite filter_cons_False by tauto. apply IH. }
  rewrite filter_cons_True by done. unfold port_number at 1.
  destruct (ParseInt (TrimSpace part) 32) as [n|] eqn:Hp.
  2: { split; [done|]. inversion 1 as [|? ? ? ? [? _]]. congruence. }
  destruct ((n <? 1) || (65535 <? n)) eqn:Hr.
  { split; [done|]. inversion 1 as [|? ? ? ? [? ?]]. simplify_eq. lia. }
  rewrite bind_result_ok. split.
  - intros (ports' & ?%IH & [= <-]). constructor; [split; [done|lia]|done].
  - inversion 1 as [|? ? ? ? [? ?] ?]. simplify_eq. eexists. split; [by apply IH|done].
Qed.

(** [parseDeniedPorts] accepts exactly the comma-separated lists whose non-blank
    parts are decimal numbers between 1 and 65535, and returns those numbers in
    order; anything else is an error. *)
Theorem parseDeniedPorts_correct (raw : string) (ports : list Z) :
  parseDeniedPorts raw = OK ports <-> Forall2 port_number (port_parts raw) ports.
Proof. apply parse_parts_spec. Qed.

(** The value of a setting, [None] when it is missing or blank. *)
Definition setting (data : str_map) (key : string) : option string :=
  let v := TrimSpace (lookup_str data key) in if decide (v = "") then None else Some v.

Lemma if_set_setting {A} data key (f : string -> A) otherwise :
  if_set data key f otherwise = from_option f otherwise (setting data key).
Proof. unfold if_set, setting. case_bool_decide; by case_decide. Qed.

(** [LoadConfig] asks for one ConfigMap, under the default name where a name is
    empty, and fails exactly when that fails or [deniedPorts] or [dryRun] does
    not parse. Otherwise each setting is the trimmed value, or its default when
    it is missing or blank: in particular the denylist is 22, 80 and 443 unless
    it is overridden, and dry-run mode is off unless it is asked for. *)
Theorem LoadConfig_correct (namespace name : string) (tr : list (event ConfigE))
    (cfg : AgentConfig) (err : option error)
    (Hexec : exec (LoadConfig namespace name) tr (cfg, err)) :
  exists cm,
    tr = [Ev (GetConfigMap (if decide (namespace = "") then "bulb-system" else namespace)
                           (if decide (name = "") then "bulb-firewall-agent" else name)) cm] /\
    (err = None <-> exists data ports dry, cm = OK data /\
       cfg = MkAgentConfig (default "firewalld" (setting data "backend"))
               (default "public" (setting data "zone"))
               (default "/var/lib/bulb/firewall-agent-state.json" (setting data "stateFile"))
               ports dry /\
       match setting data "deniedPorts" with
       | None => ports = [22; 80; 443]
       | Some v => Forall2 port_number (port_parts v) ports
       end /\
       match setting data "dryRun" with
       | None => dry = false
       | Some v => ParseBool v = Some dry
       end).
Proof.
  unfold LoadConfig in Hexec. apply exec_bind in Hexec as (cm & t1 & t2 & -> & ->%exec_call & H).
  exists cm. assert (t2 = []) as -> by by destruct cm, H. split.
  { rewrite app_nil_r. repeat case_bool_decide; by repeat case_decide. }
  destruct cm as [data|e]; simpl in H; destruct H as [H _].
  2: { simplify_eq. split; [done|]. intros (? & ? & ? & ? & _). done. }
  unfold config_of in H. rewrite !if_set_setting in H. unfold id, from_option in H.
  destruct (setting data "deniedPorts") as [v|] eqn:Hs; [destruct (parseDeniedPorts v) as [ports|e] eqn:Hv|].
  2: { simplify_eq. split; [done|]. intros (? & ? & ? & [= <-] & _ & Hp & _). rewrite Hs in Hp.
       apply parse_parts_spec in Hp. unfold parseDeniedPorts in Hv. congruence. }
  1: apply parse_parts_spec in Hv.
  all: destruct (setting data "dryRun") as [d|] eqn:Hd; [destruct (ParseBool d) as [dry|] eqn:Hb|];
    simplify_eq; split; try done;
    try (intros _; eexists data, _, _; rewrite Hs, Hd; done);
    intros (? & ? & ? & [= <-] & _ & _ & Hdry); rewrite Hd in Hdry; congruence.
Qed.

(** A ConfigMap that overrides two settings. *)
Definition sample_data : str_map := <["deniedPorts" := "22, 6443"]> (<["dryRun" := " true"]> ∅).

Example sample_config :
  config_of sample_data =
  (MkAgentConfig "firewalld" "public" "/var/lib/bulb/firewall-agent-state.json" [22; 6443] true, None).
Proof. vm_compute. reflexivity. Qed.

Lemma LoadConfig_correct_witness :
  exists cm,
    [Ev (GetConfigMap "bulb-system" "bulb-firewall-agent") (OK sample_data)]
      = [Ev (GetConfigMap (if decide ("" = "") then "bulb-system" else "")
                          (if decide ("" = "") then "bulb-firewall-agent" else "")) cm] /\
    ((@None error) = None <-> exists data ports dry, cm = OK data /\
       MkAgentConfig "firewalld" "public" "/var/lib/bulb/firewall-agent-state.json" [22; 6443] true
       = MkAgentConfig (default "firewalld" (setting data "backend"))
               (default "public" (setting data "zone"))
               (default "/var/lib/bulb/firewall-agent-state.json" (setting data "stateFile"))
               ports dry /\
       match setting data "deniedPorts" with
       | None => ports = [22; 80; 443]
       | Some v => Forall2 port_number (port_parts v) ports
       end /\
       match setting data "dryRun" with
       | None => dry = false
       | Some v => ParseBool v = Some dry
       end).
Proof.
  apply (LoadConfig_correct "" "" _ _ None).
  eexists (OK sample_data), []. split; [reflexivity|]. split; [|reflexivity].
  symmetry. exact sample_config.
Defined.
