(* ===== verification/FwAgent.v ===== *)
(** * FwAgent: the reconciler of the firewall agent

    Models internal/firewall/firewall.go ([AgentReconciler] and the part of [Run]
    that builds it) and the choice of a backend in backend.go. The reconciler is
    written against the class [Backend]; [E] are the requests of its backend and
    [LBPortE] those it makes of the API server. Metrics and log lines are left
    out: nothing reads them back. *)
From S2P Require Import Prelude GoStrings Effects ApiTypes FwPorts FwBackend Firewalld Commands Iptables Nftables FwConfig.
Open Scope Z_scope.

Inductive LBPortE : Type -> Type :=
| ListLBPorts : LBPortE (result (list LBPort))
| GetLBPort (name : string) : LBPortE (result LBPort)
| UpdateLBPortStatus (lbport : LBPort) : LBPortE (result unit).

(** [ag_Backend] is an interface value, nil being [None]. *)
Record AgentReconciler (B : Type) := MkAgentReconciler {
  NodeName : string;
  ag_Backend : option B;
  Policy : FirewallPolicy;
  DryRun : bool;
  lastDesired : list PortSpec;
  lastValidateErr : option error
}.
Arguments MkAgentReconciler {B}.
Arguments NodeName {B}.
Arguments ag_Backend {B}.
Arguments Policy {B}.
Arguments DryRun {B}.
Arguments lastDesired {B}.
Arguments lastValidateErr {B}.

Section reconciler.
Context {B : Type} {E : Type -> Type} `{!Backend B E}.

Definition AgentE : Type -> Type := sumE E LBPortE.

Definition setLastDesired (r : AgentReconciler B) (next : list PortSpec) : AgentReconciler B * bool :=
  if bool_decide (lastDesired r = next) then (r, false)
  else (MkAgentReconciler (NodeName r) (ag_Backend r) (Policy r) (DryRun r) next (lastValidateErr r),
        true).

Definition LastDesired (r : AgentReconciler B) : list PortSpec := lastDesired r.

Definition setLastValidateErr (r : AgentReconciler B) (err : option error) : AgentReconciler B :=
  MkAgentReconciler (NodeName r) (ag_Backend r) (Policy r) (DryRun r) (lastDesired r) err.

(** The two status updates log a failure and go on. *)
Definition ensureNodeInStatus (node : string) (lbport : LBPort) : prog LBPortE unit :=
  let* r := call (GetLBPort (lbp_Name lbport)) in
  match r with
  | Fail _ => Ret tt
  | OK latest =>
      if contains (AppliedNodes (lbp_Status latest)) node then Ret tt
      else
        let* _ := call (UpdateLBPortStatus
          (with_applied (sort_strings (AppliedNodes (lbp_Status latest) ++ [node])) latest)) in
        Ret tt
  end.

Definition ensureNodeNotInStatus (node : string) (lbport : LBPort) : prog LBPortE unit :=
  let* r := call (GetLBPort (lbp_Name lbport)) in
  match r with
  | Fail _ => Ret tt
  | OK latest =>
      if negb (contains (AppliedNodes (lbp_Status latest)) node) then Ret tt
      else
        let* _ := call (UpdateLBPortStatus
          (with_applied (filter (fun n => n <> node) (AppliedNodes (lbp_Status latest))) latest)) in
        Ret tt
  end.

Definition should_apply (node : string) (appliedKeys : gset PortKey) (lbport : LBPort) : bool :=
  appliesToNode (spec_Nodes (lbp_Spec lbport)) node && bool_decide (lbport_key lbport ∈ appliedKeys).

Definition updateLBPortStatuses (node : string) (lbports : list LBPort) (applied : list PortSpec)
    : prog LBPortE unit :=
  for_all_do lbports (fun lbport =>
    if should_apply node (key_set applied) lbport then ensureNodeInStatus node lbport
    else ensureNodeNotInStatus node lbport).

Definition Reconcile (r : AgentReconciler B) : prog AgentE (AgentReconciler B * result unit) :=
  match ag_Backend r with
  | None => Ret (r, Fail (errorf "firewall backend is required"))
  | Some b =>
      let* lbports := call (inrE ListLBPorts) in
      match lbports with
      | Fail e => Ret (r, Fail (wrap "list lbports: " e))
      | OK items =>
          let rawDesired := DesiredPortsForNode items (NodeName r) in
          let '(filtered, rejected) := Filter (Policy r) rawDesired in
          let '(r, changed) := setLastDesired r filtered in
          let* res := translate (fun X => inlE) (Apply b filtered) in
          match res with
          | Fail e =>
              Ret (setLastValidateErr r (Some e),
                   Fail (wrap ("apply firewall backend " +:+ Name b +:+ ": ") e))
          | OK _ =>
              let r := setLastValidateErr r None in
              let* _ := if negb (DryRun r)
                        then translate (fun X => inrE)
                               (updateLBPortStatuses (NodeName r) items filtered)
                        else Ret tt in
              Ret (r, OK tt)
          end
      end
  end.

Definition readyz (r : AgentReconciler B) : prog E (AgentReconciler B * result unit) :=
  match ag_Backend r with
  | None => Ret (r, Fail (errorf "firewall backend is required"))
  | Some b =>
      let* res := Validate b in
      match res with
      | Fail e => Ret (setLastValidateErr r (Some e), Fail (wrap "backend validation failed: " e))
      | OK _ => Ret (setLastValidateErr r None, OK tt)
      end
  end.
End reconciler.

(** ** The choice of a backend *)

Definition HostE : Type -> Type := sumE FwdE CmdE.

(** The values the interface holds in [Run]. *)
Inductive AnyBackend : Type :=
| AnyFirewalld (b : FirewalldBackend)
| AnyIPTables (b : IPTablesBackend)
| AnyNFTables (b : NFTablesBackend)
| AnyDryRun (b : DryRunBackend AnyBackend).

Fixpoint Any_Name (a : AnyBackend) : string :=
  match a with
  | AnyFirewalld b => Name b
  | AnyIPTables b => Name b
  | AnyNFTables b => Name b
  | AnyDryRun b => match b with MkDryRunBackend i => Any_Name i end
  end.

Fixpoint Any_Validate (a : AnyBackend) : prog HostE (result unit) :=
  match a with
  | AnyFirewalld b => translate (fun X => inlE) (Validate b)
  | AnyIPTables b => translate (fun X => inrE) (Validate b)
  | AnyNFTables b => translate (fun X => inrE) (Validate b)
  | AnyDryRun b => match b with MkDryRunBackend i => Any_Validate i end
  end.

Definition Any_Apply (a : AnyBackend) (desired : list PortSpec) : prog HostE (result unit) :=
  match a with
  | AnyFirewalld b => translate (fun X => inlE) (Apply b desired)
  | AnyIPTables b => translate (fun X => inrE) (Apply b desired)
  | AnyNFTables b => translate (fun X => inrE) (Apply b desired)
  | AnyDryRun b => DryRun_Apply b desired
  end.

#[export] Instance AnyBackend_Backend : Backend AnyBackend HostE :=
  { Name := Any_Name; Validate := Any_Validate; Apply := Any_Apply }.

(** What [Run] asks for before it has a backend, and of the backend. *)
Inductive SetupE : Type -> Type :=
| SetupConfig {X} (e : ConfigE X) : SetupE X
| ConnectSystemBus : SetupE (result unit)
| SetupHost {X} (e : HostE X) : SetupE X.

Definition NewFirewalldBackend (zone : string) : prog SetupE (result FirewalldBackend) :=
  if bool_decide (zone = "") then Ret (Fail (errorf "firewalld zone is required"))
  else
    let? _ := wrapped "connect system bus: " (call ConnectSystemBus) in
    Ret (OK (MkFirewalldBackend zone true true)).

Definition NewBackend (name zone : string) : prog SetupE (result AnyBackend) :=
  if bool_decide (name = "firewalld") then
    let? b := NewFirewalldBackend zone in Ret (OK (AnyFirewalld b))
  else if bool_decide (name = "iptables") then Ret (OK (AnyIPTables (MkIPTablesBackend true)))
  else if bool_decide (name = "nftables") then Ret (OK (AnyNFTables (MkNFTablesBackend true)))
  else Ret (Fail (errorf ("unsupported firewall backend " +:+ fmt_q name))).

(** [Run] from the configuration to the reconciler it hands to the manager. *)
Definition agent_setup (nodeName configNamespace configName : string)
    : prog SetupE (result (AgentReconciler AnyBackend)) :=
  let* (cfg, err) := translate (fun X => SetupConfig) (LoadConfig configNamespace configName) in
  match err with
  | Some e => Ret (Fail e)
  | None =>
      let? backend := NewBackend (cfg_Backend cfg) (cfg_Zone cfg) in
      match (if cfg_DryRun cfg then
               match NewDryRunBackend (Some backend) with
               | OK b => OK (AnyDryRun b)
               | Fail e => Fail e
               end
             else OK backend) with
      | Fail e => Ret (Fail e)
      | OK backend =>
          let? _ := wrapped ("validate firewall backend " +:+ Name backend +:+ ": ")
                      (translate (fun X => SetupHost) (Validate backend)) in
          Ret (OK (MkAgentReconciler nodeName (Some backend) (MkFirewallPolicy (cfg_DeniedPorts cfg))
                     (cfg_DryRun cfg) [] None))
      end
  end.

(** [SetupWithManager] up to the registration of the controller. *)
Definition SetupWithManager {B} (r : AgentReconciler B) : result unit :=
  if bool_decide (NodeName r = "") then Fail (errorf "AgentReconciler.NodeName is required")
  else match ag_Backend r with
       | None => Fail (errorf "AgentReconciler.Backend is required")
       | Some _ => OK tt
       end.

(** ** The status updates *)

Lemma contains_true l x : contains l x = true <-> x ∈ l.
Proof. unfold contains. apply bool_decide_eq_true. Qed.

Lemma contains_false l x : contains l x = false <-> x ∉ l.
Proof. unfold contains. apply bool_decide_eq_false. Qed.

(** [latest] with [node] present or absent, and the other nodes as they were. *)
Definition node_set (node : string) (present : bool) (latest l : LBPort) : Prop :=
  l = with_applied (AppliedNodes (lbp_Status l)) latest /\
  (node ∈ AppliedNodes (lbp_Status l) <-> present = true) /\
  (forall other, other <> node ->
     other ∈ AppliedNodes (lbp_Status l) <-> other ∈ AppliedNodes (lbp_Status latest)).

Lemma node_set_add node latest :
  node_set node true latest
    (with_applied (sort_strings (AppliedNodes (lbp_Status latest) ++ [node])) latest).
Proof.
  unfold node_set, with_applied. simpl. split_and!; [done| |intros other Hne];
    rewrite elem_of_sort_strings; set_solver.
Qed.

Lemma node_set_remove node latest :
  node_set node false latest
    (with_applied (filter (fun n => n <> node) (AppliedNodes (lbp_Status latest))) latest).
Proof.
  unfold node_set, with_applied. simpl. split_and!; [done| |intros other Hne];
    rewrite list_elem_of_filter; naive_solver.
Qed.

(** When a request of [updateLBPortStatuses] may be made: a read of a listed
    LBPort, or a write of the object read just before, changed only in whether
    it lists this node. *)
Definition status_ok (node : string) (items : list LBPort) (keys : gset PortKey) (X : Type)
    (e : LBPortE X) (before : list (event LBPortE)) : Prop :=
  match e with
  | ListLBPorts => False
  | GetLBPort name => exists lb, lb ∈ items /\ lbp_Name lb = name
  | UpdateLBPortStatus l => exists lb latest, lb ∈ items /\
      last before = Some (Ev (GetLBPort (lbp_Name lb)) (OK latest)) /\
      node_set node (should_apply node keys lb) latest l /\
      contains (AppliedNodes (lbp_Status latest)) node <> should_apply node keys lb
  end.

Lemma wp_status node items keys lb (Q : unit -> list (event LBPortE) -> Prop) s :
  lb ∈ items -> (forall s', Q tt s') ->
  wp (status_ok node items keys) trace_step
    (if should_apply node keys lb then ensureNodeInStatus node lb else ensureNodeNotInStatus node lb) Q s.
Proof.
  intros Hlb HQ. destruct (should_apply node keys lb) eqn:Hs.
  all: split; [by exists lb|]; intros [latest|e] s' ->; [|apply HQ]; simpl.
  all: destruct (contains (AppliedNodes (lbp_Status latest)) node) eqn:Hc; simpl; try apply HQ.
  all: split; [|intros; apply HQ]; exists lb, latest; rewrite Hs, Hc, last_snoc; split_and!; try done.
  - apply node_set_add.
  - apply node_set_remove.
Qed.

Lemma exec_statuses node items applied tr :
  exec (updateLBPortStatuses node items applied) tr tt ->
  respects (status_ok node items (key_set applied)) tr.
Proof.
  intros H.
  refine (proj1 (wp_exec (status_ok node items (key_set applied)) (updateLBPortStatuses node items applied)
           (fun _ _ => True) tr tt _ H)).
  unfold updateLBPortStatuses.
  apply (wp_for_all_do _ _ _ _ (fun l _ => l ⊆ items)); [done..|].
  intros lb l s Hsub. apply wp_status; [apply Hsub; by left|]. intros _ x Hx. apply Hsub. by right.
Qed.

(** ** Properties *)

Section exchange.
Context {B : Type} {E : Type -> Type} `{!Backend B E}.

Definition from_backend (tr : list (event E)) : list (event (AgentE (E := E))) :=
  map_event (fun X => inlE) <$> tr.
Definition from_api (tr : list (event LBPortE)) : list (event (AgentE (E := E))) :=
  map_event (fun X => inrE) <$> tr.
Definition list_answer (r : result (list LBPort)) : event (AgentE (E := E)) := Ev (inrE ListLBPorts) r.

(** The ports [Reconcile] hands to its backend. *)
Definition allowed_ports (r : AgentReconciler B) (items : list LBPort) : list PortSpec :=
  filter (permitted (Policy r)) (DesiredPortsForNode items (NodeName r)).

Lemma Filter_allowed r items :
  fst (Filter (Policy r) (DesiredPortsForNode items (NodeName r))) = allowed_ports r items.
Proof. apply Filter_fst. Qed.

Lemma setLastDesired_fields (r r1 : AgentReconciler B) next c :
  setLastDesired r next = (r1, c) ->
  NodeName r1 = NodeName r /\ DryRun r1 = DryRun r /\ Policy r1 = Policy r /\
  ag_Backend r1 = ag_Backend r /\ lastDesired r1 = next /\ c = bool_decide (lastDesired r <> next).
Proof.
  unfold setLastDesired. repeat case_bool_decide; intros; simplify_eq/=; done.
Qed.

Lemma exec_Reconcile (r r' : AgentReconciler B) (b : B) tr res :
  ag_Backend r = Some b -> exec (Reconcile r) tr (r', res) ->
  (exists e, tr = [list_answer (Fail e)] /\ r' = r /\ res = Fail (wrap "list lbports: " e)) \/
  exists items tr1 res1 tr2,
    tr = list_answer (OK items) :: from_backend tr1 ++ from_api tr2 /\
    exec (Apply b (allowed_ports r items)) tr1 res1 /\
    res = wrap_result ("apply firewall backend " +:+ Name b +:+ ": ") res1 /\
    lastDesired r' = allowed_ports r items /\
    lastValidateErr r' = (match res1 with OK _ => None | Fail e => Some e end) /\
    (tr2 = [] \/ is_ok res1 = true /\ DryRun r = false /\
       respects (status_ok (NodeName r) items (key_set (allowed_ports r items))) tr2).
Proof.
  intros Hb H. unfold Reconcile in H. rewrite Hb in H.
  apply exec_bind in H as (lr & t1 & t2 & -> & ->%exec_call & H).
  destruct lr as [items|e]; [right|left].
  2: { destruct H as [[= -> ->] ->]. by exists e. }
  pose proof (Filter_allowed r items) as Hf.
  destruct (Filter (Policy r) _) as [filtered rejected]. simpl in Hf. subst filtered.
  destruct (setLastDesired r _) as [r1 c] eqn:Hset.
  apply setLastDesired_fields in Hset as (Hn & Hd & _ & _ & Hl & _).
  apply exec_bind in H as (res1 & t3 & t4 & -> & (tr1 & Hap & ->)%exec_translate & H).
  exists items, tr1, res1. destruct res1 as [[]|e].
  2: { destruct H as [[= -> ->] ->]. exists []. unfold from_api. simpl. rewrite !app_nil_r. split_and!; try done. by left. }
  apply exec_bind in H as ([] & t5 & t6 & -> & Hst & [[= -> ->] ->]).
  cbn [DryRun NodeName setLastValidateErr] in Hst. rewrite Hd, Hn in Hst.
  destruct (DryRun r) eqn:Hdry; simpl in Hst.
  - destruct Hst as [_ ->]. exists []. unfold from_api. simpl. rewrite !app_nil_r.
    split_and!; try done. by left.
  - apply exec_translate in Hst as (tr2 & Hst & ->). exists tr2. rewrite ?app_nil_r.
    split_and!; try done. right. split_and!; [done..|]. by apply exec_statuses.
Qed.

(** [Reconcile] lists the LBPorts, then gives its backend one call with exactly
    the desired ports of this node that the policy permits, and only if that
    succeeds, and not in dry-run mode, touches statuses: it rewrites an object it
    read just before, changing nothing but whether this node is listed, which it
    is when the port was applied here. A failure of the backend is returned,
    recorded for the readiness probe, and no status claims the node. *)
Theorem Reconcile_exchange (r r' : AgentReconciler B) (b : B)
    (tr : list (event (AgentE (E := E)))) (res : result unit)
    (Hbackend : ag_Backend r = Some b) (Hexec : exec (Reconcile r) tr (r', res)) :
  (exists e, tr = [list_answer (Fail e)] /\ r' = r /\ res = Fail (wrap "list lbports: " e)) \/
  exists items tr1 res1 tr2,
    tr = list_answer (OK items) :: from_backend tr1 ++ from_api tr2 /\
    exec (Apply b (allowed_ports r items)) tr1 res1 /\
    res = wrap_result ("apply firewall backend " +:+ Name b +:+ ": ") res1 /\
    lastDesired r' = allowed_ports r items /\
    lastValidateErr r' = (match res1 with OK _ => None | Fail e => Some e end) /\
    (tr2 = [] \/ is_ok res1 = true /\ DryRun r = false /\
       respects (status_ok (NodeName r) items (key_set (allowed_ports r items))) tr2).
Proof. by apply exec_Reconcile. Qed.
End exchange.

(** ** An agent in dry-run mode *)

(** Successive reconciles of one agent, each against whatever answers it. *)
Inductive reconciles {B E} `{!Backend B E} : AgentReconciler B -> list (event (AgentE (E := E))) ->
    AgentReconciler B -> Prop :=
| reconciles_nil r : reconciles r [] r
| reconciles_cons r tr1 r1 res tr2 r2 :
    exec (Reconcile r) tr1 (r1, res) -> reconciles r1 tr2 r2 -> reconciles r (tr1 ++ tr2) r2.

(** Requests that only look. *)
Definition is_read (X : Type) (e : HostE X) : Prop :=
  match e with
  | inlE (GetPorts _) => True
  | inrE (Output _ args) => args = ["-w"; "-S"; "INPUT"] \/ args = ["list"; "tables"]
  | _ => False
  end.

Definition reads_only (ev : event SetupE) : Prop :=
  match ev with Ev e _ => match e with SetupHost h => is_read _ h | _ => True end end.

Lemma Validate_reads_host a tr res : exec (Any_Validate a) tr res ->
  Forall (fun ev : event HostE => match ev with Ev e _ => is_read _ e end) tr.
Proof.
  revert a tr res. fix IH 1. intros [b|b|b|[i]] tr res; simpl.
  - intros (tr0 & H & ->)%exec_translate. apply Forall_fmap. cbn in H.
    unfold Firewalld_Validate in H. repeat case_match; simpl in H; try (destruct H as [_ ->]; constructor).
    destruct H as ([?|?] & t & -> & H); destruct H as [_ ->]; by repeat constructor.
  - intros (tr0 & H & ->)%exec_translate. apply Forall_fmap. cbn in H.
    unfold IPTables_Validate in H. destruct (negb _); simpl in H; [destruct H as [_ ->]; constructor|].
    destruct H as ([o [e|]] & t & -> & H); simpl in H; [destruct H as [_ ->]; repeat constructor; by left|].
    destruct H as ([o' [e'|]] & t' & -> & H); destruct H as [_ ->]; repeat constructor; by left.
  - intros (tr0 & H & ->)%exec_translate. apply Forall_fmap. cbn in H.
    unfold NFTables_Validate in H. destruct (negb _); simpl in H; [destruct H as [_ ->]; constructor|].
    destruct H as ([o [e|]] & t & -> & H); destruct H as [_ ->]; repeat constructor; by right.
  - apply IH.
Qed.

Lemma exec_NewBackend name zone tr res : exec (NewBackend name zone) tr res ->
  Forall reads_only tr /\ (forall a, res = OK a -> forall i, a <> AnyDryRun i).
Proof.
  unfold NewBackend, NewFirewalldBackend. repeat case_bool_decide; simpl.
  all: try (intros [-> ->]; split; [constructor|intros ? [= <-]; done]).
  intros ([[]|e] & t & -> & [-> ->]); (split; [by repeat constructor|intros ? [= <-]; done]).
Qed.

(** The backend a configuration asks for, and what is asked of the host to make it. *)
Definition chosen (cfg : AgentConfig) (b : AnyBackend) (tr : list (event SetupE)) : Prop :=
  (cfg_Backend cfg = "firewalld" /\ cfg_Zone cfg <> "" /\
     b = AnyFirewalld (MkFirewalldBackend (cfg_Zone cfg) true true) /\ tr = [Ev ConnectSystemBus (OK tt)]) \/
  (cfg_Backend cfg = "iptables" /\ b = AnyIPTables (MkIPTablesBackend true) /\ tr = []) \/
  (cfg_Backend cfg = "nftables" /\ b = AnyNFTables (MkNFTablesBackend true) /\ tr = []).

(** The host was asked whether the backend can be used, and the answers say so: the zone can be
    queried, or both INPUT chains, or the tables of nft be listed. *)
Definition found_usable (b : AnyBackend) (tr : list (event HostE)) : Prop :=
  match b with
  | AnyFirewalld b => exists ports, tr = [Ev (inlE (GetPorts (zone b))) (OK ports)]
  | AnyIPTables _ => exists out4 out6,
      tr = [Ev (inrE (Output "iptables" ["-w"; "-S"; "INPUT"])) (out4, None);
            Ev (inrE (Output "ip6tables" ["-w"; "-S"; "INPUT"])) (out6, None)]
  | AnyNFTables _ => exists out, tr = [Ev (inrE (Output "nft" ["list"; "tables"])) (out, None)]
  | AnyDryRun _ => False
  end.

(** The reconciler that is made, and the whole exchange that makes it. *)
Definition set_up (n ns cn : string) (tr : list (event SetupE)) (r : AgentReconciler AnyBackend) : Prop :=
  exists data cfg b tr1 tr2,
    config_of data = (cfg, None) /\ chosen cfg b tr1 /\ found_usable b tr2 /\
    tr = Ev (SetupConfig (GetConfigMap (if bool_decide (ns = "") then defaultConfigNamespace else ns)
                            (if bool_decide (cn = "") then defaultConfigMapName else cn))) (OK data)
           :: tr1 ++ (map_event (fun X => SetupHost) <$> tr2) /\
    r = MkAgentReconciler n (Some (if cfg_DryRun cfg then AnyDryRun (MkDryRunBackend b) else b))
          (MkFirewallPolicy (cfg_DeniedPorts cfg)) (cfg_DryRun cfg) [] None.

Lemma exec_NewBackend_OK cfg b tr : exec (NewBackend (cfg_Backend cfg) (cfg_Zone cfg)) tr (OK b) -> chosen cfg b tr.
Proof.
  unfold NewBackend, NewFirewalldBackend, chosen. repeat case_bool_decide; simpl; try by intros [[= ->] ->]; auto.
  intros ([[]|e] & t & -> & H'); simpl in H'; destruct H' as [[= ->] ->]. by left.
Qed.

Lemma exec_Validate_OK cfg b trb tr : chosen cfg b trb -> exec (Any_Validate b) tr (OK tt) -> found_usable b tr.
Proof.
  intros [(_ & Hz & -> & _)|[(_ & -> & _)|(_ & -> & _)]] (tr0 & H & ->)%exec_translate; simpl in *.
  - cbn in H. unfold Firewalld_Validate in H. cbn [zone store dbus] in H. rewrite bool_decide_eq_false_2 in H by done.
    destruct H as ([ports|e] & t & -> & H); simpl in H; [destruct H as [_ ->]; by exists ports|by destruct H].
  - destruct H as ([o [e|]] & t & -> & H); simpl in H; [by destruct H|].
    destruct H as ([o' [e'|]] & t' & -> & H); simpl in H; [by destruct H|]. destruct H as [_ ->]. by exists o, o'.
  - destruct H as ([o [e|]] & t & -> & H); simpl in H; [by destruct H|]. destruct H as [_ ->]. by exists o.
Qed.

Lemma exec_LoadConfig_OK ns cn cfg tr : exec (LoadConfig ns cn) tr (cfg, None) -> exists data,
  config_of data = (cfg, None) /\
  tr = [Ev (GetConfigMap (if bool_decide (ns = "") then defaultConfigNamespace else ns)
          (if bool_decide (cn = "") then defaultConfigMapName else cn)) (OK data)].
Proof.
  unfold LoadConfig. intros ([data|e] & t & -> & H); simpl in H; [|by destruct H].
  destruct H as [Heq ->]. by exists data.
Qed.

Lemma exec_agent_setup_OK n ns cn tr r : exec (agent_setup n ns cn) tr (OK r) -> set_up n ns cn tr r.
Proof.
  intros ([cfg err] & t1 & t2 & -> & (t0 & Hcfg & ->)%exec_translate & H)%exec_bind.
  destruct err as [e|]; [by destruct H|]. apply exec_LoadConfig_OK in Hcfg as (data & Hdata & ->).
  apply exec_bindr in H as [(e & ? & _)|(b & t3 & t4 & -> & Hb%exec_NewBackend_OK & H)]; [done|].
  assert (forall b', Any_Validate b' = Any_Validate b ->
    exec (let? _ := wrapped ("validate firewall backend " +:+ Any_Name b' +:+ ": ")
                      (translate (fun X => SetupHost) (Any_Validate b')) in
          Ret (OK (MkAgentReconciler n (Some b') (MkFirewallPolicy (cfg_DeniedPorts cfg)) (cfg_DryRun cfg) [] None))) t4 (OK r) ->
    exists t5, t4 = map_event (fun X => SetupHost) <$> t5 /\ found_usable b t5 /\
      r = MkAgentReconciler n (Some b') (MkFirewallPolicy (cfg_DeniedPorts cfg)) (cfg_DryRun cfg) [] None) as Hmade.
  { intros b' -> [(e & ? & _)|([] & t5 & t6 & -> & (r0 & Hv & Hr0)%exec_wrapped & [Heq ->])]%exec_bindr; [done|].
    destruct r0 as [[]|e0]; [|done]. apply exec_translate in Hv as (t7 & Hv & ->). exists t7.
    rewrite app_nil_r. split_and!; [done|by eapply exec_Validate_OK|by injection Heq]. }
  exists data, cfg, b, t3. destruct (cfg_DryRun cfg); simpl in H.
  - destruct (Hmade (AnyDryRun (MkDryRunBackend b)) eq_refl H) as (t5 & -> & Hu & ->). by exists t5.
  - destruct (Hmade b eq_refl H) as (t5 & -> & Hu & ->). by exists t5.
Qed.

Lemma chosen_not_dry cfg b tr i : chosen cfg b tr -> b <> AnyDryRun i.
Proof. by intros [(_ & _ & -> & _)|[(_ & -> & _)|(_ & -> & _)]]. Qed.

Lemma exec_agent_setup n ns cn tr res : exec (agent_setup n ns cn) tr res ->
  Forall reads_only tr /\ forall r, res = OK r ->
    NodeName r = n /\ exists b, ag_Backend r = Some b /\
      (DryRun r = true <-> exists i, b = AnyDryRun i).
Proof.
  intros H. split.
  - apply exec_bind in H as ([cfg err] & t1 & t2 & -> & (t0 & _ & ->)%exec_translate & H).
    apply Forall_app. split; [apply Forall_fmap, Forall_forall; by intros [] _|].
    destruct err as [e|]; [by destruct H as [_ ->]|].
    apply exec_bindr in H as [(e & -> & [Hr _]%exec_NewBackend)|(b & t3 & t4 & -> & [Hr _]%exec_NewBackend & H)]; [done|].
    apply Forall_app. split; [done|].
    destruct (if cfg_DryRun cfg then _ else _) as [b'|e]; [|by destruct H as [_ ->]].
    apply exec_bindr in H as [(e & -> & (r0 & Hv & _)%exec_wrapped)|
      ([] & t5 & t6 & -> & (r0 & Hv & _)%exec_wrapped & [_ ->])]; rewrite ?app_nil_r.
    all: apply exec_translate in Hv as (t7 & Hv & ->); apply Validate_reads_host in Hv.
    all: apply Forall_fmap; eapply Forall_impl; [exact Hv|by intros []].
  - intros r ->. apply exec_agent_setup_OK in H as (data & cfg & b & t1 & t2 & _ & Hb & _ & _ & ->).
    split; [done|]. eexists. split; [done|]. simpl. destruct (cfg_DryRun cfg).
    + split; [by eexists|done].
    + split; [done|]. intros [i ->]. by destruct (chosen_not_dry _ _ _ i Hb).
Qed.

Lemma reconcile_keeps {B E} `{!Backend B E} (r r' : AgentReconciler B) tr res :
  exec (Reconcile r) tr (r', res) -> ag_Backend r' = ag_Backend r /\ DryRun r' = DryRun r.
Proof.
  unfold Reconcile. destruct (ag_Backend r) as [b|] eqn:Hb; [|by intros [[= -> ->] ->]].
  intros (lr & t1 & t2 & -> & _ & H)%exec_bind.
  destruct lr as [items|e]; [|destruct H as [[= -> ->] ->]; by rewrite Hb].
  destruct (Filter _ _) as [filtered rejected]. destruct (setLastDesired r _) as [r1 c] eqn:Hset.
  apply setLastDesired_fields in Hset as (_ & Hd & _ & Hb1 & _).
  apply exec_bind in H as ([[]|e] & t3 & t4 & -> & _ & H).
  - apply exec_bind in H as ([] & t5 & t6 & -> & _ & [[= -> ->] ->]). simpl. by rewrite Hb1, Hd, Hb.
  - destruct H as [[= -> ->] ->]. simpl. by rewrite Hb1, Hd, Hb.
Qed.

(** In dry-run mode the agent changes nothing: whatever the configuration and
    whatever answers it, [Run] only looks at the host while it starts, and the
    reconciler it builds only ever lists LBPorts, however often it runs; it
    changes neither the host nor a status. *)
Theorem dry_run_changes_nothing (node ns name : string) (tr0 : list (event SetupE))
    (r r' : AgentReconciler AnyBackend) (tr : list (event (AgentE (E := HostE))))
    (Hsetup : exec (agent_setup node ns name) tr0 (OK r)) (Hdry : DryRun r = true)
    (Hruns : reconciles r tr r') :
  Forall reads_only tr0 /\ Forall (fun ev => exists items, ev = list_answer items) tr.
Proof.
  apply exec_agent_setup in Hsetup as [Hreads Hr]. split; [done|].
  destruct (Hr r eq_refl) as (_ & b & Hb & Hi). apply Hi in Hdry as Hd. destruct Hd as [i ->].
  clear Hr Hi Hreads tr0. induction Hruns as [|r tr1 r1 res tr2 r2 H _ IH]; [done|].
  pose proof (reconcile_keeps _ _ _ _ H) as [Hb1 Hd1]. apply Forall_app. split.
  2: { apply IH; congruence. }
  destruct (exec_Reconcile _ _ _ _ _ Hb H)
    as [(e & -> & _)|(items & t1 & res1 & t2 & -> & Ha & _ & _ & _ & Hst)].
  { by repeat econstructor. }
  destruct Ha as [_ ->]. destruct Hst as [->|(_ & ? & _)]; [|congruence]. by repeat econstructor.
Qed.

(** ** What the agent opens *)

(** The port [k] is exposed on [node] by the LBPorts and passes the policy. *)
Definition exposed (p : FirewallPolicy) (node : string) (items : list LBPort) (k : PortKey) : Prop :=
  (exists l, l ∈ items /\ appliesToNode (spec_Nodes (lbp_Spec l)) node = true /\ lbport_key l = k) /\
  key_Port k ∉ DeniedPorts p /\
  (1024 <= key_Port k \/ exists l, l ∈ items /\
     appliesToNode (spec_Nodes (lbp_Spec l)) node = true /\ lbport_key l = k /\
     spec_AllowPrivileged (lbp_Spec l) = true).

Lemma allowed_exposed {B} (r : AgentReconciler B) items k :
  k ∈ key_set (allowed_ports r items) <-> exposed (Policy r) (NodeName r) items k.
Proof.
  destruct (DesiredPortsForNode_spec items (NodeName r)) as (_ & _ & Hk & Ha). unfold exposed.
  setoid_rewrite appliesToNode_spec. rewrite elem_of_key_set. unfold allowed_ports. split.
  - intros (p & [[Hd Hp] Hin]%list_elem_of_filter & <-). split_and!.
    + apply Hk. eauto.
    + done.
    + destruct Hp as [?|Hp]; [by left|right]. by apply (Ha p Hin).
  - intros (Hex & Hd & Hp). apply Hk in Hex as (p & Hin & <-). exists p. split; [|done].
    apply list_elem_of_filter. split; [|done]. split; [done|].
    destruct Hp as [?|Hp]; [by left|right]. by apply (Ha p Hin).
Qed.

Definition added (ev : event (AgentE (E := FwdE))) : option PortSpec :=
  match ev with Ev (inlE (AddPort _ p)) _ => Some p | _ => None end.

Lemma added_backend tr : omap added (from_backend tr) = adds_of tr.
Proof.
  unfold from_backend, adds_of. induction tr as [|[X e x] tr IH]; [done|]. csimpl. rewrite IH.
  by destruct e.
Qed.

Lemma added_api tr : omap added (from_api tr) = [].
Proof. unfold from_api. induction tr as [|[X e x] tr IH]; done. Qed.

Lemma adds_desired b desired tr r p :
  exec (Firewalld_Apply b desired) tr r -> p ∈ adds_of tr -> key p ∈ key_set desired.
Proof.
  intros [(e & -> & ->)|[(ks & e & -> & ->)|(ks & cur & tr' & -> & Hp)]]%exec_Apply;
    try by intros ?%elem_of_nil.
  apply plan_run_requests in Hp as (Ha & _). intros Hin.
  assert (key p ∈ key_set (to_add desired cur)) as Hk
    by (apply elem_of_key_set; exists p; split; [by eapply elem_of_prefix|done]).
  unfold to_add in Hk. autorewrite with ports in Hk. by apply elem_of_difference in Hk as [? _].
Qed.

(** C17: The only ports the agent opens through firewalld are those some listed
    LBPort exposes on this node, that are not on the denylist, and that are at
    least 1024 unless an LBPort for the same port on this node allows privileged
    ports; whatever the state file, D-Bus and the API server answer. *)
Theorem agent_opens_only_exposed (r r' : AgentReconciler FirewalldBackend) (b : FirewalldBackend)
    (tr : list (event (AgentE (E := FwdE)))) (res : result unit) (z : string) (p : PortSpec)
    (x : result unit)
    (Hbackend : ag_Backend r = Some b) (Hexec : exec (Reconcile r) tr (r', res))
    (Hadd : Ev (inlE (AddPort z p)) x ∈ tr) :
  exists items, head tr = Some (list_answer (OK items)) /\
    exposed (Policy r) (NodeName r) items (key p).
Proof.
  apply (exec_Reconcile _ _ _ _ _ Hbackend) in Hexec
    as [(e & -> & _)|(items & tr1 & res1 & tr2 & -> & Ha & _)].
  { apply list_elem_of_singleton in Hadd. discriminate Hadd. }
  exists items. split; [done|]. apply allowed_exposed, (adds_desired b _ tr1 res1); [done|].
  rewrite <-added_backend, list_elem_of_omap.
  assert (p ∈ omap added (list_answer (OK items) :: from_backend tr1 ++ from_api tr2)) as Hin
    by (apply list_elem_of_omap; by eexists).
  csimpl in Hin. rewrite omap_app, added_api, app_nil_r in Hin. by apply list_elem_of_omap.
Qed.

(** ** Convergence *)

(** The API server: [stored] are its LBPorts by name, a list returns them all, and
    a status update replaces the status of the stored object and nothing else. *)
Class LBPortApi {W} (h : handler LBPortE W) (stored : W -> gmap string LBPort) : Prop := {
  stored_name : forall w name l, stored w !! name = Some l -> lbp_Name l = name;
  list_lbports_law : forall w, exists items, h _ ListLBPorts w = (OK items, w) /\
    items ≡ₚ (map_to_list (stored w)).*2;
  get_lbport_law : forall w name l, stored w !! name = Some l -> h _ (GetLBPort name) w = (OK l, w);
  update_status_law : forall w l old, stored w !! lbp_Name l = Some old -> exists w',
    h _ (UpdateLBPortStatus l) w = (OK tt, w') /\
    stored w' = <[lbp_Name l := with_applied (AppliedNodes (lbp_Status l)) old]> (stored w)
}.

(** An LBPort its schema admits. *)
Definition schema_lbport (l : LBPort) : Prop :=
  1 <= spec_Port (lbp_Spec l) <= 65535 /\
  (spec_Protocol (lbp_Spec l) = ProtocolTCP \/ spec_Protocol (lbp_Spec l) = ProtocolUDP).

Section statuses.
Context {W : Type} (h : handler LBPortE W) (stored : W -> gmap string LBPort).
Context `{Hapi : !LBPortApi h stored}.
Context (node : string) (keys : gset PortKey).

Lemma node_set_same present l :
  contains (AppliedNodes (lbp_Status l)) node = present -> node_set node present l l.
Proof.
  intros Hc. unfold node_set. split_and!.
  - by destruct l as [? ? ? []].
  - by rewrite <-contains_true, Hc.
  - done.
Qed.

Lemma run_one lb latest w : stored w !! lbp_Name lb = Some latest -> exists w' l',
  run h (if should_apply node keys lb then ensureNodeInStatus node lb else ensureNodeNotInStatus node lb) w
    = (tt, w') /\
  stored w' = <[lbp_Name lb := l']> (stored w) /\ node_set node (should_apply node keys lb) latest l'.
Proof.
  intros Hl. pose proof (stored_name w _ _ Hl) as Hn.
  destruct (contains (AppliedNodes (lbp_Status latest)) node) eqn:Hc, (should_apply node keys lb) eqn:Hs.
  - exists w, latest. unfold ensureNodeInStatus. rewrite run_bind, run_call, (get_lbport_law w _ _ Hl), Hc.
    rewrite insert_id by done. split_and!; [done..|by apply node_set_same].
  - destruct (update_status_law w (with_applied (filter (fun n => n <> node)
      (AppliedNodes (lbp_Status latest))) latest) latest) as (w' & Hu & Hst).
    { simpl. by rewrite Hn. }
    eexists w', _. unfold ensureNodeNotInStatus.
    rewrite run_bind, run_call, (get_lbport_law w _ _ Hl), Hc. simpl negb. cbv iota.
    rewrite run_bind, run_call, Hu. split_and!; [done| |apply node_set_remove].
    rewrite Hst. simpl. by rewrite Hn.
  - destruct (update_status_law w (with_applied (sort_strings
      (AppliedNodes (lbp_Status latest) ++ [node])) latest) latest) as (w' & Hu & Hst).
    { simpl. by rewrite Hn. }
    eexists w', _. unfold ensureNodeInStatus.
    rewrite run_bind, run_call, (get_lbport_law w _ _ Hl), Hc.
    rewrite run_bind, run_call, Hu. split_and!; [done| |apply node_set_add].
    rewrite Hst. simpl. by rewrite Hn.
  - exists w, latest. unfold ensureNodeNotInStatus. rewrite run_bind, run_call, (get_lbport_law w _ _ Hl), Hc.
    rewrite insert_id by done. split_and!; [done..|by apply node_set_same].
Qed.

Lemma run_statuses items applied w :
  keys = key_set applied -> NoDup (lbp_Name <$> items) ->
  (forall lb, lb ∈ items -> is_Some (stored w !! lbp_Name lb)) -> exists w',
  run h (updateLBPortStatuses node items applied) w = (tt, w') /\
  (forall name, name ∉ lbp_Name <$> items -> stored w' !! name = stored w !! name) /\
  (forall lb latest, lb ∈ items -> stored w !! lbp_Name lb = Some latest -> exists l',
     stored w' !! lbp_Name lb = Some l' /\ node_set node (should_apply node keys lb) latest l').
Proof.
  unfold updateLBPortStatuses. intros <-. revert w.
  induction items as [|lb items IH]; intros w Hnd Hin; cbn [for_all_do].
  { exists w. split_and!; [done..|]. by intros ? ? ?%elem_of_nil. }
  apply NoDup_cons in Hnd as [Hfresh Hnd]. destruct (Hin lb) as [latest Hl]; [by left|].
  destruct (run_one lb latest w Hl) as (w1 & l' & Hr1 & Hs1 & Hset).
  destruct (IH w1) as (w2 & Hr2 & Hout & Hinn); [done| |].
  { intros lb' Hlb'. rewrite Hs1. destruct (decide (lbp_Name lb' = lbp_Name lb)) as [->|Hne].
    - by rewrite lookup_insert_eq.
    - rewrite lookup_insert_ne by done. apply Hin. by right. }
  exists w2. rewrite run_bind, Hr1. split_and!; [done| |].
  - intros name [Hne Hnin]%not_elem_of_cons. rewrite (Hout name Hnin), Hs1.
    by rewrite lookup_insert_ne.
  - intros lb' latest' [->|Hlb']%elem_of_cons Hl'.
    + exists l'. rewrite Hl in Hl'. injection Hl' as <-. split; [|exact Hset].
      by rewrite (Hout _ Hfresh), Hs1, lookup_insert_eq.
    + apply Hinn; [done|]. rewrite Hs1, lookup_insert_ne; [done|].
      intros Heq. apply Hfresh. rewrite Heq. by apply list_elem_of_fmap_2.
Qed.
End statuses.

Lemma allowed_schema {B} (r : AgentReconciler B) items :
  Forall schema_lbport items -> Forall schema_port (allowed_ports r items).
Proof.
  rewrite !Forall_forall. intros Hs p [_ (l & Hl & Hp & Hpr)%desired_origin]%list_elem_of_filter.
  destruct (Hs l Hl) as [? Hproto]. unfold schema_port, schema_protocol. rewrite Hp, Hpr. split; [done|].
  by destruct Hproto as [-> | ->]; [left|right].
Qed.

Lemma should_apply_exposed {B} (r : AgentReconciler B) items lb : lb ∈ items ->
  should_apply (NodeName r) (key_set (allowed_ports r items)) lb = true <->
  appliesToNode (spec_Nodes (lbp_Spec lb)) (NodeName r) = true /\
  exposed (Policy r) (NodeName r) items (lbport_key lb).
Proof.
  intros _. unfold should_apply. by rewrite andb_true_iff, bool_decide_eq_true, allowed_exposed.
Qed.

Section converge.
Context {B : Type} {E : Type -> Type} `{!Backend B E} {W1 W2 : Type}.
Context (b : B) (h1 : handler E W1) (valid : W1 -> Prop) (opened owned : W1 -> gset PortKey).
Context (h2 : handler LBPortE W2) (stored : W2 -> gmap string LBPort).

Lemma agent_converges (Hcontract : BackendContract b h1 valid opened owned)
    (Hapi : LBPortApi h2 stored) (r : AgentReconciler B) (w1 : W1) (w2 : W2)
    (Hbackend : ag_Backend r = Some b) (Hdry : DryRun r = false) (Hvalid : valid w1)
    (Hschema : map_Forall (fun _ => schema_lbport) (stored w2)) :
  let expose k := exposed (Policy r) (NodeName r) (map_to_list (stored w2)).*2 k in
  exists r' w1' w2',
    run (sum_handler h1 h2) (Reconcile r) (w1, w2) = ((r', OK tt), (w1', w2')) /\ valid w1' /\
    (forall k, k ∈ opened w1' <-> (k ∈ opened w1 /\ k ∉ owned w1) \/ expose k) /\
    (forall name, is_Some (stored w2' !! name) -> is_Some (stored w2 !! name)) /\
    (forall name l, stored w2 !! name = Some l -> exists present l', stored w2' !! name = Some l' /\
       node_set (NodeName r) present l l' /\
       (present = true <->
          appliesToNode (spec_Nodes (lbp_Spec l)) (NodeName r) = true /\ expose (lbport_key l))).
Proof.
  intros expose. destruct (list_lbports_law w2) as (items & Hlist & Hperm).
  assert (forall l, l ∈ items <-> stored w2 !! lbp_Name l = Some l) as Hitems.
  { intros l. rewrite Hperm, list_elem_of_fmap. split.
    - intros ([name l'] & -> & Hl%elem_of_map_to_list). simpl. by rewrite (stored_name _ _ _ Hl).
    - intros Hl. exists (lbp_Name l, l). by rewrite elem_of_map_to_list. }
  assert (NoDup (lbp_Name <$> items)) as Hnd.
  { rewrite Hperm, <-list_fmap_compose.
    replace ((lbp_Name ∘ snd) <$> map_to_list (stored w2)) with (map_to_list (stored w2)).*1;
      [apply NoDup_fst_map_to_list|].
    apply list_fmap_ext. intros i [name l] Hl%list_elem_of_lookup_2%elem_of_map_to_list. simpl.
    symmetry. by eapply stored_name. }
  assert (forall k, exposed (Policy r) (NodeName r) items k <-> expose k) as Hexp.
  { intros k. unfold expose, exposed. by setoid_rewrite Hperm. }
  assert (Forall schema_lbport items) as Hs.
  { apply Forall_forall. intros l Hl%Hitems. exact (Hschema (lbp_Name l) l Hl). }
  destruct (apply_contract w1 (allowed_ports r items) Hvalid (allowed_schema r items Hs))
    as (w1' & Ha & Hv & Ho & _).
  destruct (run_statuses h2 stored (NodeName r) (key_set (allowed_ports r items)) items
    (allowed_ports r items) w2) as (w2' & Hst & Hout & Hin); [done..| |].
  { intros lb Hlb%Hitems. by eexists. }
  destruct (setLastDesired r (allowed_ports r items)) as [r1 c] eqn:Hset.
  apply setLastDesired_fields in Hset as Hf. destruct Hf as (Hn & Hd & _).
  exists (setLastValidateErr r1 None), w1', w2'. split_and!; [|done|..].
  - unfold Reconcile. rewrite Hbackend, run_bind, run_call. cbn [sum_handler fst snd]. rewrite Hlist.
    pose proof (Filter_allowed r items) as Hfil.
    destruct (Filter (Policy r) _) as [filtered rejected]. cbn [fst] in Hfil. subst filtered.
    rewrite Hset, run_bind, run_inl, Ha. cbn [DryRun NodeName setLastValidateErr].
    rewrite Hd, Hdry, Hn. cbn [negb]. by rewrite run_bind, run_inr, Hst.
  - intros k. by rewrite Ho, elem_of_union, elem_of_difference, allowed_exposed, Hexp.
  - intros name [l' Hl']. destruct (decide (name ∈ lbp_Name <$> items)) as [Hi|Hi].
    + apply list_elem_of_fmap in Hi as (l & -> & Hl%Hitems). by eexists.
    + rewrite <-(Hout name Hi). by eexists.
  - intros name l Hl. pose proof (stored_name _ _ _ Hl) as <-. apply Hitems in Hl as Hli.
    destruct (Hin l l Hli Hl) as (l' & Hl' & Hns). eexists _, l'. split_and!; [done|exact Hns|].
    rewrite should_apply_exposed by done. by rewrite Hexp.
Qed.

(** C4: One reconcile brings the node and the API server in line, for any backend
    that keeps [BackendContract]: the ports open on the host are then those that
    were open and not bulb's, and those the stored LBPorts expose on this node
    and the policy permits; every stored LBPort lists this node exactly when its
    port is exposed here by it, and is otherwise as it was. *)
Theorem Reconcile_converges (Hcontract : BackendContract b h1 valid opened owned)
    (Hapi : LBPortApi h2 stored) (r : AgentReconciler B) (w1 : W1) (w2 : W2)
    (Hbackend : ag_Backend r = Some b) (Hdry : DryRun r = false) (Hvalid : valid w1)
    (Hschema : map_Forall (fun _ => schema_lbport) (stored w2)) :
  let expose k := exposed (Policy r) (NodeName r) (map_to_list (stored w2)).*2 k in
  exists r' w1' w2',
    run (sum_handler h1 h2) (Reconcile r) (w1, w2) = ((r', OK tt), (w1', w2')) /\ valid w1' /\
    (forall k, k ∈ opened w1' <-> (k ∈ opened w1 /\ k ∉ owned w1) \/ expose k) /\
    (forall name, is_Some (stored w2' !! name) -> is_Some (stored w2 !! name)) /\
    (forall name l, stored w2 !! name = Some l -> exists present l', stored w2' !! name = Some l' /\
       node_set (NodeName r) present l l' /\
       (present = true <->
          appliesToNode (spec_Nodes (lbp_Spec l)) (NodeName r) = true /\ expose (lbport_key l))).
Proof. by apply agent_converges. Qed.
End converge.

(** ** An API server and a set-up in memory *)

Abbreviation SimApi := (gmap string (str_map * LBPortSpec * LBPortStatus)).

Definition sim_stored (w : SimApi) : gmap string LBPort :=
  map_imap (fun name o => let '(labels, spec, status) := o in Some (MkLBPort name labels spec status)) w.

Definition sim_api : handler LBPortE SimApi :=
  fun X req =>
    match req in LBPortE Y return SimApi -> Y * SimApi with
    | ListLBPorts => fun w => (OK (map_to_list (sim_stored w)).*2, w)
    | GetLBPort name => fun w =>
        (match sim_stored w !! name with
         | Some l => OK l
         | None => Fail (MkError "not found" true)
         end, w)
    | UpdateLBPortStatus l => fun w =>
        match w !! lbp_Name l with
        | Some (labels, spec, _) => (OK tt, <[lbp_Name l := (labels, spec, lbp_Status l)]> w)
        | None => (Fail (MkError "not found" true), w)
        end
    end.

Lemma sim_stored_lookup w name :
  sim_stored w !! name =
  (fun o => let '(labels, spec, status) := o in MkLBPort name labels spec status) <$> w !! name.
Proof. unfold sim_stored. rewrite map_lookup_imap. by destruct (w !! name) as [[[? ?] ?]|]. Qed.

Lemma sim_api_laws : LBPortApi sim_api sim_stored.
Proof.
  split.
  - intros w name l. rewrite sim_stored_lookup. by intros ([[? ?] ?] & _ & ->)%fmap_Some.
  - intros w. by eexists.
  - intros w name l Hl. simpl. by rewrite Hl.
  - intros w l old Hl. rewrite sim_stored_lookup in Hl. simpl.
    destruct (w !! lbp_Name l) as [[[labels spec] status]|] eqn:Hw; simplify_eq/=.
    eexists. split; [done|]. apply map_eq. intros name. rewrite sim_stored_lookup.
    destruct (decide (name = lbp_Name l)) as [->|Hne].
    + rewrite !lookup_insert_eq. simpl. unfold with_applied. simpl. by destruct (lbp_Status l).
    + by rewrite !lookup_insert_ne, sim_stored_lookup.
Qed.

Definition sim_lbport (port : Z) (nodes applied : list string) : str_map * LBPortSpec * LBPortStatus :=
  (∅, MkLBPortSpec port ProtocolTCP nodes "svc" false, MkLBPortStatus applied).

(** The first port is for every node, the second for another one, the third denied. *)
Definition api_start : SimApi :=
  <["a" := sim_lbport 8443 ["*"] []]>
    (<["b" := sim_lbport 8080 ["n2"] ["n1"; "n2"]]> (<["c" := sim_lbport 9000 ["n1"] []]> ∅)).

Definition sim_agent : AgentReconciler FirewalldBackend :=
  MkAgentReconciler "n1" (Some sim_backend) (MkFirewallPolicy [9000]) false [] None.

Definition sim_world : handler (AgentE (E := FwdE)) (Sim * SimApi) := sum_handler sim_handler sim_api.

Example Reconcile_sim :
  let '(_, res, (host, api)) := run sim_world (Reconcile sim_agent) (sim_start, api_start) in
  res = OK tt /\ sim_ports host = [tcp 8443; tcp 22] /\
  (fun o => AppliedNodes o.2) <$> api = <["a" := ["n1"]]> (<["b" := ["n2"]]> (<["c" := []]> ∅)).
Proof. vm_compute. auto. Qed.

Lemma Reconcile_exchange_witness :
  exists tr r', let res := OK tt in
  (exists e, tr = [list_answer (Fail e)] /\ r' = sim_agent /\ res = Fail (wrap "list lbports: " e)) \/
  exists items tr1 res1 tr2,
    tr = list_answer (OK items) :: from_backend tr1 ++ from_api tr2 /\
    exec (Apply sim_backend (allowed_ports sim_agent items)) tr1 res1 /\
    res = wrap_result "apply firewall backend firewalld: " res1 /\
    lastDesired r' = allowed_ports sim_agent items /\
    lastValidateErr r' = (match res1 with OK _ => None | Fail e => Some e end) /\
    (tr2 = [] \/ is_ok res1 = true /\ DryRun sim_agent = false /\
       respects (status_ok (NodeName sim_agent) items (key_set (allowed_ports sim_agent items))) tr2).
Proof.
  destruct (run_exec sim_world (Reconcile sim_agent) (sim_start, api_start)) as [tr Htr].
  eexists tr, _.
  exact (Reconcile_exchange sim_agent _ sim_backend tr (OK tt) eq_refl Htr).
Defined.

Definition sim_setup : handler SetupE unit :=
  fun X req =>
    match req in SetupE Y return unit -> Y * unit with
    | SetupConfig e => fun w =>
        (match e in ConfigE Y return Y with GetConfigMap _ _ => OK sample_data end, w)
    | ConnectSystemBus => fun w => (OK tt, w)
    | SetupHost e => fun w => (fst (sum_handler sim_handler sim_iptables _ e (sim_start, chains_start)), w)
    end.

Definition dry_agent : AgentReconciler AnyBackend :=
  MkAgentReconciler "n1" (Some (AnyDryRun (MkDryRunBackend (AnyFirewalld sim_backend))))
    (MkFirewallPolicy [22; 6443]) true [] None.

Lemma dry_agent_setup : fst (run sim_setup (agent_setup "n1" "" "") tt) = OK dry_agent.
Proof. reflexivity. Qed.

Lemma dry_run_changes_nothing_witness :
  exists tr0 tr, Forall reads_only tr0 /\
    Forall (fun ev => exists items, ev = list_answer (E := HostE) items) tr /\ length tr = 1%nat.
Proof.
  destruct (run_exec sim_setup (agent_setup "n1" "" "") tt) as [tr0 Htr0].
  rewrite dry_agent_setup in Htr0. exists tr0, [list_answer (OK [])].
  refine (let H := dry_run_changes_nothing "n1" "" "" tr0 dry_agent _ [list_answer (OK [])] Htr0 eq_refl _
          in conj (proj1 H) (conj (proj2 H) eq_refl)).
  change [list_answer (OK [])] with ([@list_answer HostE (OK [])] ++ []).
  eapply reconciles_cons; [|apply reconciles_nil].
  by eexists (OK []), [].
Unshelve.
Defined.

Lemma agent_opens_only_exposed_witness :
  exists items, exposed (Policy sim_agent) (NodeName sim_agent) items (key (tcp 8443)).
Proof.
  pose proof (trace_exec sim_world (Reconcile sim_agent) (sim_start, api_start)) as Htr.
  destruct (run sim_world (Reconcile sim_agent) (sim_start, api_start)) as [[r' res] w'].
  assert (tcp 8443 ∈ omap added (trace_of sim_world (Reconcile sim_agent) (sim_start, api_start)))
    as ([X [[]|] x] & Hin & [= ->])%list_elem_of_omap
    by (apply (bool_decide_unpack _); vm_compute; exact I).
  destruct (agent_opens_only_exposed sim_agent r' sim_backend _ res _ (tcp 8443) _ eq_refl Htr Hin)
    as (items & _ & H).
  exists items. exact H.
Defined.

Lemma Reconcile_converges_witness :
  let expose k := exposed (Policy sim_agent) "n1" (map_to_list (sim_stored api_start)).*2 k in
  exists r' w1' w2',
    run sim_world (Reconcile sim_agent) (sim_start, api_start) = ((r', OK tt), (w1', w2')) /\ True /\
    (forall k, k ∈ sim_opened w1' <->
       (k ∈ sim_opened sim_start /\ k ∉ owned_keys (sim_file sim_start)) \/ expose k) /\
    (forall name, is_Some (sim_stored w2' !! name) -> is_Some (sim_stored api_start !! name)) /\
    (forall name l, sim_stored api_start !! name = Some l -> exists present l',
       sim_stored w2' !! name = Some l' /\ node_set "n1" present l l' /\
       (present = true <->
          appliesToNode (spec_Nodes (lbp_Spec l)) "n1" = true /\ expose (lbport_key l))).
Proof.
  pose proof (sim_laws (zone sim_backend)).
  refine (Reconcile_converges sim_backend sim_handler _ _ _ sim_api _
    (FirewalldBackend_contract sim_handler sim_backend sim_opened sim_file) sim_api_laws
    sim_agent sim_start api_start eq_refl eq_refl I _).
  apply map_Forall_lookup. intros name l. rewrite sim_stored_lookup. unfold api_start.
  rewrite !lookup_insert, lookup_empty. repeat case_decide; intros; simplify_eq/=;
    (split; [simpl; lia|by left]).
Defined.
