(* ===== verification/ProxyFlags.v ===== *)
(** * ProxyFlags: the forwarding rules of the proxy and the flags they come from

    Models the parsers and [Run] of internal/proxy/proxy.go, from the values the
    flag package collects to the list of rules handed to [Serve]. *)
From S2P Require Import Prelude GoStrings GoNet.
From Stdlib Require Import Ascii.
Open Scope go_scope.
Open Scope Z_scope.

Definition ProtocolTCP : string := "tcp".
Definition ProtocolUDP : string := "udp".

Record Spec := MkSpec {
  Listen : string;
  Upstream : string;
  SpecProtocol : string;
  ProxyProtocol : string;
  Endpoints : list string
}.

#[export] Instance Spec_eq_dec : EqDecision Spec.
Proof. solve_decision. Defined.

Definition protocol (s : Spec) : string :=
  if bool_decide (SpecProtocol s = "") then ProtocolTCP else SpecProtocol s.

Definition parsePair (s : string) : result Spec :=
  match cut "=" s with
  | None => Fail (errorf ("invalid pair " +:+ fmt_q s +:+ ": expected listen=upstream"))
  | Some (listen, upstream) =>
      if bool_decide (listen = "") || bool_decide (upstream = "")
      then Fail (errorf ("invalid pair " +:+ fmt_q s +:+ ": empty listen or upstream"))
      else
        let! _ := wrap_result ("invalid listen " +:+ fmt_q listen +:+ ": ") (SplitHostPort listen) in
        let! _ := wrap_result ("invalid upstream " +:+ fmt_q upstream +:+ ": ") (SplitHostPort upstream) in
        OK (MkSpec listen upstream "" "" [])
  end.

Fixpoint parsePairsWithProtocol (raw : list string) (proto : string) : result (list Spec) :=
  match raw with
  | [] => OK []
  | r :: raw' =>
      let! spec := parsePair r in
      let! specs := parsePairsWithProtocol raw' proto in
      OK (MkSpec (Listen spec) (Upstream spec) proto (ProxyProtocol spec) (Endpoints spec) :: specs)
  end.

(** The inner loop of [parseEndpointPairs]. *)
Fixpoint parse_endpoints (raw : list string) : result (list string) :=
  match raw with
  | [] => OK []
  | endpoint :: raw' =>
      let trimmed := TrimSpace endpoint in
      if bool_decide (trimmed = "") then parse_endpoints raw'
      else
        let! _ := wrap_result ("invalid endpoint " +:+ fmt_q trimmed +:+ " in endpoint pair: ")
                    (SplitHostPort trimmed) in
        let! filtered := parse_endpoints raw' in
        OK (trimmed :: filtered)
  end.

(** One iteration of its outer loop. *)
Definition parse_endpoint_pair (r : string) : result (string * list string) :=
  match cut "=" r with
  | None => Fail (errorf ("invalid endpoint pair " +:+ fmt_q r +:+ ": expected listen=endpoints[,...]"))
  | Some (listen, endpoints) =>
      if bool_decide (listen = "") || bool_decide (endpoints = "")
      then Fail (errorf ("invalid endpoint pair " +:+ fmt_q r +:+ ": empty listen or endpoints"))
      else
        let! _ := wrap_result ("invalid listen " +:+ fmt_q listen +:+ " in endpoint pair: ")
                    (SplitHostPort listen) in
        let! filtered := parse_endpoints (Split endpoints ",") in
        if bool_decide (filtered = [])
        then Fail (errorf ("invalid endpoint pair " +:+ fmt_q r +:+ ": no endpoints"))
        else OK (listen, filtered)
  end.

Fixpoint parse_endpoint_pairs (result : gmap string (list string)) (raw : list string)
    : Prelude.result (gmap string (list string)) :=
  match raw with
  | [] => OK result
  | r :: raw' =>
      let! (listen, filtered) := parse_endpoint_pair r in
      parse_endpoint_pairs (<[listen := filtered]> result) raw'
  end.

Definition parseEndpointPairs (raw : list string) : result (gmap string (list string)) :=
  parse_endpoint_pairs ∅ raw.

(** The values of the flags [Run] reads, as the flag package leaves them. *)
Record ProxyFlags := MkProxyFlags {
  tcpPairs : list string;       (* --upstream *)
  udpPairs : list string;       (* --udp-upstream *)
  proxyProto : string;          (* --proxy-protocol *)
  endpointPairs : list string   (* --endpoint *)
}.

Definition with_proxy_protocol (v : string) (s : Spec) : Spec :=
  MkSpec (Listen s) (Upstream s) (SpecProtocol s) v (Endpoints s).

Definition with_endpoints (m : gmap string (list string)) (s : Spec) : Spec :=
  match m !! Listen s with
  | Some endpoints => MkSpec (Listen s) (Upstream s) (SpecProtocol s) (ProxyProtocol s) endpoints
  | None => s
  end.

(** [Run] up to the call of [Serve]. *)
Definition Run_specs (f : ProxyFlags) : result (list Spec) :=
  if bool_decide (tcpPairs f = []) && bool_decide (udpPairs f = [])
  then Fail (errorf "at least one --upstream or --udp-upstream pair is required")
  else if negb (bool_decide (proxyProto f = "")) && negb (bool_decide (proxyProto f = "1"))
            && negb (bool_decide (proxyProto f = "2"))
  then Fail (errorf ("invalid --proxy-protocol value " +:+ fmt_q (proxyProto f)
                       +:+ ": must be empty, '1', or '2'"))
  else
    let! specs := parsePairsWithProtocol (tcpPairs f) ProtocolTCP in
    let! udpSpecs := parsePairsWithProtocol (udpPairs f) ProtocolUDP in
    let specs := with_proxy_protocol (proxyProto f) <$> (specs ++ udpSpecs) in
    let! endpointMap := wrap_result "parse endpoints: " (parseEndpointPairs (endpointPairs f)) in
    OK (with_endpoints endpointMap <$> specs).

(** ** What the parsers accept *)

Definition hostport (s : string) : Prop := exists h p, SplitHostPort s = OK (h, p).

Lemma wrap_result_ok {A} prefix (r : result A) a : wrap_result prefix r = OK a <-> r = OK a.
Proof. by destruct r. Qed.

(** A flag value that is a pair of host and port strings. *)
Definition is_pair (s listen upstream : string) : Prop :=
  s = listen +:+ "=" +:+ upstream /\ no_char "=" listen /\ listen <> "" /\ upstream <> "" /\
  hostport listen /\ hostport upstream.

Lemma parsePair_iff s spec :
  parsePair s = OK spec <-> exists l u, is_pair s l u /\ spec = MkSpec l u "" "" [].
Proof.
  unfold parsePair, is_pair. split.
  - destruct (cut "=" s) as [[l u]|] eqn:Hcut; [|done]. apply cut_Some in Hcut as [-> Hl].
    repeat case_bool_decide; simpl; try done.
    rewrite bind_result_ok. intros ([h p] & Hlp%wrap_result_ok & Hr).
    apply bind_result_ok in Hr as ([h' p'] & Hup%wrap_result_ok & [= <-]).
    exists l, u. split; [|done]. unfold hostport. eauto 10.
  - intros (l & u & (-> & Hl & ? & ? & (h & p & Hlp) & (h' & p' & Hup)) & ->).
    change ("=" +:+ u) with (String "=" u). rewrite cut_app by done.
    rewrite !bool_decide_false by done. simpl. by rewrite Hlp, Hup.
Qed.

Lemma parsePairs_iff raw proto specs :
  parsePairsWithProtocol raw proto = OK specs <->
  Forall2 (fun r spec => exists l u, is_pair r l u /\ spec = MkSpec l u proto "" []) raw specs.
Proof.
  revert specs. induction raw as [|r raw IH]; intros specs; simpl.
  { split; [by intros [= <-]|]. by inversion 1. }
  rewrite bind_result_ok. split.
  - intros (spec & (l & u & Hp & ->)%parsePair_iff & H).
    apply bind_result_ok in H as (specs' & ?%IH & [= <-]). constructor; [|done]. by exists l, u.
  - inversion 1 as [|? ? ? specs' (l & u & Hp & ->) Hf]; subst.
    exists (MkSpec l u "" "" []). split; [apply parsePair_iff; by exists l, u|].
    apply bind_result_ok. exists specs'. split; [by apply IH|done].
Qed.

(** The endpoints a flag value lists: the parts that are not blank, trimmed. *)
Definition endpoint_parts (s : string) : list string :=
  filter (fun e => e <> "") (TrimSpace <$> Split s ",").

Lemma parse_endpoints_iff raw es :
  parse_endpoints raw = OK es <->
  es = filter (fun e => e <> "") (TrimSpace <$> raw) /\ Forall hostport es.
Proof.
  revert es. induction raw as [|e raw IH]; intros es; simpl.
  { split; [by intros [= <-]|]. by intros [-> _]. }
  csimpl. case_bool_decide as Hb.
  { rewrite filter_cons_False by tauto. apply IH. }
  rewrite filter_cons_True, bind_result_ok by done. split.
  - intros ([h p] & Hs%wrap_result_ok & H). apply bind_result_ok in H as (es' & [-> Hes]%IH & [= <-]).
    split; [done|]. constructor; [by exists h, p|done].
  - intros [-> [(h & p & Hs) Hes]%Forall_cons]. exists (h, p). split; [by rewrite Hs|].
    apply bind_result_ok. eexists. split; [apply IH; by split|done].
Qed.

(** A flag value that gives the listener [listen] the endpoints [es]. *)
Definition is_endpoint_pair (r listen : string) (es : list string) : Prop :=
  exists raw, r = listen +:+ "=" +:+ raw /\ no_char "=" listen /\ listen <> "" /\
    hostport listen /\ es = endpoint_parts raw /\ es <> [] /\ Forall hostport es.

Lemma parse_endpoint_pair_iff r listen es :
  parse_endpoint_pair r = OK (listen, es) <-> is_endpoint_pair r listen es.
Proof.
  unfold parse_endpoint_pair, is_endpoint_pair, endpoint_parts. split.
  - destruct (cut "=" r) as [[l u]|] eqn:Hcut; [|done]. apply cut_Some in Hcut as [-> Hl].
    destruct (bool_decide (l = "")) eqn:Hl0; [done|]. destruct (bool_decide (u = "")); [done|].
    simpl. rewrite bind_result_ok. intros ([h p] & Hlp%wrap_result_ok & H).
    apply bind_result_ok in H as (es' & [-> Hes]%parse_endpoints_iff & H). case_bool_decide; [done|].
    injection H as <- <-. exists u. apply bool_decide_eq_false in Hl0. unfold hostport. eauto 15.
  - intros (raw & -> & Hl & Hl0 & (h & p & Hlp) & -> & Hne & Hes).
    change ("=" +:+ raw) with (String "=" raw). rewrite cut_app by done.
    rewrite bool_decide_false by done. rewrite bool_decide_false by (by intros ->). simpl.
    rewrite Hlp. simpl. rewrite (proj2 (parse_endpoints_iff _ _)) by done. simpl.
    by rewrite bool_decide_false.
Qed.

(** The endpoints a listener ends up with: those of its last flag value. *)
Definition last_endpoints (pairs : list (string * list string)) (listen : string) : option (list string) :=
  snd <$> last (filter (fun p => p.1 = listen) pairs).

Lemma parse_endpoint_pairs_iff m raw m' :
  parse_endpoint_pairs m raw = OK m' <->
  exists pairs, Forall2 (fun r p => is_endpoint_pair r p.1 p.2) raw pairs /\
    m' = foldl (fun m p => <[p.1 := p.2]> m) m pairs.
Proof.
  revert m. induction raw as [|r raw IH]; intros m; simpl.
  { split; [intros [= <-]; by exists []|]. by intros (pairs & ->%Forall2_nil_inv_l & ->). }
  rewrite bind_result_ok. split.
  - intros ([l es] & Hp%parse_endpoint_pair_iff & (pairs & Hf & ->)%IH).
    exists ((l, es) :: pairs). by split; [constructor|].
  - intros (pairs & (p & pairs' & Hp & Hf & ->)%Forall2_cons_inv_l & ->).
    exists p. destruct p as [l es]. split; [by apply parse_endpoint_pair_iff|]. apply IH. by exists pairs'.
Qed.

Lemma foldl_insert_last (m : gmap string (list string)) (pairs : list (string * list string)) k :
  foldl (fun m p => <[p.1 := p.2]> m) m pairs !! k =
  match last_endpoints pairs k with Some es => Some es | None => m !! k end.
Proof.
  unfold last_endpoints. induction pairs as [|[l es] pairs IH] using rev_ind; [done|].
  rewrite foldl_snoc, filter_app. simpl. destruct (decide (l = k)) as [->|Hne].
  - rewrite lookup_insert_eq, filter_cons_True, filter_nil, last_snoc by done. done.
  - by rewrite lookup_insert_ne, filter_cons_False, filter_nil, app_nil_r by done.
Qed.

(** ** The rules [Run] serves *)

(** The rule a flag value [r] stands for. *)
Definition rule_of (proto version : string) (pairs : list (string * list string)) (r : string)
    (spec : Spec) : Prop :=
  exists l u, is_pair r l u /\
    spec = MkSpec l u proto version (default [] (last_endpoints pairs l)).

Lemma Run_specs_iff f specs :
  Run_specs f = OK specs <->
  (tcpPairs f <> [] \/ udpPairs f <> []) /\ (proxyProto f = "" \/ proxyProto f = "1" \/ proxyProto f = "2") /\
  exists pairs tcp udp,
    Forall2 (fun r p => is_endpoint_pair r p.1 p.2) (endpointPairs f) pairs /\
    Forall2 (rule_of ProtocolTCP (proxyProto f) pairs) (tcpPairs f) tcp /\
    Forall2 (rule_of ProtocolUDP (proxyProto f) pairs) (udpPairs f) udp /\
    specs = tcp ++ udp.
Proof.
  assert (forall proto pairs raw specs,
    Forall2 (rule_of proto (proxyProto f) pairs) raw specs <->
    exists specs0, Forall2 (fun r spec => exists l u, is_pair r l u /\ spec = MkSpec l u proto "" []) raw specs0
      /\ specs = with_endpoints (foldl (fun m p => <[p.1 := p.2]> m) ∅ pairs) ∘
                   with_proxy_protocol (proxyProto f) <$> specs0) as Hrules.
  { intros proto pairs raw. induction raw as [|r raw IH]; intros specs'.
    - split; [intros ->%Forall2_nil_inv_l; by exists []|]. by intros (? & ->%Forall2_nil_inv_l & ->).
    - assert (forall l u, MkSpec l u proto (proxyProto f) (default [] (last_endpoints pairs l)) =
        with_endpoints (foldl (fun m p => <[p.1 := p.2]> m) ∅ pairs)
          (with_proxy_protocol (proxyProto f) (MkSpec l u proto "" []))) as Hmk.
      { intros l u. unfold with_endpoints. simpl. rewrite foldl_insert_last, lookup_empty.
        by destruct (last_endpoints pairs l). }
      split.
      + intros (s & ss & (l & u & Hp & ->) & (ss0 & Hf & ->)%IH & ->)%Forall2_cons_inv_l.
        exists (MkSpec l u proto "" [] :: ss0). split; [constructor; eauto|]. csimpl. by rewrite Hmk.
      + intros (ss0 & (s & ss & (l & u & Hp & ->) & Hf & ->)%Forall2_cons_inv_l & ->). csimpl.
        constructor; [exists l, u; split; [done|by rewrite Hmk]|]. apply IH. eauto. }
  setoid_rewrite Hrules. unfold Run_specs. split.
  - destruct (bool_decide (tcpPairs f = []) && _) eqn:H1; [done|].
    destruct (negb _ && _ && _) eqn:H2; [done|]. rewrite bind_result_ok.
    intros (tcp & Ht%parsePairs_iff & H). apply bind_result_ok in H as (udp & Hu%parsePairs_iff & H).
    apply bind_result_ok in H as (m & Hm%wrap_result_ok & [= <-]).
    apply parse_endpoint_pairs_iff in Hm as (pairs & Hp & ->).
    split_and!.
    + apply andb_false_iff in H1 as [?%bool_decide_eq_false|?%bool_decide_eq_false]; auto.
    + apply andb_false_iff in H2 as [[?|?]%andb_false_iff|?];
        match goal with H : negb _ = false |- _ => apply negb_false_iff, bool_decide_eq_true in H; auto end.
    + eexists pairs, _, _. split_and!; [done|by exists tcp|by exists udp|].
      by rewrite <-list_fmap_compose, fmap_app.
  - intros (H1 & H2 & pairs & ? & ? & Hp & (tcp & Ht & ->) & (udp & Hu & ->) & ->).
    rewrite (proj2 (andb_false_iff _ _)) by (rewrite !bool_decide_eq_false; tauto).
    rewrite (proj2 (andb_false_iff _ _))
      by (rewrite andb_false_iff, !negb_false_iff, !bool_decide_eq_true; tauto).
    apply bind_result_ok. exists tcp. split; [by apply parsePairs_iff|].
    apply bind_result_ok. exists udp. split; [by apply parsePairs_iff|].
    apply bind_result_ok. eexists. split; [apply wrap_result_ok, parse_endpoint_pairs_iff; by exists pairs|].
    by rewrite <-list_fmap_compose, fmap_app.
Qed.

(** C31: [Run] accepts exactly the flags with at least one rule, a PROXY version that
    is empty, 1 or 2, and values that are pairs of host and port strings. It then
    serves one rule per `--upstream` and then one per `--udp-upstream`, in their
    order, each with the addresses of its pair, the PROXY version, and the
    endpoints of the last `--endpoint` for its listen address, if any. *)
Theorem Run_specs_correct (f : ProxyFlags) (specs : list Spec) :
  Run_specs f = OK specs <->
  (tcpPairs f <> [] \/ udpPairs f <> []) /\ (proxyProto f = "" \/ proxyProto f = "1" \/ proxyProto f = "2") /\
  exists pairs tcp udp,
    Forall2 (fun r p => is_endpoint_pair r p.1 p.2) (endpointPairs f) pairs /\
    Forall2 (rule_of ProtocolTCP (proxyProto f) pairs) (tcpPairs f) tcp /\
    Forall2 (rule_of ProtocolUDP (proxyProto f) pairs) (udpPairs f) udp /\
    specs = tcp ++ udp.
Proof. apply Run_specs_iff. Qed.

Example Run_specs_sample :
  Run_specs (MkProxyFlags ["0.0.0.0:80=10.96.0.1:8080"; "[::]:80=[fd00::1]:8080"] ["0.0.0.0:53=10.96.0.2:53"] "2"
               ["0.0.0.0:80=10.1.0.1:80, 10.1.0.2:80,"]) =
  OK [MkSpec "0.0.0.0:80" "10.96.0.1:8080" "tcp" "2" ["10.1.0.1:80"; "10.1.0.2:80"];
      MkSpec "[::]:80" "[fd00::1]:8080" "tcp" "2" [];
      MkSpec "0.0.0.0:53" "10.96.0.2:53" "udp" "2" []].
Proof. vm_compute. reflexivity. Qed.
