(* ===== verification/ProxyUpstream.v ===== *)
(** * ProxyUpstream: which upstream a connection is given

    Models [upstreamFor] and its per-listener counters of internal/proxy/proxy.go,
    and the readiness check of internal/proxy/health.go. The counters live in a
    [sync.Map] shared by all connections; each call is one atomic increment, so
    calls are taken in the order of their increments. *)
From S2P Require Import Prelude GoStrings Effects ProxyFlags.
Open Scope Z_scope.

Definition uint64 (n : Z) : Z := n mod 2 ^ 64.

Definition counter_key (spec : Spec) : string := protocol spec +:+ ":" +:+ Listen spec.

(** [atomicCounter.Inc]: the value returned and the count left behind. *)
Definition Inc (count : Z) : Z * Z := (uint64 (uint64 (count + 1) - 1), uint64 (count + 1)).

(** [None] is a panic: an index out of range. *)
Definition upstreamFor (spec : Spec) (counters : gmap string Z) : option string * gmap string Z :=
  match Endpoints spec with
  | [] => (Some (Upstream spec), counters)
  | endpoints =>
      let key := counter_key spec in
      let '(v, count) := Inc (default 0 (counters !! key)) in
      let idx := v mod uint64 (Z.of_nat (length endpoints)) in
      (endpoints !! Z.to_nat idx, <[key := count]> counters)
  end.

(** ** Readiness *)

Definition readinessUpstream (spec : Spec) : string :=
  match Endpoints spec with
  | e :: _ => e
  | [] => Upstream spec
  end.

Inductive DialE : Type -> Type :=
| DialContext (address : string) : DialE (result unit)
| CloseConn (address : string) : DialE unit.     (* of the connection just made *)

Definition StatusOK : Z := 200.
Definition StatusServiceUnavailable : Z := 503.

(** The status code [readyz] answers with, and its body. *)
Fixpoint readyz (specs : list Spec) : prog DialE (Z * string) :=
  match specs with
  | [] => Ret (StatusOK, "ready
")
  | spec :: specs' =>
      if negb (bool_decide (protocol spec = ProtocolTCP)) then readyz specs'
      else
        let upstream := readinessUpstream spec in
        let* conn := call (DialContext upstream) in
        match conn with
        | Fail e =>
            Ret (StatusServiceUnavailable,
                 "tcp upstream " +:+ upstream +:+ " for listener " +:+ Listen spec +:+ " is not ready: "
                   +:+ Error e +:+ "
")
        | OK _ => let* _ := call (CloseConn upstream) in readyz specs'
        end
  end.

(** ** Sequences of connections *)

(** The upstreams given to connections for the rules [specs], in order. *)
Fixpoint serve (specs : list Spec) (counters : gmap string Z) : list (option string) * gmap string Z :=
  match specs with
  | [] => ([], counters)
  | spec :: specs' =>
      let '(u, counters1) := upstreamFor spec counters in
      let '(us, counters2) := serve specs' counters1 in
      (u :: us, counters2)
  end.

(** Of the results for a sequence of rules, those for the rules with [spec]'s counter. *)
Fixpoint served_to (spec : Spec) (specs : list Spec) (us : list (option string)) : list (option string) :=
  match specs, us with
  | s :: specs', u :: us' =>
      if decide (Endpoints s <> [] /\ counter_key s = counter_key spec)
      then u :: served_to spec specs' us' else served_to spec specs' us'
  | _, _ => []
  end.

(** One rule per counter: rules that share a counter share their endpoints. *)
Definition consistent (spec : Spec) (specs : list Spec) : Prop :=
  forall s, s ∈ specs -> counter_key s = counter_key spec -> Endpoints s = Endpoints spec.

Definition count_of (counters : gmap string Z) (spec : Spec) : Z := default 0 (counters !! counter_key spec).

Definition pick (spec : Spec) (i : Z) : option string :=
  Endpoints spec !! Z.to_nat (i mod Z.of_nat (length (Endpoints spec))).

Lemma uint64_small n : 0 <= n < 2 ^ 64 -> uint64 n = n.
Proof. apply Z.mod_small. Qed.

Lemma upstreamFor_pick spec counters :
  Endpoints spec <> [] -> Z.of_nat (length (Endpoints spec)) < 2 ^ 64 ->
  0 <= count_of counters spec < 2 ^ 64 ->
  upstreamFor spec counters =
  (pick spec (count_of counters spec), <[counter_key spec := uint64 (count_of counters spec + 1)]> counters).
Proof.
  intros Hne Hlen Hc. unfold upstreamFor, pick. fold (count_of counters spec).
  assert (uint64 (uint64 (count_of counters spec + 1) - 1) = count_of counters spec) as Hv.
  { unfold uint64. rewrite Zminus_mod_idemp_l. replace (_ + 1 - 1) with (count_of counters spec) by lia.
    by apply Z.mod_small. }
  destruct (Endpoints spec) as [|e es] eqn:He; [done|]. unfold Inc. rewrite Hv.
  by rewrite (uint64_small (Z.of_nat _)) by (split; [lia|done]).
Qed.

Lemma serve_round_robin spec specs counters :
  Endpoints spec <> [] -> Z.of_nat (length (Endpoints spec)) < 2 ^ 64 -> consistent spec specs ->
  0 <= count_of counters spec ->
  let n := length (filter (fun s => counter_key s = counter_key spec) specs) in
  count_of counters spec + Z.of_nat n < 2 ^ 64 ->
  served_to spec specs (fst (serve specs counters)) =
    pick spec <$> seqZ (count_of counters spec) (Z.of_nat n) /\
  count_of (snd (serve specs counters)) spec = count_of counters spec + Z.of_nat n.
Proof.
  intros Hne Hlen. revert counters. induction specs as [|s specs IH]; intros counters Hcon Hc n Hn.
  { simpl in *. rewrite Z.add_0_r. by subst n. }
  assert (consistent spec specs) as Hcon' by (intros s' ?; apply Hcon; by right).
  subst n. rewrite filter_cons in *. cbn [serve].
  destruct (decide (counter_key s = counter_key spec)) as [Hk|Hk].
  - assert (Endpoints s = Endpoints spec) as He by (apply Hcon; [by left|done]).
    assert (count_of counters s = count_of counters spec) as Hcs by (unfold count_of; by rewrite Hk).
    rewrite length_cons, Nat2Z.inj_succ in Hn |- *.
    rewrite upstreamFor_pick by (rewrite ?He, ?Hcs; try done; lia).
    specialize (IH (<[counter_key s := uint64 (count_of counters s + 1)]> counters) Hcon').
    destruct (serve specs _) as [us c2]. rewrite Hcs in IH |- *.
    rewrite (uint64_small (_ + 1)) in IH by lia.
    assert (count_of (<[counter_key s := count_of counters spec + 1]> counters) spec
      = count_of counters spec + 1) as Hcount by (unfold count_of at 1; by rewrite Hk, lookup_insert_eq).
    rewrite Hcount in IH. destruct IH as [IH1 IH2]; [lia|lia|].
    cbn [served_to fst snd] in *. rewrite decide_True by by rewrite He.
    rewrite IH1, IH2, (seqZ_cons _ (Z.succ _)) by lia. split; [|lia]. rewrite fmap_cons. f_equal.
    + unfold pick. by rewrite He.
    + f_equal. f_equal; lia.
  - assert (forall u c, upstreamFor s counters = (u, c) -> count_of c spec = count_of counters spec) as Hsame.
    { intros u c. unfold upstreamFor. destruct (Endpoints s); [by intros [= _ <-]|].
      destruct (Inc _) as [v cnt]. intros [= _ <-]. unfold count_of. by rewrite lookup_insert_ne. }
    destruct (upstreamFor s counters) as [u c1] eqn:Hu. specialize (Hsame _ _ eq_refl).
    specialize (IH c1 Hcon'). destruct (serve specs c1) as [us c2]. rewrite Hsame in IH.
    cbn [served_to fst snd] in *. rewrite decide_False by tauto. by apply IH.
Qed.

Lemma pick_bounds spec i : Endpoints spec <> [] -> 0 <= i -> is_Some (pick spec i).
Proof.
  intros Hne Hi. unfold pick. apply lookup_lt_is_Some.
  assert (0 < Z.of_nat (length (Endpoints spec))) by (destruct (Endpoints spec); simpl in *; [done|lia]).
  pose proof (Z.mod_pos_bound i (Z.of_nat (length (Endpoints spec)))). lia.
Qed.

(** C30: Connections to a listener with endpoints are spread over them in turn: with
    connections to other listeners in between, the i-th connection gets endpoint
    number (start + i) modulo the number of endpoints, so the choice repeats with
    that period and no index is out of range; as long as the 64-bit counter does
    not wrap. *)
Theorem upstreamFor_round_robin (spec : Spec) (specs : list Spec) (counters : gmap string Z)
    (Hne : Endpoints spec <> []) (Hlen : Z.of_nat (length (Endpoints spec)) < 2 ^ 64)
    (Hcon : consistent spec specs) (Hstart : 0 <= count_of counters spec)
    (Hwrap : count_of counters spec + Z.of_nat (length specs) < 2 ^ 64) :
  let n := length (filter (fun s => counter_key s = counter_key spec) specs) in
  let given := served_to spec specs (fst (serve specs counters)) in
  length given = n /\
  (forall i, (i < n)%nat -> exists u,
     given !! i = Some (Some u) /\
     Endpoints spec !! Z.to_nat ((count_of counters spec + Z.of_nat i)
                                 mod Z.of_nat (length (Endpoints spec))) = Some u) /\
  (forall i, (i + length (Endpoints spec) < n)%nat -> given !! (i + length (Endpoints spec))%nat = given !! i).
Proof.
  intros n given.
  assert (n <= length specs)%nat as Hn by apply length_filter.
  destruct (serve_round_robin spec specs counters) as [Hg _]; [done..|lia|].
  fold n given in Hg. rewrite Hg. set (c := count_of counters spec) in *.
  assert (forall i, (i < n)%nat -> (pick spec <$> seqZ c (Z.of_nat n)) !! i = Some (pick spec (c + Z.of_nat i)))
    as Hi.
  { intros i Hin. rewrite list_lookup_fmap, lookup_seqZ_lt by lia. done. }
  split_and!.
  - rewrite length_fmap, length_seqZ. lia.
  - intros i Hin. rewrite Hi by done.
    destruct (pick_bounds spec (c + Z.of_nat i)) as [u Hu]; [done|lia|]. exists u. by rewrite Hu.
  - intros i Hin. rewrite !Hi by lia. unfold pick. do 3 f_equal.
    rewrite Nat2Z.inj_add, Z.add_assoc. generalize (c + Z.of_nat i). intros x.
    pose proof (Z_mod_plus_full x 1 (Z.of_nat (length (Endpoints spec)))) as H.
    by rewrite Z.mul_1_l in H.
Qed.

Definition sample_spec : Spec := MkSpec "0.0.0.0:80" "10.96.0.1:80" "tcp" "" ["10.1.0.1:80"; "10.1.0.2:80"].
Definition other_spec : Spec := MkSpec "0.0.0.0:81" "10.96.0.2:80" "tcp" "" ["10.1.0.3:80"].

Example serve_sample :
  fst (serve [sample_spec; other_spec; sample_spec; sample_spec] ∅) =
  [Some "10.1.0.1:80"; Some "10.1.0.3:80"; Some "10.1.0.2:80"; Some "10.1.0.1:80"].
Proof. vm_compute. reflexivity. Qed.

(** [readyz] answers 200 exactly when every TCP rule's readiness upstream could
    be dialled, trying them in order and stopping at the first that cannot, and closes
    every connection it makes before it makes the next; UDP rules are not looked at. *)
Lemma exec_readyz (specs : list Spec) (tr : list (event DialE)) (code : Z) (body : string)
    (Hexec : exec (readyz specs) tr (code, body)) :
  let dialled := readinessUpstream <$> filter (fun s => protocol s = ProtocolTCP) specs in
  let ok a := [Ev (DialContext a) (OK tt); Ev (CloseConn a) tt] in
  (code = 200 /\ tr = dialled ≫= ok) \/
  (code = 503 /\ exists l1 a l2 e, dialled = l1 ++ a :: l2 /\
     tr = (l1 ≫= ok) ++ [Ev (DialContext a) (Fail e)]).
Proof.
  revert tr Hexec. induction specs as [|s specs IH]; intros tr Hexec; simpl in Hexec.
  { destruct Hexec as [[= -> ->] ->]. by left. }
  case_bool_decide as Hp; simpl in Hexec.
  2: { rewrite filter_cons_False by done. by apply IH. }
  rewrite filter_cons_True by done. cbv zeta. csimpl.
  destruct Hexec as ([[]|e] & t & -> & H).
  - destruct H as ([] & t1 & -> & H). apply IH in H as [[-> ->]|(-> & l1 & a & l2 & e & Hd & ->)]; [by left|right].
    split; [done|]. exists (readinessUpstream s :: l1), a, l2, e. by rewrite Hd.
  - destruct H as [[= -> ->] ->]. right. split; [done|].
    by eexists [], _, _, e.
Qed.

Lemma upstreamFor_round_robin_witness :
  let specs := [sample_spec; other_spec; sample_spec; sample_spec] in
  let given := served_to sample_spec specs (fst (serve specs ∅)) in
  length given = 3%nat /\
  (forall i, (i < 3)%nat -> exists u,
     given !! i = Some (Some u) /\
     Endpoints sample_spec !! Z.to_nat ((count_of ∅ sample_spec + Z.of_nat i)
                                 mod Z.of_nat (length (Endpoints sample_spec))) = Some u) /\
  (forall i, (i + 2 < 3)%nat -> given !! (i + 2)%nat = given !! i).
Proof.
  apply (upstreamFor_round_robin sample_spec [sample_spec; other_spec; sample_spec; sample_spec] ∅).
  - discriminate.
  - reflexivity.
  - intros s Hs Hk. repeat (apply elem_of_cons in Hs as [->|Hs]); try done. by apply elem_of_nil in Hs.
  - discriminate.
  - reflexivity.
Defined.

Lemma exec_readyz_sample :
  exists tr, let ok a := [Ev (DialContext a) (OK tt); Ev (CloseConn a) tt] in
  let dialled := readinessUpstream <$> filter (fun s => protocol s = ProtocolTCP) [sample_spec; other_spec] in
  (200 = 200 /\ tr = dialled ≫= ok) \/
  (200 = 503 /\ exists l1 a l2 e, dialled = l1 ++ a :: l2 /\
     tr = (l1 ≫= ok) ++ [Ev (DialContext a) (Fail e)]).
Proof.
  exists [Ev (DialContext "10.1.0.1:80") (OK tt); Ev (CloseConn "10.1.0.1:80") tt;
          Ev (DialContext "10.1.0.3:80") (OK tt); Ev (CloseConn "10.1.0.3:80") tt].
  apply (exec_readyz [sample_spec; other_spec] _ 200 "ready
").
  simpl. by repeat eexists.
Defined.
