(* ===== verification/ProxyHeader.v ===== *)
(** * ProxyHeader: the PROXY protocol headers sent to upstreams

    Models [buildProxyV1Header] and [buildProxyV2Header] of
    internal/proxy/proxy.go. A byte slice is a list of integers below 256. The
    decoder at the end is the reader the PROXY protocol specification (version 2)
    prescribes, and is what the headers are checked against. *)
From S2P Require Import Prelude GoStrings GoNet.
From Stdlib Require Import Ascii.
Open Scope Z_scope.

Record TCPAddr := MkTCPAddr { addr_IP : IP; addr_Port : Z }.

(** [byte(n)] *)
Definition to_byte (n : Z) : Z := Z.land n 255.

Definition crlf : string := String "013" (String "010" "").

Definition is_v4 (ip : IP) : bool := match To4 ip with Some _ => true | None => false end.

Definition buildProxyV1Header (src dst : TCPAddr) : string :=
  let IAL := if is_v4 (addr_IP src) then "INET" else "INET6" in
  "PROXY " +:+ IAL +:+ " " +:+ IP_String (addr_IP src) +:+ " " +:+ IP_String (addr_IP dst) +:+ " "
    +:+ fmt_d (addr_Port src) +:+ " " +:+ fmt_d (addr_Port dst) +:+ crlf.

Definition v2_signature : list Z := [13; 10; 13; 10; 0; 13; 10; 81; 85; 73; 84; 10].

(** The address as it is written: [To4] if there is one, else [To16], and
    nothing for a nil slice. *)
Definition address_bytes (ip : IP) : list Z :=
  match To4 ip with Some p4 => p4 | None => default [] (To16 ip) end.

Definition port_bytes (port : Z) : list Z := [to_byte (Z.shiftr port 8); to_byte (Z.land port 255)].

Definition buildProxyV2Header (src dst : TCPAddr) : list Z :=
  let payloadLen := if is_v4 (addr_IP src) then 12 else 36 in
  v2_signature ++ [33] ++ [if is_v4 (addr_IP src) then 17 else 33] ++
  [to_byte (Z.shiftr payloadLen 8); to_byte (Z.land payloadLen 255)] ++
  address_bytes (addr_IP src) ++ address_bytes (addr_IP dst) ++
  port_bytes (addr_Port src) ++ port_bytes (addr_Port dst) ++ [13; 10].

Fixpoint bytes_of (s : string) : list Z :=
  match s with EmptyString => [] | String c s' => code c :: bytes_of s' end.

(** The header written for a version, an error for any other. *)
Definition header_bytes (version : string) (client proxy : TCPAddr) : result (list Z) :=
  if bool_decide (version = "1") then OK (bytes_of (buildProxyV1Header client proxy))
  else if bool_decide (version = "2") then OK (buildProxyV2Header client proxy)
  else Fail (errorf ("unsupported PROXY protocol version: " +:+ version)).

(** ** The reader of the specification *)

Definition be16 (bs : list Z) : option Z :=
  match bs with [a; b] => Some (a * 256 + b) | _ => None end.

(** Source, destination, their ports, and the bytes that follow the header: the
    header is 16 bytes and as many as its length field says. *)
Definition decode_v2 (bs : list Z) : option (IP * IP * Z * Z * list Z) :=
  if bool_decide (take 12 bs = v2_signature) && bool_decide (bs !! 12%nat = Some 33) then
    fam ← bs !! 13%nat;
    n ← (if bool_decide (fam = 17) then Some 4%nat else if bool_decide (fam = 33) then Some 16%nat else None);
    len ← be16 (take 2 (drop 14 bs));
    let body := take (Z.to_nat len) (drop 16 bs) in
    sport ← be16 (take 2 (drop (n + n) body));
    dport ← be16 (take 2 (drop (n + n + 2) body));
    Some (take n body, take n (drop n body), sport, dport, drop (16 + Z.to_nat len) bs)
  else None.

(** An address as a socket reports it. *)
Definition valid_ip (ip : IP) : Prop :=
  Forall (fun b => 0 <= b < 256) ip /\ (length ip = 4%nat \/ length ip = 16%nat).
Definition valid_addr (a : TCPAddr) : Prop := valid_ip (addr_IP a) /\ 0 <= addr_Port a < 65536.

Lemma To4_Forall (P : Z -> Prop) ip p4 : To4 ip = Some p4 -> Forall P ip -> Forall P p4.
Proof.
  unfold To4. case_bool_decide; [by intros [= <-]|]. destruct (_ && _); [|done].
  intros [= <-]. apply Forall_drop.
Qed.

Lemma address_bytes_length ip : valid_ip ip ->
  length (address_bytes ip) = if is_v4 ip then 4%nat else 16%nat.
Proof.
  intros [_ Hl]. unfold address_bytes, is_v4. destruct (To4 ip) as [p4|] eqn:H4; [by eapply To4_length|].
  unfold To4, To16 in *. destruct Hl as [Hl|Hl]; rewrite Hl in *; [done|]. by rewrite bool_decide_false.
Qed.

Lemma port_bytes_be16 port : 0 <= port < 65536 ->
  be16 (port_bytes port) = Some port /\ length (port_bytes port) = 2%nat.
Proof.
  intros Hp. split; [|done]. unfold be16, port_bytes, to_byte. f_equal.
  rewrite <-Z.land_assoc. change (Z.land 255 255) with (Z.ones 8). change 255 with (Z.ones 8).
  rewrite !Z.land_ones, Z.shiftr_div_pow2 by lia. change (2 ^ 8) with 256.
  rewrite (Z.mod_small (port / 256)).
  - rewrite Z.mul_comm. symmetry. by apply Z_div_mod_eq_full.
  - split; [apply Z.div_pos; lia|apply Z.div_lt_upper_bound; lia].
Qed.

Lemma decode_v2_parts a b p q rest n :
  length a = n -> length b = n -> length p = 2%nat -> length q = 2%nat ->
  (n = 4%nat \/ n = 16%nat) ->
  decode_v2 (v2_signature ++ [33] ++ [if decide (n = 4%nat) then 17 else 33] ++
             [0; if decide (n = 4%nat) then 12 else 36] ++ a ++ b ++ p ++ q ++ rest) =
  sport ← be16 p; dport ← be16 q; Some (a, b, sport, dport, rest).
Proof.
  assert (forall l : list Z, length l = 4%nat -> exists a b c d, l = [a; b; c; d]) as H4.
  { intros [|x1 [|x2 [|x3 [|x4 [|]]]]] [=]. by eexists _, _, _, _. }
  intros Ha Hb Hp Hq. destruct p as [|p1 [|p2 [|]]]; [done|done| |done].
  destruct q as [|q1 [|q2 [|]]]; [done|done| |done]. intros [-> | ->].
  - destruct (H4 a Ha) as (? & ? & ? & ? & ->), (H4 b Hb) as (? & ? & ? & ? & ->). reflexivity.
  - do 16 (destruct a as [|? a]; [done|]). do 16 (destruct b as [|? b]; [done|]).
    by destruct a, b.
Qed.

Lemma length_field n :
  [to_byte (Z.shiftr (if decide (n = 4%nat) then 12 else 36) 8);
   to_byte (Z.land (if decide (n = 4%nat) then 12 else 36) 255)] =
  [0; if decide (n = 4%nat) then 12 else 36].
Proof. by case_decide. Qed.

Lemma decode_buildProxyV2Header src dst data :
  valid_addr src -> valid_addr dst -> is_v4 (addr_IP dst) = is_v4 (addr_IP src) ->
  decode_v2 (buildProxyV2Header src dst ++ data) =
  Some (address_bytes (addr_IP src), address_bytes (addr_IP dst), addr_Port src, addr_Port dst,
        [13; 10] ++ data).
Proof.
  intros [Hs Hsp] [Hd Hdp] Hfam. unfold buildProxyV2Header.
  pose proof (address_bytes_length _ Hs) as Hls. pose proof (address_bytes_length _ Hd) as Hld.
  rewrite Hfam in Hld. destruct (port_bytes_be16 _ Hsp) as [Hbs Hns], (port_bytes_be16 _ Hdp) as [Hbd Hnd].
  set (n := if is_v4 (addr_IP src) then 4%nat else 16%nat) in *.
  assert ((if is_v4 (addr_IP src) then 12 else 36) = (if decide (n = 4%nat) then 12 else 36)) as ->
    by (unfold n; clear; destruct (is_v4 (addr_IP src)); reflexivity).
  assert ((if is_v4 (addr_IP src) then 17 else 33) = (if decide (n = 4%nat) then 17 else 33)) as ->
    by (unfold n; clear; destruct (is_v4 (addr_IP src)); reflexivity).
  rewrite length_field, <-!app_assoc, (decode_v2_parts _ _ _ _ _ n); try done.
  - by rewrite Hbs, Hbd.
  - unfold n. destruct (is_v4 (addr_IP src)); auto.
Qed.

(** C37: For a connection whose two ends are of one family and have valid ports, a
    reader of the PROXY protocol recovers from the version 2 header exactly the
    client's and the proxy's address and port. But it does not end there: the two
    bytes CR LF that the proxy appends are outside the length field, so the
    reader takes them for the first two bytes of the client's data. *)
Theorem ProxyV2Header_roundtrip (src dst : TCPAddr) (data : list Z)
    (Hsrc : valid_addr src) (Hdst : valid_addr dst)
    (Hfamily : is_v4 (addr_IP dst) = is_v4 (addr_IP src)) :
  decode_v2 (buildProxyV2Header src dst ++ data) =
  Some (address_bytes (addr_IP src), address_bytes (addr_IP dst), addr_Port src, addr_Port dst,
        [13; 10] ++ data).
Proof. by apply decode_buildProxyV2Header. Qed.

(** *** Version 1 *)

Lemma hex_digit_no_space n : 0 <= n < 16 -> is_space (hex_digit n) = false.
Proof.
  intros Hn. assert (exists k, (k < 16)%nat /\ n = Z.of_nat k) as (k & Hk & ->)
    by (exists (Z.to_nat n); lia).
  do 16 (destruct k as [|k]; [done|]). lia.
Qed.

Lemma hex16_no_space n : 0 <= n < 65536 -> no_space (hex16 n).
Proof.
  intros Hn. unfold hex16, no_space. repeat case_match; simpl;
    rewrite !hex_digit_no_space; try done; try (apply Z.mod_pos_bound; lia).
  all: split; [apply Z.div_pos; lia|apply Z.div_lt_upper_bound; lia].
Qed.

Lemma no_space_Join ws sep : no_space sep -> Forall no_space ws -> no_space (Join ws sep).
Proof.
  intros Hs Hw. induction Hw as [|w ws Hw _ IH]; [done|]. destruct ws as [|w' ws]; [done|].
  change (Join (w :: w' :: ws) sep) with (w +:+ sep +:+ Join (w' :: ws) sep). by rewrite !no_space_app.
Qed.

Lemma groups_range ip : Forall (fun b => 0 <= b < 256) ip -> Forall (fun g => 0 <= g < 65536) (groups ip).
Proof.
  revert ip. fix IH 1. intros [|a [|b ip]]; simpl; [constructor..|].
  intros [Ha [Hb Hip]%Forall_cons]%Forall_cons. constructor; [lia|by apply IH].
Qed.

Lemma Forall_hex16 gs : Forall (fun g => 0 <= g < 65536) gs -> Forall no_space (hex16 <$> gs).
Proof. rewrite Forall_fmap. intros H. eapply Forall_impl; [exact H|]. intros g. apply hex16_no_space. Qed.

Lemma v6_string_no_space ip : length ip = 16%nat -> Forall (fun b => 0 <= b < 256) ip ->
  no_space (v6_string ip) /\ v6_string ip <> "".
Proof.
  intros Hl Hb. unfold v6_string. pose proof (groups_range ip Hb) as Hg.
  assert (groups ip <> []) as Hne by by destruct ip as [|? [|? ?]].
  destruct (longest_zeros 0 (groups ip) (0%nat, 0%nat)) as [start len]. destruct (len =? 0)%nat.
  - split; [by apply no_space_Join, Forall_hex16|].
    destruct (groups ip) as [|g gs]; [done|]. apply Join_nonempty, hex16_nonempty.
  - split.
    + rewrite !no_space_app. split_and!; [|done|];
        apply no_space_Join, Forall_hex16; [done| |done|]; [by apply Forall_take|by apply Forall_drop].
    + destruct (Join _ _); done.
Qed.

Lemma IP_String_no_space ip : valid_ip ip -> no_space (IP_String ip) /\ IP_String ip <> "".
Proof.
  intros [Hb Hl]. unfold IP_String. destruct ip as [|b0 ip0] eqn:Hip; [by destruct Hl|].
  rewrite <-Hip in *. destruct (To4 ip) as [p4|] eqn:H4.
  - pose proof (To4_Forall _ _ _ H4 Hb) as Hp.
    apply To4_length in H4. split.
    + apply no_space_Join; [done|]. rewrite Forall_fmap. eapply Forall_impl; [exact Hp|].
      intros b Hr. simpl in Hr. apply digits_no_space, fmt_d_digits. lia.
    + destruct p4 as [|b p4]; [done|]. apply Join_nonempty, fmt_d_nonempty.
  - destruct Hl as [Hl|Hl]; [unfold To4 in H4; by rewrite bool_decide_true in H4|].
    rewrite bool_decide_true by done. by apply v6_string_no_space.
Qed.

(** The words the specification allows for the protocol of a version 1 header. *)
Definition v1_protocols : list string := ["TCP4"; "TCP6"; "UNKNOWN"].

(** The version 1 header is one line of six words: the client's and the proxy's
    address and port can be read back from it. But the protocol word is INET or
    INET6, which is none of the words the specification allows, so a reader of the
    specification must reject the connection. *)
Theorem ProxyV1Header_words (src dst : TCPAddr) (Hsrc : valid_addr src) (Hdst : valid_addr dst) :
  exists line family,
    buildProxyV1Header src dst = line +:+ crlf /\
    Fields line = ["PROXY"; family; IP_String (addr_IP src); IP_String (addr_IP dst);
                   fmt_d (addr_Port src); fmt_d (addr_Port dst)] /\
    parse_digits (fmt_d (addr_Port src)) = Some (addr_Port src) /\
    parse_digits (fmt_d (addr_Port dst)) = Some (addr_Port dst) /\
    family ∉ v1_protocols.
Proof.
  destruct Hsrc as [Hs Hsp], Hdst as [Hd Hdp].
  set (family := if is_v4 (addr_IP src) then "INET" else "INET6").
  exists (Join ["PROXY"; family; IP_String (addr_IP src); IP_String (addr_IP dst);
                fmt_d (addr_Port src); fmt_d (addr_Port dst)] " "), family. split_and!.
  - unfold buildProxyV1Header. fold family. simpl Join. rewrite !app_string_assoc. done.
  - apply Fields_Join. pose proof (IP_String_no_space _ Hs). pose proof (IP_String_no_space _ Hd).
    repeat apply Forall_cons_2; try done.
    + unfold family. by destruct (is_v4 _).
    + split; [apply digits_no_space, fmt_d_digits; lia|apply fmt_d_nonempty].
    + split; [apply digits_no_space, fmt_d_digits; lia|apply fmt_d_nonempty].
  - apply parse_digits_fmt_d. lia.
  - apply parse_digits_fmt_d. lia.
  - unfold family, v1_protocols. destruct (is_v4 _); rewrite !elem_of_cons, elem_of_nil; naive_solver.
Qed.

Definition sample_client : TCPAddr := MkTCPAddr [203; 0; 113; 7] 51234.
Definition sample_proxy : TCPAddr := MkTCPAddr (v4_prefix ++ [10; 0; 0; 4]) 443.

Example v1_sample : buildProxyV1Header sample_client sample_proxy =
  "PROXY INET 203.0.113.7 10.0.0.4 51234 443" +:+ crlf.
Proof. vm_compute. reflexivity. Qed.

Lemma sample_addrs : valid_addr sample_client /\ valid_addr sample_proxy.
Proof.
  split; (split; [split|simpl; lia]).
  - repeat constructor; lia.
  - by left.
  - repeat constructor; lia.
  - by right.
Qed.

Lemma ProxyV2Header_roundtrip_witness :
  decode_v2 (buildProxyV2Header sample_client sample_proxy ++ [71; 69; 84]) =
  Some ([203; 0; 113; 7], [10; 0; 0; 4], 51234, 443, [13; 10; 71; 69; 84]).
Proof.
  exact (ProxyV2Header_roundtrip sample_client sample_proxy [71; 69; 84]
           (proj1 sample_addrs) (proj2 sample_addrs) eq_refl).
Defined.

Lemma ProxyV1Header_words_witness :
  exists line family,
    buildProxyV1Header sample_client sample_proxy = line +:+ crlf /\
    Fields line = ["PROXY"; family; "203.0.113.7"; "10.0.0.4"; "51234"; "443"] /\
    parse_digits "51234" = Some 51234 /\ parse_digits "443" = Some 443 /\ family ∉ v1_protocols.
Proof.
  exact (ProxyV1Header_words sample_client sample_proxy (proj1 sample_addrs) (proj2 sample_addrs)).
Defined.
