(* ===== verification/UdpForwarder.v ===== *)
(** * UdpForwarder: the session table of the UDP forwarder

    Models internal/proxy/udp.go as a transition system. The threads are the read
    loop of the frontend socket ([run], with [getOrCreate] inlined), one
    [upstreamReadLoop] per session, [reapLoop] and [closeAllSessions]; a step is
    one access to what they share: a section under the mutex, a load or store of
    an atomic, or one socket operation. [dropSession] is two steps, the section
    under the mutex and the [closeOnce]. A session is identified by its place in
    [heap], which plays the pointer; a client by the text of its address. *)
From S2P Require Import Prelude.
Open Scope Z_scope.

(** [once]: whether [closeOnce] has run. [open]: whether the upstream socket is open. *)
Record udpSession := MkSession {
  clientAddr : string;
  lastActivity : Z;
  once : bool;
  open : bool
}.

Abbreviation sid := nat.

(** [dropSession]: before the section under the mutex, and after it deleted an entry. *)
Inductive DropPc : Type :=
| DStart (key : string)
| DClose (s : sid).

Inductive MainPc : Type :=
| MRead                                  (* f.listen.ReadFrom *)
| MLookup (key : string)                 (* first section of getOrCreate *)
| MDial (key : string)                   (* net.DialUDP *)
| MInsert (key : string) (s : sid)       (* second section of getOrCreate *)
| MStore (key : string) (s : sid)        (* sess.lastActivity.Store *)
| MWrite (key : string) (s : sid)        (* sess.upstream.Write *)
| MDrop (d : DropPc)
| MDone.

Inductive ReaderPc : Type :=
| RRead                                  (* sess.upstream.ReadFromUDP *)
| RStore
| RWrite                                 (* f.listen.WriteTo *)
| RDrop (d : DropPc)
| RDone.

Inductive ReaperPc : Type :=
| PWait
| PDrop (stale : list string)
| PClose (s : sid) (stale : list string)
| PDone.

Inductive CloserPc : Type :=
| CWait
| CDrop (keys : list string)
| CClose (s : sid) (keys : list string)
| CDone.

(** A datagram passed on: to the upstream of a session, or to a client. *)
Inductive Sent : Type :=
| Up (s : sid) (from : string)
| Down (s : sid) (to : string).

Record State := MkState {
  sessions : gmap string sid;
  heap : gmap sid udpSession;
  gauge : Z;                             (* udpActiveSessions *)
  now : Z;
  listening : bool;                      (* the frontend socket is open *)
  cancelled : bool;
  main : MainPc;
  readers : gmap sid ReaderPc;
  reaper : ReaperPc;
  closer : CloserPc;
  sent : list Sent
}.

Definition init : State :=
  MkState ∅ ∅ 0 0 true false MRead ∅ PWait CWait [].

(** ** What the steps do to the shared state *)

Definition set_main (m : MainPc) (s : State) : State :=
  MkState (sessions s) (heap s) (gauge s) (now s) (listening s) (cancelled s) m (readers s) (reaper s)
    (closer s) (sent s).
Definition set_reader (i : sid) (r : ReaderPc) (s : State) : State :=
  MkState (sessions s) (heap s) (gauge s) (now s) (listening s) (cancelled s) (main s)
    (<[i := r]> (readers s)) (reaper s) (closer s) (sent s).
Definition set_reaper (p : ReaperPc) (s : State) : State :=
  MkState (sessions s) (heap s) (gauge s) (now s) (listening s) (cancelled s) (main s) (readers s) p
    (closer s) (sent s).
Definition set_closer (c : CloserPc) (s : State) : State :=
  MkState (sessions s) (heap s) (gauge s) (now s) (listening s) (cancelled s) (main s) (readers s)
    (reaper s) c (sent s).
Definition set_heap (h : gmap sid udpSession) (s : State) : State :=
  MkState (sessions s) h (gauge s) (now s) (listening s) (cancelled s) (main s) (readers s) (reaper s)
    (closer s) (sent s).
Definition send (o : Sent) (s : State) : State :=
  MkState (sessions s) (heap s) (gauge s) (now s) (listening s) (cancelled s) (main s) (readers s)
    (reaper s) (closer s) (o :: sent s).

(** [sess.lastActivity.Store(time.Now().UnixNano())] *)
Definition store_activity (i : sid) (s : State) : State :=
  set_heap (alter (fun se => MkSession (clientAddr se) (now s) (once se) (open se)) i (heap s)) s.

(** [net.DialUDP] succeeded: a session that nobody else knows yet. *)
Definition allocate (key : string) (i : sid) (s : State) : State :=
  set_heap (<[i := MkSession key (now s) false true]> (heap s)) s.

(** [conn.Close()] on the socket of the session. *)
Definition close_conn (i : sid) (s : State) : State :=
  set_heap (alter (fun se => MkSession (clientAddr se) (lastActivity se) (once se) false) i (heap s)) s.

(** The second section of [getOrCreate]: the session the caller gets. *)
Definition insert_session (key : string) (i : sid) (s : State) : sid * State :=
  match sessions s !! key with
  | Some existing => (existing, close_conn i s)
  | None =>
      (i, MkState (<[key := i]> (sessions s)) (heap s) (gauge s + 1) (now s) (listening s) (cancelled s)
            (main s) (<[i := RRead]> (readers s)) (reaper s) (closer s) (sent s))
  end.

(** The section of [dropSession]. *)
Definition drop_delete (key : string) (s : State) : option sid * State :=
  match sessions s !! key with
  | None => (None, s)
  | Some i =>
      (Some i, MkState (delete key (sessions s)) (heap s) (gauge s) (now s) (listening s) (cancelled s)
                 (main s) (readers s) (reaper s) (closer s) (sent s))
  end.

(** Its [closeOnce]. *)
Definition drop_close (i : sid) (s : State) : State :=
  match heap s !! i with
  | Some (MkSession c a false _) =>
      MkState (sessions s) (<[i := MkSession c a true false]> (heap s)) (gauge s - 1) (now s)
        (listening s) (cancelled s) (main s) (readers s) (reaper s) (closer s) (sent s)
  | _ => s
  end.

(** The keys [reap] collects, in the order of the map. *)
Definition stale_keys (cutoff : Z) (s : State) : list string :=
  fst <$> filter (fun kv =>
    match heap s !! snd kv with Some se => lastActivity se <? cutoff | None => false end = true)
    (map_to_list (sessions s)).

(** ** Steps *)

(** One step of [dropSession]; [None] next means it has returned. *)
Definition drop_step (d : DropPc) (s : State) : option DropPc * State :=
  match d with
  | DStart key =>
      match drop_delete key s with
      | (Some i, s') => (Some (DClose i), s')
      | (None, s') => (None, s')
      end
  | DClose i => (None, drop_close i s)
  end.

(** What the environment decides: which client sends, and whether calls fail. *)
Inductive label : Type :=
| LTime (t : Z)                (* the clock moves on *)
| LCancel                      (* the context is cancelled *)
| LCloseListen                 (* Serve closes the frontend socket *)
| LPacket (key : string)       (* a datagram arrives from a client *)
| LMain (ok : bool)            (* the read loop goes on; the call it makes succeeds or fails *)
| LReader (i : sid) (ok : bool)
| LReaper (tick : bool)        (* the reaper goes on; what its select takes *)
| LCloser.

Section forwarder.
Context (idleTimeout : Z).

Definition main_step (ok : bool) (s : State) : option State :=
  match main s with
  | MRead => if listening s && negb (cancelled s) then None else Some (set_main MDone s)
  | MLookup key =>
      match sessions s !! key with
      | Some i => Some (set_main (MStore key i) s)
      | None => Some (set_main (MDial key) s)
      end
  | MDial key =>
      if ok then let i := fresh (dom (heap s)) in Some (set_main (MInsert key i) (allocate key i s))
      else Some (set_main MRead s)
  | MInsert key i => let '(j, s') := insert_session key i s in Some (set_main (MStore key j) s')
  | MStore key i => Some (set_main (MWrite key i) (store_activity i s))
  | MWrite key i =>
      if ok then
        match heap s !! i with
        | Some se => if open se then Some (set_main MRead (send (Up i key) s)) else None
        | None => None
        end
      else Some (set_main (MDrop (DStart key)) s)
  | MDrop d =>
      match drop_step d s with
      | (Some d', s') => Some (set_main (MDrop d') s')
      | (None, s') => Some (set_main MRead s')
      end
  | MDone => None
  end.

Definition reader_step (i : sid) (ok : bool) (s : State) : option State :=
  match readers s !! i, heap s !! i with
  | Some pc, Some se =>
      match pc with
      | RRead =>
          if ok then if open se then Some (set_reader i RStore s) else None
          else Some (set_reader i (RDrop (DStart (clientAddr se))) s)
      | RStore => Some (set_reader i RWrite (store_activity i s))
      | RWrite =>
          if ok then
            if listening s then Some (set_reader i RRead (send (Down i (clientAddr se)) s)) else None
          else Some (set_reader i (RDrop (DStart (clientAddr se))) s)
      | RDrop d =>
          match drop_step d s with
          | (Some d', s') => Some (set_reader i (RDrop d') s')
          | (None, s') => Some (set_reader i RDone s')
          end
      | RDone => None
      end
  | _, _ => None
  end.

Definition reaper_step (tick : bool) (s : State) : option State :=
  match reaper s with
  | PWait =>
      if tick then Some (set_reaper (PDrop (stale_keys (now s - idleTimeout) s)) s)
      else if cancelled s then Some (set_reaper PDone s) else None
  | PDrop [] => Some (set_reaper PWait s)
  | PDrop (key :: keys) =>
      match drop_delete key s with
      | (Some i, s') => Some (set_reaper (PClose i keys) s')
      | (None, s') => Some (set_reaper (PDrop keys) s')
      end
  | PClose i keys => Some (set_reaper (PDrop keys) (drop_close i s))
  | PDone => None
  end.

(** [closeAllSessions], which [Serve] calls when [run] and [reapLoop] have returned. *)
Definition closer_step (s : State) : option State :=
  match closer s with
  | CWait =>
      match main s, reaper s with
      | MDone, PDone => Some (set_closer (CDrop (map_to_list (sessions s)).*1) s)
      | _, _ => None
      end
  | CDrop [] => Some (set_closer CDone s)
  | CDrop (key :: keys) =>
      match drop_delete key s with
      | (Some i, s') => Some (set_closer (CClose i keys) s')
      | (None, s') => Some (set_closer (CDrop keys) s')
      end
  | CClose i keys => Some (set_closer (CDrop keys) (drop_close i s))
  | CDone => None
  end.

Definition step (l : label) (s : State) : option State :=
  match l with
  | LTime t =>
      if decide (now s <= t) then
        Some (MkState (sessions s) (heap s) (gauge s) t (listening s) (cancelled s) (main s) (readers s)
                (reaper s) (closer s) (sent s))
      else None
  | LCancel =>
      Some (MkState (sessions s) (heap s) (gauge s) (now s) (listening s) true (main s) (readers s)
              (reaper s) (closer s) (sent s))
  | LCloseListen =>
      if cancelled s then
        Some (MkState (sessions s) (heap s) (gauge s) (now s) false true (main s) (readers s)
                (reaper s) (closer s) (sent s))
      else None
  | LPacket key =>
      match main s with
      | MRead => if listening s then Some (set_main (MLookup key) s) else None
      | _ => None
      end
  | LMain ok => main_step ok s
  | LReader i ok => reader_step i ok s
  | LReaper tick => reaper_step tick s
  | LCloser => closer_step s
  end.

Fixpoint steps (ls : list label) (s : State) : option State :=
  match ls with
  | [] => Some s
  | l :: ls' => s' ← step l s; steps ls' s'
  end.

Inductive reachable : State -> Prop :=
| reach_init : reachable init
| reach_step s l s' : reachable s -> step l s = Some s' -> reachable s'.
End forwarder.

(** ** The invariant

    [Core] is about the shared state alone; [ins] are the sessions that were put in
    the table at some time and [hold] those a thread is responsible for: it is
    about to close them, or to insert them. *)

Definition is_open (h : gmap sid udpSession) (i : sid) : bool :=
  match h !! i with Some se => open se | None => false end.

(** The sessions the gauge counts: inserted, and their socket still open. *)
Definition live (h : gmap sid udpSession) (ins : gset sid) : gset sid :=
  filter (fun i => is_open h i = true) ins.

Definition sent_ok (h : gmap sid udpSession) (o : Sent) : Prop :=
  match o with Up i c | Down i c => clientAddr <$> h !! i = Some c end.

Record Core (ss : gmap string sid) (h : gmap sid udpSession) (g : Z) (out : list Sent)
    (ins : gset sid) (hold : sid -> Prop) : Prop := {
  core_map : forall k i, ss !! k = Some i ->
    (exists a, h !! i = Some (MkSession k a false true)) /\ i ∈ ins;
  core_open : forall i se, h !! i = Some se -> open se = true ->
    ss !! clientAddr se = Some i \/ hold i;
  core_ins : forall i, i ∈ ins -> exists se, h !! i = Some se /\ open se = negb (once se);
  core_gauge : g = Z.of_nat (size (live h ins));
  core_sent : forall o, o ∈ out -> sent_ok h o
}.

Lemma elem_of_live h ins i : i ∈ live h ins <-> is_open h i = true /\ i ∈ ins.
Proof. unfold live; by rewrite elem_of_filter. Qed.

Section core.
Context (ss : gmap string sid) (h : gmap sid udpSession) (g : Z) (out : list Sent) (ins : gset sid).
Context (hold hold' : sid -> Prop).

Lemma core_weaken : (forall i, hold i -> hold' i) -> Core ss h g out ins hold -> Core ss h g out ins hold'.
Proof. intros Hh [Hm Ho Hi Hg Hs]. split; try done. intros i se Hse Hop. destruct (Ho i se Hse Hop); auto. Qed.

Lemma core_delete k i : ss !! k = Some i -> (forall j, hold j \/ j = i -> hold' j) ->
  Core ss h g out ins hold -> Core (delete k ss) h g out ins hold'.
Proof.
  intros Hk Hh [Hm Ho Hi Hg Hs]. split; try done.
  - intros k' i' [_ Hk']%lookup_delete_Some. auto.
  - intros i' se Hse Hop. destruct (Ho i' se Hse Hop) as [Hk'|]; [|by auto].
    destruct (decide (clientAddr se = k)) as [<-|Hne]; [right|left; by rewrite lookup_delete_ne].
    apply Hh. right. congruence.
Qed.

Lemma live_close i se : h !! i = Some se -> open se = true -> i ∈ ins -> forall se', open se' = false ->
  Z.of_nat (size (live (<[i := se']> h) ins)) = Z.of_nat (size (live h ins)) - 1.
Proof.
  intros Hi Hop Hin se' Hcl.
  assert (live (<[i := se']> h) ins = live h ins ∖ {[i]}) as ->.
  { apply set_eq. intros j. rewrite elem_of_difference, !elem_of_live, elem_of_singleton. unfold is_open.
    destruct (decide (j = i)) as [->|Hne].
    - rewrite lookup_insert_eq, Hcl. naive_solver.
    - rewrite lookup_insert_ne by done. naive_solver. }
  assert (i ∈ live h ins) as Hl by (apply elem_of_live; split; [unfold is_open; by rewrite Hi|done]).
  rewrite size_difference by set_solver. rewrite size_singleton.
  assert (size (live h ins) <> 0%nat) by (apply size_non_empty_iff; set_solver). lia.
Qed.

(** Closing through [closeOnce] an inserted session that has left the table. *)
Lemma core_close i c a o : h !! i = Some (MkSession c a false o) -> i ∈ ins -> ss !! c <> Some i ->
  (forall j, hold j -> j <> i -> hold' j) ->
  Core ss h g out ins hold -> Core ss (<[i := MkSession c a true false]> h) (g - 1) out ins hold'.
Proof.
  intros Hi Hin Hout Hh [Hm Ho Hins Hg Hs].
  assert (o = true) as -> by (destruct (Hins i Hin) as (se & Hse & Hop); by simplify_eq/=).
  split.
  - intros k j Hk. destruct (Hm k j Hk) as [[a' Hj] ?]. split; [|done]. exists a'.
    rewrite lookup_insert_ne; [done|]. intros <-. by simplify_eq.
  - intros j se [[<- <-]|[Hne Hj]]%lookup_insert_Some Hop; [done|].
    destruct (Ho j se Hj Hop); auto.
  - intros j Hj. destruct (decide (j = i)) as [->|Hne].
    + rewrite lookup_insert_eq. by eexists.
    + rewrite lookup_insert_ne by done. auto.
  - rewrite Hg. symmetry. by eapply live_close.
  - intros x Hx. specialize (Hs x Hx). destruct x as [j c'|j c']; simpl in *;
      (destruct (decide (j = i)) as [->|]; [rewrite lookup_insert_eq; by rewrite Hi in Hs|
       by rewrite lookup_insert_ne]).
Qed.

(** A change of the sessions that keeps client, [once] and [open]. *)
Lemma core_activity i t : Core ss h g out ins hold ->
  Core ss (alter (fun se => MkSession (clientAddr se) t (once se) (open se)) i h) g out ins hold.
Proof.
  set (h' := alter _ i h). intros [Hm Ho Hins Hg Hs].
  assert (forall j, (fun se => (clientAddr se, once se, open se)) <$> h' !! j =
                    (fun se => (clientAddr se, once se, open se)) <$> h !! j) as Hsim.
  { intros j. unfold h'. destruct (decide (i = j)) as [->|].
    - rewrite lookup_alter_eq. by destruct (h !! j).
    - by rewrite lookup_alter_ne. }
  assert (forall j, is_open h' j = is_open h j) as Hop.
  { intros j. specialize (Hsim j). unfold is_open. destruct (h' !! j), (h !! j); by simplify_eq/=. }
  split.
  - intros k j Hk. destruct (Hm k j Hk) as [[a Hj] ?]. split; [|done]. specialize (Hsim j).
    rewrite Hj in Hsim. destruct (h' !! j) as [[c' a' o' p']|]; simplify_eq/=. eauto.
  - intros j se Hj Hse. specialize (Hsim j). rewrite Hj in Hsim.
    destruct (h !! j) as [se'|] eqn:Hj'; simplify_eq/=. destruct (Ho j se' Hj'); [congruence| |by auto].
    left. congruence.
  - intros j Hj. destruct (Hins j Hj) as (se & Hse & Hn). specialize (Hsim j). rewrite Hse in Hsim.
    destruct (h' !! j) as [se'|]; simplify_eq/=. exists se'. split; [done|]. congruence.
  - rewrite Hg. do 2 f_equal. apply set_eq. intros j. rewrite !elem_of_live. by rewrite Hop.
  - intros x Hx. specialize (Hs x Hx). destruct x as [j c|j c]; simpl in *; specialize (Hsim j);
      destruct (h' !! j), (h !! j); simplify_eq/=; try done; congruence.
Qed.

Lemma core_allocate k t i : h !! i = None -> (forall j, hold j \/ j = i -> hold' j) ->
  Core ss h g out ins hold -> Core ss (<[i := MkSession k t false true]> h) g out ins hold'.
Proof.
  intros Hi Hh [Hm Ho Hins Hg Hs].
  assert (i ∉ ins) as Hni by (intros (se & ? & _)%Hins; congruence).
  split.
  - intros k' j Hk. destruct (Hm k' j Hk) as [[a Hj] ?]. split; [|done]. exists a.
    rewrite lookup_insert_ne; [done|congruence].
  - intros j se [[<- <-]|[Hne Hj]]%lookup_insert_Some Hop; [auto|].
    destruct (Ho j se Hj Hop); auto.
  - intros j Hj. rewrite lookup_insert_ne by congruence. auto.
  - rewrite Hg. do 2 f_equal. apply set_eq. intros j. rewrite !elem_of_live. unfold is_open.
    destruct (decide (j = i)) as [->|]; [naive_solver|by rewrite lookup_insert_ne].
  - intros x Hx. specialize (Hs x Hx). destruct x as [j c|j c]; simpl in *;
      rewrite lookup_insert_ne; try done; intros ->; by rewrite Hi in Hs.
Qed.

Lemma core_insert k a i : ss !! k = None -> h !! i = Some (MkSession k a false true) -> i ∉ ins ->
  (forall j, hold j -> j <> i -> hold' j) ->
  Core ss h g out ins hold -> Core (<[k := i]> ss) h (g + 1) out ({[i]} ∪ ins) hold'.
Proof.
  intros Hk Hi Hni Hh [Hm Ho Hins Hg Hs]. split.
  - intros k' j [[<- <-]|[Hne Hj]]%lookup_insert_Some; [split; [by eexists|set_solver]|].
    destruct (Hm k' j Hj) as [? ?]. split; [done|set_solver].
  - intros j se Hj Hop. destruct (decide (j = i)) as [->|Hne].
    + left. rewrite Hi in Hj. injection Hj as <-. by rewrite lookup_insert_eq.
    + destruct (Ho j se Hj Hop) as [Hc|]; [left|right; auto]. rewrite lookup_insert_ne; [done|congruence].
  - intros j [->%elem_of_singleton|Hj]%elem_of_union; [|auto]. by eexists.
  - assert (live h ({[i]} ∪ ins) = {[i]} ∪ live h ins) as ->.
    { apply set_eq. intros j. rewrite elem_of_union, !elem_of_live, elem_of_union, elem_of_singleton.
      unfold is_open. split; [naive_solver|]. intros [->|[? ?]]; [rewrite Hi; naive_solver|naive_solver]. }
    rewrite size_union, size_singleton; [lia|]. rewrite disjoint_singleton_l, elem_of_live. tauto.
  - done.
Qed.

(** Closing a socket that never made it into the table. *)
Lemma core_lost i : i ∉ ins -> (forall j, hold j -> j <> i -> hold' j) ->
  Core ss h g out ins hold ->
  Core ss (alter (fun se => MkSession (clientAddr se) (lastActivity se) (once se) false) i h) g out ins hold'.
Proof.
  intros Hni Hh [Hm Ho Hins Hg Hs].
  assert (forall j, j <> i -> alter (fun se => MkSession (clientAddr se) (lastActivity se) (once se) false)
            i h !! j = h !! j) as Hne by (intros; by rewrite lookup_alter_ne).
  split.
  - intros k j Hk. destruct (Hm k j Hk) as [Hj Hin]. rewrite Hne; [done|congruence].
  - intros j se Hj Hop. destruct (decide (j = i)) as [->|Hji].
    + rewrite lookup_alter_eq in Hj. destruct (h !! i); simplify_eq/=.
    + rewrite Hne in Hj by done. destruct (Ho j se Hj Hop); auto.
  - intros j Hj. rewrite Hne by congruence. auto.
  - rewrite Hg. do 2 f_equal. apply set_eq. intros j. rewrite !elem_of_live. unfold is_open.
    destruct (decide (j = i)) as [->|]; [naive_solver|by rewrite Hne].
  - intros x Hx. specialize (Hs x Hx). destruct x as [j c|j c]; simpl in *;
      (destruct (decide (j = i)) as [->|]; [rewrite lookup_alter_eq; by destruct (h !! i)|by rewrite Hne]).
Qed.
End core.

(** ** The invariant of the whole state *)

Definition drop_holds (d : DropPc) (i : sid) : Prop := d = DClose i.
Definition main_holds (m : MainPc) (i : sid) : Prop :=
  match m with MInsert _ j => j = i | MDrop d => drop_holds d i | _ => False end.
Definition reader_holds (r : ReaderPc) (i : sid) : Prop :=
  match r with RDrop d => drop_holds d i | _ => False end.
Definition reaper_holds (p : ReaperPc) (i : sid) : Prop :=
  match p with PClose j _ => j = i | _ => False end.
Definition closer_holds (c : CloserPc) (i : sid) : Prop :=
  match c with CClose j _ => j = i | _ => False end.

(** Some thread is about to close session [i], or to insert it. *)
Definition held (s : State) (i : sid) : Prop :=
  main_holds (main s) i \/ reaper_holds (reaper s) i \/ closer_holds (closer s) i \/
  exists r pc, readers s !! r = Some pc /\ reader_holds pc i.

(** A session a thread is about to close was inserted and has left the table. *)
Definition removed (s : State) (i : sid) : Prop :=
  i ∈ dom (readers s) /\ forall k, sessions s !! k <> Some i.

Definition main_ok (s : State) : Prop :=
  match main s with
  | MInsert k i => i ∉ dom (readers s) /\ exists a, heap s !! i = Some (MkSession k a false true)
  | MStore k i | MWrite k i => clientAddr <$> heap s !! i = Some k
  | MDrop (DClose i) => removed s i
  | _ => True
  end.

Definition reader_ok (s : State) (pc : ReaderPc) : Prop :=
  match pc with RDrop (DClose i) => removed s i | _ => True end.

Definition reaper_ok (s : State) : Prop :=
  match reaper s with PClose i _ => removed s i | _ => True end.

(** [closeAllSessions] has collected every key there is left. *)
Definition closer_ok (s : State) : Prop :=
  match closer s with
  | CWait => True
  | CDrop keys => main s = MDone /\ reaper s = PDone /\ forall k, is_Some (sessions s !! k) -> k ∈ keys
  | CClose i keys => main s = MDone /\ reaper s = PDone /\ removed s i /\
      forall k, is_Some (sessions s !! k) -> k ∈ keys
  | CDone => main s = MDone /\ reaper s = PDone /\ sessions s = ∅
  end.

Record Inv (s : State) : Prop := {
  inv_core : Core (sessions s) (heap s) (gauge s) (sent s) (dom (readers s)) (held s);
  inv_main : main_ok s;
  inv_readers : forall r pc, readers s !! r = Some pc -> reader_ok s pc;
  inv_reaper : reaper_ok s;
  inv_closer : closer_ok s
}.

Lemma inv_init : Inv init.
Proof.
  split; [split|..]; try done.
  - intros o Ho. by apply elem_of_nil in Ho.
Qed.

(** A thread that moves on keeps what it held, but for [P]. *)
Lemma held_main (P : sid -> Prop) m s j : held s j -> ~ P j ->
  (forall i, main_holds (main s) i -> main_holds m i \/ P i) -> held (set_main m s) j.
Proof. unfold held. simpl. naive_solver. Qed.
Lemma held_reaper (P : sid -> Prop) p s j : held s j -> ~ P j ->
  (forall i, reaper_holds (reaper s) i -> reaper_holds p i \/ P i) -> held (set_reaper p s) j.
Proof. unfold held. simpl. naive_solver. Qed.
Lemma held_closer (P : sid -> Prop) c s j : held s j -> ~ P j ->
  (forall i, closer_holds (closer s) i -> closer_holds c i \/ P i) -> held (set_closer c s) j.
Proof. unfold held. simpl. naive_solver. Qed.
Lemma held_reader (P : sid -> Prop) r pc pc' s j : readers s !! r = Some pc -> held s j -> ~ P j ->
  (forall i, reader_holds pc i -> reader_holds pc' i \/ P i) -> held (set_reader r pc' s) j.
Proof.
  unfold held. simpl. intros Hr [?|[?|[?|(r' & pc'' & Hr' & Hh)]]] Hj HP; [tauto..|]. do 3 right.
  destruct (decide (r' = r)) as [->|Hne].
  - simplify_eq. destruct (HP j Hh) as [?|?]; [|tauto]. exists r, pc'. by rewrite lookup_insert_eq.
  - exists r', pc''. by rewrite lookup_insert_ne.
Qed.

(** States whose threads are at the same places. *)
Lemma held_same s s' j : main s' = main s -> reaper s' = reaper s -> closer s' = closer s ->
  readers s' = readers s -> held s' j <-> held s j.
Proof. unfold held. by intros -> -> -> ->. Qed.

(** What a step of one thread does to the shared state, as the others see it:
    [rem] are the sessions it took out of the table. *)
Record Quiet (s s' : State) : Prop := {
  quiet_sessions : forall k i, sessions s' !! k = Some i -> sessions s !! k = Some i \/ i ∉ dom (readers s);
  quiet_heap : forall i, clientAddr <$> heap s !! i = clientAddr <$> heap s' !! i \/ heap s !! i = None;
  quiet_ins : dom (readers s) ⊆ dom (readers s')
}.

Lemma removed_quiet s s' i : Quiet s s' -> removed s i -> removed s' i.
Proof.
  intros [Hs _ Hi] [Hin Hout]. split; [by apply Hi|]. intros k Hk. destruct (Hs k i Hk); [by eapply Hout|done].
Qed.

Lemma reader_ok_quiet s s' pc : Quiet s s' -> reader_ok s pc -> reader_ok s' pc.
Proof. intros Hq. unfold reader_ok. repeat case_match; try done. by apply removed_quiet. Qed.

Lemma reaper_ok_quiet s s' : Quiet s s' -> reaper s' = reaper s -> reaper_ok s -> reaper_ok s'.
Proof. intros Hq. unfold reaper_ok. intros ->. case_match; try done. by apply removed_quiet. Qed.

(** The read loop is somewhere its own conditions do not depend on the others. *)
Lemma main_ok_quiet s s' : Quiet s s' -> main s' = main s -> dom (readers s') = dom (readers s) ->
  (forall i, i ∉ dom (readers s) -> heap s' !! i = heap s !! i) -> main_ok s -> main_ok s'.
Proof.
  intros Hq Hm Hd Hh. unfold main_ok. rewrite Hm, Hd.
  assert (forall k i, clientAddr <$> heap s !! i = Some k -> clientAddr <$> heap s' !! i = Some k) as Ha.
  { intros k i Hk. destruct (quiet_heap _ _ Hq i) as [<-|Hn]; [done|]. by rewrite Hn in Hk. }
  destruct (main s) as [| | |k i|k i|k i|[]|]; try done.
  - intros [Hni [a Hi]]. split; [done|]. exists a. by rewrite Hh.
  - apply Ha.
  - apply Ha.
  - by apply removed_quiet.
Qed.

Lemma closer_ok_quiet s s' : Quiet s s' -> closer s' = closer s -> main s' = main s -> reaper s' = reaper s ->
  (forall k, is_Some (sessions s' !! k) -> is_Some (sessions s !! k)) -> closer_ok s -> closer_ok s'.
Proof.
  intros Hq Hc Hm Hr Hk. unfold closer_ok. rewrite Hc, Hm, Hr. destruct (closer s); [done|..].
  - intros (? & ? & ?). auto.
  - intros (? & ? & ? & ?). split_and!; try done; [by eapply removed_quiet|auto].
  - intros (? & ? & He). split_and!; [done..|]. apply map_empty. intros k.
    destruct (sessions s' !! k) eqn:Hs; [|done]. destruct (Hk k) as [? Hk']; [by eexists|].
    by rewrite He, lookup_empty in Hk'.
Qed.

(** ** Preservation *)

Section preservation.
Context (s s' : State) (Hinv : Inv s) (Hquiet : Quiet s s').
Context (Hcore : Core (sessions s') (heap s') (gauge s') (sent s') (dom (readers s')) (held s')).

Lemma inv_main_step :
  main s <> MDone -> reaper s' = reaper s -> closer s' = closer s ->
  (forall r pc, readers s' !! r = Some pc -> readers s !! r = Some pc \/ pc = RRead) ->
  main_ok s' -> Inv s'.
Proof.
  intros Hm Hp Hc Hr Hok. destruct Hinv as [_ _ Hreaders Hreaper Hcloser]. split; try done.
  - intros r pc [Hpc| ->]%Hr; [|done]. by eapply reader_ok_quiet, Hreaders.
  - by eapply reaper_ok_quiet.
  - unfold closer_ok in *. rewrite Hc. destruct (closer s); [done|tauto..].
Qed.

Lemma inv_reader_step r pc0 pc :
  readers s !! r = Some pc0 -> readers s' = <[r := pc]> (readers s) ->
  main s' = main s -> reaper s' = reaper s -> closer s' = closer s ->
  (forall i, i ∉ dom (readers s) -> heap s' !! i = heap s !! i) ->
  (forall k, is_Some (sessions s' !! k) -> is_Some (sessions s !! k)) ->
  reader_ok s' pc -> Inv s'.
Proof.
  intros Hr0 Hr Hm Hp Hc Hh Hk Hok. destruct Hinv as [_ Hmain Hreaders Hreaper Hcloser]. split; try done.
  - eapply main_ok_quiet; [done|done| |done|done]. rewrite Hr. apply dom_insert_lookup_L. by eexists.
  - intros r' pc'. rewrite Hr. intros [[_ <-]|[_ Hpc]]%lookup_insert_Some; [done|].
    by eapply reader_ok_quiet, Hreaders.
  - by eapply reaper_ok_quiet.
  - by eapply closer_ok_quiet.
Qed.

Lemma inv_reaper_step :
  reaper s <> PDone -> readers s' = readers s -> main s' = main s -> closer s' = closer s ->
  (forall i, i ∉ dom (readers s) -> heap s' !! i = heap s !! i) -> reaper_ok s' -> Inv s'.
Proof.
  intros Hp Hr Hm Hc Hh Hok. destruct Hinv as [_ Hmain Hreaders _ Hcloser]. split; try done.
  - eapply main_ok_quiet; [done|done|by rewrite Hr|done|done].
  - intros r pc. rewrite Hr. intros Hpc. by eapply reader_ok_quiet, Hreaders.
  - unfold closer_ok in *. rewrite Hc. destruct (closer s); [done|tauto..].
Qed.

Lemma inv_closer_step :
  readers s' = readers s -> main s' = main s -> reaper s' = reaper s ->
  (forall i, i ∉ dom (readers s) -> heap s' !! i = heap s !! i) -> closer_ok s' -> Inv s'.
Proof.
  intros Hr Hm Hp Hh Hok. destruct Hinv as [_ Hmain Hreaders Hreaper _]. split; try done.
  - eapply main_ok_quiet; [done|done|by rewrite Hr|done|done].
  - intros r pc. rewrite Hr. intros Hpc. by eapply reader_ok_quiet, Hreaders.
  - by eapply reaper_ok_quiet.
Qed.
End preservation.

Lemma quiet_refl s : Quiet s s.
Proof. split; auto. Qed.

(** A change of program counters alone. *)
Lemma quiet_pc s s' : sessions s' = sessions s -> heap s' = heap s -> dom (readers s') = dom (readers s) ->
  Quiet s s'.
Proof. intros Hs Hh Hd. split; rewrite ?Hs, ?Hh, ?Hd; auto. Qed.

Lemma quiet_set_main m s s' : Quiet s s' -> Quiet s (set_main m s').
Proof. by intros []; split. Qed.
Lemma quiet_set_reaper p s s' : Quiet s s' -> Quiet s (set_reaper p s').
Proof. by intros []; split. Qed.
Lemma quiet_set_closer c s s' : Quiet s s' -> Quiet s (set_closer c s').
Proof. by intros []; split. Qed.
Lemma quiet_set_reader r pc s s' : Quiet s s' -> Quiet s (set_reader r pc s').
Proof. intros [? ? Hi]; split; simpl; [done..|]. rewrite dom_insert_L. set_solver. Qed.

Lemma core_closed ss h g out ins (hold hold' : sid -> Prop) i :
  is_open h i = false -> (forall j, hold j -> j <> i -> hold' j) ->
  Core ss h g out ins hold -> Core ss h g out ins hold'.
Proof.
  intros Hi Hh [Hm Ho Hins Hg Hs]. split; try done. intros j se Hj Hop.
  destruct (Ho j se Hj Hop) as [|Hhold]; [by left|right]. apply Hh; [done|]. intros ->.
  unfold is_open in Hi. rewrite Hj in Hi. congruence.
Qed.

(** The section of [dropSession] found an entry. *)
Lemma drop_delete_some s key i s' : Inv s -> drop_delete key s = (Some i, s') ->
  Quiet s s' /\ removed s' i /\ heap s' = heap s /\ readers s' = readers s /\ main s' = main s /\
  reaper s' = reaper s /\ closer s' = closer s /\ sessions s' = delete key (sessions s) /\
  forall hold', (forall j, held s j \/ j = i -> hold' j) ->
    Core (sessions s') (heap s') (gauge s') (sent s') (dom (readers s')) hold'.
Proof.
  intros Hinv. unfold drop_delete. destruct (sessions s !! key) as [j|] eqn:Hk; [|done].
  intros [= -> <-]. simpl. pose proof (inv_core s Hinv) as Hcore.
  destruct (core_map _ _ _ _ _ _ Hcore key i Hk) as [[a Hi] Hin]. split_and!; try done.
  - split; simpl; try done; [|by left]. intros k j [_ Hj]%lookup_delete_Some. by left.
  - split; [done|]. simpl. intros k [Hne Hk']%lookup_delete_Some.
    destruct (core_map _ _ _ _ _ _ Hcore k i Hk') as [[a' Hi'] _]. congruence.
  - intros hold' Hh. by eapply core_delete.
Qed.

Lemma drop_delete_none s key s' : drop_delete key s = (None, s') -> s' = s /\ sessions s !! key = None.
Proof. unfold drop_delete. destruct (sessions s !! key) eqn:Hk; [done|]. by intros [= <-]. Qed.

(** [closeOnce] of a session that has left the table. *)
Lemma drop_close_spec s i : Inv s -> removed s i ->
  Quiet s (drop_close i s) /\ sessions (drop_close i s) = sessions s /\
  readers (drop_close i s) = readers s /\ main (drop_close i s) = main s /\
  reaper (drop_close i s) = reaper s /\ closer (drop_close i s) = closer s /\
  is_open (heap (drop_close i s)) i = false /\
  (forall j, j ∉ dom (readers s) -> heap (drop_close i s) !! j = heap s !! j) /\
  forall hold', (forall j, held s j -> j <> i -> hold' j) ->
    Core (sessions (drop_close i s)) (heap (drop_close i s)) (gauge (drop_close i s))
      (sent (drop_close i s)) (dom (readers (drop_close i s))) hold'.
Proof.
  intros Hinv [Hin Hout]. pose proof (inv_core s Hinv) as Hcore.
  destruct (core_ins _ _ _ _ _ _ Hcore i Hin) as ([c a o p] & Hi & Hop). simpl in Hop.
  unfold drop_close. rewrite Hi. destruct o; simpl in Hop; subst p.
  - split_and!; try done; [apply quiet_refl|unfold is_open; by rewrite Hi|].
    intros hold' Hh. eapply core_closed; [|exact Hh|done]. unfold is_open. by rewrite Hi.
  - simpl. split_and!; try done.
    + split; simpl; [auto| |done]. intros j. left. destruct (decide (j = i)) as [->|].
      * by rewrite lookup_insert_eq, Hi.
      * by rewrite lookup_insert_ne.
    + unfold is_open. by rewrite lookup_insert_eq.
    + intros j Hj. rewrite lookup_insert_ne; [done|congruence].
    + intros hold' Hh. by eapply core_close.
Qed.

(** Storing [lastActivity] and passing a datagram on change nothing that matters. *)
Lemma store_activity_spec s i : Inv s ->
  Quiet s (store_activity i s) /\
  (forall j, clientAddr <$> heap (store_activity i s) !! j = clientAddr <$> heap s !! j) /\
  forall hold', (forall j, held s j -> hold' j) ->
    Core (sessions (store_activity i s)) (heap (store_activity i s)) (gauge (store_activity i s))
      (sent (store_activity i s)) (dom (readers (store_activity i s))) hold'.
Proof.
  intros Hinv.
  assert (forall j, clientAddr <$> heap (store_activity i s) !! j = clientAddr <$> heap s !! j) as Ha.
  { intros j. simpl. destruct (decide (i = j)) as [->|].
    - rewrite lookup_alter_eq. by destruct (heap s !! j).
    - by rewrite lookup_alter_ne. }
  split_and!; [split; [auto|intros j; left; by rewrite Ha|done]|done|].
  intros hold' Hh. simpl. apply core_activity. eapply core_weaken; [exact Hh|by apply inv_core].
Qed.

Lemma core_send ss h g out ins (hold hold' : sid -> Prop) o : sent_ok h o -> (forall j, hold j -> hold' j) ->
  Core ss h g out ins hold -> Core ss h g (o :: out) ins hold'.
Proof.
  intros Ho Hh Hcore. apply (core_weaken _ _ _ _ _ hold hold' Hh) in Hcore.
  destruct Hcore as [Hm Hop Hins Hg Hs]. split; try done.
  intros x [->|Hx]%elem_of_cons; auto.
Qed.

Lemma drop_step_main s d o s' : Inv s -> main s = MDrop d -> drop_step d s = (o, s') ->
  Inv (set_main (match o with Some d' => MDrop d' | None => MRead end) s').
Proof.
  intros Hinv Hm. pose proof (inv_main s Hinv) as Hok. unfold main_ok in Hok. rewrite Hm in Hok.
  destruct d as [key|i]; simpl.
  - destruct (drop_delete key s) as [[i|] s1] eqn:Hd; intros [= <- <-].
    + destruct (drop_delete_some s key i s1 Hinv Hd) as (Hq & Hrem & _ & Hr & Hms & Hp & Hc & _ & Hcore).
      eapply (inv_main_step s); try done; [by apply quiet_set_main| |by rewrite Hm|simpl; rewrite Hr; by left].
      apply Hcore. intros j [Hj|Hj].
      * apply (held_main (fun _ => False)); [by apply (held_same s)|tauto|by rewrite Hms, Hm].
      * left. by rewrite Hj.
    + apply drop_delete_none in Hd as [-> _].
      eapply (inv_main_step s); try done; [by apply quiet_pc| |by rewrite Hm|by left].
      eapply core_weaken; [|exact (inv_core s Hinv)]. intros j Hj.
      apply (held_main (fun _ => False)); [done|tauto|by rewrite Hm].
  - intros [= <- <-].
    destruct (drop_close_spec s i Hinv Hok) as (Hq & _ & Hr & Hms & Hp & Hc & _ & _ & Hcore).
    eapply (inv_main_step s); try done; [by apply quiet_set_main| |by rewrite Hm|simpl; rewrite Hr; by left].
    apply Hcore. intros j Hj Hne.
    apply (held_main (eq i)); [by apply (held_same s)|congruence|].
    rewrite Hms, Hm. intros ? [= ->]. by right.
Qed.

(** A step of the read loop that only moves its program counter. *)
Lemma inv_set_main s m : Inv s -> main s <> MDone ->
  (forall i, main_holds (main s) i -> main_holds m i) -> main_ok (set_main m s) -> Inv (set_main m s).
Proof.
  intros Hinv Hm Hh Hok. eapply (inv_main_step s); try done; [by apply quiet_pc| |by left].
  eapply core_weaken; [|exact (inv_core s Hinv)]. intros j Hj.
  apply (held_main (fun _ => False)); [done|tauto|]. intros i ?. left. auto.
Qed.

Lemma main_step_inv s ok s' : Inv s -> main_step ok s = Some s' -> Inv s'.
Proof.
  intros Hinv. pose proof (inv_main s Hinv) as Hok. pose proof (inv_core s Hinv) as Hcore.
  unfold main_step, main_ok in *. destruct (main s) as [|key|key|key i|key i|key i|d|] eqn:Hm.
  - destruct (_ && _); [done|]. intros [= <-]. apply inv_set_main; try done; rewrite Hm; done.
  - destruct (sessions s !! key) as [i|] eqn:Hk; intros [= <-]; apply inv_set_main; rewrite ?Hm; try done.
    destruct (core_map _ _ _ _ _ _ Hcore key i Hk) as [[a Hi] _]. unfold main_ok. simpl. by rewrite Hi.
  - destruct ok; intros [= <-]; [|by apply inv_set_main; rewrite ?Hm].
    set (i := fresh (dom (heap s))).
    assert (heap s !! i = None) as Hi by (apply not_elem_of_dom, is_fresh).
    eapply (inv_main_step s); try done; [| |by rewrite Hm|by left|].
    + split; simpl; [auto| |done]. intros j. destruct (decide (j = i)) as [->|]; [by right|left].
      by rewrite lookup_insert_ne.
    + eapply core_allocate; [done| |done]. intros j [Hj|Hj]; [|left; simpl; congruence].
      apply (held_main (fun _ => False) _ s); [done|tauto|by rewrite Hm].
    + unfold main_ok. simpl. split; [|eexists; by rewrite lookup_insert_eq].
      intros (se & ? & _)%(core_ins _ _ _ _ _ _ Hcore). congruence.
  - destruct Hok as [Hni [a Hi]]. unfold insert_session.
    assert (forall j, held s j -> j <> i -> held (set_main (MStore key i) s) j) as Hh.
    { intros j Hj Hne. apply (held_main (eq i)); [done|congruence|].
      rewrite Hm. simpl. intros ? ->. by right. }
    destruct (sessions s !! key) as [ex|] eqn:Hk; intros [= <-].
    + destruct (core_map _ _ _ _ _ _ Hcore key ex Hk) as [[a' Hex] Hin].
      eapply (inv_main_step s); try done; [| |by rewrite Hm|by left|].
      * split; simpl; [auto| |done]. intros j. left. destruct (decide (i = j)) as [->|].
        -- rewrite lookup_alter_eq. by destruct (heap s !! j).
        -- by rewrite lookup_alter_ne.
      * eapply core_lost; [done|exact Hh|done].
      * unfold main_ok. simpl. rewrite lookup_alter_ne by congruence. by rewrite Hex.
    + eapply (inv_main_step s); try done; [| |by rewrite Hm| |].
      * split; simpl; [|auto|set_solver]. intros k j [[<- <-]|[_ ?]]%lookup_insert_Some; auto.
      * simpl. rewrite dom_insert_L. apply (core_insert _ _ _ _ _ (held s) _ key a i Hk Hi Hni); [|exact Hcore]. intros j Hj Hne.
        destruct (Hh j Hj Hne) as [?|[?|[?|(r & pc & Hr & ?)]]]; unfold held; simpl in *; [tauto..|].
        do 3 right. exists r, pc. split; [|done]. rewrite lookup_insert_ne; [done|].
        intros <-. apply Hni, elem_of_dom. by eexists.
      * simpl. intros r pc [[_ <-]|[_ ?]]%lookup_insert_Some; auto.
      * unfold main_ok. simpl. by rewrite Hi.
  - intros [= <-]. destruct (store_activity_spec s i Hinv) as (Hq & Ha & Hc).
    eapply (inv_main_step s); try done; [by apply quiet_set_main| |by rewrite Hm|by left|].
    + apply Hc. intros j Hj. apply (held_main (fun _ => False) _ s); [done|tauto|by rewrite Hm].
    + unfold main_ok. cbn [main set_main]. change (heap (set_main _ ?x)) with (heap x). by rewrite Ha.
  - destruct ok; [|intros [= <-]; by apply inv_set_main; rewrite ?Hm].
    destruct (heap s !! i) as [se|] eqn:Hi; [|done]. destruct (open se); [|done]. intros [= <-].
    eapply (inv_main_step s); try done; [by apply quiet_pc| |by rewrite Hm|by left].
    simpl. eapply core_send; [| |done]; [simpl; by rewrite Hi|].
    intros j Hj. apply (held_main (fun _ => False) _ s); [done|tauto|by rewrite Hm].
  - destruct (drop_step d s) as [o s1] eqn:Hd. pose proof (drop_step_main s d o s1 Hinv Hm Hd).
    by destruct o; intros [= <-].
  - done.
Qed.

(** A step of a reader that only moves its program counter, or passes a reply on. *)
Lemma inv_set_reader s r pc0 pc : Inv s -> readers s !! r = Some pc0 ->
  (forall i, reader_holds pc0 i -> reader_holds pc i) -> reader_ok s pc -> Inv (set_reader r pc s).
Proof.
  intros Hinv Hr Hh Hok.
  assert (Quiet s (set_reader r pc s)) as Hq by apply quiet_set_reader, quiet_refl.
  eapply (inv_reader_step s); try done; [|by eapply reader_ok_quiet].
  simpl. rewrite dom_insert_lookup_L by by eexists.
  eapply core_weaken; [|exact (inv_core s Hinv)]. intros j Hj.
  eapply (held_reader (fun _ => False)); [done..|tauto|]. intros i ?. left. auto.
Qed.

Lemma reader_drop_step s r d o s' : Inv s -> readers s !! r = Some (RDrop d) -> drop_step d s = (o, s') ->
  Inv (set_reader r (match o with Some d' => RDrop d' | None => RDone end) s').
Proof.
  intros Hinv Hpc. pose proof (inv_readers s Hinv r _ Hpc) as Hok. destruct d as [key|i]; simpl.
  - destruct (drop_delete key s) as [[i|] s1] eqn:Hd; intros [= <- <-].
    + destruct (drop_delete_some s key i s1 Hinv Hd)
        as (Hq & Hrem & Hheap & Hr & Hms & Hp & Hc & Hss & Hcore).
      eapply (inv_reader_step s); try done; simpl.
      * by apply quiet_set_reader.
      * rewrite Hr, dom_insert_lookup_L, <-Hr by by eexists. apply Hcore. intros j [Hj|Hj].
        -- eapply (held_reader (fun _ => False)); [by rewrite Hr|by apply (held_same s)|tauto|done].
        -- right; right; right. exists r, (RDrop (DClose i)). simpl. rewrite lookup_insert_eq. by rewrite Hj.
      * by rewrite Hr.
      * intros j _. by rewrite Hheap.
      * rewrite Hss. intros k. rewrite lookup_delete_is_Some. tauto.
      * eapply removed_quiet; [|exact Hrem]. apply quiet_set_reader, quiet_refl.
    + apply drop_delete_none in Hd as [-> _]. by eapply inv_set_reader.
  - intros [= <- <-].
    destruct (drop_close_spec s i Hinv Hok) as (Hq & Hss & Hr & Hms & Hp & Hc & _ & Hheap & Hcore).
    eapply (inv_reader_step s); try done; simpl.
    + by apply quiet_set_reader.
    + rewrite Hr, dom_insert_lookup_L, <-Hr by by eexists. apply Hcore. intros j Hj Hne.
      eapply (held_reader (eq i)); [by rewrite Hr|by apply (held_same s)|congruence|].
      intros ? [= ->]. by right.
    + by rewrite Hr.
    + by rewrite Hss.
    + exact I.
Qed.

Lemma reader_step_inv s r ok s' : Inv s -> reader_step r ok s = Some s' -> Inv s'.
Proof.
  intros Hinv. unfold reader_step. destruct (readers s !! r) as [pc|] eqn:Hpc; [|done].
  destruct (heap s !! r) as [se|] eqn:Hse; [|done]. destruct pc as [| | |d|].
  - destruct ok; [destruct (open se); [|done]|]; intros [= <-]; by eapply inv_set_reader.
  - intros [= <-]. destruct (store_activity_spec s r Hinv) as (Hq & _ & Hcore).
    eapply (inv_reader_step s); try done; simpl.
    + by apply quiet_set_reader.
    + rewrite dom_insert_lookup_L by by eexists. apply Hcore. intros j Hj.
      by eapply (held_reader (fun _ => False)); [exact Hpc|by apply (held_same s)|tauto|].
    + intros i Hi. apply lookup_alter_ne. intros <-. apply Hi, elem_of_dom. by eexists.
  - destruct ok; [destruct (listening s); [|done]|]; intros [= <-]; [|by eapply inv_set_reader].
    assert (Inv (set_reader r RRead s)) as Hinv' by by eapply inv_set_reader.
    destruct Hinv' as [Hcore Hm Hr Hp Hc]. split; try done.
    simpl in *. eapply core_send; [| |exact Hcore]; [simpl; by rewrite Hse|]. intros j Hj. exact Hj.
  - destruct (drop_step d s) as [o s1] eqn:Hd. pose proof (reader_drop_step s r d o s1 Hinv Hpc Hd).
    by destruct o; intros [= <-].
  - done.
Qed.

Lemma reaper_step_inv idle tick s s' : Inv s -> reaper_step idle tick s = Some s' -> Inv s'.
Proof.
  intros Hinv. pose proof (inv_reaper s Hinv) as Hok.
  assert (forall p, reaper s <> PDone -> (forall i, ~ reaper_holds (reaper s) i) ->
    (forall i, ~ reaper_holds p i) -> (forall i keys, p <> PClose i keys) -> Inv (set_reaper p s)) as Hset.
  { intros p Hd Hh Hh' Hne. eapply (inv_reaper_step s); try done.
    - by apply quiet_pc.
    - eapply core_weaken; [|exact (inv_core s Hinv)]. intros j Hj.
      apply (held_reaper (fun _ => False)); [done|tauto|]. intros i Hi. by destruct (Hh i).
    - unfold reaper_ok. simpl. destruct p; try done. by destruct (Hne s0 stale). }
  unfold reaper_step, reaper_ok in *. destruct (reaper s) as [|[|key keys]|i keys|] eqn:Hp.
  - destruct tick; [|destruct (cancelled s); [|done]]; intros [= <-]; apply Hset; try done; auto.
  - intros [= <-]. apply Hset; try done; auto.
  - destruct (drop_delete key s) as [[i|] s1] eqn:Hd; intros [= <-].
    + destruct (drop_delete_some s key i s1 Hinv Hd)
        as (Hq & Hrem & Hheap & Hr & Hms & Hp1 & Hc & Hss & Hcore).
      eapply (inv_reaper_step s); try done; [by apply quiet_set_reaper| |by rewrite Hp|].
      * apply Hcore. intros j [Hj|Hj].
        -- apply (held_reaper (fun _ => False)); [by apply (held_same s)|tauto|by rewrite Hp1, Hp].
        -- right; left. by rewrite Hj.
      * intros j _. simpl. by rewrite Hheap.
    + apply drop_delete_none in Hd as [-> _]. apply Hset; try done; auto.
  - intros [= <-].
    destruct (drop_close_spec s i Hinv Hok) as (Hq & Hss & Hr & Hms & Hp1 & Hc & _ & Hheap & Hcore).
    eapply (inv_reaper_step s); try done; [by apply quiet_set_reaper| |by rewrite Hp].
    apply Hcore. intros j Hj Hne. apply (held_reaper (eq i)); [by apply (held_same s)|congruence|].
    rewrite Hp1, Hp. simpl. intros ? ->. by right.
  - done.
Qed.

Lemma closer_step_inv s s' : Inv s -> closer_step s = Some s' -> Inv s'.
Proof.
  intros Hinv. pose proof (inv_closer s Hinv) as Hok.
  assert (forall c, (forall i, ~ closer_holds (closer s) i) -> closer_ok (set_closer c s) ->
    Inv (set_closer c s)) as Hset.
  { intros c Hh Hc. eapply (inv_closer_step s); try done.
    - by apply quiet_pc.
    - eapply core_weaken; [|exact (inv_core s Hinv)]. intros j Hj.
      apply (held_closer (fun _ => False)); [done|tauto|]. intros i Hi. by destruct (Hh i). }
  unfold closer_step, closer_ok in *. destruct (closer s) as [|[|key keys]|i keys|] eqn:Hc.
  - destruct (main s) eqn:Hm, (reaper s) eqn:Hp; try done. intros [= <-]. apply Hset; [by auto|].
    simpl. split_and!; [done..|]. intros k [i Hk]. apply list_elem_of_fmap. exists (k, i).
    by rewrite elem_of_map_to_list.
  - destruct Hok as (Hm & Hp & Hk). intros [= <-]. apply Hset; [by auto|]. simpl. split_and!; [done..|].
    apply map_empty. intros k. destruct (sessions s !! k) eqn:Hs; [|done].
    exfalso. apply (not_elem_of_nil k), Hk. by eexists.
  - destruct Hok as (Hm & Hp & Hk). destruct (drop_delete key s) as [[i|] s1] eqn:Hd; intros [= <-].
    + destruct (drop_delete_some s key i s1 Hinv Hd)
        as (Hq & Hrem & Hheap & Hr & Hms & Hp1 & Hc1 & Hss & Hcore).
      eapply (inv_closer_step s); try done; [by apply quiet_set_closer| | |].
      * apply Hcore. intros j [Hj|Hj].
        -- apply (held_closer (fun _ => False)); [by apply (held_same s)|tauto|by rewrite Hc1, Hc].
        -- right; right; left. by rewrite Hj.
      * intros j _. simpl. by rewrite Hheap.
      * unfold closer_ok. simpl. rewrite Hms, Hp1, Hss. split_and!; [done..|].
        intros k [Hne Hk']%lookup_delete_is_Some. destruct (proj1 (elem_of_cons _ _ _) (Hk k Hk')); [congruence|done].
    + apply drop_delete_none in Hd as [-> Hnone]. apply Hset; [by auto|]. simpl. split_and!; [done..|].
      intros k Hk'. destruct (proj1 (elem_of_cons _ _ _) (Hk k Hk')) as [->|]; [|done]. rewrite Hnone in Hk'. by destruct Hk'.
  - destruct Hok as (Hm & Hp & Hrem & Hk). intros [= <-].
    destruct (drop_close_spec s i Hinv Hrem) as (Hq & Hss & Hr & Hms & Hp1 & Hc1 & _ & Hheap & Hcore).
    eapply (inv_closer_step s); try done; [by apply quiet_set_closer| |].
    + apply Hcore. intros j Hj Hne. apply (held_closer (eq i)); [by apply (held_same s)|congruence|].
      rewrite Hc1, Hc. simpl. intros ? ->. by right.
    + unfold closer_ok. simpl. rewrite Hms, Hp1, Hss. done.
  - done.
Qed.

Lemma step_inv idle l s s' : Inv s -> step idle l s = Some s' -> Inv s'.
Proof.
  intros Hinv. destruct l as [t| | |key|ok|r ok|tick|]; simpl.
  - destruct (decide _); [|done]. intros [= <-]. by destruct Hinv; split.
  - intros [= <-]. by destruct Hinv; split.
  - destruct (cancelled s); [|done]. intros [= <-]. by destruct Hinv; split.
  - destruct (main s) eqn:Hm; try done. destruct (listening s); [|done]. intros [= <-].
    by apply inv_set_main; rewrite ?Hm.
  - by apply main_step_inv.
  - by apply reader_step_inv.
  - by apply reaper_step_inv.
  - by apply closer_step_inv.
Qed.

Lemma reachable_inv idle s : reachable idle s -> Inv s.
Proof. induction 1 as [|s l s' _ IH Hs]; [apply inv_init|by eapply step_inv]. Qed.

(** ** Properties *)

(** C16: In every state the forwarder can reach, whatever arrives, fails and in
    whatever order the threads run: the table maps a client to an open socket that
    was dialled for that client, no socket serves two clients, and the session
    gauge is the number of sockets that were put in the table and are still open. *)
Theorem udp_table_sound (idle : Z) (s : State) (Hreach : reachable idle s) :
  (forall k i, sessions s !! k = Some i -> exists se, heap s !! i = Some se /\
     clientAddr se = k /\ open se = true) /\
  (forall k1 k2 i, sessions s !! k1 = Some i -> sessions s !! k2 = Some i -> k1 = k2) /\
  gauge s = Z.of_nat (size (live (heap s) (dom (readers s)))) /\
  Z.of_nat (size (sessions s)) <= gauge s.
Proof.
  pose proof (reachable_inv idle s Hreach) as Hinv. destruct (inv_core s Hinv) as [Hm _ _ Hg _].
  assert (forall k1 k2 i, sessions s !! k1 = Some i -> sessions s !! k2 = Some i -> k1 = k2) as Hinj.
  { intros k1 k2 i [[a1 H1] _]%Hm [[a2 H2] _]%Hm. congruence. }
  split_and!; try done.
  - intros k i [[a Hi] _]%Hm. by eexists.
  - rewrite Hg, <-size_dom. apply inj_le.
    set (ids := list_to_set (C := gset sid) (map_to_list (sessions s)).*2).
    assert (size (dom (sessions s)) = size ids) as ->.
    { rewrite size_dom. unfold ids. rewrite size_list_to_set, length_fmap; [by rewrite length_map_to_list|].
      apply NoDup_fmap_2_strong; [|apply NoDup_map_to_list].
      intros [k1 i1] [k2 i2] H1%elem_of_map_to_list H2%elem_of_map_to_list Heq. simpl in Heq. subst.
      f_equal. by eapply Hinj. }
    apply subseteq_size. intros i. unfold ids. rewrite elem_of_list_to_set, list_elem_of_fmap.
    intros ([k j] & -> & Hk%elem_of_map_to_list). simpl. destruct (Hm k j Hk) as [[a Hj] Hin].
    apply elem_of_live. split; [|done]. unfold is_open. by rewrite Hj.
Qed.

(** C29: Datagrams never cross between clients: a session carries the datagrams of one
    client to its upstream, and what comes back on it is sent to that client. *)
Theorem udp_datagrams_routed (idle : Z) (s : State) (i : sid) (c c' : string)
    (Hreach : reachable idle s)
    (Hup : Up i c ∈ sent s \/ Down i c ∈ sent s) (Hdown : Down i c' ∈ sent s \/ Up i c' ∈ sent s) :
  c' = c /\ clientAddr <$> heap s !! i = Some c.
Proof.
  pose proof (reachable_inv idle s Hreach) as Hinv. destruct (inv_core s Hinv) as [_ _ _ _ Hs].
  assert (forall x, Up i x ∈ sent s \/ Down i x ∈ sent s -> clientAddr <$> heap s !! i = Some x) as Hown
    by (intros x [Hx|Hx]; apply (Hs _ Hx)).
  apply Hown in Hup. assert (clientAddr <$> heap s !! i = Some c') as Hc by (apply Hown; tauto).
  split; [congruence|done].
Qed.

(** C28: Shutdown leaks nothing: once [closeAllSessions] has returned, the table is
    empty, and every upstream socket still open is in the hands of a reader whose
    next step closes it; when no reader is at that point the gauge is back to
    zero and every socket ever dialled is closed. *)
Theorem udp_shutdown_closes_all (idle : Z) (s : State) (Hreach : reachable idle s)
    (Hdone : closer s = CDone) :
  sessions s = ∅ /\
  (forall i se, heap s !! i = Some se -> open se = true ->
     exists r, readers s !! r = Some (RDrop (DClose i))) /\
  ((forall r i, readers s !! r <> Some (RDrop (DClose i))) ->
     gauge s = 0 /\ forall i se, heap s !! i = Some se -> open se = false).
Proof.
  pose proof (reachable_inv idle s Hreach) as Hinv. destruct (inv_core s Hinv) as [_ Ho _ Hg _].
  pose proof (inv_closer s Hinv) as Hc. unfold closer_ok in Hc. rewrite Hdone in Hc.
  destruct Hc as (Hm & Hp & He).
  assert (forall i se, heap s !! i = Some se -> open se = true ->
    exists r, readers s !! r = Some (RDrop (DClose i))) as Hopen.
  { intros i se Hi Hop. destruct (Ho i se Hi Hop) as [Hk|Hheld]; [by rewrite He, lookup_empty in Hk|].
    unfold held in Hheld. rewrite Hm, Hp, Hdone in Hheld. simpl in Hheld.
    destruct Hheld as [[]|[[]|[[]|(r & pc & Hr & Hh)]]]. exists r. rewrite Hr.
    destruct pc as [| | |d|]; try done. simpl in Hh. unfold drop_holds in Hh. by subst. }
  split_and!; [done|done|]. intros Hno.
  assert (forall i se, heap s !! i = Some se -> open se = false) as Hcl.
  { intros i se Hi. destruct (open se) eqn:Hop; [|done]. destruct (Hopen i se Hi Hop) as [r Hr].
    by destruct (Hno r i). }
  split; [|done]. rewrite Hg.
  assert (live (heap s) (dom (readers s)) = ∅) as ->; [|by rewrite size_empty].
  apply set_eq. intros i. rewrite elem_of_live, elem_of_empty. unfold is_open.
  destruct (heap s !! i) as [se|] eqn:Hi; [rewrite (Hcl i se Hi)|]; naive_solver.
Qed.

Lemma steps_reachable idle s ls s' : reachable idle s -> steps idle ls s = Some s' -> reachable idle s'.
Proof.
  revert s. induction ls as [|l ls IH]; intros s Hs; simpl; [by intros [= <-]|].
  destruct (step idle l s) as [s1|] eqn:Hl; [|done]. simpl. apply IH. by eapply reach_step.
Qed.

(** A client's datagram goes through a new session; then the upstream refuses one:
    the read loop and the reader of session 0 both see the error, the read loop
    drops the session first, and the client's next datagram opens session 1. *)
Definition refused_schedule : list label :=
  let packet := LPacket "192.0.2.1:5000" in let go := LMain true in
  [packet; go; go; go; go; go;            (* session 0, one datagram up *)
   packet; go; go; LMain false;           (* the write of the next one is refused *)
   LReader 0 false;                       (* and so is the read *)
   go; go;                                (* the read loop drops session 0 *)
   packet; go; go; go; go; go].           (* session 1, one datagram up *)

(** The state it leads to, and what the next two steps of that reader make of it. *)
Definition refused_state (idle : Z) : State := default init (steps idle refused_schedule init).
Definition after_reader (idle : Z) (s : State) : State := default init (step idle (LReader 0 true) s).

Lemma refused_reachable idle : reachable idle (refused_state idle).
Proof.
  apply (steps_reachable idle init refused_schedule); [apply reach_init|]. vm_compute. reflexivity.
Qed.

(** C36: [upstreamReadLoop] drops by key, not by session: there is a run, without a
    race on one access, in which the reader of a session that is gone removes and
    then closes the newer session of the same client, right after a datagram went
    up through it, so that its reply is lost. *)
Theorem udp_stale_reader_drops_new_session (idle : Z) :
  exists s s' s'', reachable idle s /\
    sessions s !! "192.0.2.1:5000" = Some 1%nat /\ head (sent s) = Some (Up 1 "192.0.2.1:5000") /\
    step idle (LReader 0 true) s = Some s' /\ sessions s' = ∅ /\
    step idle (LReader 0 true) s' = Some s'' /\ is_open (heap s'') 1 = false.
Proof.
  exists (refused_state idle), (after_reader idle (refused_state idle)),
    (after_reader idle (after_reader idle (refused_state idle))).
  split; [exact (refused_reachable idle)|].
  split_and!; vm_compute; reflexivity.
Qed.

(** Then [Serve] is told to stop. *)
Definition shutdown_schedule : list label :=
  [LCancel; LCloseListen; LMain false; LReaper false; LCloser; LCloser; LCloser; LCloser].
Definition shutdown_state : State := default init (steps 30 shutdown_schedule (refused_state 30)).

Lemma shutdown_reachable : reachable 30 shutdown_state.
Proof.
  apply (steps_reachable 30 (refused_state 30) shutdown_schedule); [apply refused_reachable|].
  vm_compute. reflexivity.
Qed.

Lemma udp_table_sound_witness :
  (forall k i, sessions (refused_state 30) !! k = Some i -> exists se,
     heap (refused_state 30) !! i = Some se /\ clientAddr se = k /\ open se = true) /\
  (forall k1 k2 i, sessions (refused_state 30) !! k1 = Some i ->
     sessions (refused_state 30) !! k2 = Some i -> k1 = k2) /\
  gauge (refused_state 30) =
    Z.of_nat (size (live (heap (refused_state 30)) (dom (readers (refused_state 30))))) /\
  Z.of_nat (size (sessions (refused_state 30))) <= gauge (refused_state 30).
Proof. exact (udp_table_sound 30 (refused_state 30) (refused_reachable 30)). Defined.

Lemma udp_datagrams_routed_witness :
  "192.0.2.1:5000" = "192.0.2.1:5000" /\
  clientAddr <$> heap (refused_state 30) !! 1%nat = Some "192.0.2.1:5000".
Proof.
  apply (udp_datagrams_routed 30 (refused_state 30) 1 _ _ (refused_reachable 30)).
  - left. vm_compute. left.
  - right. vm_compute. left.
Defined.

Lemma udp_shutdown_closes_all_witness :
  sessions shutdown_state = ∅ /\
  (forall i se, heap shutdown_state !! i = Some se -> open se = true ->
     exists r, readers shutdown_state !! r = Some (RDrop (DClose i))) /\
  ((forall r i, readers shutdown_state !! r <> Some (RDrop (DClose i))) ->
     gauge shutdown_state = 0 /\ forall i se, heap shutdown_state !! i = Some se -> open se = false).
Proof.
  apply (udp_shutdown_closes_all 30 shutdown_state shutdown_reachable). vm_compute. reflexivity.
Defined.
