(* ===== verification/ProxySplice.v ===== *)
(** * ProxySplice: one proxied TCP connection

    Models [handle], [writeProxyHeader], [splice], [copyAndCloseWrite] and
    [copyBuffer] of internal/proxy/proxy.go. The two copying goroutines of a
    connection are two programs whose exchanges interleave. A copy has no bound on
    the number of reads, so it takes fuel, one unit per read; running out is a
    result of its own. *)
From S2P Require Import Prelude GoStrings Effects ProxyFlags ProxyHeader.
Open Scope Z_scope.

Inductive Side : Type := Client | Server.

#[export] Instance Side_eq_dec : EqDecision Side.
Proof. solve_decision. Defined.

Inductive ConnE : Type -> Type :=
| Dial (address : string) : ConnE (result unit)
| Addrs : ConnE (TCPAddr * TCPAddr)          (* client.RemoteAddr(), client.LocalAddr() *)
| Read (s : Side) : ConnE (list Z * option error)
| Write (s : Side) (bs : list Z) : ConnE (Z * option error)
| CloseWrite (s : Side) : ConnE unit
| Close (s : Side) : ConnE unit.

(** The result: the bytes written and the error that ended the loop; [None] when
    the fuel ran out. *)
Fixpoint copyBuffer (fuel : nat) (dst src : Side) (written : Z) : prog ConnE (option (Z * error)) :=
  match fuel with
  | 0%nat => Ret None
  | S fuel' =>
      let* (bs, rerr) := call (Read src) in
      let continue (written : Z) :=
        match rerr with
        | Some e => Ret (Some (written, e))
        | None => copyBuffer fuel' dst src written
        end in
      match bs with
      | [] => continue written
      | _ =>
          let* (w, werr) := call (Write dst bs) in
          match werr with
          | Some e => Ret (Some (written + w, e))
          | None => continue (written + w)
          end
      end
  end.

Definition copyAndCloseWrite (fuel : nat) (dst src : Side) : prog ConnE (option (Z * error)) :=
  let* r := copyBuffer fuel dst src 0 in
  match r with
  | None => Ret None
  | Some _ => let* _ := call (CloseWrite dst) in Ret r
  end.

(** [handle] up to the call of [splice]: whether it gets there. *)
Definition handle_setup (spec : Spec) (upstream : string) : prog ConnE bool :=
  let* server := call (Dial upstream) in
  match server with
  | Fail _ => Ret false
  | OK _ =>
      if bool_decide (ProxyProtocol spec = "") then Ret true
      else
        let* (clientAddr, proxyAddr) := call Addrs in
        match header_bytes (ProxyProtocol spec) clientAddr proxyAddr with
        | Fail _ => Ret false
        | OK header =>
            let* (_, err) := call (Write Server header) in
            match err with Some _ => Ret false | None => Ret true end
        end
  end.

(** The deferred calls: the server connection exists once the dial succeeded. *)
Definition handle_end (dialled : bool) : prog ConnE unit :=
  let* _ := if dialled then call (Close Server) else Ret tt in
  call (Close Client).

Inductive interleave {A} : list A -> list A -> list A -> Prop :=
| interleave_nil : interleave [] [] []
| interleave_l x l1 l2 l : interleave l1 l2 l -> interleave (x :: l1) l2 (x :: l)
| interleave_r x l1 l2 l : interleave l1 l2 l -> interleave l1 (x :: l2) (x :: l).

Definition dialled (tr : list (event ConnE)) : bool :=
  match tr with Ev (Dial _) (OK _) :: _ => true | _ => false end.

(** The exchanges of [handle] when both directions end within [fuel] reads. *)
Inductive handle (fuel : nat) (spec : Spec) (upstream : string) : list (event ConnE) -> Prop :=
| handle_refused tr1 tr2 :
    exec (handle_setup spec upstream) tr1 false -> exec (handle_end (dialled tr1)) tr2 tt ->
    handle fuel spec upstream (tr1 ++ tr2)
| handle_spliced tr1 down up tr tr2 rd ru :
    exec (handle_setup spec upstream) tr1 true ->
    exec (copyAndCloseWrite fuel Client Server) down (Some rd) ->
    exec (copyAndCloseWrite fuel Server Client) up (Some ru) ->
    interleave down up tr -> exec (handle_end true) tr2 tt ->
    handle fuel spec upstream (tr1 ++ tr ++ tr2).

(** ** Reading an exchange *)

Definition read_of (s : Side) (X : Type) (e : ConnE X) : X -> list Z :=
  match e in ConnE Y return Y -> list Z with
  | Read s' => fun x => if decide (s' = s) then fst x else []
  | _ => fun _ => []
  end.
Definition write_of (s : Side) (X : Type) (e : ConnE X) : list Z :=
  match e with Write s' bs => if decide (s' = s) then bs else [] | _ => [] end.

Definition bytes_read (s : Side) (ev : event ConnE) : list Z :=
  match ev with Ev e x => read_of s _ e x end.
Definition bytes_written (s : Side) (ev : event ConnE) : list Z :=
  match ev with Ev e _ => write_of s _ e end.

(** The bytes read from a side, and those handed to its socket, in order. *)
Definition read_from (s : Side) (tr : list (event ConnE)) : list Z := tr ≫= bytes_read s.
Definition written_to (s : Side) (tr : list (event ConnE)) : list Z := tr ≫= bytes_written s.

Definition is_half_close (s : Side) (ev : event ConnE) : bool :=
  match ev with Ev e _ => match e with CloseWrite s' => bool_decide (s' = s) | _ => false end end.
Definition is_close (s : Side) (ev : event ConnE) : bool :=
  match ev with Ev e _ => match e with Close s' => bool_decide (s' = s) | _ => false end end.
Definition is_read (s : Side) (ev : event ConnE) : bool :=
  match ev with Ev e _ => match e with Read s' => bool_decide (s' = s) | _ => false end end.

(** How often the write half, or all, of a side is closed, and how often it is read. *)
Definition half_closes (s : Side) (tr : list (event ConnE)) : nat :=
  length (filter (fun ev => is_half_close s ev = true) tr).
Definition closes (s : Side) (tr : list (event ConnE)) : nat :=
  length (filter (fun ev => is_close s ev = true) tr).
Definition reads (s : Side) (tr : list (event ConnE)) : nat :=
  length (filter (fun ev => is_read s ev = true) tr).

Lemma read_from_app s t1 t2 : read_from s (t1 ++ t2) = read_from s t1 ++ read_from s t2.
Proof. apply bind_app. Qed.
Lemma written_to_app s t1 t2 : written_to s (t1 ++ t2) = written_to s t1 ++ written_to s t2.
Proof. apply bind_app. Qed.
Lemma half_closes_app s t1 t2 : half_closes s (t1 ++ t2) = (half_closes s t1 + half_closes s t2)%nat.
Proof. unfold half_closes. by rewrite filter_app, length_app. Qed.
Lemma closes_app s t1 t2 : closes s (t1 ++ t2) = (closes s t1 + closes s t2)%nat.
Proof. unfold closes. by rewrite filter_app, length_app. Qed.

(** The events of an interleaving, seen by a function that ignores one part. *)
Lemma interleave_bind {A B} (f : A -> list B) l1 l2 l :
  interleave l1 l2 l -> l1 ≫= f = [] -> l ≫= f = l2 ≫= f.
Proof.
  induction 1 as [|x l1 l2 l _ IH|x l1 l2 l _ IH]; csimpl; [done| |].
  - intros [Hx Hl]%app_nil. by rewrite Hx, IH.
  - intros Hl. by rewrite IH.
Qed.

Lemma interleave_sym {A} (l1 l2 l : list A) : interleave l1 l2 l -> interleave l2 l1 l.
Proof. induction 1; by constructor. Qed.

Lemma interleave_perm {A} (l1 l2 l : list A) : interleave l1 l2 l -> l ≡ₚ l1 ++ l2.
Proof.
  induction 1 as [|x l1 l2 l _ IH|x l1 l2 l _ IH]; [done| |].
  - by rewrite IH.
  - by rewrite IH, Permutation_middle.
Qed.

(** ** One direction *)

(** What the exchange of a copy has moved, and what it left alone. *)
Definition copied (dst src : Side) (fuel : nat) (r : option (Z * error)) (tr : list (event ConnE)) : Prop :=
  written_to dst tr = read_from src tr /\ written_to src tr = [] /\ read_from dst tr = [] /\
  (forall s, closes s tr = 0%nat /\ half_closes s tr = 0%nat) /\
  (r = None -> reads src tr = fuel).

Lemma copied_read dst src fuel r bs rerr tr : dst <> src ->
  copied dst src fuel r tr -> bs = [] -> copied dst src (S fuel) r (Ev (Read src) (bs, rerr) :: tr).
Proof.
  intros Hne (H1 & H2 & H3 & H4 & H5) ->. unfold copied, read_from, written_to, reads in *. csimpl.
  rewrite decide_True, decide_False, H1, H2, H3 by done. simpl. split_and!; [done..|exact H4|].
  intros Hr. rewrite filter_cons_True by by apply bool_decide_eq_true. simpl. f_equal. by apply H5.
Qed.

Lemma copied_write dst src fuel r bs rerr w tr : dst <> src -> copied dst src fuel r tr ->
  copied dst src (S fuel) r (Ev (Read src) (bs, rerr) :: Ev (Write dst bs) w :: tr).
Proof.
  intros Hne (H1 & H2 & H3 & H4 & H5). unfold copied, read_from, written_to, reads in *. csimpl.
  rewrite !decide_True, !decide_False, H1, H2, H3 by done. split_and!; [done..|exact H4|].
  intros Hr. rewrite filter_cons_True by by apply bool_decide_eq_true.
  rewrite filter_cons_False by done. simpl. f_equal. by apply H5.
Qed.

Lemma copy_exchange fuel dst src w tr r : dst <> src ->
  exec (copyBuffer fuel dst src w) tr r -> copied dst src fuel r tr.
Proof.
  intros Hne. revert w tr. induction fuel as [|fuel IH]; intros w tr; cbn [copyBuffer].
  { intros [-> ->]. done. }
  intros ([bs rerr] & t1 & t2 & -> & ->%exec_call & H)%exec_bind. cbv zeta in H.
  assert (forall w tr e, exec (Ret (Some (w, e))) tr r -> copied dst src fuel r tr) as Hend
    by by intros w' tr' e [-> ->].
  assert (forall w tr, exec (match rerr with
    | Some e => Ret (Some (w, e)) | None => copyBuffer fuel dst src w end) tr r ->
    copied dst src fuel r tr) as Hcont by (intros w' tr'; destruct rerr; [apply Hend|apply IH]).
  destruct bs as [|b bs].
  - apply Hcont in H. by apply copied_read.
  - apply exec_bind in H as ([n [e|]] & t3 & t4 & -> & ->%exec_call & H); apply copied_write; try done;
      [by eapply Hend|by eapply Hcont].
Qed.

Lemma copyAndCloseWrite_exchange fuel dst src tr r : dst <> src ->
  exec (copyAndCloseWrite fuel dst src) tr (Some r) ->
  exists tr', tr = tr' ++ [Ev (CloseWrite dst) tt] /\
    written_to dst tr' = read_from src tr' /\ written_to src tr' = [] /\ read_from dst tr' = [] /\
    (forall s, closes s tr' = 0%nat /\ half_closes s tr' = 0%nat).
Proof.
  intros Hne. unfold copyAndCloseWrite. intros ([r0|] & t1 & t2 & -> & H1 & H2)%exec_bind; [|by destruct H2].
  apply exec_bind in H2 as ([] & t3 & t4 & -> & ->%exec_call & [_ ->]).
  apply copy_exchange in H1 as (? & ? & ? & ? & _); [|done]. exists t1. by rewrite app_nil_r.
Qed.

(** ** A whole connection *)

(** The header the rule asks for, for the addresses of this connection. *)
Definition header_for (spec : Spec) (tr : list (event ConnE)) (header : list Z) : Prop :=
  (ProxyProtocol spec = "" /\ header = []) \/
  exists client proxy, Ev Addrs (client, proxy) ∈ tr /\
    header_bytes (ProxyProtocol spec) client proxy = OK header.

(** No byte has moved between the two sides, and nothing is closed. *)
Definition untouched (tr : list (event ConnE)) : Prop :=
  (forall s, read_from s tr = [] /\ closes s tr = 0%nat /\ half_closes s tr = 0%nat) /\
  written_to Client tr = [].

Lemma exec_handle_setup spec upstream tr ok : exec (handle_setup spec upstream) tr ok ->
  untouched tr /\
  (ok = true -> dialled tr = true /\ header_for spec tr (written_to Server tr)).
Proof.
  intros ([[]|e] & t1 & t2 & -> & ->%exec_call & H)%exec_bind; [|by destruct H as [-> ->]].
  case_bool_decide as Hp; [destruct H as [-> ->]; split; [done|]; intros _; split; [done|by left]|].
  apply exec_bind in H as ([client proxy] & t3 & t4 & -> & ->%exec_call & H).
  destruct (header_bytes _ client proxy) as [header|e] eqn:Hh; [|by destruct H as [-> ->]].
  apply exec_bind in H as ([n err] & t5 & t6 & -> & ->%exec_call & H).
  assert (t6 = []) as -> by by destruct err, H.
  split; [done|]. intros ->. split; [done|]. right. exists client, proxy. split; [by right; left|].
  unfold written_to. csimpl. by rewrite app_nil_r.
Qed.

Lemma exec_handle_end d tr : exec (handle_end d) tr tt ->
  tr = if d then [Ev (Close Server) tt; Ev (Close Client) tt] else [Ev (Close Client) tt].
Proof.
  unfold handle_end. intros ([] & t1 & t2 & -> & H1 & ->%exec_call)%exec_bind.
  destruct d; [by apply exec_call in H1 as ->|by destruct H1 as [_ ->]].
Qed.

Lemma dialled_app t1 t2 : dialled t1 = true -> dialled (t1 ++ t2) = true.
Proof. by destruct t1. Qed.

Lemma handle_setup_nonempty spec upstream tr ok : exec (handle_setup spec upstream) tr ok -> tr <> [].
Proof. by intros (r & t1 & t2 & -> & ->%exec_call & _)%exec_bind. Qed.

Lemma dialled_app_eq t1 t2 : t1 <> [] -> dialled (t1 ++ t2) = dialled t1.
Proof. by destruct t1. Qed.

(** The two copies of a connection, interleaved. *)
Lemma spliced_exchange fuel down up tr rd ru :
  exec (copyAndCloseWrite fuel Client Server) down (Some rd) ->
  exec (copyAndCloseWrite fuel Server Client) up (Some ru) -> interleave down up tr ->
  written_to Server tr = read_from Client tr /\ written_to Client tr = read_from Server tr /\
  (forall s, closes s tr = 0%nat /\ half_closes s tr = 1%nat).
Proof.
  intros Hd Hu Hi.
  apply copyAndCloseWrite_exchange in Hd as (d & -> & Hd1 & Hd2 & Hd3 & Hd4); [|done].
  apply copyAndCloseWrite_exchange in Hu as (u & -> & Hu1 & Hu2 & Hu3 & Hu4); [|done].
  assert (forall f : event ConnE -> list Z, f (Ev (CloseWrite Client) tt) = [] ->
    f (Ev (CloseWrite Server) tt) = [] -> (d ≫= f = [] -> tr ≫= f = u ≫= f) /\ (u ≫= f = [] -> tr ≫= f = d ≫= f))
    as Hf.
  { intros f Hc Hs. split; intros Hz.
    - rewrite (interleave_bind f _ _ _ Hi); rewrite bind_app; csimpl; rewrite ?Hc, ?Hs, ?Hz; simpl;
        by rewrite ?app_nil_r.
    - rewrite (interleave_bind f _ _ _ (interleave_sym _ _ _ Hi)); rewrite bind_app; csimpl;
        rewrite ?Hc, ?Hs, ?Hz; simpl; by rewrite ?app_nil_r. }
  unfold read_from, written_to in *. split_and!.
  - rewrite (proj1 (Hf (bytes_written Server) eq_refl eq_refl) Hd2), Hu1.
    symmetry. by apply (Hf (bytes_read Client)).
  - rewrite (proj2 (Hf (bytes_written Client) eq_refl eq_refl) Hu2), Hd1.
    symmetry. by apply (Hf (bytes_read Server)).
  - intros s. apply interleave_perm in Hi.
    assert (closes s tr = closes s ((d ++ [Ev (CloseWrite Client) tt]) ++ u ++ [Ev (CloseWrite Server) tt])
      /\ half_closes s tr = half_closes s ((d ++ [Ev (CloseWrite Client) tt]) ++ u ++ [Ev (CloseWrite Server) tt]))
      as [-> ->] by (unfold closes, half_closes; by rewrite Hi).
    rewrite !closes_app, !half_closes_app. destruct (Hd4 s) as [-> ->], (Hu4 s) as [-> ->]. by destruct s.
Qed.

(** C18: One proxied connection, however its two directions interleave and whatever
    fails: the client's socket is closed once, the upstream's once if it was
    dialled; and either nothing was read from either side, or the upstream is
    handed exactly the PROXY header the rule asks for followed by the bytes read
    from the client, the client exactly the bytes read from the upstream, both in
    order, and each side's write half is closed once. *)
Theorem handle_streams (fuel : nat) (spec : Spec) (upstream : string) (tr : list (event ConnE))
    (Hhandle : handle fuel spec upstream tr) :
  closes Client tr = 1%nat /\ closes Server tr = (if dialled tr then 1 else 0)%nat /\
  ((forall s, read_from s tr = [] /\ half_closes s tr = 0%nat) /\ written_to Client tr = [] \/
   (forall s, half_closes s tr = 1%nat) /\ dialled tr = true /\
   exists header, header_for spec tr header /\
     written_to Server tr = header ++ read_from Client tr /\
     written_to Client tr = read_from Server tr).
Proof.
  destruct Hhandle as [tr1 tr2 Hset Hend|tr1 down up tr tr2 rd ru Hset Hd Hu Hi Hend].
  - rewrite dialled_app_eq by by eapply handle_setup_nonempty.
    apply exec_handle_setup in Hset as [[Hun Hw] _]. apply exec_handle_end in Hend as ->.
    destruct (Hun Client) as (Hrc & Hcc & Hhc), (Hun Server) as (Hrs & Hcs & Hhs).
    rewrite !closes_app, written_to_app, Hcc, Hcs, Hw. split_and!; [by destruct (dialled tr1)..|]. left.
    split; [|by destruct (dialled tr1)]. intros s. rewrite read_from_app, half_closes_app.
    destruct s; rewrite ?Hrc, ?Hrs, ?Hhc, ?Hhs; by destruct (dialled tr1).
  - pose proof (handle_setup_nonempty _ _ _ _ Hset) as Hne.
    apply exec_handle_setup in Hset as [[Hun Hw] Hok]. destruct (Hok eq_refl) as [Hdial Hh].
    apply exec_handle_end in Hend as ->. rewrite dialled_app_eq, Hdial by done.
    destruct (spliced_exchange _ _ _ _ _ _ Hd Hu Hi) as (Hs & Hc & Hcl).
    rewrite !closes_app, !written_to_app, !read_from_app.
    destruct (Hun Client) as (-> & -> & Hhc), (Hun Server) as (-> & -> & Hhs).
    rewrite Hw, Hs, Hc, (proj1 (Hcl Client)), (proj1 (Hcl Server)). split_and!; [done..|]. right.
    split_and!; [|done|].
    + intros s. rewrite !half_closes_app, (proj2 (Hcl s)). by destruct s; rewrite ?Hhc, ?Hhs.
    + exists (written_to Server tr1). rewrite !app_nil_r. split; [|done].
      destruct Hh as [?|(c & p & Hin & ?)]; [by left|right]. exists c, p. split; [|done].
      apply elem_of_app. by left.
Qed.

Definition read_error (ev : event ConnE) : option error :=
  match ev with
  | Ev e x => match e in ConnE Y return Y -> option error with Read _ => fun x => snd x | _ => fun _ => None end x
  end.

Lemma copy_unfinished fuel dst src w tr : exec (copyBuffer fuel dst src w) tr None ->
  Forall (fun ev => read_error ev = None) tr.
Proof.
  revert w tr. induction fuel as [|fuel IH]; intros w tr; cbn [copyBuffer]; [by intros [_ ->]|].
  intros ([bs [e|]] & t1 & t2 & -> & ->%exec_call & H)%exec_bind; cbv zeta in H.
  - destruct bs as [|b bs]; [by destruct H|].
    by apply exec_bind in H as ([n [?|]] & t3 & t4 & -> & _ & [? _]).
  - constructor; [done|]. destruct bs as [|b bs]; [by eapply IH|].
    apply exec_bind in H as ([n [?|]] & t3 & t4 & -> & ->%exec_call & H); [by destruct H|].
    constructor; [done|by eapply IH].
Qed.

(** A copy ends: the only way it can still be running after [fuel] reads is that
    every one of them returned without an error; and then all that was read has
    been handed on. *)
Theorem copyBuffer_ends (fuel : nat) (dst src : Side) (tr : list (event ConnE)) (Hne : dst <> src)
    (Hexec : exec (copyBuffer fuel dst src 0) tr None) :
  reads src tr = fuel /\ Forall (fun ev => read_error ev = None) tr /\ written_to dst tr = read_from src tr.
Proof.
  pose proof (copy_exchange _ _ _ _ _ _ Hne Hexec) as (Hc & _ & _ & _ & Hr).
  split_and!; [by apply Hr|by eapply copy_unfinished|done].
Qed.

(** A request of five bytes in two reads, and an answer of two. *)
Definition sample_rule : Spec := MkSpec "0.0.0.0:443" "10.96.0.1:443" "tcp" "2" [].
Definition eof : option error := Some (errorf "EOF").
Definition sample_setup : list (event ConnE) :=
  [Ev (Dial "10.96.0.1:443") (OK tt); Ev Addrs (sample_client, sample_proxy);
   Ev (Write Server (buildProxyV2Header sample_client sample_proxy)) (30, None)].
Definition sample_up : list (event ConnE) :=
  [Ev (Read Client) ([1; 2; 3], None); Ev (Write Server [1; 2; 3]) (3, None);
   Ev (Read Client) ([4; 5], eof); Ev (Write Server [4; 5]) (2, None); Ev (CloseWrite Server) tt].
Definition sample_down : list (event ConnE) :=
  [Ev (Read Server) ([6; 7], eof); Ev (Write Client [6; 7]) (2, None); Ev (CloseWrite Client) tt].
Definition sample_exchange : list (event ConnE) :=
  sample_setup ++ (sample_up ++ sample_down) ++ [Ev (Close Server) tt; Ev (Close Client) tt].

Lemma interleave_app {A} (l1 l2 : list A) : interleave l1 l2 (l2 ++ l1).
Proof.
  induction l2 as [|x l2 IH]; simpl; [|by constructor]. induction l1; by constructor.
Qed.

Lemma sample_handle : handle 2 sample_rule "10.96.0.1:443" sample_exchange.
Proof.
  eapply (handle_spliced _ _ _ sample_setup sample_down sample_up).
  - simpl. by repeat eexists.
  - simpl. by repeat eexists.
  - simpl. by repeat eexists.
  - apply interleave_app.
  - simpl. by repeat eexists.
Qed.

Lemma handle_streams_witness :
  closes Client sample_exchange = 1%nat /\
  closes Server sample_exchange = (if dialled sample_exchange then 1 else 0)%nat /\
  ((forall s, read_from s sample_exchange = [] /\ half_closes s sample_exchange = 0%nat) /\
     written_to Client sample_exchange = [] \/
   (forall s, half_closes s sample_exchange = 1%nat) /\ dialled sample_exchange = true /\
   exists header, header_for sample_rule sample_exchange header /\
     written_to Server sample_exchange = header ++ read_from Client sample_exchange /\
     written_to Client sample_exchange = read_from Server sample_exchange).
Proof. exact (handle_streams 2 sample_rule "10.96.0.1:443" sample_exchange sample_handle). Defined.

Lemma copyBuffer_ends_witness :
  let tr := [Ev (Read Client) ([1; 2], None); Ev (Write Server [1; 2]) (2, None)] in
  reads Client tr = 1%nat /\ Forall (fun ev => read_error ev = None) tr /\
  written_to Server tr = read_from Client tr.
Proof. apply (copyBuffer_ends 1 Server Client); [discriminate|]. simpl. by repeat eexists. Defined.
