(* ===== verification/ProxyServe.v ===== *)
(** * ProxyServe: the life of the proxy's listeners

    Models [Serve] of internal/proxy/proxy.go: binding the rules in order, what is
    undone when one cannot be bound, and the order of the shutdown. A listener or
    packet socket is the number the environment answers the bind with. *)
From S2P Require Import Prelude GoStrings Effects ProxyFlags.
Open Scope Z_scope.

Inductive ServeE : Type -> Type :=
| ListenTCP (address : string) : ServeE (result nat)
| ListenUDP (address : string) : ServeE (result nat)
| CloseListener (l : nat) : ServeE unit
| ClosePacketConn (c : nat) : ServeE unit
| StartHealth (address : string) : ServeE (result unit)
| StopHealth : ServeE unit
| GoAcceptLoop (l : nat) (spec : Spec) : ServeE unit
| GoForwarder (c : nat) (spec : Spec) : ServeE unit
| WaitDone : ServeE unit                      (* <-ctx.Done() *)
| CancelAccept : ServeE unit
| WaitAccepts : ServeE unit                   (* accepts.Wait() *)
| CloseAllSessions (c : nat) : ServeE unit
| WaitConns (timeout : Z) : ServeE bool.      (* waitTimeout(&conns, ...) *)

Definition second : Z := 1000000000.

Record ServeOptions := MkServeOptions {
  DrainTimeout : Z;          (* nanoseconds *)
  UDPIdleTimeout : Z;
  HealthBindAddress : string;
  HealthCheckTimeout : Z
}.

Definition with_defaults (o : ServeOptions) : ServeOptions :=
  MkServeOptions
    (if DrainTimeout o <=? 0 then 30 * second else DrainTimeout o)
    (if UDPIdleTimeout o <=? 0 then 30 * second else UDPIdleTimeout o)
    (HealthBindAddress o)
    (if HealthCheckTimeout o <=? 0 then 250000000 else HealthCheckTimeout o).

(** The open sockets, with their rules, in the order they were bound. *)
Record Bound := MkBound { tcp_bound : list (nat * Spec); udp_bound : list (nat * Spec) }.

Definition closeAll (ls : list (nat * Spec)) : prog ServeE unit :=
  for_all_do ls (fun l => call (CloseListener (fst l))).
Definition closeConns (cs : list (nat * Spec)) : prog ServeE unit :=
  for_all_do cs (fun c => call (ClosePacketConn (fst c))).

Definition closeAllOpened (b : Bound) : prog ServeE unit :=
  let* _ := closeAll (tcp_bound b) in closeConns (udp_bound b).

(** The loop over the rules. *)
Fixpoint bind_specs (specs : list Spec) (b : Bound) : prog ServeE (result Bound) :=
  match specs with
  | [] => Ret (OK b)
  | spec :: specs' =>
      if bool_decide (protocol spec = ProtocolTCP) then
        let* l := call (ListenTCP (Listen spec)) in
        match l with
        | Fail e =>
            let* _ := closeAllOpened b in
            Ret (Fail (wrap ("listen tcp " +:+ Listen spec +:+ ": ") e))
        | OK l => bind_specs specs' (MkBound (tcp_bound b ++ [(l, spec)]) (udp_bound b))
        end
      else if bool_decide (protocol spec = ProtocolUDP) then
        let* c := call (ListenUDP (Listen spec)) in
        match c with
        | Fail e =>
            let* _ := closeAllOpened b in
            Ret (Fail (wrap ("listen udp " +:+ Listen spec +:+ ": ") e))
        | OK c => bind_specs specs' (MkBound (tcp_bound b) (udp_bound b ++ [(c, spec)]))
        end
      else
        let* _ := closeAllOpened b in
        Ret (Fail (errorf ("unsupported protocol " +:+ fmt_q (SpecProtocol spec) +:+ " on " +:+ Listen spec)))
  end.

(** From the start of the loops to the return. *)
Definition serve_bound (opts : ServeOptions) (b : Bound) : prog ServeE (result unit) :=
  let* _ := for_all_do (tcp_bound b) (fun l => call (GoAcceptLoop (fst l) (snd l))) in
  let* _ := for_all_do (udp_bound b) (fun c => call (GoForwarder (fst c) (snd c))) in
  let* _ := call WaitDone in
  let* _ := call CancelAccept in
  let* _ := closeAll (tcp_bound b) in
  let* _ := closeConns (udp_bound b) in
  let* _ := call WaitAccepts in
  let* _ := for_all_do (udp_bound b) (fun c => call (CloseAllSessions (fst c))) in
  let* _ := call (WaitConns (DrainTimeout opts)) in
  Ret (OK tt).

Definition Serve (specs : list Spec) (opts : ServeOptions) : prog ServeE (result unit) :=
  let opts := with_defaults opts in
  let* bound := bind_specs specs (MkBound [] []) in
  match bound with
  | Fail e => Ret (Fail e)
  | OK b =>
      if negb (bool_decide (HealthBindAddress opts = "")) then
        let* h := call (StartHealth (HealthBindAddress opts)) in
        match h with
        | Fail e => let* _ := closeAllOpened b in Ret (Fail e)
        | OK _ =>
            let* r := serve_bound opts b in
            let* _ := call CancelAccept in       (* defer cancelAccept() *)
            let* _ := call StopHealth in         (* defer stopHealth() *)
            Ret r
        end
      else
        let* r := serve_bound opts b in
        let* _ := call CancelAccept in
        Ret r
  end.

(** ** Reading an exchange *)

Inductive Socket : Type := TCPSocket (l : nat) | UDPSocket (c : nat).

Definition opened (ev : event ServeE) : option Socket :=
  match ev with
  | Ev e x =>
      match e in ServeE Y return Y -> option Socket with
      | ListenTCP _ => fun r => match r with OK l => Some (TCPSocket l) | Fail _ => None end
      | ListenUDP _ => fun r => match r with OK c => Some (UDPSocket c) | Fail _ => None end
      | _ => fun _ => None
      end x
  end.
Definition closed (ev : event ServeE) : option Socket :=
  match ev with
  | Ev e _ => match e with
              | CloseListener l => Some (TCPSocket l)
              | ClosePacketConn c => Some (UDPSocket c)
              | _ => None
              end
  end.
(** The loops started, and on which socket. *)
Definition started (ev : event ServeE) : option (Socket * Spec) :=
  match ev with
  | Ev e _ => match e with
              | GoAcceptLoop l spec => Some (TCPSocket l, spec)
              | GoForwarder c spec => Some (UDPSocket c, spec)
              | _ => None
              end
  end.
Definition sessions_closed (ev : event ServeE) : option nat :=
  match ev with Ev e _ => match e with CloseAllSessions c => Some c | _ => None end end.

Definition sockets (b : Bound) : list Socket :=
  (TCPSocket ∘ fst <$> tcp_bound b) ++ (UDPSocket ∘ fst <$> udp_bound b).

Lemma exec_for_all_calls {E : Type -> Type} {A} (l : list A) (op : A -> E unit) tr :
  exec (for_all_do l (fun x => call (op x))) tr tt -> tr = (fun x => Ev (op x) tt) <$> l.
Proof.
  revert tr. induction l as [|x l IH]; intros tr; cbn [for_all_do]; [by intros [_ ->]|].
  intros ([] & t1 & t2 & -> & ->%exec_call & ->%IH)%exec_bind. done.
Qed.

Lemma exec_closeAllOpened b tr : exec (closeAllOpened b) tr tt ->
  omap opened tr = [] /\ omap closed tr = sockets b /\ omap started tr = [] /\
  omap sessions_closed tr = [].
Proof.
  intros ([] & t1 & t2 & -> & ->%exec_for_all_calls & ->%exec_for_all_calls)%exec_bind.
  rewrite !omap_app. unfold sockets. destruct b as [ts us]. simpl.
  rewrite !omap_fmap. cbn [opened closed started sessions_closed]. by rewrite !omap_None, !omap_Some.
Qed.

Lemma bind_specs_exchange specs b tr r : exec (bind_specs specs b) tr r ->
  omap started tr = [] /\ omap sessions_closed tr = [] /\
  match r with
  | Fail _ => omap closed tr ≡ₚ sockets b ++ omap opened tr
  | OK b' => omap closed tr = [] /\ sockets b' ≡ₚ sockets b ++ omap opened tr /\
      (tcp_bound b').*2 ++ (udp_bound b').*2 ≡ₚ (tcp_bound b).*2 ++ (udp_bound b).*2 ++ specs
  end.
Proof.
  revert b tr. induction specs as [|spec specs IH]; intros b tr; cbn [bind_specs].
  { intros [-> ->]. rewrite !app_nil_r. split_and!; by rewrite ?app_nil_r. }
  assert (forall t e, exec (let* _ := closeAllOpened b in Ret (Fail e)) t r ->
    omap started t = [] /\ omap sessions_closed t = [] /\ omap opened t = [] /\
    omap closed t = sockets b /\ r = Fail e) as Hfail.
  { intros t e ([] & t1 & t2 & -> & (? & ? & ? & ?)%exec_closeAllOpened & [-> ->])%exec_bind.
    by rewrite app_nil_r. }
  case_bool_decide; [|case_bool_decide].
  - intros ([l|e] & t1 & t2 & -> & ->%exec_call & H1)%exec_bind; csimpl.
    + apply IH in H1 as (Hs & Hsc & Hr). split_and!; [done..|]. unfold sockets in *. destruct r as [b'|e]; simpl in *.
      * destruct Hr as (Hc & Ho & Hp). split_and!; [done| |].
        -- rewrite Ho, !fmap_app. simpl. solve_Permutation.
        -- rewrite Hp, !fmap_app. simpl. solve_Permutation.
      * rewrite Hr, !fmap_app. simpl. solve_Permutation.
    + apply Hfail in H1 as (-> & -> & -> & -> & ->). by rewrite app_nil_r.
  - intros ([c|e] & t1 & t2 & -> & ->%exec_call & H1)%exec_bind; csimpl.
    + apply IH in H1 as (Hs & Hsc & Hr). split_and!; [done..|]. unfold sockets in *. destruct r as [b'|e]; simpl in *.
      * destruct Hr as (Hc & Ho & Hp). split_and!; [done| |].
        -- rewrite Ho, !fmap_app. simpl. solve_Permutation.
        -- rewrite Hp, !fmap_app. simpl. solve_Permutation.
      * rewrite Hr, !fmap_app. simpl. solve_Permutation.
    + apply Hfail in H1 as (-> & -> & -> & -> & ->). by rewrite app_nil_r.
  - intros H1. apply Hfail in H1 as (-> & -> & -> & -> & ->). by rewrite app_nil_r.
Qed.

Lemma serve_bound_exchange opts b tr r : exec (serve_bound opts b) tr r ->
  r = OK tt /\ omap opened tr = [] /\ omap closed tr = sockets b /\
  omap started tr = ((fun l => (TCPSocket l.1, l.2)) <$> tcp_bound b) ++
                    ((fun c => (UDPSocket c.1, c.2)) <$> udp_bound b) /\
  omap sessions_closed tr = (udp_bound b).*1.
Proof.
  unfold serve_bound.
  intros ([] & t1 & ? & -> & ->%exec_for_all_calls & H)%exec_bind.
  apply exec_bind in H as ([] & t2 & ? & -> & ->%exec_for_all_calls & H).
  apply exec_bind in H as ([] & t3 & ? & -> & ->%exec_call & H).
  apply exec_bind in H as ([] & t4 & ? & -> & ->%exec_call & H).
  apply exec_bind in H as ([] & t5 & ? & -> & ->%exec_for_all_calls & H).
  apply exec_bind in H as ([] & t6 & ? & -> & ->%exec_for_all_calls & H).
  apply exec_bind in H as ([] & t7 & ? & -> & ->%exec_call & H).
  apply exec_bind in H as ([] & t8 & ? & -> & ->%exec_for_all_calls & H).
  apply exec_bind in H as (ok & t9 & ? & -> & ->%exec_call & [-> ->]).
  rewrite !omap_app. simpl. unfold sockets.
  rewrite !omap_fmap. cbn [opened closed started sessions_closed].
  by rewrite !omap_None, !omap_Some, ?app_nil_r.
Qed.

Definition is_udp (s : Socket) : bool := match s with UDPSocket _ => true | TCPSocket _ => false end.

(** C21: [Serve] leaves no socket behind: whatever can be bound and whenever it is
    stopped, every listener and packet socket it opened has been closed exactly
    once when it returns. If a rule or the health endpoint cannot be bound it
    fails without having accepted anything; otherwise one loop was started per
    rule, on a socket of its own, and the sessions of every UDP forwarder were
    closed. *)
Theorem Serve_closes_everything (specs : list Spec) (opts : ServeOptions) (tr : list (event ServeE))
    (r : result unit) (Hexec : exec (Serve specs opts) tr r) :
  omap closed tr ≡ₚ omap opened tr /\
  match r with
  | Fail _ => omap started tr = []
  | OK _ => (omap started tr).*1 ≡ₚ omap opened tr /\ (omap started tr).*2 ≡ₚ specs /\
      UDPSocket <$> omap sessions_closed tr =
        filter (fun s => is_udp s = true) (omap started tr).*1
  end.
Proof.
  unfold Serve in Hexec. set (o := with_defaults opts) in *. clearbody o.
  apply exec_bind in Hexec as ([b|e] & t1 & t2 & -> & (Hs & Hsc & Hb)%bind_specs_exchange & H).
  2: { destruct H as [-> ->]. rewrite app_nil_r. by rewrite Hb, Hs. }
  destruct Hb as (Hc & Ho & Hp). cbn in Ho, Hp.
  assert (forall r0 t, exec (serve_bound o b) t r0 ->
    r0 = OK tt /\ omap opened t = [] /\ omap closed t ≡ₚ omap opened t1 /\
    (omap started t).*1 ≡ₚ omap opened t1 /\ (omap started t).*2 ≡ₚ specs /\
    UDPSocket <$> omap sessions_closed t = filter (fun s => is_udp s = true) (omap started t).*1) as Hok.
  { intros r0 t (-> & -> & -> & -> & ->)%serve_bound_exchange.
    rewrite !fmap_app, <-!list_fmap_compose. split_and!; [done|done|by rewrite Ho|by rewrite <-Ho|by rewrite <-Hp|].
    rewrite filter_app. clear. destruct b as [ts us]. simpl.
    induction ts as [|l ts IH]; [|done]. simpl. induction us as [|c us IH]; [done|]. csimpl.
    rewrite filter_cons_True by done. by f_equal. }
  case_bool_decide; simpl in H.
  - apply exec_bind in H as (r0 & t3 & t4 & -> & (-> & H1 & H2 & H3 & H4 & H5)%Hok & H).
    destruct H as ([] & t5 & -> & [-> ->]).
    rewrite !omap_app. csimpl. rewrite Hc, Hs, Hsc, H1, !app_nil_r. done.
  - destruct H as ([[]|e] & t3 & -> & H).
    + apply exec_bind in H as (r0 & t4 & t5 & -> & (-> & H1 & H2 & H3 & H4 & H5)%Hok & H).
      destruct H as ([] & t6 & -> & [] & t7 & -> & [-> ->]).
      rewrite !omap_app. csimpl. rewrite !omap_app. csimpl. rewrite Hc, Hs, Hsc, H1, !app_nil_r. done.
    + apply exec_bind in H as ([] & t4 & t5 & -> & (H1 & H2 & H3 & H4)%exec_closeAllOpened & [-> ->]).
      rewrite !omap_app. csimpl. rewrite !omap_app, Hc, Hs, H1, H2, H3, !app_nil_r. by rewrite <-Ho.
Qed.

(** Two rules, the second on a port that is taken. *)
Lemma Serve_closes_everything_witness :
  let specs := [MkSpec "0.0.0.0:80" "10.96.0.1:80" "tcp" "" []; MkSpec "0.0.0.0:53" "10.96.0.2:53" "udp" "" []] in
  exists tr, omap closed tr ≡ₚ omap opened tr /\ omap opened tr = [TCPSocket 3] /\ omap started tr = [].
Proof.
  exists [Ev (ListenTCP "0.0.0.0:80") (OK 3%nat); Ev (ListenUDP "0.0.0.0:53") (Fail (errorf "address in use"));
          Ev (CloseListener 3) tt].
  refine (let H := Serve_closes_everything
    [MkSpec "0.0.0.0:80" "10.96.0.1:80" "tcp" "" []; MkSpec "0.0.0.0:53" "10.96.0.2:53" "udp" "" []]
    (MkServeOptions 0 0 "" 0) _ (Fail (wrap "listen udp 0.0.0.0:53: " (errorf "address in use"))) _
    in conj (proj1 H) (conj eq_refl (proj2 H))).
  simpl. by repeat eexists.
Defined.
