(* ===== verification/Listeners.v ===== *)
(** * Listeners: which sockets of the proxy can be bound together

    net.Listen and net.ListenPacket with an empty host or a literal unspecified address
    listen on all addresses of the system, of both families, and a port of a protocol that
    is listened on this way is taken until a socket is closed. This file reads an exchange
    of [Serve] with that in mind: rules that ask for the same port of the same protocol on
    all addresses, or for the TCP port of the probes, cannot be served. *)
From S2P Require Import Prelude GoStrings Effects GoNet ProxyFlags ProxyServe.
Open Scope Z_scope.

(** A protocol and a port, on all addresses. *)
Definition BindKey : Type := string * string.

(** The port of an address without a host, or with an unspecified one. *)
Definition wildcard_port (address : string) : option string :=
  match SplitHostPort address with
  | OK (host, port) => if bool_decide (host ∈ [""; "0.0.0.0"; "::"]) then Some port else None
  | Fail _ => None
  end.

Definition wildcard_key (proto address : string) : option BindKey := pair proto <$> wildcard_port address.

(** What a rule, and all of [Serve], asks for. *)
Definition spec_key (s : Spec) : option BindKey := wildcard_key (protocol s) (Listen s).
Definition health_key (address : string) : list BindKey :=
  if bool_decide (address = "") then [] else option_list (wildcard_key "tcp" address).
Definition serve_keys (specs : list Spec) (opts : ServeOptions) : list BindKey :=
  omap spec_key specs ++ health_key (HealthBindAddress opts).

(** What an event of an exchange has bound on all addresses, and whether it closes a socket. *)
Definition bound_key (ev : event ServeE) : option BindKey :=
  match ev with
  | Ev e x =>
      match e in ServeE Y return Y -> option BindKey with
      | ListenTCP a => fun r => match r with OK _ => wildcard_key "tcp" a | Fail _ => None end
      | ListenUDP a => fun r => match r with OK _ => wildcard_key "udp" a | Fail _ => None end
      | StartHealth a => fun r => match r with OK _ => wildcard_key "tcp" a | Fail _ => None end
      | _ => fun _ => None
      end x
  end.
Definition closes (ev : event ServeE) : bool :=
  match ev with
  | Ev e _ => match e with CloseListener _ | ClosePacketConn _ | StopHealth => true | _ => false end
  end.

(** The documented behaviour of the sockets: as long as none has been closed, no port is
    bound a second time on all addresses. *)
Definition exclusive (tr : list (event ServeE)) : Prop :=
  forall tr1 ev tr2 k, tr = tr1 ++ ev :: tr2 -> Forall (fun ev => closes ev = false) tr1 ->
    bound_key ev = Some k -> k ∉ omap bound_key tr1.

(** ** Lemmas *)

Lemma exclusive_prefix tr1 tr2 : exclusive (tr1 ++ tr2) -> exclusive tr1.
Proof. intros H t1 ev t2 k ->. apply (H t1 ev (t2 ++ tr2)). by rewrite <-app_assoc. Qed.

Lemma exclusive_NoDup tr : exclusive tr -> Forall (fun ev => closes ev = false) tr -> NoDup (omap bound_key tr).
Proof.
  induction tr as [|ev tr IH] using rev_ind; intros He Hc; [constructor|].
  apply Forall_app in Hc as [Hc _]. rewrite omap_app, NoDup_app. csimpl.
  split; [by eapply IH, Hc; eapply exclusive_prefix|].
  destruct (bound_key ev) as [k|] eqn:Hk; csimpl; [|split; [by intros ? _ ?%not_elem_of_nil|constructor]].
  split; [|apply NoDup_singleton]. intros k' Hin ->%list_elem_of_singleton.
  by apply (He tr ev [] k).
Qed.

(** Before the first failure nothing is closed. *)
Lemma bind_specs_keys specs b tr b' : exec (bind_specs specs b) tr (OK b') ->
  Forall (fun ev => closes ev = false) tr /\ omap bound_key tr = omap spec_key specs.
Proof.
  revert b tr. induction specs as [|spec specs IH]; intros b tr; cbn [bind_specs]; [by intros [_ ->]|].
  assert (forall t e, ~ exec (let* _ := closeAllOpened b in Ret (Fail e)) t (OK b')) as Hfail.
  { intros t e ([] & t1 & t2 & -> & _ & [[=] _])%exec_bind. }
  unfold spec_key. case_bool_decide as Ht; [|case_bool_decide as Hu].
  - intros ([l|e] & t1 & t2 & -> & ->%exec_call & H1)%exec_bind; [|by apply Hfail in H1].
    apply IH in H1 as [Hc Hk]. csimpl. rewrite Ht, Hk. split; [by constructor|].
    change (omap (fun s => wildcard_key (protocol s) (Listen s)) specs) with (omap spec_key specs).
    done.
  - intros ([l|e] & t1 & t2 & -> & ->%exec_call & H1)%exec_bind; [|by apply Hfail in H1].
    apply IH in H1 as [Hc Hk]. csimpl. rewrite Hu, Hk. split; [by constructor|].
    change (omap (fun s => wildcard_key (protocol s) (Listen s)) specs) with (omap spec_key specs).
    done.
  - intros H1. by apply Hfail in H1.
Qed.

Lemma closeAllOpened_starts b tr : exec (closeAllOpened b) tr tt -> omap started tr = [].
Proof. by intros (_ & _ & ? & _)%exec_closeAllOpened. Qed.

(** If one port is asked for twice, [Serve] fails and has started no loop. *)
Lemma Serve_clash specs opts tr r : exec (Serve specs opts) tr r -> exclusive tr ->
  ~ NoDup (serve_keys specs opts) -> (exists e, r = Fail e) /\ omap started tr = [].
Proof.
  intros Hexec Hex Hnd. unfold Serve in Hexec.
  assert (HealthBindAddress (with_defaults opts) = HealthBindAddress opts) as Ho by done.
  unfold serve_keys, health_key in Hnd. rewrite <-Ho in Hnd. set (o := with_defaults opts) in *. clearbody o.
  apply exec_bind in Hexec as ([b|e] & t1 & t2 & -> & H1 & H2).
  2: { destruct H2 as [-> ->]. apply bind_specs_exchange in H1 as (H1 & _). rewrite app_nil_r. by split; [exists e|]. }
  pose proof (bind_specs_keys _ _ _ _ H1) as [Hc Hk]. apply bind_specs_exchange in H1 as (Hs & _).
  assert (bool_decide (HealthBindAddress o = "") = false) as Hh.
  { destruct (bool_decide (HealthBindAddress o = "")); [|done]. destruct Hnd. rewrite app_nil_r, <-Hk.
    apply exclusive_NoDup; [|done]. by eapply exclusive_prefix. }
  rewrite Hh in H2, Hnd. simpl in H2. destruct H2 as ([[]|e] & t3 & -> & H).
  - destruct Hnd. rewrite <-Hk.
    change (option_list (wildcard_key "tcp" (HealthBindAddress o)))
      with (omap bound_key [Ev (StartHealth (HealthBindAddress o)) (OK tt)]).
    rewrite <-omap_app. apply exclusive_NoDup.
    + eapply exclusive_prefix. rewrite <-app_assoc. exact Hex.
    + apply Forall_app. split; [exact Hc|by apply Forall_singleton].
  - apply exec_bind in H as ([] & t4 & t5 & -> & H4%closeAllOpened_starts & [-> ->]).
    split; [by exists e|]. rewrite !omap_app, Hs. csimpl. by rewrite omap_app, H4.
Qed.

(** Answers that keep to it exist, also when a port is asked for twice. *)
Example refused_second :
  exec (Serve [MkSpec "0.0.0.0:443" "10.96.0.1:8443" "tcp" "" []; MkSpec "[::]:443" "[fd00::1]:8443" "tcp" "" []]
          (MkServeOptions 0 0 ":8081" 0))
    [Ev (ListenTCP "0.0.0.0:443") (OK 3%nat); Ev (ListenTCP "[::]:443") (Fail (errorf "address already in use"));
     Ev (CloseListener 3) tt]
    (Fail (wrap "listen tcp [::]:443: " (errorf "address already in use"))).
Proof. simpl. by repeat eexists. Qed.
