(* ===== verification/Threads.v ===== *)
(** * Threads: what every run of a set of threads leads to

    A program of several threads is a step relation on a state they share. This file
    has what the components that are modelled so have in common: a state that is reached
    on every run, and how a measure that every step decreases shows it. *)
From S2P Require Import Prelude.

(** The work left to a list of threads when one of them moves. *)
Lemma sum_insert {A} (f : A -> nat) l i x y :
  l !! i = Some x -> (sum_list_with f (<[i := y]> l) + f x = sum_list_with f l + f y)%nat.
Proof.
  revert i. induction l as [|z l IH]; intros [|i]; simpl; [done..| |].
  - intros [= ->]. lia.
  - intros H%IH. lia.
Qed.

Section threads.
Context {S : Type} (step own_step : S -> S -> Prop).

(** [P] is reached on every run, whichever of the threads goes next, and before that
    there is always a step the program takes by itself. *)
Inductive inevitable (P : S -> Prop) (s : S) : Prop :=
| inevitable_now : P s -> inevitable P s
| inevitable_later : (exists s', own_step s s') -> (forall s', step s s' -> inevitable P s') -> inevitable P s.

Lemma inevitable_measure (P I : S -> Prop) (work : S -> nat) :
  (forall s s', I s -> step s s' -> I s' /\ (work s' < work s)%nat) ->
  (forall s, I s -> P s \/ exists s', own_step s s') ->
  forall s, I s -> inevitable P s.
Proof.
  intros Hstep Hprogress s. induction s as [s IH] using (induction_ltof1 _ work). unfold ltof in IH. intros Hs.
  destruct (Hprogress s Hs) as [Hp|Hown]; [by apply inevitable_now|].
  apply inevitable_later; [done|]. intros s' Hst. destruct (Hstep s s' Hs Hst) as [Hs' Hw]. by apply IH.
Qed.
End threads.
