(* ===== verification/ProxyDrain.v ===== *)
(** * ProxyDrain: accepting connections, and the shutdown of the proxy

    Models acceptLoop and waitTimeout of internal/proxy/proxy.go together with the
    part of [Serve] that follows the start of the loops: the threads are the accept
    loop of every listener, one [handle] per connection, the UDP forwarders, the
    goroutine of waitTimeout and [Serve] itself; they share the context and the
    wait groups [accepts] and [conns]. What [handle] does with a connection is in
    ProxySplice, what a forwarder does, and the closing of its sessions, in UdpForwarder. *)
From S2P Require Import Prelude Threads.
Open Scope Z_scope.

(** Where an accept loop is: in Accept, with a connection it has not counted yet, or
    returned ([accepts.Done]). *)
Inductive AcceptPc := Accepting | Got | Exited.
Record Listener := MkListener { is_open : bool; accept_pc : AcceptPc }.

(** A packet socket and whether its forwarder still runs. *)
Record PacketConn := MkPacketConn { pc_open : bool; pc_running : bool }.

(** Where [Serve] is: waiting for the context, closing the listener or packet socket
    of a number, in [accepts.Wait()], in waitTimeout, or back. *)
Inductive ServePc :=
| Serving
| ClosingTCP (i : nat)
| ClosingUDP (i : nat)
| WaitingAccepts
| WaitingConns
| Returned (drained : bool).

Record State := MkState {
  listeners : list Listener;
  packets : list PacketConn;
  cancelled : bool;            (* ctx, and with it acceptCtx *)
  conns : Z;                   (* the counter of the wait group *)
  running : nat;               (* handles *)
  finished : nat;              (* handles that have returned *)
  accepted : nat;              (* connections Accept has returned *)
  done : bool;                 (* waitTimeout's channel *)
  serve : ServePc
}.

Definition start (tcp udp : nat) : State :=
  MkState (replicate tcp (MkListener true Accepting)) (replicate udp (MkPacketConn true true))
    false 0 0 0 0 false Serving.

Definition set_listener (i : nat) (l : Listener) (s : State) : State :=
  MkState (<[i := l]> (listeners s)) (packets s) (cancelled s) (conns s) (running s) (finished s)
    (accepted s) (done s) (serve s).
Definition set_packet (i : nat) (p : PacketConn) (s : State) : State :=
  MkState (listeners s) (<[i := p]> (packets s)) (cancelled s) (conns s) (running s) (finished s)
    (accepted s) (done s) (serve s).
Definition set_serve (pc : ServePc) (s : State) : State :=
  MkState (listeners s) (packets s) (cancelled s) (conns s) (running s) (finished s)
    (accepted s) (done s) pc.

(** ** The accept loop *)

(** [l.Accept()] returned a connection. *)
Definition accept_conn (i : nat) (l : Listener) (s : State) : State :=
  let s := set_listener i (MkListener (is_open l) Got) s in
  MkState (listeners s) (packets s) (cancelled s) (conns s) (running s) (finished s)
    (S (accepted s)) (done s) (serve s).

(** [l.Accept()] failed: the loop returns if the context is done or the listener
    closed, else it goes on. *)
Definition accept_failed (i : nat) (l : Listener) (s : State) : State :=
  if cancelled s || negb (is_open l) then set_listener i (MkListener (is_open l) Exited) s else s.

(** [conns.Add(1)] and the start of [handle]. *)
Definition spawn_handle (i : nat) (l : Listener) (s : State) : State :=
  let s := set_listener i (MkListener (is_open l) Accepting) s in
  MkState (listeners s) (packets s) (cancelled s) (conns s + 1) (S (running s)) (finished s)
    (accepted s) (done s) (serve s).

(** [handle] returned: [conns.Done()]. *)
Definition handle_returns (s : State) : State :=
  MkState (listeners s) (packets s) (cancelled s) (conns s - 1) (pred (running s)) (S (finished s))
    (accepted s) (done s) (serve s).

(** ** Serve *)

(** The goroutine of waitTimeout: [wg.Wait(); close(done)]. *)
Definition close_done (s : State) : State :=
  MkState (listeners s) (packets s) (cancelled s) (conns s) (running s) (finished s)
    (accepted s) true (serve s).

(** One step of [Serve], if it is not blocked; [timeout] says that the select of
    waitTimeout takes the case of the timer. *)
Definition serve_step (timeout : bool) (s : State) : option State :=
  match serve s with
  | Serving => if cancelled s then Some (set_serve (ClosingTCP 0) s) else None
  | ClosingTCP i =>
      match listeners s !! i with
      | Some l => Some (set_serve (ClosingTCP (S i)) (set_listener i (MkListener false (accept_pc l)) s))
      | None => Some (set_serve (ClosingUDP 0) s)
      end
  | ClosingUDP i =>
      match packets s !! i with
      | Some p => Some (set_serve (ClosingUDP (S i)) (set_packet i (MkPacketConn false (pc_running p)) s))
      | None => Some (set_serve WaitingAccepts s)
      end
  | WaitingAccepts =>
      if forallb (fun l => match accept_pc l with Exited => true | _ => false end) (listeners s) &&
         forallb (fun p => negb (pc_running p)) (packets s)
      then Some (set_serve WaitingConns s) else None
  | WaitingConns =>
      if timeout then Some (set_serve (Returned false) s)
      else if done s then Some (set_serve (Returned true) s) else None
  | Returned _ => None
  end.

(** [Serve] has called waitTimeout, whose goroutine outlives its return. *)
Definition waiting_conns (s : State) : Prop :=
  match serve s with WaitingConns | Returned _ => True | _ => False end.

Inductive step : State -> State -> Prop :=
| step_signal s : cancelled s = false ->
    step s (MkState (listeners s) (packets s) true (conns s) (running s) (finished s) (accepted s) (done s) (serve s))
| step_accept s i l : listeners s !! i = Some l -> accept_pc l = Accepting -> is_open l = true ->
    step s (accept_conn i l s)
| step_accept_failed s i l : listeners s !! i = Some l -> accept_pc l = Accepting ->
    step s (accept_failed i l s)
| step_spawn s i l : listeners s !! i = Some l -> accept_pc l = Got -> step s (spawn_handle i l s)
| step_handle s : (0 < running s)%nat -> step s (handle_returns s)
| step_forwarder s i p : packets s !! i = Some p -> pc_running p = true ->
    cancelled s || negb (pc_open p) = true ->           (* its read failed *)
    step s (set_packet i (MkPacketConn (pc_open p) false) s)
| step_waiter s : waiting_conns s -> done s = false -> conns s = 0 -> step s (close_done s)
| step_serve s timeout s' : serve_step timeout s = Some s' -> step s s'.

Inductive reachable (tcp udp : nat) : State -> Prop :=
| reach_start : reachable tcp udp (start tcp udp)
| reach_step s s' : reachable tcp udp s -> step s s' -> reachable tcp udp s'.

(** ** The invariant *)

Definition has_got (l : Listener) : nat := match accept_pc l with Got => 1 | _ => 0 end.

(** Connections that have been accepted and not been counted yet. *)
Definition pending (s : State) : nat := sum_list_with has_got (listeners s).

Definition all_exited (s : State) : Prop :=
  Forall (fun l => accept_pc l = Exited) (listeners s) /\ Forall (fun p => pc_running p = false) (packets s).

(** The sockets that must be closed by now. *)
Definition closed_so_far (s : State) : Prop :=
  match serve s with
  | Serving => True
  | ClosingTCP i => forall j l, (j < i)%nat -> listeners s !! j = Some l -> is_open l = false
  | ClosingUDP i =>
      Forall (fun l => is_open l = false) (listeners s) /\
      forall j p, (j < i)%nat -> packets s !! j = Some p -> pc_open p = false
  | _ => Forall (fun l => is_open l = false) (listeners s) /\ Forall (fun p => pc_open p = false) (packets s)
  end.

Record inv (s : State) : Prop := {
  inv_conns : conns s = Z.of_nat (running s);
  inv_count : accepted s = (pending s + running s + finished s)%nat;
  inv_cancelled : serve s <> Serving -> cancelled s = true;
  inv_closed : closed_so_far s;
  inv_exited : waiting_conns s -> all_exited s;
  inv_done : done s = true -> waiting_conns s /\ running s = 0%nat;
  inv_drained : serve s = Returned true -> done s = true
}.

Lemma Forall_insert_iff {A} (P : A -> Prop) l i x y :
  l !! i = Some x -> (P x -> P y) -> Forall P l -> Forall P (<[i := y]> l).
Proof.
  intros Hi Hxy Hl. apply Forall_insert; [done|]. apply Hxy. rewrite Forall_forall in Hl.
  by eapply Hl, list_elem_of_lookup_2.
Qed.

(** A listener changes without being opened. *)
Lemma closed_set_listener s i l l' :
  listeners s !! i = Some l -> (is_open l = false -> is_open l' = false) ->
  closed_so_far s -> closed_so_far (set_listener i l' s).
Proof.
  intros Hi Ho. unfold closed_so_far. simpl.
  assert (forall P : nat -> Prop, (forall j x, P j -> listeners s !! j = Some x -> is_open x = false) ->
    forall j x, P j -> <[i := l']> (listeners s) !! j = Some x -> is_open x = false) as Hlook.
  { intros P H j x Hj [(<- & <- & _)|[_ Hx]]%list_lookup_insert_Some; [|by eapply H]. eapply Ho, H; done. }
  destruct (serve s); try done; try (intros [H1 H2]; split; [|done]; by eapply Forall_insert_iff).
  intros H. eapply (Hlook (fun j => j < i0)%nat). intros. by eapply H.
Qed.

Lemma closed_set_packet s i p p' :
  packets s !! i = Some p -> (pc_open p = false -> pc_open p' = false) ->
  closed_so_far s -> closed_so_far (set_packet i p' s).
Proof.
  intros Hi Ho. unfold closed_so_far. simpl.
  destruct (serve s); try done; try (intros [H1 H2]; split; [done|]; by eapply Forall_insert_iff).
  intros [H1 H2]. split; [done|]. intros j x Hj [(<- & <- & _)|[_ Hx]]%list_lookup_insert_Some; [|by eapply H2].
  by eapply Ho, H2.
Qed.

(** A loop that has not returned: [Serve] has not got past [accepts.Wait()]. *)
Lemma still_accepting s i l : inv s -> listeners s !! i = Some l -> accept_pc l <> Exited -> ~ waiting_conns s.
Proof.
  intros Hs Hi Hl Hw. destruct (inv_exited s Hs Hw) as [He _]. rewrite Forall_forall in He.
  by apply Hl, He, (list_elem_of_lookup_2 _ i).
Qed.

Lemma not_waiting_done s : inv s -> ~ waiting_conns s -> done s = false /\ serve s <> Returned true.
Proof.
  intros Hs Hw. split.
  - destruct (done s) eqn:Hd; [|reflexivity]. by destruct (inv_done s Hs Hd).
  - intros H. apply Hw. unfold waiting_conns. by rewrite H.
Qed.

Lemma inv_set_listener s s' i l l' :
  inv s -> listeners s !! i = Some l -> accept_pc l <> Exited ->
  (is_open l = false -> is_open l' = false) ->
  s' = MkState (<[i := l']> (listeners s)) (packets s) (cancelled s) (conns s') (running s') (finished s)
         (accepted s') (done s) (serve s) ->
  conns s' = Z.of_nat (running s') ->
  (accepted s' + pending s + running s = accepted s + pending s' + running s')%nat ->
  inv s'.
Proof.
  intros Hs Hi Hl Ho Heq Hc Hn. pose proof (still_accepting s i l Hs Hi Hl) as Hw.
  destruct (not_waiting_done s Hs Hw) as [Hd Hr]. destruct s' as [ls ps ca co ru fi ac dn se]. simpl in *.
  injection Heq as -> -> -> -> -> ->. constructor; simpl.
  - done.
  - pose proof (inv_count s Hs). simpl in Hn. lia.
  - apply (inv_cancelled s Hs).
  - eapply (closed_set_listener s i l l'); [done|done|apply (inv_closed s Hs)].
  - intros H. by destruct Hw.
  - intros H. congruence.
  - intros H. by destruct Hr.
Qed.

Lemma inv_start tcp udp : inv (start tcp udp).
Proof.
  constructor; simpl; try done. rewrite Nat.add_0_r. induction tcp; simpl; [done|].
  unfold pending in *. simpl in *. lia.
Qed.

Lemma exited_pending s : all_exited s -> pending s = 0%nat.
Proof.
  intros [H _]. unfold pending. induction H as [|l ls Hl _ IH]; simpl; [done|]. unfold has_got at 1. by rewrite Hl.
Qed.

(** [Serve] moves on and only closes sockets. *)
Lemma inv_set_serve s pc :
  inv s -> cancelled s = true -> closed_so_far (set_serve pc s) ->
  (waiting_conns (set_serve pc s) -> all_exited s) ->
  (waiting_conns s -> waiting_conns (set_serve pc s)) ->
  (pc = Returned true -> done s = true) -> inv (set_serve pc s).
Proof.
  intros Hs Hc Hcl Hex Hw Hd. constructor; simpl; try done; try apply Hs.
  intros [H1 H2]%(inv_done s Hs). auto.
Qed.

Lemma all_exited_spec s :
  forallb (fun l => match accept_pc l with Exited => true | _ => false end) (listeners s) &&
  forallb (fun p => negb (pc_running p)) (packets s) = true -> all_exited s.
Proof.
  rewrite andb_true_iff, !forallb_forall. intros [H1 H2]. split; apply Forall_forall.
  - intros l Hl%list_elem_of_In%H1. by destruct (accept_pc l).
  - intros p Hp%list_elem_of_In%H2. by destruct (pc_running p).
Qed.

Lemma inv_serve_step timeout s s' : inv s -> serve_step timeout s = Some s' -> inv s'.
Proof.
  intros Hs. pose proof (inv_closed s Hs) as Hcl. pose proof (inv_cancelled s Hs) as Hca.
  pose proof (inv_exited s Hs) as Hex. unfold serve_step, closed_so_far, waiting_conns in *.
  destruct (serve s) as [|i|i| | |b] eqn:Hpc.
  - destruct (cancelled s) eqn:Hc; intros [= <-]. apply inv_set_serve; try done; unfold closed_so_far, waiting_conns; simpl.
    + intros j l Hj. lia.
    + by rewrite Hpc.
  - destruct (listeners s !! i) as [l|] eqn:Hl; intros [= <-].
    + assert (inv (set_listener i (MkListener false (accept_pc l)) s)) as Hs'.
      { constructor; simpl; try apply Hs.
        - pose proof (inv_count s Hs). unfold pending in *. simpl.
          pose proof (sum_insert has_got _ _ _ (MkListener false (accept_pc l)) Hl) as H1.
          change (has_got (MkListener false (accept_pc l))) with (has_got l) in H1. lia.
        - by eapply closed_set_listener, (inv_closed s Hs).
        - unfold waiting_conns. simpl. by rewrite Hpc. }
      apply inv_set_serve; try done; simpl; [by apply Hca| |by unfold waiting_conns; simpl; rewrite Hpc].
      unfold closed_so_far. simpl. intros j x Hj [(<- & <- & _)|[Hne Hx]]%list_lookup_insert_Some; [done|].
      eapply Hcl; [|done]. lia.
    + apply inv_set_serve; try done; [by apply Hca| |by unfold waiting_conns; rewrite Hpc].
      unfold closed_so_far. simpl. split; [|lia]. apply Forall_forall. intros x [j Hj]%list_elem_of_lookup_1.
      eapply Hcl; [|done]. apply lookup_lt_Some in Hj. apply lookup_ge_None in Hl. lia.
  - destruct (packets s !! i) as [p|] eqn:Hp; intros [= <-].
    + assert (inv (set_packet i (MkPacketConn false (pc_running p)) s)) as Hs'.
      { constructor; simpl; try apply Hs.
        - by eapply closed_set_packet, (inv_closed s Hs).
        - unfold waiting_conns. simpl. by rewrite Hpc. }
      apply inv_set_serve; try done; simpl; [by apply Hca| |by unfold waiting_conns; simpl; rewrite Hpc].
      unfold closed_so_far. simpl. destruct Hcl as [H1 H2]. split; [done|].
      intros j x Hj [(<- & <- & _)|[Hne Hx]]%list_lookup_insert_Some; [done|]. eapply H2; [|done]. lia.
    + apply inv_set_serve; try done; [by apply Hca| |by unfold waiting_conns; rewrite Hpc].
      unfold closed_so_far. simpl. destruct Hcl as [H1 H2]. split; [done|].
      apply Forall_forall. intros x [j Hj]%list_elem_of_lookup_1.
      eapply H2; [|done]. apply lookup_lt_Some in Hj. apply lookup_ge_None in Hp. lia.
  - destruct (_ && _) eqn:He; intros [= <-]. apply all_exited_spec in He.
    apply inv_set_serve; try done; by apply Hca.
  - destruct timeout; [|destruct (done s) eqn:Hd]; intros [= <-]; apply inv_set_serve; try done; try (by apply Hca);
      intros _; by apply Hex.
  - done.
Qed.

Lemma inv_step s s' : inv s -> step s s' -> inv s'.
Proof.
  intros Hs Hst. pose proof (inv_conns s Hs) as Hco. pose proof (inv_count s Hs) as Hcn.
  destruct Hst as [s Hc|s i l Hl Ha Ho|s i l Hl Ha|s i l Hl Ha|s Hr|s i p Hp Hr Hc|s Hw Hd H0|s t s' H].
  - constructor; simpl; try apply Hs. done.
  - eapply (inv_set_listener s _ i l (MkListener (is_open l) Got)); simpl; try done; [congruence|].
    pose proof (sum_insert has_got _ _ _ (MkListener (is_open l) Got) Hl) as H1.
    unfold pending, has_got in *. simpl in *. rewrite Ha in H1. lia.
  - unfold accept_failed. destruct (_ || _); [|done].
    eapply (inv_set_listener s _ i l (MkListener (is_open l) Exited)); simpl; try done; [congruence|].
    pose proof (sum_insert has_got _ _ _ (MkListener (is_open l) Exited) Hl) as H1.
    unfold pending, has_got in *. simpl in *. rewrite Ha in H1. lia.
  - eapply (inv_set_listener s _ i l (MkListener (is_open l) Accepting)); simpl; try done; [congruence|lia|].
    pose proof (sum_insert has_got _ _ _ (MkListener (is_open l) Accepting) Hl) as H1.
    unfold pending, has_got in *. simpl in *. rewrite Ha in H1. lia.
  - constructor; simpl; try apply Hs; [lia| |].
    + unfold pending in *. simpl. lia.
    + intros [H1 H2]%(inv_done s Hs). split; [done|lia].
  - constructor; simpl; try apply Hs.
    + by eapply closed_set_packet, (inv_closed s Hs).
    + intros [H1 H2]%(inv_exited s Hs). split; [done|]. by eapply Forall_insert_iff.
  - constructor; simpl; try apply Hs; [|done]. intros _. split; [done|lia].
  - by eapply inv_serve_step.
Qed.

Lemma run_inv tcp udp s : reachable tcp udp s -> inv s.
Proof. induction 1; [apply inv_start|by eapply inv_step]. Qed.

(** ** What a drain means *)

(** Once [accepts.Wait()] has returned nothing is accepted and no handle starts. *)
Lemma exited_step s s' : inv s -> waiting_conns s -> step s s' ->
  accepted s' = accepted s /\ (running s' <= running s)%nat.
Proof.
  intros Hs Hw Hst. destruct (inv_exited s Hs Hw) as [He _].
  assert (forall i l, listeners s !! i = Some l -> accept_pc l = Exited) as Hex.
  { intros i l Hl. rewrite Forall_forall in He. by eapply He, list_elem_of_lookup_2. }
  destruct Hst as [s Hc|s i l Hl Ha Ho|s i l Hl Ha|s i l Hl Ha|s Hr|s i p Hp Hr Hc|s Hw' Hd H0|s t s' H]; simpl;
    try (specialize (Hex _ _ Hl); congruence); try lia.
  unfold serve_step, waiting_conns in *. destruct (serve s); try done; destruct t; try destruct (done s); simplify_eq; done.
Qed.

(** C22: In every state of a run of the proxy the counter of the wait group is the number of
    connections being handled, so [wg.Wait()] never returns early and [Done] never
    makes it negative, and a connection Accept returned is waiting to be counted, being
    handled or finished: none is lost. From the moment [Serve] waits for the
    connections all loops have returned and no step accepts a connection or starts a
    handle, so no [Add] races with the [Wait]; and when [Serve] reports a clean drain,
    every connection ever accepted has been handled to its end. *)
Theorem drained_means_done tcp udp s :
  reachable tcp udp s ->
  conns s = Z.of_nat (running s) /\
  accepted s = (pending s + running s + finished s)%nat /\
  (waiting_conns s ->
     all_exited s /\ Forall (fun l => is_open l = false) (listeners s) /\ Forall (fun p => pc_open p = false) (packets s) /\
     forall s', step s s' -> accepted s' = accepted s /\ (running s' <= running s)%nat) /\
  (serve s = Returned true -> running s = 0%nat /\ finished s = accepted s).
Proof.
  intros Hs%run_inv. split; [apply (inv_conns s Hs)|]. split; [apply (inv_count s Hs)|]. split.
  - intros Hw. split; [by apply (inv_exited s Hs)|].
    assert (Forall (fun l => is_open l = false) (listeners s) /\ Forall (fun p => pc_open p = false) (packets s)) as [? ?].
    { pose proof (inv_closed s Hs) as H. unfold closed_so_far, waiting_conns in *. by destruct (serve s). }
    split; [done|]. split; [done|]. intros s'. by apply exited_step.
  - intros Hr. destruct (inv_done s Hs (inv_drained s Hs Hr)) as [Hw H0]. split; [done|].
    pose proof (inv_count s Hs) as H. rewrite (exited_pending s (inv_exited s Hs Hw)) in H. lia.
Qed.

(** ** The shutdown ends *)

(** A step that is not the end of a connection. *)
Definition own_step (s s' : State) : Prop := step s s' /\ finished s' = finished s.

Definition returned (s : State) : Prop := exists drained, serve s = Returned drained.

(** [Serve] has closed the listeners. *)
Definition past_listeners (s : State) : Prop :=
  match serve s with Serving | ClosingTCP _ => False | _ => True end.

Definition listener_work (l : Listener) : nat := match accept_pc l with Accepting => 1 | Got => 3 | Exited => 0 end.
Definition packet_work (p : PacketConn) : nat := if pc_running p then 1 else 0.
Definition serve_work (s : State) : nat :=
  match serve s with
  | ClosingUDP i => 3 + (length (packets s) - i)
  | WaitingAccepts => 2
  | WaitingConns => 1
  | _ => 0
  end.

(** What is left to do. *)
Definition work (s : State) : nat :=
  sum_list_with listener_work (listeners s) + sum_list_with packet_work (packets s) + running s +
  (if done s then 0 else 1) + serve_work s.

Lemma past_listeners_closed s i l :
  inv s -> past_listeners s -> listeners s !! i = Some l -> is_open l = false.
Proof.
  intros Hs Hp Hl. pose proof (inv_closed s Hs) as H. unfold closed_so_far, past_listeners in *.
  assert (Forall (fun l => is_open l = false) (listeners s)) as Hf by (destruct (serve s); tauto).
  rewrite Forall_forall in Hf. by eapply Hf, list_elem_of_lookup_2.
Qed.

Lemma past_listeners_cancelled s : inv s -> past_listeners s -> cancelled s = true.
Proof. intros Hs Hp. apply (inv_cancelled s Hs). unfold past_listeners in Hp. by destruct (serve s). Qed.

Lemma serve_step_work timeout s s' :
  past_listeners s -> serve_step timeout s = Some s' -> past_listeners s' /\ (work s' < work s)%nat.
Proof.
  intros Hp H. unfold serve_step, past_listeners, work, serve_work in *.
  destruct (serve s) as [|i|i| | |b] eqn:Hpc; try done.
  - destruct (packets s !! i) as [p|] eqn:Hi; injection H as <-; simpl; (split; [done|]); [|lia].
    pose proof (sum_insert packet_work _ _ _ (MkPacketConn false (pc_running p)) Hi) as H1.
    change (packet_work (MkPacketConn false (pc_running p))) with (packet_work p) in H1.
    apply lookup_lt_Some in Hi. rewrite length_insert. lia.
  - destruct (_ && _); simplify_eq; simpl. split; [done|lia].
  - destruct timeout; [|destruct (done s) eqn:Hd]; simplify_eq; simpl; rewrite ?Hd; (split; [done|lia]).
Qed.

Lemma step_work s s' :
  inv s -> past_listeners s -> step s s' -> past_listeners s' /\ (work s' < work s)%nat.
Proof.
  intros Hs Hp Hst. pose proof (past_listeners_cancelled s Hs Hp) as Hca.
  destruct Hst as [s Hc|s i l Hl Ha Ho|s i l Hl Ha|s i l Hl Ha|s Hr|s i p Hi Hr Hc|s Hw Hd H0|s t s' H].
  - congruence.
  - rewrite (past_listeners_closed s i l) in Ho; done.
  - unfold accept_failed. rewrite Hca. simpl. split; [done|].
    pose proof (sum_insert listener_work _ _ _ (MkListener (is_open l) Exited) Hl) as H1.
    unfold work, serve_work, listener_work in *. simpl in *. rewrite Ha in H1. lia.
  - split; [done|].
    pose proof (sum_insert listener_work _ _ _ (MkListener (is_open l) Accepting) Hl) as H1.
    unfold work, serve_work, listener_work in *. simpl in *. rewrite Ha in H1. lia.
  - split; [done|]. unfold work, serve_work. simpl. lia.
  - split; [done|].
    pose proof (sum_insert packet_work _ _ _ (MkPacketConn (pc_open p) false) Hi) as H1.
    unfold work, serve_work, packet_work in *. simpl in *. rewrite length_insert. rewrite Hr in H1. lia.
  - split; [done|]. unfold work, serve_work. simpl. rewrite Hd. lia.
  - by apply serve_step_work in H.
Qed.

Lemma forallb_false_lookup {A} (f : A -> bool) l :
  forallb f l = false -> exists i x, l !! i = Some x /\ f x = false.
Proof.
  induction l as [|y l IH]; simpl; [done|]. rewrite andb_false_iff. intros [H|(i & x & H1 & H2)%IH].
  - by exists 0%nat, y.
  - by exists (S i), x.
Qed.

(** A loop that has not returned can take a step. *)
Lemma not_exited_step s : cancelled s = true ->
  forallb (fun l => match accept_pc l with Exited => true | _ => false end) (listeners s) &&
  forallb (fun p => negb (pc_running p)) (packets s) = false -> exists s', own_step s s'.
Proof.
  intros Hca. rewrite andb_false_iff. intros [(i & l & Hl & H)%forallb_false_lookup|(i & p & Hi & H)%forallb_false_lookup].
  - destruct (accept_pc l) eqn:Ha; [| |done]; eexists.
    + split; [by apply (step_accept_failed s i l)|]. unfold accept_failed. by rewrite Hca.
    + by split; [apply (step_spawn s i l)|].
  - apply negb_false_iff in H. eexists. split; [apply (step_forwarder s i p); [done..|by rewrite Hca]|done].
Qed.

(** [Serve] is never stuck: the loops return by themselves, and the timer fires. *)
Lemma shutdown_progress s : inv s -> past_listeners s -> returned s \/ exists s', own_step s s'.
Proof.
  intros Hs Hp. pose proof (past_listeners_cancelled s Hs Hp) as Hca. unfold returned, past_listeners in *.
  destruct (serve s) as [|i|i| | |b] eqn:Hpc; try done; [right..|left; by eexists].
  - destruct (packets s !! i) eqn:Hi; eexists; (split; [apply (step_serve s false); unfold serve_step; by rewrite Hpc, Hi|done]).
  - destruct (forallb (fun l => match accept_pc l with Exited => true | _ => false end) (listeners s) &&
              forallb (fun p => negb (pc_running p)) (packets s)) eqn:He; [|by apply not_exited_step].
    eexists. split; [apply (step_serve s false); unfold serve_step; by rewrite Hpc, He|done].
  - eexists. split; [apply (step_serve s true); unfold serve_step; by rewrite Hpc|done].
Qed.

(** C23: Once the context is done and the listeners are closed [Serve] returns, whatever the
    order in which the goroutines run and whether or not the connections it is waiting
    for ever finish: there is no infinite run, and no deadlock before the return. *)
Theorem Serve_returns tcp udp s :
  reachable tcp udp s -> past_listeners s -> inevitable step own_step returned s.
Proof.
  intros Hs%run_inv Hp. apply (inevitable_measure step own_step returned (fun s => inv s /\ past_listeners s) work).
  - intros s1 s2 [Hi Hp1] Hst. destruct (step_work s1 s2 Hi Hp1 Hst). split; [|done]. split; [by eapply inv_step|done].
  - intros s1 [Hi Hp1]. by apply shutdown_progress.
  - done.
Qed.

(** A run for the witnesses: a listener and a packet socket; a connection is accepted and
    being handled when the proxy is told to stop, and [Serve] has closed the listener. *)
Definition stopping : State :=
  MkState [MkListener false Accepting] [MkPacketConn true true] true 1 1 0 1 false (ClosingUDP 0).

Lemma stopping_reachable : reachable 1 1 stopping.
Proof.
  pose proof (reach_start 1 1) as H.
  eapply reach_step in H; [|by apply (step_accept _ 0 (MkListener true Accepting))].
  eapply reach_step in H; [|by apply (step_spawn _ 0 (MkListener true Got))].
  eapply reach_step in H; [|by apply step_signal].
  do 3 (eapply reach_step in H; [|by apply (step_serve _ false)]).
  exact H.
Qed.

(** ... and after it has returned: the loops first, then the handle, the drain clean. *)
Definition stopped : State :=
  MkState [MkListener false Exited] [MkPacketConn false false] true 0 0 1 1 true (Returned true).

Lemma stopped_reachable : reachable 1 1 stopped.
Proof.
  pose proof stopping_reachable as H.
  eapply reach_step in H; [|by apply (step_accept_failed _ 0 (MkListener false Accepting))].
  do 2 (eapply reach_step in H; [|by apply (step_serve _ false)]).
  eapply reach_step in H; [|by apply (step_forwarder _ 0 (MkPacketConn false true))].
  eapply reach_step in H; [|by apply (step_serve _ false)].
  eapply reach_step in H; [|apply step_handle; simpl; lia].
  eapply reach_step in H; [|by apply step_waiter].
  eapply reach_step in H; [|by apply (step_serve _ false)].
  exact H.
Qed.

Lemma drained_means_done_witness :
  serve stopped = Returned true /\ running stopped = 0%nat /\ finished stopped = accepted stopped.
Proof.
  split; [reflexivity|]. destruct (drained_means_done 1 1 stopped stopped_reachable) as (_ & _ & _ & H). by apply H.
Defined.

Lemma Serve_returns_witness : past_listeners stopping /\ inevitable step own_step returned stopping.
Proof. split; [exact I|]. exact (Serve_returns 1 1 stopping stopping_reachable I). Defined.
