(* ===== verification/HealthServer.v ===== *)
(** * HealthServer: the HTTP server of the probes

    Models startHealthServer of internal/proxy/health.go: the routes, and the life of the
    server as a transition system. Its threads are the goroutine that serves, the one that
    waits for the context, and every caller of the function it returns ([Serve] defers a
    call); they share the context, the channel [done] and [stopOnce]. Of net/http it is used
    that [Server.Serve] returns once [Shutdown] was called, at once if it was before, and
    that it closes its listener; and that [Shutdown] returns, at the latest with its
    context. *)
From S2P Require Import Prelude GoStrings Effects ProxyFlags ProxyUpstream Threads.
Open Scope Z_scope.

(** ** The routes *)

Inductive HealthE : Type -> Type :=
| Dial {X} (e : DialE X) : HealthE X
| ServeMetrics : HealthE (Z * string).        (* promhttp.Handler() *)

Definition StatusNotFound : Z := 404.

Definition healthz : Z * string := (StatusOK, "ok
").

(** The answer to a request for a path, by the patterns of [mux]. *)
Definition serve_http (specs : list Spec) (path : string) : prog HealthE (Z * string) :=
  if bool_decide (path = "/healthz") then Ret healthz
  else if bool_decide (path = "/readyz") then translate (fun X => Dial) (readyz specs)
  else if bool_decide (path = "/metrics") then call ServeMetrics
  else Ret (StatusNotFound, "404 page not found
").

Inductive ListenE : Type -> Type :=
| ListenHealth (address : string) : ListenE (result unit).

(** [startHealthServer] up to the start of the goroutines. *)
Definition startHealthServer (addr : string) : prog ListenE (result unit) :=
  wrapped ("listen health " +:+ addr +:+ ": ") (call (ListenHealth addr)).

(** ** The threads *)

(** The goroutine that serves: before [Serve], in it, back from it, and after [close(done)]. *)
Inductive ServerPc := Starting | Serving | ServeBack | DoneClosed.

(** A call of [stop]: not yet made, at [stopOnce.Do], in its function before [Shutdown], in
    [Shutdown], at [<-done], and back. *)
Inductive StopPc := NotCalled | AtOnce | BeforeShutdown | InShutdown | WaitingDone | Back.

#[export] Instance StopPc_eq_dec : EqDecision StopPc.
Proof. solve_decision. Defined.

(** [sync.Once]: not used, running the function for a caller, or over. *)
Inductive OnceState := Fresh | RunningBy (i : nat) | Over.

(** Caller 0 is the goroutine that waits for the context. *)
Record State := MkState {
  cancelled : bool;             (* ctx *)
  ln_open : bool;
  server : ServerPc;
  in_shutdown : bool;
  shutdowns : nat;              (* calls of Shutdown *)
  stopOnce : OnceState;
  callers : list StopPc
}.

(** [startHealthServer] returned, [n] being the calls of [stop] that are ever made. *)
Definition start (n : nat) : State := MkState false true Starting false 0 Fresh (replicate (S n) NotCalled).

Definition set_caller (i : nat) (pc : StopPc) (s : State) : State :=
  MkState (cancelled s) (ln_open s) (server s) (in_shutdown s) (shutdowns s) (stopOnce s) (<[i := pc]> (callers s)).
Definition set_once (o : OnceState) (s : State) : State :=
  MkState (cancelled s) (ln_open s) (server s) (in_shutdown s) (shutdowns s) o (callers s).
Definition set_server (open : bool) (pc : ServerPc) (s : State) : State :=
  MkState (cancelled s) open pc (in_shutdown s) (shutdowns s) (stopOnce s) (callers s).

(** [server.Shutdown]: it closes the listener if [Serve] has got it. *)
Definition begin_shutdown (s : State) : State :=
  MkState (cancelled s) (match server s with Serving => false | _ => ln_open s end) (server s) true
    (S (shutdowns s)) (stopOnce s) (callers s).

(** One step of the caller [i], if it is not blocked. *)
Definition stop_step (i : nat) (s : State) : option State :=
  match callers s !! i with
  | Some AtOnce =>
      match stopOnce s with
      | Fresh => Some (set_caller i BeforeShutdown (set_once (RunningBy i) s))
      | RunningBy _ => None
      | Over => Some (set_caller i Back s)
      end
  | Some BeforeShutdown => Some (set_caller i InShutdown (begin_shutdown s))
  | Some InShutdown => Some (set_caller i WaitingDone s)
  | Some WaitingDone =>
      match server s with DoneClosed => Some (set_caller i Back (set_once Over s)) | _ => None end
  | _ => None
  end.

(** One step of the goroutine that serves. *)
Definition server_step (s : State) : option State :=
  match server s with
  | Starting => Some (if in_shutdown s then set_server false ServeBack s else set_server (ln_open s) Serving s)
  | Serving => if in_shutdown s then Some (set_server false ServeBack s) else None
  | ServeBack => Some (set_server false DoneClosed s)
  | DoneClosed => None
  end.

(** What the program does by itself. *)
Inductive own_step : State -> State -> Prop :=
| own_stop s i s' : stop_step i s = Some s' -> own_step s s'
| own_server s s' : server_step s = Some s' -> own_step s s'
| own_watcher s : cancelled s = true -> callers s !! 0%nat = Some NotCalled -> own_step s (set_caller 0 AtOnce s).

(** And what comes from outside: the signal, a call of [stop], a failure of the listener. *)
Inductive step : State -> State -> Prop :=
| step_own s s' : own_step s s' -> step s s'
| step_signal s : cancelled s = false ->
    step s (MkState true (ln_open s) (server s) (in_shutdown s) (shutdowns s) (stopOnce s) (callers s))
| step_call s i : callers s !! S i = Some NotCalled -> step s (set_caller (S i) AtOnce s)
| step_failure s : server s = Serving -> step s (set_server false ServeBack s).

Inductive reachable (n : nat) : State -> Prop :=
| reach_start : reachable n (start n)
| reach_step s s' : reachable n s -> step s s' -> reachable n s'.

(** ** The invariant *)

Definition active (pc : StopPc) : Prop := pc ∈ [BeforeShutdown; InShutdown; WaitingDone].

Record inv (s : State) : Prop := {
  inv_active i pc : callers s !! i = Some pc -> active pc <-> stopOnce s = RunningBy i;
  inv_back i : callers s !! i = Some Back -> stopOnce s = Over;
  inv_running i : stopOnce s = RunningBy i -> exists pc, callers s !! i = Some pc /\
    in_shutdown s = bool_decide (pc <> BeforeShutdown);
  inv_fresh : stopOnce s = Fresh -> in_shutdown s = false;
  inv_over : stopOnce s = Over -> in_shutdown s = true /\ server s = DoneClosed;
  inv_shutdowns : shutdowns s = if in_shutdown s then 1%nat else 0%nat;
  inv_ln : server s = ServeBack \/ server s = DoneClosed -> ln_open s = false
}.

Lemma active_cases pc : active pc <-> pc = BeforeShutdown \/ pc = InShutdown \/ pc = WaitingDone.
Proof. unfold active. rewrite !elem_of_cons, elem_of_nil. tauto. Qed.

Lemma health_inv_start n : inv (start n).
Proof.
  assert (forall i pc, (start n).(callers) !! i = Some pc -> pc = NotCalled) as Hc
    by by intros i pc [-> _]%lookup_replicate_1.
  constructor; try done.
  - intros i pc ->%Hc. rewrite active_cases. split; [by intros [?|[?|?]]|done].
  - by intros i ?%Hc.
  - by intros [?|?].
Qed.

(** A caller moves, the others staying where they are. *)
Lemma inv_caller s s' i p q :
  inv s -> callers s !! i = Some p -> callers s' = <[i := q]> (callers s) ->
  (active q <-> stopOnce s' = RunningBy i) -> (q = Back -> stopOnce s' = Over) ->
  (stopOnce s' = stopOnce s \/ stopOnce s = Fresh /\ stopOnce s' = RunningBy i \/ stopOnce s = RunningBy i /\ stopOnce s' = Over) ->
  (stopOnce s' = RunningBy i -> in_shutdown s' = bool_decide (q <> BeforeShutdown)) ->
  (stopOnce s' <> RunningBy i -> in_shutdown s' = in_shutdown s) ->
  (stopOnce s' = Over -> in_shutdown s' = true /\ server s' = DoneClosed) ->
  shutdowns s' = (if in_shutdown s' then 1%nat else 0%nat) ->
  (server s' = ServeBack \/ server s' = DoneClosed -> ln_open s' = false) ->
  inv s'.
Proof.
  intros Hs Hi Hc Ha Hb Ho Hr Hk Hov Hsh Hln. constructor; rewrite ?Hc; try done.
  - intros j pc [(<- & <- & _)|[Hne Hj]]%list_lookup_insert_Some; [done|].
    rewrite (inv_active s Hs j pc Hj). destruct Ho as [->|[[-> ->]|[-> ->]]]; split; congruence.
  - intros j [(<- & Hq & _)|[Hne Hj]]%list_lookup_insert_Some; [by apply Hb|].
    pose proof (inv_back s Hs j Hj). destruct Ho as [->|[[? ->]|[? ->]]]; congruence.
  - intros j Hj. destruct (decide (i = j)) as [<-|Hne].
    + exists q. rewrite list_lookup_insert_eq by (by eapply lookup_lt_Some). auto.
    + rewrite list_lookup_insert_ne by done. rewrite Hk by congruence. apply (inv_running s Hs).
      destruct Ho as [<-|[[? ?]|[? ?]]]; congruence.
  - intros Hf. destruct Ho as [Ho|[[? ?]|[? ?]]]; [|congruence..]. rewrite Hk by congruence. apply (inv_fresh s Hs). congruence.
Qed.

(** The caller that runs the function. *)
Lemma running_caller s i p : inv s -> callers s !! i = Some p -> active p ->
  stopOnce s = RunningBy i /\ in_shutdown s = bool_decide (p <> BeforeShutdown).
Proof.
  intros Hs Hi Hp. apply (inv_active s Hs i p Hi) in Hp. split; [done|].
  destruct (inv_running s Hs i Hp) as (p' & Hi' & ->). by simplify_eq.
Qed.

Lemma inv_stop_step s i s' : inv s -> stop_step i s = Some s' -> inv s'.
Proof.
  intros Hs. pose proof (inv_shutdowns s Hs) as Hsh. pose proof (inv_ln s Hs) as Hln. unfold stop_step.
  destruct (callers s !! i) as [[]|] eqn:Hi; try done.
  - destruct (stopOnce s) as [|j|] eqn:Ho; intros [= <-].
    + eapply (inv_caller s _ i AtOnce BeforeShutdown); simpl; try done; try tauto; try congruence.
      * split; [done|]. intros _. apply active_cases. auto.
      * intros _. by rewrite (inv_fresh s Hs Ho).
    + eapply (inv_caller s _ i AtOnce Back); simpl; try done; try (rewrite Ho; done); try tauto; try congruence.
      * rewrite Ho, active_cases. split; [|done]. by intros [?|[?|?]].
      * intros _. by apply (inv_over s Hs).
  - intros [= <-]. destruct (running_caller s i _ Hs Hi) as [Ho Hin]; [apply active_cases; auto|]. simpl in Hin.
    eapply (inv_caller s _ i BeforeShutdown InShutdown); simpl; try done; try congruence; try (rewrite Ho; tauto).
    + split; [done|]. intros _. apply active_cases. auto.
    + by rewrite Hsh, Hin.
    + intros H. destruct (server s); try (by apply Hln); by destruct H.
  - intros [= <-]. destruct (running_caller s i _ Hs Hi) as [Ho Hin]; [apply active_cases; auto|]. simpl in Hin.
    eapply (inv_caller s _ i InShutdown WaitingDone); simpl; try done; try congruence; try (rewrite Ho; tauto).
    split; [done|]. intros _. apply active_cases. auto.
  - destruct (server s) eqn:Hserver; intros [= <-].
    destruct (running_caller s i _ Hs Hi) as [Ho Hin]; [apply active_cases; auto|]. simpl in Hin.
    eapply (inv_caller s _ i WaitingDone Back); simpl; try done; try tauto; try (rewrite Hserver; auto).
    rewrite active_cases. split; [|done]. by intros [?|[?|?]].
Qed.

(** The server moves; it is not closed while the function of [stop] is over. *)
Lemma inv_set_server s open pc : inv s -> server s <> DoneClosed ->
  (pc = ServeBack \/ pc = DoneClosed -> open = false) -> inv (set_server open pc s).
Proof.
  intros Hs Hd Ho. constructor; simpl; try apply Hs; [|done]. intros H. by destruct (inv_over s Hs H).
Qed.

Lemma inv_call s i : inv s -> callers s !! i = Some NotCalled -> inv (set_caller i AtOnce s).
Proof.
  intros Hs Hi. assert (stopOnce s <> RunningBy i) as Hn.
  { intros H. apply (inv_active s Hs i _ Hi), active_cases in H. by destruct H as [?|[?|?]]. }
  eapply (inv_caller s _ i NotCalled AtOnce); simpl; [exact Hs|exact Hi|reflexivity| |done|by left|done
    |reflexivity|apply (inv_over s Hs)|apply (inv_shutdowns s Hs)|apply (inv_ln s Hs)].
  rewrite active_cases. split; [by intros [?|[?|?]]|done].
Qed.

Lemma inv_server_step s s' : inv s -> server_step s = Some s' -> inv s'.
Proof.
  intros Hs. unfold server_step. destruct (server s) eqn:Hpc; try (destruct (in_shutdown s)); intros [= <-];
    apply inv_set_server; rewrite ?Hpc; try done. by intros [?|?].
Qed.

Lemma health_inv_step s s' : inv s -> step s s' -> inv s'.
Proof.
  intros Hs Hst. destruct Hst as [s s' H|s Hc|s i Hi|s Hpc]; [destruct H as [s i s' H|s s' H|s Hc Hi]|..].
  - by eapply inv_stop_step.
  - by eapply inv_server_step.
  - by apply inv_call.
  - constructor; simpl; apply Hs.
  - by apply inv_call.
  - apply inv_set_server; [done|congruence|done].
Qed.

Lemma health_run_inv n s : reachable n s -> inv s.
Proof. induction 1; [apply health_inv_start|by eapply health_inv_step]. Qed.

(** ** What a stop means *)

Lemma back_stays s s' i : callers s !! i = Some Back -> step s s' -> callers s' !! i = Some Back.
Proof.
  intros Hi Hst.
  assert (forall j pc q, callers s !! j = Some pc -> pc <> Back -> <[j := q]> (callers s) !! i = Some Back) as Hkeep.
  { intros j pc q Hj Hpc. by rewrite list_lookup_insert_ne by congruence. }
  destruct Hst as [s s' H|s Hc|s j Hj|s Hpc]; [destruct H as [s j s' H|s s' H|s Hc Hj]|..]; simpl; try done;
    try (by eapply Hkeep).
  - unfold stop_step in H. destruct (callers s !! j) as [pc|] eqn:Hj; [|done].
    destruct pc; [done|destruct (stopOnce s)| | |destruct (server s)|done]; simplify_eq/=; by eapply Hkeep.
  - unfold server_step in H. destruct (server s); try (destruct (in_shutdown s)); by simplify_eq/=.
Qed.

(** [Shutdown] is called once at most, and a call of [stop] that returned left nothing running. *)
Lemma stop_means_stopped (n : nat) (s : State) (Hreach : reachable n s) :
  (shutdowns s <= 1)%nat /\
  forall i, callers s !! i = Some Back ->
    shutdowns s = 1%nat /\ server s = DoneClosed /\ ln_open s = false /\
    forall s', step s s' -> server s' = DoneClosed /\ ln_open s' = false /\ shutdowns s' = 1%nat.
Proof.
  apply health_run_inv in Hreach as Hs. pose proof (inv_shutdowns s Hs) as Hsh.
  split; [rewrite Hsh; destruct (in_shutdown s); lia|]. intros i Hi.
  pose proof (inv_back s Hs i Hi) as Ho. destruct (inv_over s Hs Ho) as [Hin Hd].
  split_and!; [by rewrite Hsh, Hin|done|by apply (inv_ln s Hs); right|].
  intros s' Hst. assert (inv s') as Hs' by by eapply health_inv_step.
  pose proof (inv_back s' Hs' i (back_stays s s' i Hi Hst)) as Ho'.
  destruct (inv_over s' Hs' Ho') as [Hin' Hd']. split_and!; [done|by apply (inv_ln s' Hs'); right|].
  by rewrite (inv_shutdowns s' Hs'), Hin'.
Qed.

(** ** Every stop ends *)

Definition stop_work (pc : StopPc) : nat :=
  match pc with NotCalled => 5 | AtOnce => 4 | BeforeShutdown => 3 | InShutdown => 2 | WaitingDone => 1 | Back => 0 end.
Definition server_work (pc : ServerPc) : nat :=
  match pc with Starting => 3 | Serving => 2 | ServeBack => 1 | DoneClosed => 0 end.

(** What is left to do. *)
Definition work (s : State) : nat :=
  sum_list_with stop_work (callers s) + server_work (server s) + (if cancelled s then 0 else 1).

(** [stop] was called by [i], or will be, the context being done. *)
Definition called (i : nat) (s : State) : Prop :=
  exists pc, callers s !! i = Some pc /\ (pc <> NotCalled \/ i = 0%nat /\ cancelled s = true).

Lemma work_caller s i p q : callers s !! i = Some p -> (stop_work q < stop_work p)%nat ->
  (sum_list_with stop_work (<[i := q]> (callers s)) < sum_list_with stop_work (callers s))%nat.
Proof. intros Hi Hq. pose proof (sum_insert stop_work _ _ _ q Hi). lia. Qed.

Lemma called_caller i j p q s : callers s !! j = Some p -> q <> NotCalled -> called i s -> called i (set_caller j q s).
Proof.
  intros Hj Hq (pc & Hi & Hpc). unfold called. simpl. destruct (decide (j = i)) as [->|Hne].
  - exists q. rewrite list_lookup_insert_eq by (by eapply lookup_lt_Some). auto.
  - exists pc. by rewrite list_lookup_insert_ne.
Qed.

Lemma stop_step_shape i s s' : stop_step i s = Some s' -> exists p q, callers s !! i = Some p /\ q <> NotCalled /\
  (stop_work q < stop_work p)%nat /\ callers s' = <[i := q]> (callers s) /\ server s' = server s /\ cancelled s' = cancelled s.
Proof.
  unfold stop_step. destruct (callers s !! i) as [p|] eqn:Hi; [|done].
  destruct p; [done|destruct (stopOnce s)| | |destruct (server s) eqn:Hs|done]; intros [= <-]; simpl;
    eexists _, _; (split; [done|]; split; [|split; [|split; [reflexivity|]]]; try done; simpl; lia).
Qed.

Lemma health_step_work s s' i : step s s' -> called i s -> called i s' /\ (work s' < work s)%nat.
Proof.
  intros Hst Hc. destruct Hst as [s s' H|s Hca|s j Hj|s Hpc]; [destruct H as [s j s' H|s s' H|s Hca Hj]|..].
  - apply stop_step_shape in H as (p & q & Hj & Hq & Hw & Hcs & Hsv & Hcc). split.
    + destruct (called_caller i j p q s Hj Hq Hc) as (pc & H1 & H2). exists pc. rewrite Hcs, Hcc. done.
    + pose proof (work_caller s j p q Hj Hw). unfold work. rewrite Hcs, Hsv, Hcc. lia.
  - unfold server_step in H. unfold work, called in *.
    destruct (server s); try (destruct (in_shutdown s)); simplify_eq/=; (split; [done|lia]).
  - split; [by eapply called_caller|]. pose proof (work_caller s 0 _ AtOnce Hj). unfold work. simpl in *. lia.
  - unfold work, called in *. simpl. rewrite Hca in *. split; [|lia]. destruct Hc as (pc & H1 & [H2|[_ ?]]); [eauto|done].
  - split; [by eapply called_caller|]. pose proof (work_caller s (S j) _ AtOnce Hj). unfold work. simpl in *. lia.
  - unfold work, called in *. simpl. rewrite Hpc. split; [done|simpl; lia].
Qed.

(** The function of [stopOnce] is never stuck: the server it waits for ends by itself. *)
Lemma running_progress s i : inv s -> stopOnce s = RunningBy i -> exists s', own_step s s'.
Proof.
  intros Hs Ho. destruct (inv_running s Hs i Ho) as (pc & Hi & Hin).
  apply (inv_active s Hs i pc Hi), active_cases in Ho. destruct Ho as [->|[->| ->]].
  - eexists. apply (own_stop s i). unfold stop_step. by rewrite Hi.
  - eexists. apply (own_stop s i). unfold stop_step. by rewrite Hi.
  - simpl in Hin. destruct (server s) eqn:Hpc; (eexists; first
      [ apply (own_server s); unfold server_step; rewrite Hpc, ?Hin; reflexivity
      | apply (own_stop s i); unfold stop_step; rewrite Hi, Hpc; reflexivity ]).
Qed.

Lemma stop_progress s i : inv s -> called i s -> callers s !! i = Some Back \/ exists s', own_step s s'.
Proof.
  intros Hs (pc & Hi & Hpc). destruct pc; [..|by left]; right.
  - destruct Hpc as [?|[-> Hc]]; [done|]. eexists. by apply own_watcher.
  - destruct (stopOnce s) as [|j|] eqn:Ho; [|by eapply running_progress|];
      (eexists; apply (own_stop s i); unfold stop_step; by rewrite Hi, Ho).
  - eapply running_progress; [done|]. apply (inv_active s Hs i _ Hi), active_cases. auto.
  - eapply running_progress; [done|]. apply (inv_active s Hs i _ Hi), active_cases. auto.
  - eapply running_progress; [done|]. apply (inv_active s Hs i _ Hi), active_cases. auto.
Qed.

(** Every call of [stop] returns. *)
Lemma stop_returns (n : nat) (s : State) (i : nat) (Hreach : reachable n s) (Hcalled : called i s) :
  inevitable step own_step (fun s => callers s !! i = Some Back) s.
Proof.
  apply (inevitable_measure step own_step _ (fun s => inv s /\ called i s) work).
  - intros s1 s2 [Hs Hc] Hst. destruct (health_step_work s1 s2 i Hst Hc). split; [|done]. split; [by eapply health_inv_step|done].
  - intros s1 [Hs Hc]. by apply stop_progress.
  - split; [by eapply health_run_inv|done].
Qed.

(** C11: The probe server is stopped once, completely, and without a hang. In every state of a
    run, however the calls of [stop], the signal and the failures of the server fall
    together: [Shutdown] has been called at most once; once any call of [stop] has returned,
    the goroutine that serves has ended and the listener is closed, for good; and every call
    of [stop] returns on every run, whichever thread goes next, as does that of the goroutine
    that waits for the context, once it is done, without waiting for anything only the
    outside can do. *)
Theorem stop_correct (n : nat) (s : State) (Hreach : reachable n s) :
  (shutdowns s <= 1)%nat /\
  (forall i, callers s !! i = Some Back ->
     shutdowns s = 1%nat /\ server s = DoneClosed /\ ln_open s = false /\
     forall s', step s s' -> server s' = DoneClosed /\ ln_open s' = false /\ shutdowns s' = 1%nat) /\
  (forall i, called i s -> inevitable step own_step (fun s => callers s !! i = Some Back) s).
Proof.
  destruct (stop_means_stopped n s Hreach) as [H1 H2]. split_and!; [done|done|].
  intros i Hi. by apply (stop_returns n).
Qed.

(** A run for the witnesses: the proxy is told to stop before the server serves; the
    watcher is in [Shutdown] and [Serve] waits at [stopOnce]. *)
Definition stopping : State := MkState true true Starting true 1 (RunningBy 0) [InShutdown; AtOnce].
Definition stopped : State := MkState true false DoneClosed true 1 Over [Back; AtOnce].

Lemma health_stopping_reachable : reachable 1 stopping.
Proof.
  pose proof (reach_start 1) as H.
  eapply reach_step in H; [|by apply step_signal].
  eapply reach_step in H; [|by apply step_own, own_watcher].
  eapply reach_step in H; [|by apply (step_call _ 0)].
  do 2 (eapply reach_step in H; [|by apply step_own, (own_stop _ 0)]).
  exact H.
Qed.

Lemma health_stopped_reachable : reachable 1 stopped.
Proof.
  pose proof health_stopping_reachable as H.
  do 2 (eapply reach_step in H; [|by apply step_own, own_server]).
  do 2 (eapply reach_step in H; [|by apply step_own, (own_stop _ 0)]).
  exact H.
Qed.

Lemma stop_correct_witness :
  inevitable step own_step (fun s => callers s !! 1%nat = Some Back) stopping /\
  callers stopped !! 0%nat = Some Back /\ shutdowns stopped = 1%nat /\ ln_open stopped = false.
Proof.
  destruct (stop_correct 1 stopping health_stopping_reachable) as (_ & _ & H1).
  destruct (stop_correct 1 stopped health_stopped_reachable) as (_ & H2 & _).
  split; [apply H1; exists AtOnce; split; [reflexivity|]; left; discriminate|].
  split; [reflexivity|]. destruct (H2 0%nat eq_refl) as (H3 & _ & H4 & _). split; [exact H3|exact H4].
Defined.
