(* ===== verification/Kube.v ===== *)
(** * Kube: the objects and requests of the Service controller

    The built-in objects the controller and the labeler read and write, with the
    fields the source touches (a nil slice or map is an empty one, see ApiTypes),
    and the requests they make: those of controller-runtime's [client.Client],
    generic in the kind of object, and those that go to the event recorder and to
    apimachinery's [SetStatusCondition].

    What the API server does is not part of the program. [kube_law] states its
    documented behaviour as a relation, for theorems that need it; other theorems
    hold whatever it answers. *)
From S2P Require Import Prelude GoStrings Effects ApiTypes.
Open Scope Z_scope.

(** [types.NamespacedName]; the namespace of a cluster-scoped object is empty. *)
Abbreviation NamespacedName := (string * string)%type.

(** ** Services, nodes and endpoints *)

(** [TargetPort] is the text [p.TargetPort.String()] yields. *)
Record ServicePort := MkServicePort {
  port_Name : string;
  port_Protocol : Protocol;
  port_Port : Z;          (* int32 *)
  port_TargetPort : string
}.

(** [metav1.Condition]. *)
Record Condition := MkCondition {
  cond_Type : string;
  cond_Status : string;
  ObservedGeneration : Z;
  LastTransitionTime : Z;
  Reason : string;
  Message : string
}.

(** [corev1.LoadBalancerIngress]. *)
Record Ingress := MkIngress { ingress_IP : string; ingress_Hostname : string }.

Record Service := MkService {
  svc_Namespace : string;
  svc_Name : string;
  svc_Generation : Z;
  svc_Annotations : str_map;
  svc_Type : string;
  svc_LoadBalancerClass : option string;
  svc_ClusterIP : string;
  svc_ClusterIPs : list string;
  svc_Ports : list ServicePort;
  svc_Ingress : list Ingress;
  svc_Conditions : list Condition
}.

Record Node := MkNode {
  node_Name : string;
  Unschedulable : bool;
  node_Labels : str_map;
  node_Annotations : str_map
}.

Record EndpointPort := MkEndpointPort {
  ep_Name : string; ep_Protocol : Protocol; ep_Port : Z
}.
Record EndpointSubset := MkEndpointSubset {
  Addresses : list string;  (* their IP field *)
  ep_Ports : list EndpointPort
}.
Record Endpoints := MkEndpoints {
  eps_Namespace : string; eps_Name : string; Subsets : list EndpointSubset
}.

(** ** DaemonSets *)

Record ContainerPort := MkContainerPort {
  cp_Name : string; cp_ContainerPort : Z; cp_HostPort : Z; cp_Protocol : Protocol
}.
Record SecurityContext := MkSecurityContext {
  AllowPrivilegeEscalation : bool;
  Privileged : bool;
  ReadOnlyRootFilesystem : bool;
  RunAsNonRoot : bool;
  CapabilitiesDrop : list string;
  SeccompProfile : string
}.
Record Probe := MkProbe { probe_Path : string; probe_Port : string; PeriodSeconds : Z }.
Record Container := MkContainer {
  ctr_Name : string;
  ctr_Image : string;
  ImagePullPolicy : string;
  ctr_Args : list string;
  ctr_Ports : list ContainerPort;
  ctr_SecurityContext : SecurityContext;
  Requests : str_map;   (* the texts given to resource.MustParse *)
  Limits : str_map;
  LivenessProbe : Probe;
  ReadinessProbe : Probe
}.
Record NodeSelectorRequirement := MkNodeSelectorRequirement {
  nsr_Key : string; nsr_Operator : string; nsr_Values : list string
}.
(** [Affinity]: the match expressions of the one required node selector term. *)
Record PodSpec := MkPodSpec {
  HostNetwork : bool;
  DNSPolicy : string;
  TerminationGracePeriodSeconds : Z;
  pod_NodeSelector : str_map;
  pod_Affinity : option (list NodeSelectorRequirement);
  Containers : list Container
}.
Record DaemonSetSpec := MkDaemonSetSpec {
  ds_Selector : str_map;
  ds_TemplateLabels : str_map;
  ds_PodSpec : PodSpec
}.
Record DaemonSet := MkDaemonSet {
  ds_Namespace : string;
  ds_Name : string;
  ds_Labels : str_map;
  ds_Annotations : str_map;
  ds_Spec : DaemonSetSpec
}.

#[export] Instance Condition_eq_dec : EqDecision Condition.
Proof. solve_decision. Defined.
#[export] Instance Ingress_eq_dec : EqDecision Ingress.
Proof. solve_decision. Defined.
#[export] Instance ContainerPort_eq_dec : EqDecision ContainerPort.
Proof. solve_decision. Defined.
#[export] Instance SecurityContext_eq_dec : EqDecision SecurityContext.
Proof. solve_decision. Defined.
#[export] Instance Probe_eq_dec : EqDecision Probe.
Proof. solve_decision. Defined.
#[export] Instance Container_eq_dec : EqDecision Container.
Proof. solve_decision. Defined.
#[export] Instance NodeSelectorRequirement_eq_dec : EqDecision NodeSelectorRequirement.
Proof. solve_decision. Defined.
#[export] Instance PodSpec_eq_dec : EqDecision PodSpec.
Proof. solve_decision. Defined.
#[export] Instance DaemonSetSpec_eq_dec : EqDecision DaemonSetSpec.
Proof. solve_decision. Defined.
#[export] Instance DaemonSet_eq_dec : EqDecision DaemonSet.
Proof. solve_decision. Defined.

(** ** Label selectors

    Selectors are parsed and matched by apimachinery; the controller only looks
    at the requirements of a parsed one. *)

Record LabelSelectorRequirement := MkLabelSelectorRequirement {
  lsr_Key : string; lsr_Operator : string; lsr_Values : list string
}.
Record LabelSelector := MkLabelSelector {
  MatchLabels : str_map;
  MatchExpressions : list LabelSelectorRequirement
}.

Class LabelSelectors := {
  Selector : Type;
  ParseToLabelSelector : string -> result LabelSelector;
  LabelSelectorAsSelector : LabelSelector -> result Selector;
  Matches : Selector -> str_map -> bool
}.

(** ** The client *)

(** The kinds of object, each with its Go type. *)
Inductive Kind : Type -> Type :=
| KService : Kind Service
| KNode : Kind Node
| KEndpoints : Kind Endpoints
| KDaemonSet : Kind DaemonSet
| KLBPort : Kind LBPort
| KDNSRecord : Kind DNSRecord.

Inductive KubeE : Type -> Type :=
| Get {T} (k : Kind T) (key : NamespacedName) : KubeE (result T)
| List {T} (k : Kind T) (matchingLabels : str_map) : KubeE (result (list T))
| Create {T} (k : Kind T) (obj : T) : KubeE (result unit)
| Update {T} (k : Kind T) (obj : T) : KubeE (result unit)
| Delete {T} (k : Kind T) (obj : T) : KubeE (result unit)
| StatusUpdate {T} (k : Kind T) (obj : T) : KubeE (result unit)
| StatusPatch {T} (k : Kind T) (obj base : T) : KubeE (result unit)
| SetStatusCondition (conditions : list Condition) (condition : Condition) : KubeE (list Condition)
| Eventf (svc : Service) (eventType reason message : string) : KubeE unit.

(** [client.IgnoreNotFound(err) != nil] for a non-nil [err] is [negb (IsNotFound err)]. *)

Definition name_of {T} (k : Kind T) : T -> NamespacedName :=
  match k in Kind T return T -> NamespacedName with
  | KService => fun o => (svc_Namespace o, svc_Name o)
  | KNode => fun o => ("", node_Name o)
  | KEndpoints => fun o => (eps_Namespace o, eps_Name o)
  | KDaemonSet => fun o => (ds_Namespace o, ds_Name o)
  | KLBPort => fun o => ("", lbp_Name o)
  | KDNSRecord => fun o => ("", dns_Name o)
  end.

(** The labels of an object; those of Services and Endpoints are not read. *)
Definition labels_of {T} (k : Kind T) : T -> str_map :=
  match k in Kind T return T -> str_map with
  | KService | KEndpoints => fun _ => ∅
  | KNode => node_Labels
  | KDaemonSet => ds_Labels
  | KLBPort => lbp_Labels
  | KDNSRecord => dns_Labels
  end.

(** ** The API server *)

Record Cluster := MkCluster {
  services : gmap NamespacedName Service;
  nodes : gmap NamespacedName Node;
  endpoints : gmap NamespacedName Endpoints;
  daemonsets : gmap NamespacedName DaemonSet;
  lbports : gmap NamespacedName LBPort;
  dnsrecords : gmap NamespacedName DNSRecord
}.

Definition objects (c : Cluster) {T} (k : Kind T) : gmap NamespacedName T :=
  match k in Kind T return gmap NamespacedName T with
  | KService => services c
  | KNode => nodes c
  | KEndpoints => endpoints c
  | KDaemonSet => daemonsets c
  | KLBPort => lbports c
  | KDNSRecord => dnsrecords c
  end.

Definition with_objects (c : Cluster) {T} (k : Kind T) : gmap NamespacedName T -> Cluster :=
  match k in Kind T return gmap NamespacedName T -> Cluster with
  | KService => fun m => MkCluster m (nodes c) (endpoints c) (daemonsets c) (lbports c) (dnsrecords c)
  | KNode => fun m => MkCluster (services c) m (endpoints c) (daemonsets c) (lbports c) (dnsrecords c)
  | KEndpoints => fun m => MkCluster (services c) (nodes c) m (daemonsets c) (lbports c) (dnsrecords c)
  | KDaemonSet => fun m => MkCluster (services c) (nodes c) (endpoints c) m (lbports c) (dnsrecords c)
  | KLBPort => fun m => MkCluster (services c) (nodes c) (endpoints c) (daemonsets c) m (dnsrecords c)
  | KDNSRecord => fun m => MkCluster (services c) (nodes c) (endpoints c) (daemonsets c) (lbports c) m
  end.

Definition with_status (ing : list Ingress) (conds : list Condition) (s : Service) : Service :=
  MkService (svc_Namespace s) (svc_Name s) (svc_Generation s) (svc_Annotations s) (svc_Type s)
    (svc_LoadBalancerClass s) (svc_ClusterIP s) (svc_ClusterIPs s) (svc_Ports s) ing conds.

(** What is stored when [stored] is updated to [obj]: services and LBPorts have a
    status subresource, so an update keeps the status. *)
Definition updated {T} (k : Kind T) (obj stored : T) : T :=
  match k in Kind T return T -> T -> T with
  | KService => fun obj stored => with_status (svc_Ingress stored) (svc_Conditions stored) obj
  | KLBPort => fun obj stored => with_applied (AppliedNodes (lbp_Status stored)) obj
  | _ => fun obj _ => obj
  end obj stored.

(** What is stored when the status of [stored] becomes that of [obj]. *)
Definition status_updated {T} (k : Kind T) (obj stored : T) : T :=
  match k in Kind T return T -> T -> T with
  | KService => fun obj stored => with_status (svc_Ingress obj) (svc_Conditions obj) stored
  | KLBPort => fun obj stored => with_applied (AppliedNodes (lbp_Status obj)) stored
  | _ => fun _ stored => stored
  end obj stored.

Definition not_found {A} (x : result A) : Prop := exists e, x = Fail e /\ IsNotFound e = true.

(** The answer to a request that changes a stored object. *)
Definition changes {T} (k : Kind T) (key : NamespacedName) (f : T -> option T) (c : Cluster)
    (x : result unit) (c' : Cluster) : Prop :=
  match objects c k !! key with
  | Some o => x = OK tt /\ c' = with_objects c k (partial_alter (fun _ => f o) key (objects c k))
  | None => not_found x /\ c' = c
  end.

(** The field a status condition is identified by, and what [SetStatusCondition]
    promises: the condition is set, the others and its place are kept, and a
    condition that was already there is left alone. *)
Definition same_condition (a b : Condition) : Prop :=
  cond_Type a = cond_Type b /\ cond_Status a = cond_Status b /\
  ObservedGeneration a = ObservedGeneration b /\ Reason a = Reason b /\ Message a = Message b.

Definition condition_set (conds : list Condition) (new : Condition) (conds' : list Condition) : Prop :=
  match list_find (fun o => cond_Type o = cond_Type new) conds with
  | Some (i, old) =>
      exists o, conds' = <[i := o]> conds /\ same_condition o new /\ (same_condition old new -> o = old)
  | None => exists o, conds' = conds ++ [o] /\ same_condition o new
  end.

(** What a server that answers every request does. *)
Definition kube_law (X : Type) (e : KubeE X) (c : Cluster) (x : X) (c' : Cluster) : Prop :=
  match e in KubeE Y return Y -> Prop with
  | Get k key => fun x => c' = c /\
      match objects c k !! key with Some o => x = OK o | None => not_found x end
  | List k ls => fun x => c' = c /\
      exists items, x = OK items /\
        items ≡ₚ filter (fun o => ls ⊆ labels_of k o) (map_to_list (objects c k)).*2
  | Create k obj => fun x =>
      match objects c k !! name_of k obj with
      | None => x = OK tt /\ c' = with_objects c k (<[name_of k obj := obj]> (objects c k))
      | Some _ => (exists e, x = Fail e /\ IsNotFound e = false) /\ c' = c
      end
  | Update k obj => fun x => changes k (name_of k obj) (fun o => Some (updated k obj o)) c x c'
  | Delete k obj => fun x => changes k (name_of k obj) (fun _ => None) c x c'
  | StatusUpdate k obj | StatusPatch k obj _ => fun x =>
      changes k (name_of k obj) (fun o => Some (status_updated k obj o)) c x c'
  | SetStatusCondition conds new => fun conds' => c' = c /\ condition_set conds new conds'
  | Eventf _ _ _ _ => fun _ => c' = c
  end x.

(** A handler that behaves like that, [view] being the objects in its state. *)
Class KubeServer {W} (h : handler KubeE W) (view : W -> Cluster) : Prop :=
  kube_server : forall X (e : KubeE X) w, kube_law X e (view w) (fst (h X e w)) (view (snd (h X e w))).

(** Every object is stored under its name. *)
Definition keyed (c : Cluster) : Prop :=
  forall T (k : Kind T) key o, objects c k !! key = Some o -> name_of k o = key.

(** ** Lemmas on clusters *)

Lemma objects_same c {T} (k : Kind T) m : objects (with_objects c k m) k = m.
Proof. by destruct k. Qed.

Lemma with_objects_twice c {T} (k : Kind T) m m' :
  with_objects (with_objects c k m) k m' = with_objects c k m'.
Proof. by destruct k. Qed.

Lemma with_objects_id c {T} (k : Kind T) : with_objects c k (objects c k) = c.
Proof. by destruct c, k. Qed.

Lemma keyed_names c {T} (k : Kind T) : keyed c -> NoDup (name_of k <$> (map_to_list (objects c k)).*2).
Proof.
  intros Hk. replace (name_of k <$> (map_to_list (objects c k)).*2) with (map_to_list (objects c k)).*1;
    [apply NoDup_fst_map_to_list|].
  rewrite <-list_fmap_compose. apply list_fmap_ext. intros i [key o] Hi.
  symmetry. apply (Hk T k key o). apply elem_of_map_to_list. by eapply list_elem_of_lookup_2.
Qed.

Lemma elem_of_values c {T} (k : Kind T) o : keyed c ->
  o ∈ (map_to_list (objects c k)).*2 <-> objects c k !! name_of k o = Some o.
Proof.
  intros Hk. rewrite list_elem_of_fmap. split.
  - intros ([key o'] & -> & Hin%elem_of_map_to_list). simpl. by rewrite (Hk T k key o' Hin).
  - intros Ho. exists (name_of k o, o). split; [done|]. by apply elem_of_map_to_list.
Qed.

(** The answer to a list request: each stored object with the labels, once. *)
Lemma listed c {T} (k : Kind T) ls items : keyed c ->
  items ≡ₚ filter (fun o => ls ⊆ labels_of k o) (map_to_list (objects c k)).*2 ->
  NoDup (name_of k <$> items) /\
  forall o, o ∈ items <-> objects c k !! name_of k o = Some o /\ ls ⊆ labels_of k o.
Proof.
  intros Hk Hp. split.
  - rewrite Hp. eapply sublist_NoDup; [apply keyed_names, Hk|]. apply fmap_sublist, sublist_filter.
  - intros o. rewrite Hp, list_elem_of_filter, elem_of_values by done. tauto.
Qed.

Lemma keyed_with_objects c {T} (k : Kind T) m :
  keyed c -> (forall key o, m !! key = Some o -> name_of k o = key) -> keyed (with_objects c k m).
Proof.
  intros Hk Hm T' k' key o.
  destruct k, k'; cbn; first [apply Hm | apply (Hk _ KService) | apply (Hk _ KNode) | apply (Hk _ KEndpoints)
    | apply (Hk _ KDaemonSet) | apply (Hk _ KLBPort) | apply (Hk _ KDNSRecord)].
Qed.
