(* ===== verification/KubeApply.v ===== *)
(** * KubeApply: bringing stored objects to a desired list

    The controller brings the LBPorts and the DNSRecords of a Service to a desired
    list in the same way: get each by name and create or update it, then list those
    with the labels of the Service and delete the ones not wanted. The lemmas here
    say once, for any kind, what that does to a cluster whose API server behaves
    as documented ([kube_law]). [sim_server] is one such server. *)
From S2P Require Import Prelude GoStrings Effects ApiTypes Kube.
Open Scope Z_scope.

(** The programs run by a server that obeys [kube_law], with no condition on requests. *)
Abbreviation kwp := (wp (fun (X : Type) (_ : KubeE X) (_ : Cluster) => True) kube_law).

Lemma kwp_run {W} (h : handler KubeE W) (view : W -> Cluster) `{!KubeServer h view} {A}
    (p : prog KubeE A) (Q : A -> Cluster -> Prop) w :
  kwp p Q (view w) -> Q (fst (run h p w)) (view (snd (run h p w))).
Proof.
  revert w. induction p as [a|X e k IH]; intros w; simpl; [done|].
  intros [_ H]. pose proof (kube_server X e w) as Hlaw. destruct (h X e w) as [x w']. simpl in *.
  apply IH. by apply H.
Qed.

(** ** One object *)

Section one.
Context {T : Type} (k : Kind T).

Definition ensure (want : T) (same : T -> bool) (merge : T -> T) (pcreate pget pupdate : string)
    : prog KubeE (result unit) :=
  let* got := call (Get k (name_of k want)) in
  match got with
  | Fail e =>
      if IsNotFound e then wrapped pcreate (call (Create k want)) else Ret (Fail (wrap pget e))
  | OK existing =>
      if same existing then Ret (OK tt) else wrapped pupdate (call (Update k (merge existing)))
  end.

(** What is stored for [want] over what was stored under its name. *)
Definition settled (want : T) (merge : T -> T) (old : option T) : T :=
  match old with Some o => updated k (merge o) o | None => want end.

Definition ensured (want : T) (merge : T -> T) (m : gmap NamespacedName T) : gmap NamespacedName T :=
  <[name_of k want := settled want merge (m !! name_of k want)]> m.

Lemma name_of_updated (o o' : T) : name_of k (updated k o o') = name_of k o.
Proof. by destruct k. Qed.

Lemma labels_of_updated (o o' : T) : labels_of k (updated k o o') = labels_of k o.
Proof. by destruct k. Qed.

Lemma kwp_ensure want same merge pc pg pu (Q : result unit -> Cluster -> Prop) c :
  keyed c ->
  (forall o, name_of k (merge o) = name_of k o) ->
  (forall o, same o = true -> updated k (merge o) o = o) ->
  Q (OK tt) (with_objects c k (ensured want merge (objects c k))) ->
  kwp (ensure want same merge pc pg pu) Q c.
Proof.
  intros Hk Hname Hsame HQ. unfold ensured, settled in HQ. split; [done|]. intros x c1 [-> Hx].
  destruct (objects c k !! name_of k want) as [o|] eqn:Ho.
  - subst x. simpl. destruct (same o) eqn:Hs; simpl.
    + rewrite Hsame in HQ by exact Hs. rewrite insert_id in HQ by exact Ho. by rewrite with_objects_id in HQ.
    + split; [done|]. intros x c2. unfold changes.
      rewrite Hname, (Hk T k _ o Ho), Ho. by intros [-> ->].
  - destruct Hx as (e & -> & He). simpl. rewrite He. split; [done|]. intros x c2.
    unfold kube_law. rewrite Ho. by intros [-> ->].
Qed.

Lemma keyed_ensured c want merge : keyed c ->
  (forall o, name_of k (merge o) = name_of k o) ->
  keyed (with_objects c k (ensured want merge (objects c k))).
Proof.
  intros Hk Hname. apply keyed_with_objects; [done|]. intros key o. unfold ensured, settled.
  rewrite lookup_insert_Some. intros [[<- <-]|[_ Ho]]; [|by eapply Hk].
  destruct (objects c k !! name_of k want) as [o|] eqn:Ho; [|done].
  by rewrite name_of_updated, Hname, (Hk T k _ o Ho).
Qed.

(** ** All of them *)

(** [for _, item := range items { if keep { continue }; ...; Delete(item) }] *)
Definition delete_unless (items : list T) (keep : T -> bool) (before : T -> prog KubeE unit)
    (pdelete : T -> string) : prog KubeE (result unit) :=
  for_each items (fun item =>
    if keep item then Ret (OK tt)
    else
      let* _ := before item in
      let* r := call (Delete k item) in
      match r with
      | Fail e => if IsNotFound e then Ret (OK tt) else Ret (Fail (wrap (pdelete item) e))
      | OK _ => Ret (OK tt)
      end).

Definition pruned (keep : T -> bool) (items : list T) (m : gmap NamespacedName T) : gmap NamespacedName T :=
  foldl (fun m o => if keep o then m else delete (name_of k o) m) m items.

Lemma pruned_lookup keep items m key :
  pruned keep items m !! key =
  if bool_decide (key ∈ name_of k <$> filter (fun o => keep o = false) items) then None else m !! key.
Proof.
  unfold pruned. revert m. induction items as [|o items IH]; intros m.
  - rewrite filter_nil, fmap_nil, bool_decide_false; [done|apply not_elem_of_nil].
  - cbn [foldl]. rewrite IH. destruct (keep o) eqn:Hko.
    + by rewrite filter_cons_False by congruence.
    + rewrite filter_cons_True, fmap_cons by done.
      destruct (decide (key = name_of k o)) as [->|Hne].
      * rewrite lookup_delete_eq. rewrite (bool_decide_true (name_of k o ∈ _ :: _)) by left.
        by case_bool_decide.
      * rewrite lookup_delete_ne by done.
        by repeat case_bool_decide; rewrite ?elem_of_cons in *; tauto.
Qed.

Lemma kwp_delete_unless items keep before pd (Q : result unit -> Cluster -> Prop) c :
  (forall o c, kwp (before o) (fun _ c' => c' = c) c) ->
  Q (OK tt) (with_objects c k (pruned keep items (objects c k))) ->
  kwp (delete_unless items keep before pd) Q c.
Proof.
  intros Hbefore. unfold delete_unless, pruned. revert c. induction items as [|o items IH]; intros c HQ; simpl.
  { by rewrite with_objects_id in HQ. }
  apply wp_bindr. destruct (keep o) eqn:Hko; simpl.
  { apply IH. simpl in HQ. by rewrite Hko in HQ. }
  apply wp_bind. eapply wp_mono; [|apply Hbefore]. intros [] c0 ->. split; [done|].
  intros x c1. unfold kube_law, changes. simpl in HQ. rewrite Hko in HQ.
  destruct (objects c k !! name_of k o) as [o'|] eqn:Ho.
  - intros [-> ->]. simpl. apply IH. rewrite objects_same, with_objects_twice. done.
  - intros [(e & -> & He) ->]. rewrite He. simpl. apply IH.
    by rewrite delete_id in HQ.
Qed.

(** The desired objects are stored, others with the labels [ls] are gone, and the
    rest is as it was. *)
Definition applied (desired : list T) (merge : T -> T -> T) (ls : str_map)
    (m m' : gmap NamespacedName T) : Prop :=
  (forall want, want ∈ desired ->
     m' !! name_of k want = Some (settled want (merge want) (m !! name_of k want))) /\
  (forall key, key ∉ name_of k <$> desired ->
     m' !! key = match m !! key with
                 | Some o => if decide (ls ⊆ labels_of k o) then None else Some o
                 | None => None
                 end).

Lemma foldl_ensured_other desired merge m key : key ∉ name_of k <$> desired ->
  foldl (fun m w => ensured w (merge w) m) m desired !! key = m !! key.
Proof.
  revert m. induction desired as [|w desired IH]; intros m Hn; [done|].
  csimpl in *. apply not_elem_of_cons in Hn as [Hne Hn]. rewrite IH by done.
  unfold ensured. by rewrite lookup_insert_ne.
Qed.

Lemma foldl_ensured_in desired merge m w : NoDup (name_of k <$> desired) -> w ∈ desired ->
  foldl (fun m w => ensured w (merge w) m) m desired !! name_of k w =
  Some (settled w (merge w) (m !! name_of k w)).
Proof.
  revert m. induction desired as [|w' desired IH]; intros m Hnd; [by intros ?%not_elem_of_nil|].
  csimpl in *. apply NoDup_cons in Hnd as [Hni Hnd]. intros [->|Hw]%elem_of_cons.
  - rewrite foldl_ensured_other by done. unfold ensured. by rewrite lookup_insert_eq.
  - rewrite IH by done. unfold ensured. rewrite lookup_insert_ne; [done|].
    intros Heq. apply Hni. rewrite Heq. apply list_elem_of_fmap. eauto.
Qed.

Lemma keyed_foldl_ensured c desired merge : keyed c ->
  (forall w o, name_of k (merge w o) = name_of k o) ->
  keyed (with_objects c k (foldl (fun m w => ensured w (merge w) m) (objects c k) desired)).
Proof.
  intros Hk Hname. revert c Hk. induction desired as [|w desired IH]; intros c Hk; simpl.
  - by rewrite with_objects_id.
  - specialize (IH _ (keyed_ensured c w (merge w) Hk (Hname w))).
    by rewrite objects_same, with_objects_twice in IH.
Qed.

Lemma kwp_ensure_all (body : T -> prog KubeE (result unit)) desired merge
    (Q : result unit -> Cluster -> Prop) c :
  keyed c -> (forall w o, name_of k (merge w o) = name_of k o) ->
  (forall w, w ∈ desired -> exists same pc pg pu,
     body w = ensure w same (merge w) pc pg pu /\
     forall o, same o = true -> updated k (merge w o) o = o) ->
  Q (OK tt) (with_objects c k (foldl (fun m w => ensured w (merge w) m) (objects c k) desired)) ->
  kwp (for_each desired body) Q c.
Proof.
  intros Hk Hname Hbody. revert c Hk. induction desired as [|w desired IH]; intros c Hk HQ; simpl.
  { by rewrite with_objects_id in HQ. }
  apply wp_bindr. destruct (Hbody w) as (same & pc & pg & pu & -> & Hsame); [by left|].
  apply kwp_ensure; [done..|]. apply IH.
  - intros w' Hw'. apply Hbody. by right.
  - by apply keyed_ensured.
  - by rewrite objects_same, with_objects_twice.
Qed.

(** Pruning after ensuring. *)
Lemma applied_pruned c desired merge ls items keep :
  keyed c -> NoDup (name_of k <$> desired) ->
  (forall w o, name_of k (merge w o) = name_of k o) ->
  (forall o, keep o = true <-> name_of k o ∈ name_of k <$> desired) ->
  let m1 := foldl (fun m w => ensured w (merge w) m) (objects c k) desired in
  (forall o, o ∈ items <-> m1 !! name_of k o = Some o /\ ls ⊆ labels_of k o) ->
  applied desired merge ls (objects c k) (pruned keep items m1).
Proof.
  intros Hk Hnd Hname Hkeep m1 Hitems.
  assert (forall key, key ∈ name_of k <$> filter (fun o => keep o = false) items <->
    key ∉ name_of k <$> desired /\ exists o, objects c k !! key = Some o /\ ls ⊆ labels_of k o) as Hgone.
  { intros key. rewrite list_elem_of_fmap. setoid_rewrite list_elem_of_filter. setoid_rewrite Hitems. split.
    - intros (o & -> & Hf & Ho & Hl).
      assert (name_of k o ∉ name_of k <$> desired) as Hn by (rewrite <-Hkeep; congruence).
      split; [done|]. exists o. unfold m1 in Ho. rewrite foldl_ensured_other in Ho by done. done.
    - intros [Hn (o & Ho & Hl)]. exists o. pose proof (Hk T k key o Ho) as <-.
      split_and!; [done| |unfold m1; by rewrite foldl_ensured_other|done].
      apply not_true_iff_false. by rewrite Hkeep. }
  split.
  - intros want Hw. rewrite pruned_lookup, bool_decide_false.
    + by apply foldl_ensured_in.
    + rewrite Hgone. intros [Hn _]. apply Hn, list_elem_of_fmap. eauto.
  - intros key Hn. rewrite pruned_lookup. unfold m1. rewrite foldl_ensured_other by done.
    destruct (objects c k !! key) as [o|] eqn:Ho.
    + case_bool_decide as Hb; [|case_decide; [|done]].
      * apply Hgone in Hb as [_ (o' & Ho' & Hl)]. rewrite Ho in Ho'. injection Ho' as <-. by case_decide.
      * exfalso. apply Hb, Hgone. eauto.
    + by case_bool_decide.
Qed.

(** Ensuring, then listing and pruning. *)
Lemma kwp_apply_all (body : T -> prog KubeE (result unit)) desired merge ls keep before pd plist
    (Q : result unit -> Cluster -> Prop) c :
  keyed c -> NoDup (name_of k <$> desired) -> (forall w o, name_of k (merge w o) = name_of k o) ->
  (forall w, w ∈ desired -> exists same pc pg pu,
     body w = ensure w same (merge w) pc pg pu /\
     forall o, same o = true -> updated k (merge w o) o = o) ->
  (forall o, keep o = true <-> name_of k o ∈ name_of k <$> desired) ->
  (forall o c, kwp (before o) (fun _ c' => c' = c) c) ->
  (forall m', applied desired merge ls (objects c k) m' -> Q (OK tt) (with_objects c k m')) ->
  kwp (let? _ := for_each desired body in
       let? items := wrapped plist (call (List k ls)) in
       delete_unless items keep before pd) Q c.
Proof.
  intros Hk Hnd Hname Hbody Hkeep Hbefore HQ. apply wp_bindr.
  apply kwp_ensure_all with (merge := merge); [done..|]. apply wp_bindr, wp_wrapped.
  split; [done|]. intros x c1 (-> & items & -> & Hp). simpl.
  apply listed in Hp as [_ Hitems]; [|by apply keyed_foldl_ensured].
  rewrite objects_same in Hitems.
  apply kwp_delete_unless; [done|]. rewrite objects_same, with_objects_twice. apply HQ.
  by apply applied_pruned.
Qed.

(** Deleting every object with the labels. *)
Definition removed (ls : str_map) (m : gmap NamespacedName T) : gmap NamespacedName T :=
  filter (fun p => ~ ls ⊆ labels_of k (snd p)) m.

Lemma applied_nil merge ls m m' : applied [] merge ls m m' -> m' = removed ls m.
Proof.
  intros [_ H]. apply map_eq. intros key. rewrite H by (simpl; apply not_elem_of_nil). unfold removed.
  destruct (m !! key) as [o|] eqn:Ho; symmetry.
  - case_decide.
    + apply map_lookup_filter_None. right. intros o'. rewrite Ho. intros [= <-]. simpl. tauto.
    + by apply map_lookup_filter_Some.
  - apply map_lookup_filter_None. by left.
Qed.

Lemma kwp_remove_all ls keep before pd plist (Q : result unit -> Cluster -> Prop) c :
  keyed c -> (forall o, keep o = false) -> (forall o c, kwp (before o) (fun _ c' => c' = c) c) ->
  Q (OK tt) (with_objects c k (removed ls (objects c k))) ->
  kwp (let? items := wrapped plist (call (List k ls)) in delete_unless items keep before pd) Q c.
Proof.
  intros Hk Hkeep Hbefore HQ.
  pose proof (kwp_apply_all (fun _ => Ret (OK tt)) [] (fun _ o => o) ls keep before pd plist Q c) as H.
  simpl in H. apply H; try done.
  - constructor.
  - by intros ? ?%not_elem_of_nil.
  - intros o. rewrite Hkeep. split; [done|]. by intros ?%not_elem_of_nil.
  - by intros m' ->%applied_nil.
Qed.

Lemma keyed_applied c desired merge ls m' :
  keyed c -> (forall w o, name_of k (merge w o) = name_of k o) ->
  applied desired merge ls (objects c k) m' -> keyed (with_objects c k m').
Proof.
  intros Hk Hname [Hin Hout]. apply keyed_with_objects; [done|]. intros key o Hm.
  destruct (decide (key ∈ name_of k <$> desired)) as [Hd|Hd].
  - apply list_elem_of_fmap in Hd as (w & -> & Hw). rewrite Hin in Hm by done. injection Hm as <-.
    unfold settled. destruct (objects c k !! name_of k w) as [o|] eqn:Ho; [|done].
    by rewrite name_of_updated, Hname, (Hk T k _ o Ho).
  - rewrite Hout in Hm by done. destruct (objects c k !! key) as [o'|] eqn:Ho; [|done].
    case_decide; [done|]. injection Hm as <-. by eapply Hk.
Qed.

Lemma keyed_removed c ls : keyed c -> keyed (with_objects c k (removed ls (objects c k))).
Proof.
  intros Hk. apply keyed_with_objects; [done|]. intros key o [Ho _]%map_lookup_filter_Some. by eapply Hk.
Qed.
End one.

(** ** A server *)

Definition sim_changes {T} (k : Kind T) (key : NamespacedName) (f : T -> option T) (c : Cluster)
    : result unit * Cluster :=
  match objects c k !! key with
  | Some o => (OK tt, with_objects c k (partial_alter (fun _ => f o) key (objects c k)))
  | None => (Fail (MkError "not found" true), c)
  end.

Definition sim_condition (conds : list Condition) (new : Condition) : list Condition :=
  match list_find (fun o => cond_Type o = cond_Type new) conds with
  | Some (i, old) =>
      <[i := MkCondition (cond_Type new) (cond_Status new) (ObservedGeneration new)
               (LastTransitionTime old) (Reason new) (Message new)]> conds
  | None => conds ++ [new]
  end.

Definition sim_server : handler KubeE Cluster := fun X e c =>
  match e in KubeE Y return Y * Cluster with
  | Get k key =>
      (match objects c k !! key with Some o => OK o | None => Fail (MkError "not found" true) end, c)
  | List k ls => (OK (filter (fun o => ls ⊆ labels_of k o) (map_to_list (objects c k)).*2), c)
  | Create k obj =>
      match objects c k !! name_of k obj with
      | None => (OK tt, with_objects c k (<[name_of k obj := obj]> (objects c k)))
      | Some _ => (Fail (errorf "already exists"), c)
      end
  | Update k obj => sim_changes k (name_of k obj) (fun o => Some (updated k obj o)) c
  | Delete k obj => sim_changes k (name_of k obj) (fun _ => None) c
  | StatusUpdate k obj | StatusPatch k obj _ =>
      sim_changes k (name_of k obj) (fun o => Some (status_updated k obj o)) c
  | SetStatusCondition conds new => (sim_condition conds new, c)
  | Eventf _ _ _ _ => (tt, c)
  end.

Lemma sim_changes_law {T} (k : Kind T) key f c :
  changes k key f c (fst (sim_changes k key f c)) (snd (sim_changes k key f c)).
Proof.
  unfold changes, sim_changes. destruct (objects c k !! key); [done|]. split; [by eexists|done].
Qed.

#[export] Instance sim_server_law : KubeServer sim_server id.
Proof.
  intros X e c. destruct e as [T k key|T k ls|T k obj|T k obj|T k obj|T k obj|T k obj base|conds new| ];
    try apply sim_changes_law; simpl.
  - split; [done|]. destruct (objects c k !! key); [done|]. by eexists.
  - split; [done|]. by eexists.
  - destruct (objects c k !! name_of k obj); [|done]. split; [by eexists|done].
  - split; [done|]. unfold condition_set, sim_condition.
    destruct (list_find _ conds) as [[i old]|]; [|by exists new].
    eexists. split; [done|]. split; [done|]. intros (H1 & H2 & H3 & H4 & H5).
    destruct old; simpl in *. by subst.
  - done.
Qed.
