(* ===== verification/LBPorts.v ===== *)
(** * LBPorts: the exposure objects of a Service

    Models internal/controller/lbport.go: which LBPorts a Service gets, how they
    are brought into the cluster and taken out of it, the pruning of their status
    and the events about them. The annotation keys and labels of daemonset.go are
    here too, since every part of the controller uses them. *)
From S2P Require Import Prelude GoStrings Effects ApiTypes FwPorts Kube KubeApply.
From Stdlib Require Import Ascii.
Open Scope Z_scope.

(** ** Names shared by the controller *)

Definition AnnotationNodes : string := "bulb.toturi.tech/nodes".
Definition AnnotationAllowPrivilegedPort : string := "bulb.toturi.tech/allow-privileged-port".
Definition AnnotationProxyProtocol : string := "bulb.toturi.tech/proxy-protocol".
Definition AnnotationExternalTrafficPolicy : string := "bulb.toturi.tech/external-traffic-policy".
Definition AnnotationKeepOnUninstall : string := "bulb.toturi.tech/keep-on-uninstall".

Definition labelManagedBy : string := "app.kubernetes.io/managed-by".
Definition labelManagedByV : string := "bulb".
Definition labelService : string := "bulb.toturi.tech/service".
Definition labelServiceNs : string := "bulb.toturi.tech/service-namespace".

Definition lbPortOwnerName : string := "bulb-controller".

(** The fields of the reconciler; of [EventRecorder], whether it is non-nil. *)
Record ServiceReconciler := MkServiceReconciler {
  EventRecorder : bool;
  sr_Namespace : string;
  sr_Image : string
}.

Definition labels_for (svcNamespace svcName : string) : str_map :=
  {[ labelManagedBy := labelManagedByV; labelService := svcName; labelServiceNs := svcNamespace ]}.

Definition serviceLabels (svc : Service) : str_map := labels_for (svc_Namespace svc) (svc_Name svc).

(** ** The desired LBPorts *)

(** [protocol := p.Protocol; if protocol == "" { protocol = TCP }] *)
Definition port_protocol (p : ServicePort) : Protocol :=
  if bool_decide (port_Protocol p = "") then ProtocolTCP else port_Protocol p.

Definition LBPortName (svc : Service) (port : ServicePort) : string :=
  let protocol := ToLower (port_Protocol port) in
  let protocol := if bool_decide (protocol = "") then ToLower ProtocolTCP else protocol in
  "bulb-" +:+ svc_Namespace svc +:+ "-" +:+ svc_Name svc +:+ "-" +:+ fmt_d (port_Port port)
    +:+ "-" +:+ protocol.

Section selectors.
Context `{LabelSelectors}.

Definition matched_nodes (selector : Selector) (nodes : list Node) : list string :=
  sort_strings (node_Name <$>
    filter (fun n => Unschedulable n = false /\ Matches selector (node_Labels n) = true) nodes).

Definition lbPortNodes (svc : Service) : prog KubeE (result (list string)) :=
  let rawSelector := lookup_str (svc_Annotations svc) AnnotationNodes in
  if bool_decide (rawSelector = "") then Ret (OK [allNodesToken])
  else
    match wrap_result ("parse " +:+ AnnotationNodes +:+ ": ") (ParseToLabelSelector rawSelector) with
    | Fail e => Ret (Fail e)
    | OK selectorSpec =>
        match wrap_result ("convert " +:+ AnnotationNodes +:+ ": ") (LabelSelectorAsSelector selectorSpec) with
        | Fail e => Ret (Fail e)
        | OK selector =>
            let? nodes := wrapped "list nodes: " (call (List KNode ∅)) in
            Ret (OK (matched_nodes selector nodes))
        end
    end.

Definition lbport_for (svc : Service) (nodes : list string) (p : ServicePort) : LBPort :=
  MkLBPort (LBPortName svc p) (serviceLabels svc)
    (MkLBPortSpec (port_Port p) (port_protocol p) nodes lbPortOwnerName
       (bool_decide (lookup_str (svc_Annotations svc) AnnotationAllowPrivilegedPort = "true")))
    (MkLBPortStatus []).

Definition BuildLBPorts (svc : Service) : prog KubeE (result (list LBPort)) :=
  let? nodes := lbPortNodes svc in
  Ret (OK (lbport_for svc nodes <$> svc_Ports svc)).
End selectors.

(** ** Bringing them into the cluster *)

Definition portDesc (l : LBPort) : string :=
  fmt_d (spec_Port (lbp_Spec l)) +:+ "/" +:+ ToLower (spec_Protocol (lbp_Spec l)).

(** [existing.Spec = want.Spec; existing.Labels = want.Labels] *)
Definition set_lbport (want existing : LBPort) : LBPort :=
  MkLBPort (lbp_Name existing) (lbp_Labels want) (lbp_Spec want) (lbp_Status existing).

Definition apply_lbport (want : LBPort) : prog KubeE (result unit) :=
  let* got := call (Get KLBPort ("", lbp_Name want)) in
  match got with
  | Fail e =>
      if IsNotFound e
      then wrapped ("create lbport " +:+ lbp_Name want +:+ ": ") (call (Create KLBPort want))
      else Ret (Fail (wrap ("get lbport " +:+ lbp_Name want +:+ ": ") e))
  | OK existing =>
      if bool_decide (lbp_Spec existing = lbp_Spec want) &&
         bool_decide (lbp_Labels existing = lbp_Labels want)
      then Ret (OK tt)
      else wrapped ("update lbport " +:+ lbp_Name want +:+ ": ")
             (call (Update KLBPort (set_lbport want existing)))
  end.

(** The deletion of a listed LBPort, which may be gone already. *)
Definition delete_lbport (prefix : string) (item : LBPort) : prog KubeE (result unit) :=
  let* r := call (Delete KLBPort item) in
  match r with
  | Fail e => if IsNotFound e then Ret (OK tt) else Ret (Fail (wrap (prefix +:+ lbp_Name item +:+ ": ") e))
  | OK _ => Ret (OK tt)
  end.

Definition applyLBPorts (r : ServiceReconciler) (desired : list LBPort) (svc : Service)
    : prog KubeE (result unit) :=
  let keep := lbp_Name <$> desired in
  let? _ := for_each desired apply_lbport in
  let? items := wrapped "list lbports: " (call (List KLBPort (serviceLabels svc))) in
  for_each items (fun item =>
    if bool_decide (lbp_Name item ∈ keep) then Ret (OK tt)
    else
      let* _ := if EventRecorder r
                then call (Eventf svc "Normal" "FirewallPortClosed"
                             ("Port " +:+ portDesc item +:+ " closed (removed from service)"))
                else Ret tt in
      delete_lbport "delete stale lbport " item).

Definition cleanupLBPorts (svcNamespace svcName : string) : prog KubeE (result unit) :=
  let? items := wrapped "list lbports for cleanup: "
                  (call (List KLBPort (labels_for svcNamespace svcName))) in
  for_each items (delete_lbport "delete lbport ").

(** ** Their status and events *)

(** The keys of [validNodes]: the nodes that can be scheduled on. *)
Definition schedulable (nodes : list Node) : gset string :=
  list_to_set (node_Name <$> filter (fun n => Unschedulable n = false) nodes).

Definition prune_lbport (validNodes : gset string) (lbport : LBPort) : prog KubeE (result unit) :=
  let applied := AppliedNodes (lbp_Status lbport) in
  if (length applied =? 0)%nat then Ret (OK tt)
  else
    let pruned := filter (fun name => name ∈ validNodes) applied in
    if (length pruned =? length applied)%nat then Ret (OK tt)
    else
      let? latest := wrapped ("get lbport " +:+ lbp_Name lbport +:+ " for stale cleanup: ")
                       (call (Get KLBPort ("", lbp_Name lbport))) in
      wrapped ("prune stale nodes from lbport " +:+ lbp_Name lbport +:+ ": ")
        (call (StatusUpdate KLBPort (with_applied pruned latest))).

Definition pruneStaleAppliedNodes (svc : Service) : prog KubeE (result unit) :=
  let? nodeList := wrapped "list nodes for stale cleanup: " (call (List KNode ∅)) in
  let? lbports := wrapped "list lbports for stale cleanup: "
                    (call (List KLBPort (serviceLabels svc))) in
  for_each lbports (prune_lbport (schedulable nodeList)).

Definition appliedCount (appliedNodes : list string) (validNodes : gset string) : Z :=
  Z.of_nat (length (filter (fun name => name ∈ validNodes) appliedNodes)).

Definition requiredCount (specNodes : list string) (validNodes : gset string) : Z :=
  if bool_decide (specNodes = [allNodesToken]) then Z.of_nat (size validNodes)
  else Z.of_nat (length (filter (fun name => name ∈ validNodes) specNodes)).

Definition lbport_event (svc : Service) (validNodes : gset string) (lbport : LBPort) : prog KubeE unit :=
  let applied := appliedCount (AppliedNodes (lbp_Status lbport)) validNodes in
  let required := requiredCount (spec_Nodes (lbp_Spec lbport)) validNodes in
  if (required <=? applied) && (0 <? required) then
    call (Eventf svc "Normal" "FirewallPortOpened"
            ("Port " +:+ portDesc lbport +:+ " opened on all " +:+ fmt_d applied +:+ " nodes"))
  else if (0 <? applied) && (applied <? required) then
    call (Eventf svc "Warning" "FirewallPortPartiallyApplied"
            ("Port " +:+ portDesc lbport +:+ " applied on " +:+ fmt_d applied +:+ "/" +:+ fmt_d required
               +:+ " nodes"))
  else Ret tt.

Definition emitLBPortEvents (r : ServiceReconciler) (svc : Service) : prog KubeE unit :=
  if negb (EventRecorder r) then Ret tt
  else
    let* nodeList := call (List KNode ∅) in
    match nodeList with
    | Fail _ => Ret tt
    | OK nodeList =>
        let* lbports := call (List KLBPort (serviceLabels svc)) in
        match lbports with
        | Fail _ => Ret tt
        | OK lbports => for_all_do lbports (lbport_event svc (schedulable nodeList))
        end
    end.

(** The watch on LBPorts: the Service an LBPort belongs to. *)
Definition lbPortToService (labels : str_map) : list NamespacedName :=
  let svcNs := lookup_str labels labelServiceNs in
  let svcName := lookup_str labels labelService in
  if bool_decide (svcNs = "") || bool_decide (svcName = "") then [] else [(svcNs, svcName)].

(** ** What they do, over a server that obeys [kube_law] *)

Lemma sort_strings_ext l l' : l ≡ₚ l' -> sort_strings l = sort_strings l'.
Proof.
  intros Hp. apply sort_strings_unique; [|apply sort_strings_sorted]. by rewrite sort_strings_perm.
Qed.

Definition all_nodes (c : Cluster) : list Node := (map_to_list (nodes c)).*2.

(** A list of all objects of a kind. *)
Lemma list_all c {T} (k : Kind T) items :
  items ≡ₚ filter (fun o => ∅ ⊆ labels_of k o) (map_to_list (objects c k)).*2 ->
  items ≡ₚ (map_to_list (objects c k)).*2.
Proof.
  intros ->. induction (map_to_list (objects c k)).*2 as [|o l IH]; [done|].
  rewrite filter_cons_True by apply map_empty_subseteq. by constructor.
Qed.

Section built.
Context `{LabelSelectors}.

(** The nodes a Service is exposed on, given the nodes of the cluster. *)
Definition scope (svc : Service) (all : list Node) : result (list string) :=
  let raw := lookup_str (svc_Annotations svc) AnnotationNodes in
  if bool_decide (raw = "") then OK [allNodesToken]
  else
    let! spec := wrap_result ("parse " +:+ AnnotationNodes +:+ ": ") (ParseToLabelSelector raw) in
    let! selector := wrap_result ("convert " +:+ AnnotationNodes +:+ ": ") (LabelSelectorAsSelector spec) in
    OK (matched_nodes selector all).

Definition built (c : Cluster) (svc : Service) : result (list LBPort) :=
  let! ns := scope svc (all_nodes c) in OK (lbport_for svc ns <$> svc_Ports svc).

Lemma matched_nodes_perm selector l l' : l ≡ₚ l' -> matched_nodes selector l = matched_nodes selector l'.
Proof. intros Hp. unfold matched_nodes. apply sort_strings_ext. by rewrite Hp. Qed.

Lemma kwp_BuildLBPorts svc (Q : result (list LBPort) -> Cluster -> Prop) c :
  Q (built c svc) c -> kwp (BuildLBPorts svc) Q c.
Proof.
  unfold BuildLBPorts, lbPortNodes, built, scope. intros HQ. apply wp_bindr.
  case_bool_decide; [done|].
  destruct (ParseToLabelSelector _) as [spec|e]; simpl in *; [|done].
  destruct (LabelSelectorAsSelector spec) as [sel|e]; simpl in *; [|done].
  split; [done|]. intros x c1 (-> & items & -> & Hp). apply (list_all c KNode) in Hp. simpl.
  by rewrite (matched_nodes_perm sel _ _ Hp).
Qed.

End built.

(** *** Applying and removing *)

Lemma apply_lbport_ensure want : exists same pc pg pu,
  apply_lbport want = ensure KLBPort want same (set_lbport want) pc pg pu /\
  forall o, same o = true -> updated KLBPort (set_lbport want o) o = o.
Proof.
  eexists _, _, _, _. split; [reflexivity|]. intros o Ho. simpl in Ho.
  apply andb_true_iff in Ho as [H1%bool_decide_eq_true H2%bool_decide_eq_true].
  unfold updated, set_lbport, with_applied. destruct o as [n l s [a]]. simpl in *. by rewrite <-H1, <-H2.
Qed.

Lemma name_of_set_lbport want o : name_of KLBPort (set_lbport want o) = name_of KLBPort o.
Proof. done. Qed.

(** What is stored of the LBPorts once [desired] is applied for [svc]. *)
Definition lbports_applied (desired : list LBPort) (svc : Service)
    (m m' : gmap NamespacedName LBPort) : Prop :=
  applied KLBPort desired set_lbport (serviceLabels svc) m m'.

Lemma lbp_names desired : NoDup (lbp_Name <$> desired) -> NoDup (name_of KLBPort <$> desired).
Proof.
  intros Hnd. replace (name_of KLBPort <$> desired) with (pair "" <$> (lbp_Name <$> desired)).
  - by apply NoDup_fmap_2; [intros ?? [= ->]|].
  - by rewrite <-list_fmap_compose.
Qed.

Lemma kwp_applyLBPorts r desired svc (Q : result unit -> Cluster -> Prop) c :
  keyed c -> NoDup (lbp_Name <$> desired) ->
  (forall m', lbports_applied desired svc (lbports c) m' -> Q (OK tt) (with_objects c KLBPort m')) ->
  kwp (applyLBPorts r desired svc) Q c.
Proof.
  intros Hk Hnd HQ. unfold applyLBPorts.
  apply (kwp_apply_all KLBPort apply_lbport desired set_lbport (serviceLabels svc)
    (fun item => bool_decide (lbp_Name item ∈ lbp_Name <$> desired))
    (fun item => if EventRecorder r
       then call (Eventf svc "Normal" "FirewallPortClosed"
                    ("Port " +:+ portDesc item +:+ " closed (removed from service)"))
       else Ret tt)
    (fun item => "delete stale lbport " +:+ lbp_Name item +:+ ": ")); [done|by apply lbp_names|done| | | |done].
  - intros w _. apply apply_lbport_ensure.
  - intros o. rewrite bool_decide_eq_true, !list_elem_of_fmap. simpl.
    split; intros (w & Hw & ?); exists w; split; [congruence|done|congruence|done].
  - intros o c'. destruct (EventRecorder r); [|done]. split; [done|]. by intros [] ? ->.
Qed.

Lemma kwp_cleanupLBPorts ns name (Q : result unit -> Cluster -> Prop) c :
  keyed c ->
  Q (OK tt) (with_objects c KLBPort (removed KLBPort (labels_for ns name) (lbports c))) ->
  kwp (cleanupLBPorts ns name) Q c.
Proof.
  intros Hk HQ. unfold cleanupLBPorts.
  apply (kwp_remove_all KLBPort (labels_for ns name) (fun _ => false) (fun _ => Ret tt)
    (fun item => "delete lbport " +:+ lbp_Name item +:+ ": ")); done.
Qed.

(** *** Status *)

Definition prune_one (valid : gset string) (l : LBPort) : LBPort :=
  with_applied (filter (fun name => name ∈ valid) (AppliedNodes (lbp_Status l))) l.

(** The LBPorts of the Service list only nodes that can be scheduled on. *)
Definition statuses_pruned (valid : gset string) (ls : str_map) (m : gmap NamespacedName LBPort)
    : gmap NamespacedName LBPort :=
  (fun l => if decide (ls ⊆ lbp_Labels l) then prune_one valid l else l) <$> m.

Lemma prune_one_id valid l :
  length (filter (fun name => name ∈ valid) (AppliedNodes (lbp_Status l))) =
    length (AppliedNodes (lbp_Status l)) ->
  prune_one valid l = l.
Proof.
  intros Hlen. unfold prune_one, with_applied. destruct l as [n ls s [a]]. simpl in *. do 2 f_equal.
  induction a as [|x a IH]; [done|]. destruct (decide (x ∈ valid)).
  - rewrite filter_cons_True in * by done. simpl in Hlen. f_equal. apply IH. lia.
  - rewrite filter_cons_False in Hlen by done. simpl in Hlen.
    pose proof (length_filter (fun name => name ∈ valid) a). lia.
Qed.

Lemma with_lbports_id c : with_objects c KLBPort (lbports c) = c.
Proof. apply (with_objects_id c KLBPort). Qed.

Lemma kwp_prune_lbport valid l (Q : result unit -> Cluster -> Prop) c :
  lbports c !! ("", lbp_Name l) = Some l ->
  Q (OK tt) (with_objects c KLBPort (<[("", lbp_Name l) := prune_one valid l]> (lbports c))) ->
  kwp (prune_lbport valid l) Q c.
Proof.
  intros Hl HQ.
  assert (prune_one valid l = l -> Q (OK tt) c) as Hid.
  { intros Heq. rewrite Heq, insert_id in HQ by done. by rewrite with_lbports_id in HQ. }
  unfold prune_lbport. destruct (Nat.eqb_spec (length (AppliedNodes (lbp_Status l))) 0) as [H0|H0].
  { apply Hid, prune_one_id. rewrite H0. by destruct (AppliedNodes (lbp_Status l)). }
  destruct (Nat.eqb_spec (length (filter (fun name => name ∈ valid) (AppliedNodes (lbp_Status l))))
    (length (AppliedNodes (lbp_Status l)))) as [H1|H1].
  { apply Hid. by apply prune_one_id. }
  apply wp_bindr, wp_wrapped. split; [done|]. intros x c1 [-> Hx]. simpl in Hx. rewrite Hl in Hx. subst x.
  simpl. split; [done|]. intros x c1. unfold changes. simpl. rewrite Hl. by intros [-> ->].
Qed.

Lemma kwp_prune_all valid items (Q : result unit -> Cluster -> Prop) c :
  NoDup (lbp_Name <$> items) -> (forall l, l ∈ items -> lbports c !! ("", lbp_Name l) = Some l) ->
  (forall m', (forall l, l ∈ items -> m' !! ("", lbp_Name l) = Some (prune_one valid l)) ->
     (forall key, key ∉ name_of KLBPort <$> items -> m' !! key = lbports c !! key) ->
     Q (OK tt) (with_objects c KLBPort m')) ->
  kwp (for_each items (prune_lbport valid)) Q c.
Proof.
  revert c. induction items as [|l items IH]; intros c Hnd Hin HQ.
  { specialize (HQ (lbports c)). rewrite with_lbports_id in HQ. apply HQ; [|done].
    by intros ? ?%not_elem_of_nil. }
  rewrite fmap_cons, NoDup_cons in Hnd. destruct Hnd as [Hni Hnd].
  assert (forall l', l' ∈ items -> lbp_Name l' <> lbp_Name l) as Hne.
  { intros l' Hl' Heq. apply Hni. rewrite <-Heq. by apply list_elem_of_fmap_2. }
  apply wp_bindr, kwp_prune_lbport; [apply Hin; by left|]. apply IH; [done|..].
  - intros l' Hl'. simpl. rewrite lookup_insert_ne by (intros [=]; by apply (Hne l')). apply Hin. by right.
  - intros m' Hm1 Hm2. rewrite with_objects_twice. apply HQ.
    + intros l' [->|Hl']%elem_of_cons; [|by apply Hm1]. rewrite Hm2.
      * simpl. by rewrite lookup_insert_eq.
      * intros (l' & [= Heq] & Hl')%list_elem_of_fmap. by apply (Hne l').
    + intros key Hkey. rewrite fmap_cons, not_elem_of_cons in Hkey. destruct Hkey as [Hk1 Hk2].
      rewrite Hm2 by done. simpl. by rewrite lookup_insert_ne.
Qed.

Lemma kwp_pruneStaleAppliedNodes svc (Q : result unit -> Cluster -> Prop) c :
  keyed c ->
  Q (OK tt) (with_objects c KLBPort
    (statuses_pruned (schedulable (all_nodes c)) (serviceLabels svc) (lbports c))) ->
  kwp (pruneStaleAppliedNodes svc) Q c.
Proof.
  intros Hk HQ. apply wp_bindr, wp_wrapped. split; [done|].
  intros x c1 (-> & ns & -> & Hns). apply (list_all c KNode) in Hns.
  apply wp_bindr, wp_wrapped. split; [done|]. intros x c1 (-> & items & -> & Hp).
  apply (listed c KLBPort) in Hp as [Hnd Hin]; [|done].
  assert (schedulable ns = schedulable (all_nodes c)) as ->.
  { unfold schedulable. apply set_eq. intros x. rewrite !elem_of_list_to_set. by rewrite Hns. }
  apply kwp_prune_all.
  - by apply (NoDup_fmap_1 (pair "")); rewrite <-list_fmap_compose.
  - intros l Hl. by apply Hin in Hl as [? _].
  - intros m' Hm1 Hm2. replace m' with
      (statuses_pruned (schedulable (all_nodes c)) (serviceLabels svc) (lbports c)); [done|].
    apply map_eq. intros key. unfold statuses_pruned. rewrite lookup_fmap.
    destruct (decide (key ∈ name_of KLBPort <$> items)) as [Hkey|Hkey].
    + apply list_elem_of_fmap in Hkey as (l & -> & Hl). simpl. rewrite Hm1 by done.
      apply Hin in Hl as [Hl Hls]. simpl in *. rewrite Hl. simpl. by rewrite decide_True.
    + rewrite Hm2 by done. destruct (lbports c !! key) as [l|] eqn:Hl; [|done]. simpl. f_equal.
      apply decide_False. intros Hls. apply Hkey. pose proof (Hk LBPort KLBPort key l Hl) as <-.
      apply list_elem_of_fmap. exists l. split; [done|]. by apply Hin.
Qed.

Lemma kwp_emitLBPortEvents r svc (Q : unit -> Cluster -> Prop) c :
  Q tt c -> kwp (emitLBPortEvents r svc) Q c.
Proof.
  intros HQ. unfold emitLBPortEvents. destruct (EventRecorder r); simpl; [|done].
  split; [done|]. intros x c1 (-> & ns & -> & _). split; [done|]. intros x c1 (-> & items & -> & _). simpl.
  apply (wp_for_all_do _ _ _ _ (fun _ c' => c' = c)); [done|by intros ? ->|].
  intros l l' c1 ->. unfold lbport_event.
  destruct (_ && _); [split; [done|]; by intros [] ? ->|]. destruct (_ && _); [|done].
  split; [done|]. by intros [] ? ->.
Qed.

(** ** A sample cluster *)

(** Selectors of the form [key=value]. *)
Definition equality_selectors : LabelSelectors :=
  {| Selector := str_map;
     ParseToLabelSelector s :=
       match cut "=" s with
       | Some (k, v) => OK (MkLabelSelector {[ k := v ]} [])
       | None => Fail (errorf "couldn't parse the selector string")
       end;
     LabelSelectorAsSelector l := OK (MatchLabels l);
     Matches sel ls := bool_decide (sel ⊆ ls) |}.

Definition sample_service (name : string) (annotations : str_map) (ports : list ServicePort) : Service :=
  MkService "demo" name 1 annotations "LoadBalancer" (Some "bulb") "10.96.0.1" ["10.96.0.1"] ports [] [].

Definition named {T} (k : Kind T) (l : list T) : gmap NamespacedName T :=
  list_to_map ((fun o => (name_of k o, o)) <$> l).

Definition sample_nodes : gmap NamespacedName Node :=
  named KNode
    [MkNode "edge-1" false {[ "role" := "edge" ]} {[ "bulb.toturi.tech/public-ipv4" := "203.0.113.7" ]};
     MkNode "edge-2" true {[ "role" := "edge" ]} ∅;
     MkNode "core-1" false ∅ {[ "bulb.toturi.tech/public-ipv4" := "203.0.113.9" ]}].

Definition sample_cluster (svcs : list Service) (ports : list LBPort) : Cluster :=
  MkCluster (named KService svcs) sample_nodes ∅ ∅ (named KLBPort ports) ∅.

Lemma named_keyed {T} (k : Kind T) l key o : named k l !! key = Some o -> name_of k o = key.
Proof.
  unfold named. intros Hin%elem_of_list_to_map_2.
  by apply list_elem_of_fmap in Hin as (o' & [= -> <-] & _).
Qed.

Lemma sample_keyed svcs ports : keyed (sample_cluster svcs ports).
Proof.
  intros T k key o. destruct k.
  - exact (named_keyed KService svcs key o).
  - exact (named_keyed KNode _ key o).
  - intros Ho. by destruct (lookup_empty_Some key o Ho).
  - intros Ho. by destruct (lookup_empty_Some key o Ho).
  - exact (named_keyed KLBPort ports key o).
  - intros Ho. by destruct (lookup_empty_Some key o Ho).
Qed.
