(* ===== verification/Conflicts.v ===== *)
(** * Conflicts: two claims to one port

    Models internal/controller/conflicts.go, the check before anything of a Service
    is brought into the cluster, and [ServiceMatches] of reconciler.go, which says
    which Services take part. *)
From S2P Require Import Prelude GoStrings Effects ApiTypes FwPorts Kube KubeApply LBPorts.
Open Scope Z_scope.

Definition LoadBalancerClass : string := "bulb".
Definition ServiceTypeLoadBalancer : string := "LoadBalancer".

Definition ServiceMatches (svc : Service) : bool :=
  if negb (bool_decide (svc_Type svc = ServiceTypeLoadBalancer)) then false
  else
    let cls := default "" (svc_LoadBalancerClass svc) in
    bool_decide (cls = "") || bool_decide (cls = LoadBalancerClass).

Record portConflict := MkPortConflict { conflict_Reason : string; conflict_Message : string }.

Definition normalizedProtocol (protocol : Protocol) : Protocol :=
  if bool_decide (protocol = "") then ProtocolTCP else protocol.

Definition portKey (port : Z) (protocol : Protocol) : string :=
  fmt_d port +:+ "/" +:+ ToLower (normalizedProtocol protocol).

Definition lbport_portKey (l : LBPort) : string :=
  portKey (spec_Port (lbp_Spec l)) (spec_Protocol (lbp_Spec l)).

Definition sameStringMap (a b : str_map) : bool :=
  bool_decide (size a = size b) && bool_decide (map_Forall (fun k av => lookup_str b k = av) a).

(** ** Node scopes *)

Definition isAllNodes (nodes : list string) : bool := bool_decide (nodes = [allNodesToken]).

Definition sortedConcreteNodes (nodes : list string) : list string :=
  sort_strings (filter (fun node => node <> "" /\ node <> allNodesToken) nodes).

Definition overlappingNodes (a b : list string) : list string :=
  if (length a =? 0)%nat || (length b =? 0)%nat then []
  else if isAllNodes a && isAllNodes b then [allNodesToken]
  else if isAllNodes a then sortedConcreteNodes b
  else if isAllNodes b then sortedConcreteNodes a
  else sort_strings (filter (fun node => node ∈ a) b).

(** ** The three checks *)

Definition svc_key (svc : Service) : string := svc_Namespace svc +:+ "/" +:+ svc_Name svc.

(** The loop of [duplicateServicePortConflict] with the set of keys seen. *)
Fixpoint duplicate_loop (svc : Service) (seen : gset string) (desired : list LBPort) : option portConflict :=
  match desired with
  | [] => None
  | lbport :: desired' =>
      let key := lbport_portKey lbport in
      if bool_decide (key ∈ seen) then
        Some (MkPortConflict "DuplicateServicePort"
                ("Service " +:+ svc_key svc +:+ " declares port " +:+ key +:+ " more than once"))
      else duplicate_loop svc ({[key]} ∪ seen) desired'
  end.

Definition duplicateServicePortConflict (svc : Service) (desired : list LBPort) : option portConflict :=
  duplicate_loop svc ∅ desired.

Fixpoint lbPortOwnerConflict (desired : list LBPort) : prog KubeE (result (option portConflict)) :=
  match desired with
  | [] => Ret (OK None)
  | want :: desired' =>
      let* existing := call (Get KLBPort ("", lbp_Name want)) in
      match existing with
      | Fail e =>
          if negb (IsNotFound e)
          then Ret (Fail (wrap ("get lbport " +:+ lbp_Name want +:+ " for conflict detection: ") e))
          else lbPortOwnerConflict desired'
      | OK existing =>
          let owner := spec_Owner (lbp_Spec existing) in
          if negb (bool_decide (owner = "")) && negb (bool_decide (owner = lbPortOwnerName)) then
            Ret (OK (Some (MkPortConflict "LBPortOwnerConflict"
              ("LBPort " +:+ lbp_Name existing +:+ " is owned by " +:+ fmt_q owner +:+ ", not "
                 +:+ fmt_q lbPortOwnerName))))
          else if negb (sameStringMap (lbp_Labels existing) (lbp_Labels want)) then
            Ret (OK (Some (MkPortConflict "LBPortOwnerConflict"
              ("LBPort " +:+ lbp_Name existing +:+ " already exists for another Service or manager"))))
          else lbPortOwnerConflict desired'
      end
  end.

(** The conflict message of two overlapping ports. *)
Definition overlap_conflict (svc other : Service) (lport : LBPort) (nodes : list string) : portConflict :=
  MkPortConflict "ServicePortConflict"
    ("Service " +:+ svc_key svc +:+ " conflicts with Service " +:+ svc_key other +:+ " on "
       +:+ lbport_portKey lport +:+ " for node scope " +:+ Join nodes ",").

(** The inner loop of [overlappingPortConflict]. *)
Fixpoint overlap_with (svc other : Service) (lport : LBPort) (otherPorts : list LBPort) : option portConflict :=
  match otherPorts with
  | [] => None
  | rport :: otherPorts' =>
      if negb (bool_decide (spec_Port (lbp_Spec lport) = spec_Port (lbp_Spec rport)))
         || negb (bool_decide (normalizedProtocol (spec_Protocol (lbp_Spec lport))
                               = normalizedProtocol (spec_Protocol (lbp_Spec rport))))
      then overlap_with svc other lport otherPorts'
      else
        let nodes := overlappingNodes (spec_Nodes (lbp_Spec lport)) (spec_Nodes (lbp_Spec rport)) in
        if (length nodes =? 0)%nat then overlap_with svc other lport otherPorts'
        else Some (overlap_conflict svc other lport nodes)
  end.

Fixpoint overlappingPortConflict (svc : Service) (desired : list LBPort) (other : Service)
    (otherPorts : list LBPort) : option portConflict :=
  match desired with
  | [] => None
  | lport :: desired' =>
      match overlap_with svc other lport otherPorts with
      | Some conflict => Some conflict
      | None => overlappingPortConflict svc desired' other otherPorts
      end
  end.

Section detection.
Context `{LabelSelectors}.

(** The loop over the Services. *)
Fixpoint service_loop (svc : Service) (desired : list LBPort) (items : list Service)
    : prog KubeE (result (option portConflict)) :=
  match items with
  | [] => Ret (OK None)
  | other :: items' =>
      if bool_decide (svc_Namespace other = svc_Namespace svc) && bool_decide (svc_Name other = svc_Name svc)
      then service_loop svc desired items'
      else if negb (ServiceMatches other) then service_loop svc desired items'
      else
        let* otherPorts := BuildLBPorts other in
        match otherPorts with
        | Fail _ => service_loop svc desired items'
        | OK otherPorts =>
            match overlappingPortConflict svc desired other otherPorts with
            | Some conflict => Ret (OK (Some conflict))
            | None => service_loop svc desired items'
            end
        end
  end.

Definition servicePortConflict (svc : Service) (desired : list LBPort)
    : prog KubeE (result (option portConflict)) :=
  let? services := wrapped "list services for conflict detection: " (call (List KService ∅)) in
  service_loop svc desired services.

Definition detectPortConflict (svc : Service) (desired : list LBPort)
    : prog KubeE (result (option portConflict)) :=
  match duplicateServicePortConflict svc desired with
  | Some conflict => Ret (OK (Some conflict))
  | None =>
      let? conflict := lbPortOwnerConflict desired in
      match conflict with
      | Some conflict => Ret (OK (Some conflict))
      | None => servicePortConflict svc desired
      end
  end.
End detection.

(** ** Overlapping scopes *)

(** A list of nodes stands for every node or for the nodes it names. *)
Definition covers (nodes : list string) (n : string) : Prop := nodes = [allNodesToken] \/ n ∈ nodes.

(** A node list of an LBPort the controller builds: the token, or names. *)
Definition proper_scope (nodes : list string) : Prop :=
  nodes = [allNodesToken] \/ Forall (fun n => n <> "" /\ n <> allNodesToken) nodes.

Lemma sort_strings_nil l : sort_strings l = [] <-> l = [].
Proof.
  split; [|by intros ->]. intros Hs. pose proof (sort_strings_perm l) as Hp. rewrite Hs in Hp. by apply Permutation_nil_l in Hp.
Qed.

Lemma not_nil_elem {A} (l : list A) : l <> [] <-> exists x, x ∈ l.
Proof.
  destruct l as [|x l]; split; try done.
  - by intros [? ?%not_elem_of_nil].
  - intros _. exists x. by left.
Qed.

Lemma isAllNodes_true l : isAllNodes l = true <-> l = [allNodesToken].
Proof. apply bool_decide_eq_true. Qed.

Lemma concrete_scope l : Forall (fun n => n <> "" /\ n <> allNodesToken) l ->
  sortedConcreteNodes l = sort_strings l.
Proof.
  intros Hl. unfold sortedConcreteNodes. f_equal. induction Hl as [|n l Hn Hl IH]; [done|].
  rewrite filter_cons_True by done. by f_equal.
Qed.

Lemma overlapping_iff a b : proper_scope a -> proper_scope b ->
  overlappingNodes a b <> [] <-> exists n, n <> "" /\ n <> allNodesToken /\ covers a n /\ covers b n.
Proof.
  intros Ha Hb. unfold overlappingNodes.
  destruct (Nat.eqb_spec (length a) 0) as [Ha0%nil_length_inv|Ha0].
  { subst a. split; [done|]. intros (n & _ & _ & [?|?%not_elem_of_nil] & _); done. }
  destruct (Nat.eqb_spec (length b) 0) as [Hb0%nil_length_inv|Hb0].
  { subst b. split; [done|]. intros (n & _ & _ & _ & [?|?%not_elem_of_nil]); done. }
  simpl. unfold covers.
  destruct (isAllNodes a) eqn:HA; [apply isAllNodes_true in HA|].
  - destruct (isAllNodes b) eqn:HB; [apply isAllNodes_true in HB|]; simpl.
    + split; [|done]. intros _. exists "n". auto.
    + destruct Hb as [->|Hb]; [done|]. rewrite concrete_scope, sort_strings_nil, not_nil_elem by done.
      rewrite Forall_forall in Hb. split.
      * intros [n Hn]. exists n. destruct (Hb n Hn). auto.
      * intros (n & _ & _ & _ & [->|Hn]); [done|eauto].
  - destruct Ha as [->|Ha]; [done|]. rewrite Forall_forall in Ha. simpl.
    assert (a <> [allNodesToken]) as Hna by (intros ->; done).
    destruct (isAllNodes b) eqn:HB; [apply isAllNodes_true in HB|].
    + rewrite concrete_scope, sort_strings_nil, not_nil_elem by by rewrite Forall_forall. split.
      * intros [n Hn]. exists n. destruct (Ha n Hn). auto.
      * intros (n & _ & _ & [->|Hn] & _); [done|eauto].
    + assert (b <> [allNodesToken]) as Hnb by (intros ->; done).
      rewrite sort_strings_nil, not_nil_elem. setoid_rewrite list_elem_of_filter. split.
      * intros (n & Hn & Hn'). exists n. destruct (Ha n Hn). auto.
      * intros (n & _ & _ & [?|?] & [?|?]); try done. eauto.
Qed.

(** ** What counts as a conflict *)

Definition same_port (l r : LBPort) : Prop :=
  spec_Port (lbp_Spec l) = spec_Port (lbp_Spec r) /\
  normalizedProtocol (spec_Protocol (lbp_Spec l)) = normalizedProtocol (spec_Protocol (lbp_Spec r)).

(** Two LBPorts would have the proxies of both listen on one port of one node. *)
Definition clash (l r : LBPort) : Prop :=
  same_port l r /\
  exists n, n <> "" /\ n <> allNodesToken /\
    covers (spec_Nodes (lbp_Spec l)) n /\ covers (spec_Nodes (lbp_Spec r)) n.

Definition proper_ports (ports : list LBPort) : Prop :=
  Forall (fun l => proper_scope (spec_Nodes (lbp_Spec l))) ports.

Lemma overlap_with_iff svc other l ports : proper_scope (spec_Nodes (lbp_Spec l)) -> proper_ports ports ->
  is_Some (overlap_with svc other l ports) <-> exists r, r ∈ ports /\ clash l r.
Proof.
  intros Hl. induction 1 as [|r ports Hr Hports IH]; simpl.
  { split; [by intros [? ?]|]. by intros (r & ?%not_elem_of_nil & _). }
  setoid_rewrite elem_of_cons.
  assert (clash l r <-> same_port l r /\
    overlappingNodes (spec_Nodes (lbp_Spec l)) (spec_Nodes (lbp_Spec r)) <> []) as Hclash.
  { unfold clash. by rewrite overlapping_iff. }
  destruct (negb _ || _) eqn:Hsame.
  - rewrite IH. split; [naive_solver|]. intros (r' & [->|Hr'] & Hc); [|eauto].
    apply Hclash in Hc as [[H1 H2] _]. by rewrite !bool_decide_true in Hsame.
  - apply orb_false_iff in Hsame as [H1%negb_false_iff%bool_decide_eq_true H2%negb_false_iff%bool_decide_eq_true].
    destruct (Nat.eqb_spec (length (overlappingNodes (spec_Nodes (lbp_Spec l)) (spec_Nodes (lbp_Spec r)))) 0)
      as [H0%nil_length_inv|H0].
    + rewrite IH. split; [naive_solver|]. intros (r' & [->|Hr'] & Hc); [|eauto]. by apply Hclash in Hc as [_ ?].
    + split; [|by eexists]. intros _. exists r. split; [auto|]. apply Hclash. split; [done|].
      intros Heq. by rewrite Heq in H0.
Qed.

Lemma overlapping_conflict_iff svc desired other ports : proper_ports desired -> proper_ports ports ->
  is_Some (overlappingPortConflict svc desired other ports) <->
  exists l r, l ∈ desired /\ r ∈ ports /\ clash l r.
Proof.
  intros Hd Hp. induction Hd as [|l desired Hl Hd IH]; simpl.
  { split; [by intros [? ?]|]. by intros (l & r & ?%not_elem_of_nil & _). }
  setoid_rewrite elem_of_cons. pose proof (overlap_with_iff svc other l ports Hl Hp) as Hw.
  destruct (overlap_with svc other l ports) as [cf|].
  - split; [|by eexists]. intros _. destruct (proj1 Hw) as (r & ? & ?); [by eexists|]. eauto 10.
  - rewrite IH. split; [naive_solver|]. intros (l' & r & [->|?] & Hr & Hc); [|eauto].
    destruct (proj2 Hw) as [? ?]; [eauto|done].
Qed.

Lemma clash_sym l r : clash l r -> clash r l.
Proof. intros [[? ?] (n & ? & ? & ? & ?)]. split; [done|]. eauto 10. Qed.

Lemma duplicate_loop_None svc seen desired :
  duplicate_loop svc seen desired = None <->
  NoDup (lbport_portKey <$> desired) /\ forall k, k ∈ lbport_portKey <$> desired -> k ∉ seen.
Proof.
  revert seen. induction desired as [|l desired IH]; intros seen; cbn [duplicate_loop].
  { split; [|done]. split; [constructor|]. by intros ? ?%not_elem_of_nil. }
  rewrite fmap_cons, NoDup_cons. setoid_rewrite elem_of_cons. case_bool_decide as Hk.
  - split; [done|]. intros [_ H]. exfalso. by apply (H (lbport_portKey l)); [left|].
  - rewrite IH. set_unfold. split.
    + intros [Hnd H]. split_and!; [|done|].
      * intros (x & Hx & Hin). apply (H (lbport_portKey l)); [by exists x|by left].
      * intros k [->|Hk']; [done|]. intros Hs. apply (H k Hk'). by right.
    + intros [[Hni Hnd] H]. split; [done|]. intros k Hk' [->|Hs]; [done|]. apply (H k); auto.
Qed.

Lemma duplicate_None svc desired :
  duplicateServicePortConflict svc desired = None <-> NoDup (lbport_portKey <$> desired).
Proof.
  unfold duplicateServicePortConflict. rewrite duplicate_loop_None. split; [by intros [? _]|].
  intros Hnd. split; [done|]. intros k _. apply not_elem_of_empty.
Qed.

(** An LBPort of that name belongs to someone else. *)
Definition foreign (m : gmap NamespacedName LBPort) (want : LBPort) : Prop :=
  exists o, m !! ("", lbp_Name want) = Some o /\
    ((spec_Owner (lbp_Spec o) <> "" /\ spec_Owner (lbp_Spec o) <> lbPortOwnerName) \/
     sameStringMap (lbp_Labels o) (lbp_Labels want) = false).

Lemma kwp_lbPortOwnerConflict desired (Q : result (option portConflict) -> Cluster -> Prop) c :
  (forall conflict, (conflict = None <-> ~ exists want, want ∈ desired /\ foreign (lbports c) want) ->
     Q (OK conflict) c) ->
  kwp (lbPortOwnerConflict desired) Q c.
Proof.
  intros HQ. induction desired as [|want desired IH]; simpl.
  { apply HQ. split; [|done]. intros _ (w & ?%not_elem_of_nil & _). done. }
  assert (~ foreign (lbports c) want ->
    kwp (lbPortOwnerConflict desired) Q c) as Hnext.
  { intros Hno. apply IH. intros conflict Hc. apply HQ. rewrite Hc. setoid_rewrite elem_of_cons.
    split; [|naive_solver]. intros H (w & [->|Hw] & Hf); eauto. }
  assert (forall cf, foreign (lbports c) want -> Q (OK (Some cf)) c) as Hstop.
  { intros cf Hf. apply HQ. split; [done|]. intros []. exists want. split; [by left|done]. }
  split; [done|]. intros x c1 [-> Hx]. simpl in Hx. unfold foreign in Hnext, Hstop.
  destruct (lbports c !! ("", lbp_Name want)) as [o|].
  - subst x. cbv beta iota. destruct (negb _ && _) eqn:Hown.
    + apply Hstop. exists o. split; [done|]. left.
      by apply andb_true_iff in Hown as [?%negb_true_iff%bool_decide_eq_false ?%negb_true_iff%bool_decide_eq_false].
    + destruct (sameStringMap _ _) eqn:Hsame; simpl.
      * apply Hnext. intros (o' & [= <-] & [[? ?]|?]); [|congruence]. by rewrite !bool_decide_false in Hown.
      * apply Hstop. exists o. auto.
  - destruct Hx as (e & -> & He). rewrite He. simpl. apply Hnext. by intros (o' & ? & _).
Qed.

(** ** The whole check *)

Section detection_correct.
Context `{LabelSelectors}.

(** Kubernetes object names are neither empty nor a star. *)
Definition node_names_ok (c : Cluster) : Prop :=
  Forall (fun n => node_Name n <> "" /\ node_Name n <> allNodesToken) (all_nodes c).

Lemma scope_proper svc all ns :
  Forall (fun n => node_Name n <> "" /\ node_Name n <> allNodesToken) all ->
  scope svc all = OK ns -> proper_scope ns.
Proof.
  intros Hall. unfold scope. case_bool_decide; [by intros [= <-]; left|].
  rewrite bind_result_ok. intros (spec & _ & Hsel). apply bind_result_ok in Hsel as (sel & _ & [= <-]).
  right. unfold matched_nodes. apply Forall_forall. intros n. rewrite elem_of_sort_strings.
  intros (nd & -> & [_ Hnd]%list_elem_of_filter)%list_elem_of_fmap.
  rewrite Forall_forall in Hall. by apply Hall.
Qed.

Lemma built_proper c svc ports : node_names_ok c -> built c svc = OK ports -> proper_ports ports.
Proof.
  intros Hok. unfold built. rewrite bind_result_ok. intros (ns & Hns%scope_proper & [= <-]); [|done].
  unfold proper_ports. rewrite Forall_fmap. by apply Forall_true.
Qed.

(** Another Service bulb serves that would share a port with [desired] on some node. *)
Definition rival (c : Cluster) (svc : Service) (desired : list LBPort) (other : Service) : Prop :=
  services c !! name_of KService other = Some other /\
  name_of KService other <> name_of KService svc /\ ServiceMatches other = true /\
  exists ports, built c other = OK ports /\ exists l r, l ∈ desired /\ r ∈ ports /\ clash l r.

Definition conflict_free (c : Cluster) (svc : Service) (desired : list LBPort) : Prop :=
  NoDup (lbport_portKey <$> desired) /\
  (forall want, want ∈ desired -> ~ foreign (lbports c) want) /\
  forall other, ~ rival c svc desired other.

Lemma kwp_service_loop svc desired items (Q : result (option portConflict) -> Cluster -> Prop) c :
  node_names_ok c -> proper_ports desired ->
  (forall other, other ∈ items -> services c !! name_of KService other = Some other) ->
  (forall conflict, (conflict = None <-> ~ exists other, other ∈ items /\ rival c svc desired other) ->
     Q (OK conflict) c) ->
  kwp (service_loop svc desired items) Q c.
Proof.
  intros Hok Hd Hin HQ. induction items as [|other items IH]; cbn [service_loop].
  { apply HQ. split; [|done]. intros _ (o & ?%not_elem_of_nil & _). done. }
  assert (~ rival c svc desired other -> kwp (service_loop svc desired items) Q c) as Hnext.
  { intros Hno. apply IH; [intros; apply Hin; by right|]. intros conflict Hc. apply HQ. rewrite Hc.
    setoid_rewrite elem_of_cons. split; [|naive_solver]. intros Hn (o & [->|Ho] & Hr); eauto. }
  destruct (bool_decide _ && _) eqn:Hself.
  { apply Hnext. intros (_ & Hne & _). apply Hne.
    apply andb_true_iff in Hself as [?%bool_decide_eq_true ?%bool_decide_eq_true]. simpl. by f_equal. }
  destruct (ServiceMatches other) eqn:Hm; simpl.
  2: { apply Hnext. intros (_ & _ & ? & _). congruence. }
  apply wp_bind, kwp_BuildLBPorts. destruct (built c other) as [ports|e] eqn:Hb.
  2: { apply Hnext. intros (_ & _ & _ & ports & ? & _). congruence. }
  pose proof (overlapping_conflict_iff svc desired other ports Hd (built_proper _ _ _ Hok Hb)) as Hov.
  destruct (overlappingPortConflict svc desired other ports) as [cf|].
  - apply HQ. split; [done|]. intros []. exists other. split; [by left|]. split_and!; [| |done|].
    + apply Hin. by left.
    + intros [= H1 H2]. by rewrite !bool_decide_true in Hself.
    + exists ports. split; [done|]. by apply Hov.
  - apply Hnext. intros (_ & _ & _ & ports' & Hb' & Hcl). rewrite Hb in Hb'. injection Hb' as <-.
    by apply Hov in Hcl as [? ?].
Qed.

Lemma kwp_detectPortConflict svc desired (Q : result (option portConflict) -> Cluster -> Prop) c :
  keyed c -> node_names_ok c -> proper_ports desired ->
  (forall conflict, (conflict = None <-> conflict_free c svc desired) -> Q (OK conflict) c) ->
  kwp (detectPortConflict svc desired) Q c.
Proof.
  intros Hk Hok Hd HQ. unfold detectPortConflict, conflict_free in *.
  pose proof (duplicate_None svc desired) as Hdup.
  destruct (duplicateServicePortConflict svc desired) as [cf|].
  { apply HQ. split; [done|]. intros [Hnd _]. by apply Hdup. }
  apply wp_bindr, kwp_lbPortOwnerConflict. intros [cf|] Hf.
  { apply HQ. split; [done|]. intros (_ & Hno & _). apply Hf. intros (w & Hw & Hw'). by eapply Hno. }
  apply wp_bindr, wp_wrapped. split; [done|]. intros x c1 (-> & items & -> & Hp).
  apply (listed c KService) in Hp as [_ Hin]; [|done]. apply kwp_service_loop; [done..| |].
  - intros other Ho. by apply Hin in Ho as [? _].
  - intros conflict Hc. apply HQ. rewrite Hc. split.
    + intros Hno. split_and!; [by apply Hdup| |].
      * intros want Hw Hf'. by apply (proj1 Hf eq_refl); eauto.
      * intros other Hr. apply Hno. exists other. split; [|done]. apply Hin.
        split; [by destruct Hr|]. apply map_empty_subseteq.
    + intros (_ & _ & Hno) (o & _ & Hr). by eapply Hno.
Qed.

End detection_correct.

(** C20: Over a server that answers every request, [detectPortConflict] returns without
    changing anything, and finds no conflict exactly when the Service declares no
    port twice, none of its LBPorts exists already in the hands of someone else,
    and no other Service that bulb serves and that can be built claims one of its
    ports on a node they share. *)
Theorem detectPortConflict_correct `{LabelSelectors} {W} (h : handler KubeE W) (view : W -> Cluster)
    (Hserver : KubeServer h view) (w : W) (svc : Service) (ports : list LBPort)
    (Hkeyed : keyed (view w)) (Hnodes : node_names_ok (view w)) (Hports : built (view w) svc = OK ports) :
  exists conflict,
    fst (run h (detectPortConflict svc ports) w) = OK conflict /\
    view (snd (run h (detectPortConflict svc ports) w)) = view w /\
    (conflict = None <-> conflict_free (view w) svc ports).
Proof.
  apply (kwp_run h view (detectPortConflict svc ports) (fun r c => exists conflict,
    r = OK conflict /\ c = view w /\ (conflict = None <-> conflict_free (view w) svc ports))).
  apply kwp_detectPortConflict; [done|done|by eapply built_proper|]. intros conflict Hc. by exists conflict.
Qed.

(** Two Services on port 80, one of them on the nodes with role=edge. *)
Definition sample_web : Service :=
  sample_service "web" {[ AnnotationNodes := "role=edge" ]} [MkServicePort "http" "TCP" 80 "8080"].
Definition sample_api : Service := sample_service "api" ∅ [MkServicePort "http" "" 80 "80"].
Definition two_services : Cluster := sample_cluster [sample_web; sample_api] [].

Lemma sample_nodes_ok svcs ports : node_names_ok (sample_cluster svcs ports).
Proof.
  change (Forall (fun n => node_Name n <> "" /\ node_Name n <> allNodesToken) (map_to_list sample_nodes).*2).
  apply Forall_forall. intros n ([key n'] & -> & Hin%elem_of_map_to_list)%list_elem_of_fmap.
  unfold sample_nodes, named in Hin. apply elem_of_list_to_map_2 in Hin.
  repeat (apply elem_of_cons in Hin as [[= -> ->]|Hin]; [done|]). by apply not_elem_of_nil in Hin.
Qed.

Lemma detectPortConflict_correct_witness :
  let c := two_services in
  exists ports conflict,
    fst (run sim_server (@detectPortConflict equality_selectors sample_web ports) c) = OK conflict /\
    (conflict = None <-> @conflict_free equality_selectors c sample_web ports).
Proof.
  exists [lbport_for sample_web ["edge-1"] (MkServicePort "http" "TCP" 80 "8080")].
  destruct (@detectPortConflict_correct equality_selectors Cluster sim_server id sim_server_law two_services
    sample_web [lbport_for sample_web ["edge-1"] (MkServicePort "http" "TCP" 80 "8080")]
    (sample_keyed _ _) (sample_nodes_ok _ _) ltac:(vm_compute; reflexivity)) as (conflict & H1 & _ & H2).
  exists conflict. split; [exact H1|exact H2].
Defined.

(** What [detectPortConflict] finds there. *)
Example two_services_conflict :
  let ports := [lbport_for sample_web ["edge-1"] (MkServicePort "http" "TCP" 80 "8080")] in
  @built equality_selectors two_services sample_web = OK ports /\
  fst (run sim_server (@detectPortConflict equality_selectors sample_web ports) two_services) =
    OK (Some (MkPortConflict "ServicePortConflict"
      "Service demo/web conflicts with Service demo/api on 80/tcp for node scope edge-1")).
Proof. split; vm_compute; reflexivity. Qed.

(** C38: The check does not tell who came first: when another Service stands in the way
    of [svc], [svc] stands in the way of that Service, so the reconciles of both
    report a conflict. *)
Theorem conflicts_are_mutual `{LabelSelectors} {W} (h : handler KubeE W) (view : W -> Cluster)
    (Hserver : KubeServer h view) (w : W) (svc other : Service) (ports others : list LBPort)
    (Hkeyed : keyed (view w)) (Hnodes : node_names_ok (view w))
    (Hsvc : services (view w) !! name_of KService svc = Some svc) (Hmatch : ServiceMatches svc = true)
    (Hports : built (view w) svc = OK ports) (Hothers : built (view w) other = OK others)
    (Hrival : rival (view w) svc ports other) :
  exists conflict conflict',
    fst (run h (detectPortConflict svc ports) w) = OK (Some conflict) /\
    fst (run h (detectPortConflict other others) w) = OK (Some conflict').
Proof.
  assert (rival (view w) other others svc) as Hrival'.
  { destruct Hrival as (_ & Hne & _ & ports' & Hb & l & r & Hl & Hr & Hc).
    rewrite Hothers in Hb. injection Hb as <-. split_and!; [done|by apply not_eq_sym|done|].
    exists ports. split; [done|]. exists r, l. by split_and!; [..|apply clash_sym]. }
  assert (forall s ps o, built (view w) s = OK ps -> rival (view w) s ps o ->
    exists cf, fst (run h (detectPortConflict s ps) w) = OK (Some cf)) as Hstep.
  { intros s ps o Hb Hr.
    apply (kwp_run h view (detectPortConflict s ps) (fun r _ => exists cf, r = OK (Some cf))).
    apply kwp_detectPortConflict; [done|done|by eapply built_proper|]. intros [cf|] Hcf; [by exists cf|].
    exfalso. by apply (proj1 Hcf) in Hr. }
  destruct (Hstep svc ports other) as [cf ?]; [done..|].
  destruct (Hstep other others svc) as [cf' ?]; [done..|]. by exists cf, cf'.
Qed.

Lemma conflicts_are_mutual_witness :
  exists ports others conflict conflict',
    fst (run sim_server (@detectPortConflict equality_selectors sample_web ports) two_services)
      = OK (Some conflict) /\
    fst (run sim_server (@detectPortConflict equality_selectors sample_api others) two_services)
      = OK (Some conflict').
Proof.
  exists [lbport_for sample_web ["edge-1"] (MkServicePort "http" "TCP" 80 "8080")],
    [lbport_for sample_api ["*"] (MkServicePort "http" "" 80 "80")].
  refine (@conflicts_are_mutual equality_selectors Cluster sim_server id sim_server_law two_services
    sample_web sample_api _ _ (sample_keyed _ _) (sample_nodes_ok _ _) _ _ _ _ _).
  1-4: vm_compute; reflexivity.
  split_and!; [vm_compute; reflexivity|vm_compute; discriminate|vm_compute; reflexivity|].
  eexists. split; [vm_compute; reflexivity|]. eexists _, _.
  split; [by left|]. split; [by left|]. split; [vm_compute; split; reflexivity|]. exists "edge-1".
  split_and!; [done|done|right; by left|by left].
Defined.
