(* ===== verification/Durations.v ===== *)
(** * Durations: [time.ParseDuration]

    The durations of the command line, in nanoseconds: an optional sign, then
    decimal numbers, each with a unit. The code multiplies a fraction by its unit in
    float64; [SpecFloat] computes it as the machine does. *)
From S2P Require Import Prelude GoStrings.
From Stdlib Require Import Ascii.
From Stdlib Require Import Floats.SpecFloat.
Open Scope Z_scope.

Definition max_uint63 : Z := 2 ^ 63.

(** [leadingInt]; [None] on overflow. *)
Fixpoint leadingInt (s : string) (x : Z) : option (Z * string) :=
  match s with
  | EmptyString => Some (x, s)
  | String c s' =>
      match digit c with
      | None => Some (x, s)
      | Some n =>
          if max_uint63 / 10 <? x then None
          else let x := x * 10 + n in
               if max_uint63 <? x then None else leadingInt s' x
      end
  end.

(** *** float64 *)

Definition float64_of (n : Z) : spec_float := binary_normalize 53 1024 n 0 false.
Definition float64_mul : spec_float -> spec_float -> spec_float := SFmul 53 1024.
Definition float64_div : spec_float -> spec_float -> spec_float := SFdiv 53 1024.

(** [uint64(f)] of a number that is not negative and in range. *)
Definition uint64_of (f : spec_float) : Z :=
  match f with
  | S754_finite _ m e => if 0 <=? e then Zpos m * 2 ^ e else Zpos m / 2 ^ (- e)
  | _ => 0
  end.

(** [leadingFraction]: digits that do not fit are skipped. *)
Fixpoint leadingFraction (s : string) (x : Z) (scale : spec_float) (overflow : bool)
    : Z * spec_float * string :=
  match s with
  | EmptyString => (x, scale, s)
  | String c s' =>
      match digit c with
      | None => (x, scale, s)
      | Some n =>
          let y := x * 10 + n in
          if overflow || ((max_uint63 - 1) / 10 <? x) || (max_uint63 <? y)
          then leadingFraction s' x scale true
          else leadingFraction s' y (float64_mul scale (float64_of 10)) false
      end
  end.

(** The unit: up to the next '.' or digit. *)
Fixpoint take_unit (s : string) : string * string :=
  match s with
  | EmptyString => ("", s)
  | String c s' =>
      if Ascii.eqb c "." || bool_decide (digit c <> None) then ("", s)
      else let '(u, rest) := take_unit s' in (String c u, rest)
  end.

(** The two spellings of the micro sign, in UTF-8. *)
Definition micro_sign : string := String (ascii_of_nat 194) (String (ascii_of_nat 181) EmptyString).
Definition greek_mu : string := String (ascii_of_nat 206) (String (ascii_of_nat 188) EmptyString).

Definition unit_map (u : string) : option Z :=
  if bool_decide (u = "ns") then Some 1
  else if bool_decide (u = "us" \/ u = micro_sign +:+ "s" \/ u = greek_mu +:+ "s") then Some 1000
  else if bool_decide (u = "ms") then Some 1000000
  else if bool_decide (u = "s") then Some 1000000000
  else if bool_decide (u = "m") then Some 60000000000
  else if bool_decide (u = "h") then Some 3600000000000
  else None.

(** A number and its unit, as nanoseconds, and what follows. *)
Definition duration_term (s : string) : option (Z * string) :=
  match s with
  | EmptyString => None
  | String c _ =>
      if negb (Ascii.eqb c "." || bool_decide (digit c <> None)) then None
      else
        match leadingInt s 0 with
        | None => None
        | Some (v, s1) =>
            let pre := negb (String.length s1 =? String.length s)%nat in
            let '(f, scale, s2, post) :=
              match s1 with
              | String c1 s1' =>
                  if Ascii.eqb c1 "." then
                    let '(f, scale, s2) := leadingFraction s1' 0 (float64_of 1) false in
                    (f, scale, s2, negb (String.length s2 =? String.length s1')%nat)
                  else (0, float64_of 1, s1, false)
              | EmptyString => (0, float64_of 1, s1, false)
              end in
            if negb pre && negb post then None
            else
              let '(u, s3) := take_unit s2 in
              match unit_map u with
              | None => None
              | Some unit =>
                  if max_uint63 / unit <? v then None
                  else
                    let v := v * unit in
                    let v := if 0 <? f
                             then v + uint64_of (float64_mul (float64_of f) (float64_div (float64_of unit) scale))
                             else v in
                    if max_uint63 <? v then None else Some (v, s3)
              end
        end
  end.

(** The loop over the terms, with the sum so far. A term takes at least one
    character, so the length of the string is enough fuel. *)
Fixpoint duration_terms (fuel : nat) (s : string) (d : Z) : option Z :=
  match s, fuel with
  | EmptyString, _ => Some d
  | _, O => None
  | _, S fuel =>
      match duration_term s with
      | None => None
      | Some (v, s') =>
          let d := (d + v) mod 2 ^ 64 in
          if max_uint63 <? d then None else duration_terms fuel s' d
      end
  end.

Definition ParseDuration (s : string) : option Z :=
  let '(neg, s) :=
    match s with
    | String c s' =>
        if Ascii.eqb c "-" || Ascii.eqb c "+" then (Ascii.eqb c "-", s') else (false, s)
    | EmptyString => (false, s)
    end in
  if bool_decide (s = "0") then Some 0
  else if bool_decide (s = "") then None
  else
    match duration_terms (String.length s) s 0 with
    | None => None
    | Some d => if neg then Some (- d) else if max_uint63 - 1 <? d then None else Some d
    end.

Example ParseDuration_samples :
  ParseDuration "30s" = Some 30000000000 /\ ParseDuration "250ms" = Some 250000000 /\
  ParseDuration "1h15m30.918s" = Some 4530918000000 /\ ParseDuration "-1.5h" = Some (- 5400000000000) /\
  ParseDuration ".5us" = Some 500 /\ ParseDuration "9223372036854775807ns" = Some 9223372036854775807 /\
  ParseDuration "9223372036854775808ns" = None /\ ParseDuration "-9223372036854775808ns" = Some (- 2 ^ 63) /\
  ParseDuration "0" = Some 0 /\ ParseDuration "30" = None /\ ParseDuration ".s" = None /\
  ParseDuration "" = None /\ ParseDuration "3000000h" = None /\
  ParseDuration "0.3333333333333333333h" = Some 1200000000000 /\
  ParseDuration "0.100000000000000000000h" = Some 360000000000.
Proof. vm_compute. repeat split. Qed.

(** Every term makes the string shorter, so the fuel of [ParseDuration] is enough. *)
Lemma leadingInt_length s x v rest : leadingInt s x = Some (v, rest) -> (String.length rest <= String.length s)%nat.
Proof.
  revert x. induction s as [|c s IH]; intros x; simpl; [by intros [= _ <-]|].
  destruct (digit c); [|by intros [= _ <-]]. case_match; [done|]. case_match; [done|].
  intros ?%IH. lia.
Qed.

Lemma leadingFraction_length s x scale o v scale' rest :
  leadingFraction s x scale o = (v, scale', rest) -> (String.length rest <= String.length s)%nat.
Proof.
  revert x scale o. induction s as [|c s IH]; intros x scale o; simpl; [by intros [= _ _ <-]|].
  destruct (digit c); [|by intros [= _ _ <-]]. case_match; intros ?%IH; lia.
Qed.

Lemma take_unit_length s u rest : take_unit s = (u, rest) ->
  String.length s = (String.length u + String.length rest)%nat.
Proof.
  revert u rest. induction s as [|c s IH]; intros u rest; simpl; [by intros [= <- <-]|].
  destruct (_ || _); [by intros [= <- <-]|]. destruct (take_unit s) as [u' r'] eqn:Heq.
  intros [= <- <-]. rewrite (IH _ _ eq_refl). done.
Qed.

Lemma duration_term_shorter s v rest : duration_term s = Some (v, rest) -> (String.length rest < String.length s)%nat.
Proof.
  unfold duration_term. destruct s as [|c s0]; [done|]. set (s := String c s0).
  destruct (negb _); [done|]. destruct (leadingInt s 0) as [[w s1]|] eqn:H1; [|done].
  apply leadingInt_length in H1.
  destruct (match s1 with EmptyString => _ | String _ _ => _ end) as [[[f scale] s2] post] eqn:H2.
  assert (String.length s2 <= String.length s1)%nat as Hle.
  { destruct s1 as [|c1 s1']; [by injection H2 as _ _ <- _|].
    destruct (Ascii.eqb c1 "."); [|by injection H2 as _ _ <- _].
    destruct (leadingFraction s1' 0 _ _) as [[f' sc] s2'] eqn:H3. apply leadingFraction_length in H3.
    injection H2 as _ _ <- _. simpl. lia. }
  destruct (_ && _); [done|]. destruct (take_unit s2) as [u s3] eqn:H4. apply take_unit_length in H4.
  destruct (unit_map u) as [unit|] eqn:Hu; [|done]. destruct (max_uint63 / unit <? w); [done|].
  destruct (max_uint63 <? _); [done|].
  intros [= _ <-]. assert (u <> "") as Hne by by intros ->. destruct u; [done|]. simpl in H4. lia.
Qed.

Lemma duration_terms_fuel fuel s d : (String.length s <= fuel)%nat ->
  duration_terms fuel s d = duration_terms (String.length s) s d.
Proof.
  enough (forall n s d, (String.length s <= n)%nat -> forall m, (String.length s <= m)%nat ->
    duration_terms n s d = duration_terms m s d) as H by (intros; by apply H).
  clear. induction n as [|n IH]; intros [|c s] d Hn [|m] Hm; simpl in Hn, Hm; try lia; try done.
  cbn [duration_terms]. destruct (duration_term (String c s)) as [[v s']|] eqn:Ht; [|done].
  apply duration_term_shorter in Ht. simpl in Ht. case_match; [done|]. apply IH; lia.
Qed.
