(* ===== verification/Flags.v ===== *)
(** * Flags: the flag package

    Models how [FlagSet.Parse] of Go's flag package fills the flags a subcommand
    declares: a flag set is its setters, and which of its flags are boolean. *)
From S2P Require Import Prelude GoStrings Durations.
From Stdlib Require Import Ascii.
Open Scope Z_scope.
Open Scope go_scope.

(** What the flag package makes of one argument: not a flag, or a name with the
    value after '=', if there is one. *)
Inductive FlagArg := Stop | BadSyntax | Flag (name : string) (value : option string).

Definition flag_name (name : string) : FlagArg :=
  match name with
  | EmptyString => BadSyntax
  | String c _ =>
      if Ascii.eqb c "-" || Ascii.eqb c "=" then BadSyntax
      else match cut "=" name with
           | Some (n, v) => Flag n (Some v)
           | None => Flag name None
           end
  end.

Definition flag_arg (s : string) : FlagArg :=
  match s with
  | String c (String d rest) =>
      if negb (Ascii.eqb c "-") then Stop
      else if Ascii.eqb d "-" then
        match rest with EmptyString => Stop | _ => flag_name rest end
      else flag_name (String d rest)
  | _ => Stop
  end.

(** A name that is not declared; asking for help is an error of its own. *)
Definition undefined_flag (name : string) : error :=
  if bool_decide (name = "help") || bool_decide (name = "h") then errorf "flag: help requested"
  else errorf ("flag provided but not defined: -" +:+ name).

Definition invalid_value (name value : string) : error :=
  errorf ("invalid value " +:+ fmt_q value +:+ " for flag -" +:+ name +:+ ": parse error").

(** The [Set] methods of [Bool] and [Duration] flags. *)
Definition bool_value {C} (name value : string) (k : bool -> C) : result C :=
  match ParseBool value with
  | Some b => OK (k b)
  | None => Fail (errorf ("invalid boolean value " +:+ fmt_q value +:+ " for -" +:+ name +:+ ": parse error"))
  end.
Definition duration_value {C} (name value : string) (k : Z -> C) : result C :=
  match ParseDuration value with
  | Some d => OK (k d)
  | None => Fail (invalid_value name value)
  end.

Section parse.
Context {C : Type}.

(** The setters of the declared flags, [None] for a name that is not declared; and the
    flags that need no value. *)
Context (set_flag : string -> string -> C -> option (result C)) (is_bool : string -> bool).

Definition apply_flag (name value : string) (c : C) : result C :=
  match set_flag name value c with
  | Some r => r
  | None => Fail (undefined_flag name)
  end.

(** [FlagSet.Parse]: flags until the first argument that is none. A flag without a
    value takes the next argument, a boolean one is true. *)
Fixpoint parse_flags (args : list string) (c : C) : result C :=
  match args with
  | [] => OK c
  | s :: args' =>
      match flag_arg s with
      | Stop => OK c
      | BadSyntax => Fail (errorf ("bad flag syntax: " +:+ s))
      | Flag name value =>
          match value, args' with
          | Some v, _ => let! c := apply_flag name v c in parse_flags args' c
          | None, v :: args'' =>
              if is_bool name then let! c := apply_flag name "true" c in parse_flags args' c
              else let! c := apply_flag name v c in parse_flags args'' c
          | None, [] =>
              if is_bool name then apply_flag name "true" c
              else match set_flag name "" c with
                   | Some _ => Fail (errorf ("flag needs an argument: -" +:+ name))
                   | None => Fail (undefined_flag name)
                   end
          end
      end
  end.
End parse.
