(* ===== verification/ProxyArgs.v ===== *)
(** * ProxyArgs: from the command line to the rules of the proxy

    Models the flags the proxy's [Run] declares (internal/proxy/proxy.go), filled by
    the flag package of Flags, and [Run] up to the call of Serve. *)
From S2P Require Import Prelude GoStrings Effects GoNet ProxyFlags ProxyServe Flags.
Open Scope Z_scope.

(** ** The flags of the proxy *)

Record ProxyConfig := MkProxyConfig { config_flags : ProxyFlags; config_options : ServeOptions }.

Definition default_config : ProxyConfig :=
  MkProxyConfig (MkProxyFlags [] [] "" [])
    (MkServeOptions (30 * second) (30 * second) ":8081" 250000000).

(** The setters of the declared flags; [None] for a name that is not declared. *)
Definition set_flag (name value : string) (c : ProxyConfig) : option (result ProxyConfig) :=
  let f := config_flags c in
  let o := config_options c in
  let duration (k : Z -> ServeOptions) := duration_value name value (fun d => MkProxyConfig f (k d)) in
  if bool_decide (name = "upstream") then
    Some (OK (MkProxyConfig (MkProxyFlags (tcpPairs f ++ [value]) (udpPairs f) (proxyProto f) (endpointPairs f)) o))
  else if bool_decide (name = "udp-upstream") then
    Some (OK (MkProxyConfig (MkProxyFlags (tcpPairs f) (udpPairs f ++ [value]) (proxyProto f) (endpointPairs f)) o))
  else if bool_decide (name = "endpoint") then
    Some (OK (MkProxyConfig (MkProxyFlags (tcpPairs f) (udpPairs f) (proxyProto f) (endpointPairs f ++ [value])) o))
  else if bool_decide (name = "proxy-protocol") then
    Some (OK (MkProxyConfig (MkProxyFlags (tcpPairs f) (udpPairs f) value (endpointPairs f)) o))
  else if bool_decide (name = "health-bind-address") then
    Some (OK (MkProxyConfig f (MkServeOptions (DrainTimeout o) (UDPIdleTimeout o) value (HealthCheckTimeout o))))
  else if bool_decide (name = "drain-timeout") then
    Some (duration (fun d => MkServeOptions d (UDPIdleTimeout o) (HealthBindAddress o) (HealthCheckTimeout o)))
  else if bool_decide (name = "udp-idle-timeout") then
    Some (duration (fun d => MkServeOptions (DrainTimeout o) d (HealthBindAddress o) (HealthCheckTimeout o)))
  else if bool_decide (name = "health-check-timeout") then
    Some (duration (fun d => MkServeOptions (DrainTimeout o) (UDPIdleTimeout o) (HealthBindAddress o) d))
  else None.

Definition parse_proxy_flags : list string -> ProxyConfig -> result ProxyConfig :=
  parse_flags set_flag (fun _ => false).

(** [Run] up to the call of [Serve]: its arguments. *)
Definition Run (args : list string) : result (list Spec * ServeOptions) :=
  let! c := parse_proxy_flags args default_config in
  let! specs := Run_specs (config_flags c) in
  OK (specs, config_options c).

(** ** Arguments as the controller writes them *)

Inductive Arg := TCPArg (v : string) | UDPArg (v : string) | EndpointArg (v : string).

Definition render (a : Arg) : string :=
  match a with
  | TCPArg v => "--upstream=" +:+ v
  | UDPArg v => "--udp-upstream=" +:+ v
  | EndpointArg v => "--endpoint=" +:+ v
  end.

Definition tcp_value (a : Arg) : option string := match a with TCPArg v => Some v | _ => None end.
Definition udp_value (a : Arg) : option string := match a with UDPArg v => Some v | _ => None end.
Definition endpoint_value (a : Arg) : option string := match a with EndpointArg v => Some v | _ => None end.

Lemma parse_rendered l rest f o :
  parse_proxy_flags ((render <$> l) ++ rest) (MkProxyConfig f o) =
  parse_proxy_flags rest (MkProxyConfig
    (MkProxyFlags (tcpPairs f ++ omap tcp_value l) (udpPairs f ++ omap udp_value l) (proxyProto f)
       (endpointPairs f ++ omap endpoint_value l)) o).
Proof.
  revert f. induction l as [|a l IH]; intros f.
  - simpl. rewrite !app_nil_r. by destruct f.
  - rewrite fmap_cons, <-app_comm_cons.
    destruct a as [v|v|v]; cbn [parse_proxy_flags parse_flags render flag_arg flag_name]; simpl;
      (etrans; [apply IH|]); csimpl; by rewrite <-?app_assoc.
Qed.

Lemma parse_proxy_protocol v f o :
  parse_proxy_flags ["--proxy-protocol=" +:+ v] (MkProxyConfig f o) =
  OK (MkProxyConfig (MkProxyFlags (tcpPairs f) (udpPairs f) v (endpointPairs f)) o).
Proof. done. Qed.
