(* ===== verification/DaemonSets.v ===== *)
(** * DaemonSets: the proxy workload of a Service

    Models internal/controller/daemonset.go, which renders a Service into the
    DaemonSet that runs its proxy, and the endpoints of reconciler.go that go into
    the proxy's arguments under externalTrafficPolicy=Local. *)
From S2P Require Import Prelude GoStrings Effects ApiTypes FwPorts GoNet Kube KubeApply LBPorts.
From Stdlib Require Import Ascii.
Open Scope Z_scope.

Definition containerName : string := "proxy".
Definition probePortName : string := "probes".
Definition defaultDrainTime : string := "30s".
Definition defaultProbeAddr : string := ":8081".

(** ** Endpoints *)

(** Service port names to upstreams. *)
Abbreviation ServiceEndpoints := (gmap string (list string)).

Definition endpoints_empty (s : ServiceEndpoints) : bool :=
  bool_decide (map_Forall (fun _ eps => eps = []) s).

Definition service_protocols (svc : Service) : gmap string Protocol :=
  foldl (fun m p => <[port_Name p := port_protocol p]> m) ∅ (svc_Ports svc).

(** The body of the innermost loop: the set [seen] of a name holds the upstreams
    already in its list. *)
Definition add_upstream (name upstream : string) (out : ServiceEndpoints) : ServiceEndpoints :=
  let upstreams := default [] (out !! name) in
  if bool_decide (upstream ∈ upstreams) then out else <[name := upstreams ++ [upstream]]> out.

Definition add_endpoint_port (servicePorts : gmap string Protocol) (addresses : list string)
    (out : ServiceEndpoints) (port : EndpointPort) : ServiceEndpoints :=
  match servicePorts !! ep_Name port with
  | None => out
  | Some protocol =>
      if negb (bool_decide (ep_Protocol port = "")) && negb (bool_decide (ep_Protocol port = protocol)) then out
      else
        foldl (fun out ip =>
            if bool_decide (ip = "") then out
            else add_upstream (ep_Name port) (JoinHostPort ip (fmt_d (ep_Port port))) out)
          out addresses
  end.

Definition endpointsByServicePort (eps : Endpoints) (svc : Service) : ServiceEndpoints :=
  sort_strings <$>
    foldl (fun out subset =>
        foldl (add_endpoint_port (service_protocols svc) (Addresses subset)) out (ep_Ports subset))
      ∅ (Subsets eps).

(** ** Addresses *)

Definition ClusterIPNone : string := "None".

(** The loop of [splitClusterIPs]. *)
Fixpoint split_ips (candidates : list string) (v4 v6 : string) : string * string :=
  match candidates with
  | [] => (v4, v6)
  | raw :: candidates' =>
      if bool_decide (raw = "") || bool_decide (raw = ClusterIPNone) then split_ips candidates' v4 v6
      else
        match ParseIP raw with
        | None => split_ips candidates' v4 v6
        | Some ip =>
            match To4 ip with
            | Some _ => split_ips candidates' (if bool_decide (v4 = "") then raw else v4) v6
            | None => split_ips candidates' v4 (if bool_decide (v6 = "") then raw else v6)
            end
        end
  end.

Definition splitClusterIPs (svc : Service) : string * string :=
  let candidates :=
    if bool_decide (svc_ClusterIPs svc = []) && negb (bool_decide (svc_ClusterIP svc = ""))
    then [svc_ClusterIP svc] else svc_ClusterIPs svc in
  split_ips candidates "" "".

Definition is_bracket (c : ascii) : bool := Ascii.eqb c lbracket || Ascii.eqb c rbracket.

(** The endpoint is an address of the family asked for. *)
Definition of_family (ipv6 : bool) (endpoint : string) : bool :=
  match SplitHostPort endpoint with
  | Fail _ => false
  | OK (host, _) =>
      match ParseIP (Trim is_bracket host) with
      | None => false
      | Some ip => bool_decide (bool_decide (To4 ip = None) = ipv6)
      end
  end.

Definition endpointUpstreamsForFamily (endpoints : list string) (ipv6 : bool) : list string :=
  sort_strings (filter (fun e => of_family ipv6 e = true) endpoints).

(** ** Ports and arguments *)

Definition upstreamFlag (p : Protocol) : string :=
  if bool_decide (p = ProtocolUDP) then "udp-upstream" else "upstream".

Definition portName (p : ServicePort) : string :=
  if negb (bool_decide (port_Name p = "")) then port_Name p else "p-" +:+ fmt_d (port_Port p).

Definition endpointKey (p : ServicePort) : string := port_Name p.

Definition appendEndpointArg (args : list string) (listen : string) (endpoints : list string) : list string :=
  if bool_decide (endpoints = []) then args
  else args ++ ["--endpoint=" +:+ listen +:+ "=" +:+ Join endpoints ","].

Definition target_of (p : ServicePort) : string :=
  if bool_decide (port_TargetPort p = "") || bool_decide (port_TargetPort p = "0")
  then fmt_d (port_Port p) else port_TargetPort p.

Definition listen_v4 (p : ServicePort) : string := "0.0.0.0:" +:+ fmt_d (port_Port p).
Definition listen_v6 (p : ServicePort) : string := "[::]:" +:+ fmt_d (port_Port p).

(** The upstream pair and the endpoints of one port in one family. *)
Definition family_args (args : list string) (p : ServicePort) (listen upstream : string)
    (endpoints : ServiceEndpoints) (ipv6 : bool) : list string :=
  appendEndpointArg
    (args ++ ["--" +:+ upstreamFlag (port_protocol p) +:+ "=" +:+ listen +:+ "=" +:+ upstream])
    listen (endpointUpstreamsForFamily (default [] (endpoints !! endpointKey p)) ipv6).

(** The loop of [portsAndArgs]. *)
Fixpoint ports_loop (v4ClusterIP v6ClusterIP : string) (endpoints : ServiceEndpoints)
    (specPorts : list ServicePort) (ports : list ContainerPort) (args : list string)
    : result (list ContainerPort * list string) :=
  match specPorts with
  | [] => OK (ports, args)
  | p :: specPorts' =>
      let protocol := port_protocol p in
      if negb (bool_decide (protocol = ProtocolTCP)) && negb (bool_decide (protocol = ProtocolUDP)) then
        Fail (errorf ("port " +:+ fmt_d (port_Port p) +:+ ": unsupported protocol " +:+ protocol
                        +:+ " (only TCP and UDP)"))
      else
        let target := target_of p in
        let ports := ports ++ [MkContainerPort (portName p) (port_Port p) (port_Port p) protocol] in
        let args :=
          if negb (bool_decide (v4ClusterIP = ""))
          then family_args args p (listen_v4 p) (v4ClusterIP +:+ ":" +:+ target) endpoints false
          else args in
        let args :=
          if negb (bool_decide (v6ClusterIP = ""))
          then family_args args p (listen_v6 p) ("[" +:+ v6ClusterIP +:+ "]:" +:+ target) endpoints true
          else args in
        ports_loop v4ClusterIP v6ClusterIP endpoints specPorts' ports args
  end.

Definition portsAndArgs (svc : Service) (proxyProtocol : string) (endpoints : ServiceEndpoints)
    : result (list ContainerPort * list string) :=
  let '(v4, v6) := splitClusterIPs svc in
  let! (ports, args) := ports_loop v4 v6 endpoints (svc_Ports svc) [] [] in
  OK (ports, if negb (bool_decide (proxyProtocol = "")) then args ++ ["--proxy-protocol=" +:+ proxyProtocol]
             else args).

(** ** Placement *)

Definition toNodeSelectorOperator (op : string) : result string :=
  if bool_decide (op = "In") then OK "In"
  else if bool_decide (op = "NotIn") then OK "NotIn"
  else if bool_decide (op = "Exists") then OK "Exists"
  else if bool_decide (op = "DoesNotExist") then OK "DoesNotExist"
  else Fail (errorf ("unsupported selector operator " +:+ fmt_q op)).

Fixpoint requirements (exprs : list LabelSelectorRequirement) : result (list NodeSelectorRequirement) :=
  match exprs with
  | [] => OK []
  | e :: exprs' =>
      let! op := toNodeSelectorOperator (lsr_Operator e) in
      let! reqs := requirements exprs' in
      OK (MkNodeSelectorRequirement (lsr_Key e) op (lsr_Values e) :: reqs)
  end.

Section selectors.
Context `{LabelSelectors}.

Definition nodePlacement (raw : string) : result (str_map * option (list NodeSelectorRequirement)) :=
  if bool_decide (raw = "") then OK (∅, None)
  else
    let! sel := ParseToLabelSelector raw in
    let nodeSelector := MatchLabels sel in
    if bool_decide (length (MatchExpressions sel) = 0%nat) then OK (nodeSelector, None)
    else
      let! exprs := requirements (MatchExpressions sel) in
      OK (nodeSelector, Some exprs).

(** ** The DaemonSet *)

Definition daemonSetAnnotations (svc : Service) : str_map :=
  if negb (bool_decide (lookup_str (svc_Annotations svc) AnnotationKeepOnUninstall = "true")) then ∅
  else {[ AnnotationKeepOnUninstall := "true" ]}.

Definition DaemonSetName (svc : Service) : string := "bulb-" +:+ svc_Namespace svc +:+ "-" +:+ svc_Name svc.

Definition healthContainerPort : ContainerPort := MkContainerPort probePortName 8081 0 ProtocolTCP.
Definition httpProbe (path : string) : Probe := MkProbe path probePortName 5.
Definition hardenedSecurityContext : SecurityContext :=
  MkSecurityContext false false true true ["ALL"] "RuntimeDefault".

Definition privileged_denied (p : ServicePort) (svc : Service) : error :=
  errorf ("port < 1024 requires bulb.toturi.tech/allow-privileged-port=" +:+ fmt_q "true" +:+ ": port "
            +:+ fmt_d (port_Port p) +:+ " on service " +:+ svc_Namespace svc +:+ "/" +:+ svc_Name svc).

(** The object literal [BuildDaemonSet] returns. *)
Definition daemonset_of (svc : Service) (image namespace : string) (ports : list ContainerPort)
    (args : list string) (nodeSelector : str_map) (nodeAffinity : option (list NodeSelectorRequirement))
    : DaemonSet :=
  MkDaemonSet namespace (DaemonSetName svc) (serviceLabels svc) (daemonSetAnnotations svc)
    (MkDaemonSetSpec (serviceLabels svc) (serviceLabels svc)
      (MkPodSpec false "ClusterFirstWithHostNet" 30 nodeSelector nodeAffinity
        [MkContainer containerName image "IfNotPresent"
           (["proxy"; "--drain-timeout=" +:+ defaultDrainTime;
             "--health-bind-address=" +:+ defaultProbeAddr] ++ args)
           (ports ++ [healthContainerPort]) hardenedSecurityContext
           {[ "cpu" := "10m"; "memory" := "32Mi" ]} {[ "memory" := "128Mi" ]}
           (httpProbe "/healthz") (httpProbe "/readyz")])).

Definition BuildDaemonSet (svc : Service) (image namespace : string) (endpointSet : ServiceEndpoints)
    : result DaemonSet :=
  let '(v4, v6) := splitClusterIPs svc in
  if bool_decide (v4 = "") && bool_decide (v6 = "") then
    Fail (errorf ("service " +:+ svc_Namespace svc +:+ "/" +:+ svc_Name svc +:+ " has no ClusterIP"))
  else if bool_decide (length (svc_Ports svc) = 0%nat) then
    Fail (errorf ("service " +:+ svc_Namespace svc +:+ "/" +:+ svc_Name svc +:+ " has no ports"))
  else
    let allowPrivileged :=
      bool_decide (lookup_str (svc_Annotations svc) AnnotationAllowPrivilegedPort = "true") in
    match find (fun p => (port_Port p <? 1024) && negb allowPrivileged) (svc_Ports svc) with
    | Some p => Fail (privileged_denied p svc)
    | None =>
        let proxyProtocol := lookup_str (svc_Annotations svc) AnnotationProxyProtocol in
        let endpoints :=
          if bool_decide (lookup_str (svc_Annotations svc) AnnotationExternalTrafficPolicy = "Local")
          then endpointSet else ∅ in
        let! (ports, args) := portsAndArgs svc proxyProtocol endpoints in
        let! (nodeSelector, nodeAffinity) :=
          wrap_result ("parse " +:+ AnnotationNodes +:+ ": ")
            (nodePlacement (lookup_str (svc_Annotations svc) AnnotationNodes)) in
        OK (daemonset_of svc image namespace ports args nodeSelector nodeAffinity)
    end.
End selectors.

(** ** Names *)

(** Two Services with one DaemonSet name. *)
Lemma DaemonSetName_collides g1 g2 ann ty class ip ips ports :
  DaemonSetName (MkService "a-b" "c" g1 ann ty class ip ips ports [] []) =
  DaemonSetName (MkService "a" "b-c" g2 ann ty class ip ips ports [] []).
Proof. done. Qed.

(** ** The endpoints of a port *)

Definition upstreams_of (name : string) (out : ServiceEndpoints) : list string := default [] (out !! name).

Lemma upstreams_add name n u out x :
  x ∈ upstreams_of n (add_upstream name u out) <-> x ∈ upstreams_of n out \/ n = name /\ x = u.
Proof.
  unfold add_upstream, upstreams_of. case_bool_decide as Hu.
  - split; [auto|]. by intros [?|[-> ->]].
  - destruct (decide (n = name)) as [->|Hne].
    + rewrite lookup_insert_eq. simpl. rewrite elem_of_app, list_elem_of_singleton. tauto.
    + rewrite lookup_insert_ne by done. tauto.
Qed.

Lemma upstreams_add_NoDup name n u out :
  NoDup (upstreams_of n out) -> NoDup (upstreams_of n (add_upstream name u out)).
Proof.
  unfold add_upstream, upstreams_of. case_bool_decide as Hu; [done|]. intros Hnd.
  destruct (decide (n = name)) as [->|Hne]; [|by rewrite lookup_insert_ne].
  rewrite lookup_insert_eq. simpl. apply NoDup_app. split; [done|].
  split; [by intros x Hx ->%list_elem_of_singleton|apply NoDup_singleton].
Qed.

(** The addresses of one endpoint port, added. *)
Lemma upstreams_addresses name port n addresses out x :
  let out' := foldl (fun out ip => if bool_decide (ip = "") then out
                                   else add_upstream name (JoinHostPort ip port) out) out addresses in
  (NoDup (upstreams_of n out) -> NoDup (upstreams_of n out')) /\
  (x ∈ upstreams_of n out' <-> x ∈ upstreams_of n out \/
     n = name /\ exists ip, ip ∈ addresses /\ ip <> "" /\ x = JoinHostPort ip port).
Proof.
  revert out. induction addresses as [|ip addresses IH]; intros out; simpl.
  { split; [done|]. split; [auto|]. intros [?|(_ & ip & ?%not_elem_of_nil & _)]; done. }
  destruct (IH (if bool_decide (ip = "") then out else add_upstream name (JoinHostPort ip port) out)) as [H1 H2].
  case_bool_decide as Hip.
  - split; [done|]. rewrite H2. setoid_rewrite elem_of_cons. naive_solver.
  - split; [intros Hnd; apply H1; by apply upstreams_add_NoDup|].
    rewrite H2, upstreams_add. setoid_rewrite elem_of_cons. split.
    + intros [[?|[-> ->]]|(-> & ip' & ? & ? & ->)]; eauto 10.
    + intros [?|(-> & ip' & [->|?] & ? & ->)]; eauto 10.
Qed.

(** A port of the endpoints stands for a port of the Service: same name, and the
    same protocol if it gives one. *)
Definition serves (svc : Service) (port : EndpointPort) : Prop :=
  exists protocol, service_protocols svc !! ep_Name port = Some protocol /\
    (ep_Protocol port = "" \/ ep_Protocol port = protocol).

Lemma upstreams_port svc addresses n out port x :
  let out' := add_endpoint_port (service_protocols svc) addresses out port in
  (NoDup (upstreams_of n out) -> NoDup (upstreams_of n out')) /\
  (x ∈ upstreams_of n out' <-> x ∈ upstreams_of n out \/
     serves svc port /\ ep_Name port = n /\
     exists ip, ip ∈ addresses /\ ip <> "" /\ x = JoinHostPort ip (fmt_d (ep_Port port))).
Proof.
  unfold add_endpoint_port, serves. simpl.
  destruct (service_protocols svc !! ep_Name port) as [protocol|]; [|naive_solver].
  destruct (negb _ && _) eqn:Hp.
  - apply andb_true_iff in Hp as [H1%negb_true_iff%bool_decide_eq_false H2%negb_true_iff%bool_decide_eq_false].
    split; [done|]. naive_solver.
  - destruct (upstreams_addresses (ep_Name port) (fmt_d (ep_Port port)) n addresses out x) as [H1 H2].
    split; [exact H1|]. rewrite H2.
    assert (ep_Protocol port = "" \/ ep_Protocol port = protocol).
    { apply andb_false_iff in Hp as [?%negb_false_iff%bool_decide_eq_true|?%negb_false_iff%bool_decide_eq_true]; auto. }
    split; [|naive_solver]. intros [?|(-> & ?)]; eauto 10.
Qed.

Lemma upstreams_subsets svc n subsets out x :
  let out' := foldl (fun out subset =>
      foldl (add_endpoint_port (service_protocols svc) (Addresses subset)) out (ep_Ports subset)) out subsets in
  (NoDup (upstreams_of n out) -> NoDup (upstreams_of n out')) /\
  (x ∈ upstreams_of n out' <-> x ∈ upstreams_of n out \/
     exists subset port ip, subset ∈ subsets /\ port ∈ ep_Ports subset /\ ip ∈ Addresses subset /\
       serves svc port /\ ep_Name port = n /\ ip <> "" /\ x = JoinHostPort ip (fmt_d (ep_Port port))).
Proof.
  assert (forall subset out x,
    let out' := foldl (add_endpoint_port (service_protocols svc) (Addresses subset)) out (ep_Ports subset) in
    (NoDup (upstreams_of n out) -> NoDup (upstreams_of n out')) /\
    (x ∈ upstreams_of n out' <-> x ∈ upstreams_of n out \/
       exists port ip, port ∈ ep_Ports subset /\ ip ∈ Addresses subset /\ serves svc port /\
         ep_Name port = n /\ ip <> "" /\ x = JoinHostPort ip (fmt_d (ep_Port port)))) as Hone.
  { intros subset. induction (ep_Ports subset) as [|port ports IH]; intros out0 y; simpl.
    { split; [done|]. split; [auto|]. intros [?|(p & ip & ?%not_elem_of_nil & _)]; done. }
    destruct (upstreams_port svc (Addresses subset) n out0 port y) as [H1 H2].
    destruct (IH (add_endpoint_port (service_protocols svc) (Addresses subset) out0 port) y) as [H3 H4].
    split; [auto|]. rewrite H4, H2. setoid_rewrite elem_of_cons. split.
    - intros [[?|(? & ? & ip & ?)]|(p & ip & ?)]; naive_solver.
    - intros [?|(p & ip & [->|?] & ?)]; naive_solver. }
  revert out. induction subsets as [|subset subsets IH]; intros out; simpl.
  { split; [done|]. split; [auto|]. intros [?|(s & p & ip & ?%not_elem_of_nil & _)]; done. }
  destruct (Hone subset out x) as [H1 H2].
  destruct (IH (foldl (add_endpoint_port (service_protocols svc) (Addresses subset)) out (ep_Ports subset)))
    as [H3 H4].
  split; [auto|]. rewrite H4, H2. setoid_rewrite elem_of_cons. split.
  - intros [[?|(p & ip & ?)]|(s & p & ip & ? & ?)]; naive_solver.
  - intros [?|(s & p & ip & [->|?] & ?)]; naive_solver.
Qed.

Lemma endpointsByServicePort_spec eps svc name :
  let out := upstreams_of name (endpointsByServicePort eps svc) in
  StronglySorted String.le out /\ NoDup out /\
  forall x, x ∈ out <-> exists subset port ip,
    subset ∈ Subsets eps /\ port ∈ ep_Ports subset /\ ip ∈ Addresses subset /\
    serves svc port /\ ep_Name port = name /\ ip <> "" /\ x = JoinHostPort ip (fmt_d (ep_Port port)).
Proof.
  unfold upstreams_of at 1, endpointsByServicePort. rewrite lookup_fmap.
  set (m := foldl _ _ _).
  assert (default [] (sort_strings <$> m !! name) = sort_strings (upstreams_of name m)) as Heq.
  { unfold upstreams_of. by destruct (m !! name). }
  unfold fmap in Heq. unfold fmap. rewrite Heq. split_and!.
  - apply sort_strings_sorted.
  - rewrite sort_strings_perm. apply (upstreams_subsets svc name (Subsets eps) ∅ ""). constructor.
  - intros x. rewrite elem_of_sort_strings. unfold m.
    destruct (upstreams_subsets svc name (Subsets eps) ∅ x) as [_ ->].
    split; [|auto]. intros [?%not_elem_of_nil|?]; done.
Qed.

(** Under externalTrafficPolicy=Local a port is given exactly the addresses of the
    ready endpoints behind it, each with the port the endpoints name, sorted and
    once each: an endpoint port counts when its name is that of the Service port
    and its protocol, if given, is the one of the Service port. *)
Theorem endpointsByServicePort_correct (eps : Endpoints) (svc : Service) (name : string) :
  let out := upstreams_of name (endpointsByServicePort eps svc) in
  StronglySorted String.le out /\ NoDup out /\
  forall x, x ∈ out <-> exists subset port ip,
    subset ∈ Subsets eps /\ port ∈ ep_Ports subset /\ ip ∈ Addresses subset /\
    serves svc port /\ ep_Name port = name /\ ip <> "" /\ x = JoinHostPort ip (fmt_d (ep_Port port)).
Proof. apply endpointsByServicePort_spec. Qed.
