(* ===== verification/ProxyContract.v ===== *)
(** * ProxyContract: the arguments the controller writes and the rules the proxy reads

    The controller and the proxy meet in the arguments of the DaemonSet's
    container: internal/controller/daemonset.go writes them, [Run] of
    internal/proxy/proxy.go reads them. This file proves what the proxy makes of
    what the controller wrote. *)
From S2P Require Import Prelude GoStrings Effects GoNet ProxyFlags ProxyServe ProxyArgs ApiTypes FwPorts Kube KubeApply LBPorts DaemonSets.
From Stdlib Require Import Ascii.
Open Scope Z_scope.

(** A forwarding rule before it is written down: one per port and address family. *)
Record Leg := MkLeg {
  leg_protocol : Protocol;
  leg_listen : string;
  leg_upstream : string;
  leg_endpoints : list string
}.

Definition legs_of (v4 v6 : string) (eps : ServiceEndpoints) (p : ServicePort) : list Leg :=
  let endpoints := endpointUpstreamsForFamily (default [] (eps !! endpointKey p)) in
  (if bool_decide (v4 = "") then []
   else [MkLeg (port_protocol p) (listen_v4 p) (v4 +:+ ":" +:+ target_of p) (endpoints false)]) ++
  (if bool_decide (v6 = "") then []
   else [MkLeg (port_protocol p) (listen_v6 p) ("[" +:+ v6 +:+ "]:" +:+ target_of p) (endpoints true)]).

Definition leg_pair (l : Leg) : string := leg_listen l +:+ "=" +:+ leg_upstream l.
Definition leg_endpoint_pair (l : Leg) : string := leg_listen l +:+ "=" +:+ Join (leg_endpoints l) ",".
Definition is_udp_leg (l : Leg) : bool := bool_decide (leg_protocol l = ProtocolUDP).

Definition leg_args (l : Leg) : list Arg :=
  (if is_udp_leg l then UDPArg (leg_pair l) else TCPArg (leg_pair l)) ::
  (if bool_decide (leg_endpoints l = []) then [] else [EndpointArg (leg_endpoint_pair l)]).

(** ** What the controller writes *)

Lemma family_args_render args p listen upstream eps ipv6 :
  family_args args p listen upstream eps ipv6 =
  args ++ (render <$> leg_args (MkLeg (port_protocol p) listen upstream
    (endpointUpstreamsForFamily (default [] (eps !! endpointKey p)) ipv6))).
Proof.
  unfold family_args, appendEndpointArg, leg_args, is_udp_leg, upstreamFlag, leg_pair, leg_endpoint_pair. simpl.
  repeat case_bool_decide; simpl; rewrite <-?app_assoc; done.
Qed.

Lemma ports_loop_legs v4 v6 eps ps ports args ports' args' :
  ports_loop v4 v6 eps ps ports args = OK (ports', args') ->
  args' = args ++ (render <$> ((ps ≫= legs_of v4 v6 eps) ≫= leg_args)) /\
  Forall (fun p => port_protocol p = ProtocolTCP \/ port_protocol p = ProtocolUDP) ps.
Proof.
  revert ports args. induction ps as [|p ps IH]; intros ports args; cbn [ports_loop].
  { intros [= <- <-]. simpl. by rewrite app_nil_r. }
  destruct (negb _ && _) eqn:Hproto; [done|]. intros [-> Hps]%IH. split.
  - rewrite bind_cons, bind_app, fmap_app, app_assoc. f_equal. unfold legs_of.
    repeat case_bool_decide; simpl negb; cbv iota; rewrite ?family_args_render; simpl;
      rewrite ?app_nil_r, ?fmap_app, <-?app_assoc; done.
  - constructor; [|done].
    apply andb_false_iff in Hproto as [?%negb_false_iff%bool_decide_eq_true|?%negb_false_iff%bool_decide_eq_true]; auto.
Qed.

Lemma omap_bind {A B C} (f : A -> list B) (g : B -> option C) (l : list A) :
  omap g (l ≫= f) = l ≫= (fun x => omap g (f x)).
Proof. induction l as [|x l IH]; [done|]. by rewrite !bind_cons, omap_app, IH. Qed.

Lemma bind_filter {A B} (P : A -> bool) (f : A -> B) (l : list A) :
  l ≫= (fun x => if P x then [f x] else []) = f <$> filter (fun x => P x = true) l.
Proof.
  induction l as [|x l IH]; [done|]. rewrite bind_cons, IH. destruct (P x) eqn:Hp.
  - by rewrite filter_cons_True.
  - by rewrite filter_cons_False by congruence.
Qed.

(** The values of each flag, from the arguments of the legs. *)
Lemma leg_values (legs : list Leg) :
  omap tcp_value (legs ≫= leg_args) = leg_pair <$> filter (fun l => negb (is_udp_leg l) = true) legs /\
  omap udp_value (legs ≫= leg_args) = leg_pair <$> filter (fun l => is_udp_leg l = true) legs /\
  omap endpoint_value (legs ≫= leg_args) =
    leg_endpoint_pair <$> filter (fun l => negb (bool_decide (leg_endpoints l = [])) = true) legs.
Proof.
  rewrite !omap_bind, <-!bind_filter. split_and!; apply list_bind_ext; try done; intros l.
  all: unfold leg_args; destruct (is_udp_leg l); case_bool_decide; done.
Qed.

(** ** What the proxy reads *)

(** An endpoint that survives being written into a list and read back. *)
Definition good_endpoint (e : string) : Prop :=
  e <> "" /\ no_space e /\ no_char "," e /\ hostport e.

(** A leg whose parts can be told apart again. *)
Definition good_leg (l : Leg) : Prop :=
  no_char "=" (leg_listen l) /\ leg_listen l <> "" /\ leg_upstream l <> "" /\
  hostport (leg_listen l) /\ hostport (leg_upstream l) /\ Forall good_endpoint (leg_endpoints l).

Lemma good_leg_pair l : good_leg l -> is_pair (leg_pair l) (leg_listen l) (leg_upstream l).
Proof. intros (? & ? & ? & ? & ? & _). by split_and!. Qed.

Lemma endpoint_parts_Join es : es <> [] -> Forall good_endpoint es -> endpoint_parts (Join es ",") = es.
Proof.
  intros Hne Hes. unfold endpoint_parts. change "," with (String "," "") at 1.
  rewrite Split_Join by (first [done | eapply Forall_impl; [exact Hes|]; by intros e (_ & _ & ? & _)]).
  clear Hne. induction Hes as [|e es (Hne & Hsp & _) Hes IH]; [done|].
  rewrite fmap_cons, TrimSpace_no_space by done. by rewrite filter_cons_True, IH.
Qed.

Lemma good_endpoint_pair l : good_leg l -> leg_endpoints l <> [] ->
  is_endpoint_pair (leg_endpoint_pair l) (leg_listen l) (leg_endpoints l).
Proof.
  intros (H1 & H2 & _ & H3 & _ & Hes) Hne. exists (Join (leg_endpoints l) ",").
  split_and!; try done; [by rewrite endpoint_parts_Join|].
  eapply Forall_impl; [exact Hes|]. by intros e (_ & _ & _ & ?).
Qed.

Lemma filter_fmap {A B} (f : A -> B) (P : B -> Prop) `{forall x, Decision (P x)} (l : list A) :
  filter P (f <$> l) = f <$> filter (fun x => P (f x)) l.
Proof.
  induction l as [|x l IH]; [done|]. rewrite fmap_cons, !filter_cons, IH. by case_decide.
Qed.

(** The endpoints of a listen address: those of the last leg on it that has any. *)
Definition listener_endpoints (legs : list Leg) (listen : string) : list string :=
  default [] (leg_endpoints <$> last (filter (fun l => leg_listen l = listen /\ leg_endpoints l <> []) legs)).

(** The legs as the proxy takes them: it keeps one list of endpoints per listen address. *)
Definition share_leg (legs : list Leg) (l : Leg) : Leg :=
  MkLeg (leg_protocol l) (leg_listen l) (leg_upstream l) (listener_endpoints legs (leg_listen l)).
Definition share (legs : list Leg) : list Leg := share_leg legs <$> legs.

Lemma last_endpoints_legs legs listen :
  default [] (last_endpoints ((fun l => (leg_listen l, leg_endpoints l)) <$>
    filter (fun l => negb (bool_decide (leg_endpoints l = [])) = true) legs) listen) = listener_endpoints legs listen.
Proof.
  unfold last_endpoints, listener_endpoints. rewrite filter_fmap, fmap_last, list_filter_filter.
  rewrite (list_filter_iff _ (fun l => leg_listen l = listen /\ leg_endpoints l <> [])).
  - by destruct (last _).
  - intros l. simpl. by rewrite negb_true_iff, bool_decide_eq_false.
Qed.

(** A listener that no two legs share. *)
Lemma listener_endpoints_own legs l : NoDup (leg_listen <$> legs) -> l ∈ legs ->
  listener_endpoints legs (leg_listen l) = leg_endpoints l.
Proof.
  intros Hnd Hl. unfold listener_endpoints.
  assert (forall l', l' ∈ legs -> leg_listen l' = leg_listen l -> l' = l) as Hinj.
  { clear -Hnd Hl. induction legs as [|x legs IH]; [by apply not_elem_of_nil in Hl|].
    rewrite fmap_cons, NoDup_cons in Hnd. destruct Hnd as [Hx Hnd].
    apply elem_of_cons in Hl as [->|Hl]; intros l' [->|Hl']%elem_of_cons Heq; try done.
    - destruct Hx. rewrite <-Heq. by apply list_elem_of_fmap_2.
    - destruct Hx. rewrite Heq. by apply list_elem_of_fmap_2.
    - by apply IH. }
  destruct (last _) as [l'|] eqn:Hlast.
  - apply last_Some_elem_of, list_elem_of_filter in Hlast as [[Heq _] Hl']. by rewrite (Hinj l').
  - apply last_None in Hlast. simpl. destruct (leg_endpoints l) eqn:He; [done|]. exfalso.
    apply (not_elem_of_nil (A := Leg) l). rewrite <-Hlast. apply list_elem_of_filter. by rewrite He.
Qed.

Lemma share_own legs : NoDup (leg_listen <$> legs) -> share legs = legs.
Proof.
  intros Hnd. unfold share. rewrite <-(list_fmap_id legs) at 3. apply list_fmap_ext. intros i l Hl.
  unfold share_leg. rewrite listener_endpoints_own; [by destruct l|done|]. by eapply list_elem_of_lookup_2.
Qed.

(** The rule a leg becomes. *)
Definition leg_spec (version : string) (l : Leg) : Spec :=
  MkSpec (leg_listen l) (leg_upstream l) (if is_udp_leg l then ProxyFlags.ProtocolUDP else ProxyFlags.ProtocolTCP)
    version (leg_endpoints l).

Definition legs_specs (version : string) (legs : list Leg) : list Spec :=
  (leg_spec version <$> filter (fun l => negb (is_udp_leg l) = true) legs) ++
  (leg_spec version <$> filter (fun l => is_udp_leg l = true) legs).

(** The flag values of a list of legs. *)
Definition flags_of (version : string) (legs : list Leg) : ProxyFlags :=
  MkProxyFlags (omap tcp_value (legs ≫= leg_args)) (omap udp_value (legs ≫= leg_args)) version
    (omap endpoint_value (legs ≫= leg_args)).

Lemma Forall2_filter_fmap {A B C} (R : B -> C -> Prop) (P : A -> Prop) `{forall x, Decision (P x)}
    (f : A -> B) (g : A -> C) (l : list A) :
  (forall x, x ∈ l -> P x -> R (f x) (g x)) -> Forall2 R (f <$> filter P l) (g <$> filter P l).
Proof.
  intros Hl. apply Forall2_fmap_2, Forall_Forall2_diag, Forall_forall.
  intros x [HP Hx]%list_elem_of_filter. by apply Hl.
Qed.

(** The rules of the shared legs, from the legs. *)
Lemma legs_specs_share version legs :
  legs_specs version (share legs) =
  (leg_spec version ∘ share_leg legs <$> filter (fun l => negb (is_udp_leg l) = true) legs) ++
  (leg_spec version ∘ share_leg legs <$> filter (fun l => is_udp_leg l = true) legs).
Proof. unfold legs_specs, share. by rewrite !filter_fmap, <-!list_fmap_compose. Qed.

Lemma Run_specs_legs version legs : legs <> [] -> Forall good_leg legs ->
  version = "" \/ version = "1" \/ version = "2" ->
  Run_specs (flags_of version legs) = OK (legs_specs version (share legs)).
Proof.
  intros Hne Hgood Hv. apply Run_specs_iff. rewrite Forall_forall in Hgood. rewrite legs_specs_share.
  destruct (leg_values legs) as (Ht & Hu & He). unfold flags_of. simpl. rewrite Ht, Hu, He. split.
  { destruct legs as [|l legs]; [done|]. destruct (is_udp_leg l) eqn:Hl.
    - right. by rewrite filter_cons_True.
    - left. by rewrite filter_cons_True by by rewrite Hl. }
  split; [done|].
  eexists ((fun l => (leg_listen l, leg_endpoints l)) <$>
    filter (fun l => negb (bool_decide (leg_endpoints l = [])) = true) legs), _, _.
  split; [|split; [|split; [|reflexivity]]].
  - apply Forall2_filter_fmap. intros l Hl Hn. apply good_endpoint_pair; [by apply Hgood|].
    by apply negb_true_iff, bool_decide_eq_false in Hn.
  - apply Forall2_filter_fmap. intros l Hl Hn. exists (leg_listen l), (leg_upstream l).
    split; [by apply good_leg_pair, Hgood|]. rewrite last_endpoints_legs.
    unfold leg_spec, compose, is_udp_leg in *. simpl. by apply negb_true_iff in Hn as ->.
  - apply Forall2_filter_fmap. intros l Hl Hn. exists (leg_listen l), (leg_upstream l).
    split; [by apply good_leg_pair, Hgood|]. rewrite last_endpoints_legs.
    unfold leg_spec, compose, is_udp_leg in *. simpl. by rewrite Hn.
Qed.

Lemma Run_specs_bad_version version legs : ~ (version = "" \/ version = "1" \/ version = "2") ->
  exists e, Run_specs (flags_of version legs) = Fail e.
Proof.
  intros Hv. destruct (Run_specs (flags_of version legs)) as [specs|e] eqn:Hr; [|by exists e].
  apply Run_specs_iff in Hr as (_ & ? & _). done.
Qed.

(** ** The legs of a Service *)

Lemma ip_no_char c s : ip_char c = false -> forallb_string ip_char s = true -> no_char c s.
Proof.
  intros Hc. apply forallb_string_impl. intros d Hd.
  destruct (Ascii.eqb_spec d c) as [->|]; [congruence|done].
Qed.

Lemma ip_no_space s : forallb_string ip_char s = true -> no_space s.
Proof. apply forallb_string_impl. by intros [[] [] [] [] [] [] [] []]. Qed.

Lemma ip_plain s : forallb_string ip_char s = true -> plain s.
Proof. intros H. split; by apply ip_no_char. Qed.

Lemma split_ips_parse candidates v4 v6 :
  (v4 = "" \/ exists ip, ParseIP v4 = Some ip) -> (v6 = "" \/ exists ip, ParseIP v6 = Some ip) ->
  let r := split_ips candidates v4 v6 in
  (r.1 = "" \/ exists ip, ParseIP r.1 = Some ip) /\ (r.2 = "" \/ exists ip, ParseIP r.2 = Some ip).
Proof.
  revert v4 v6. induction candidates as [|raw candidates IH]; intros v4 v6 H4 H6; [done|].
  cbn [split_ips]. destruct (_ || _); [by apply IH|].
  destruct (ParseIP raw) as [ip|] eqn:Hip; [|by apply IH].
  destruct (To4 ip); apply IH; try done; case_bool_decide; eauto.
Qed.

Lemma splitClusterIPs_chars svc :
  forallb_string ip_char (splitClusterIPs svc).1 = true /\ forallb_string ip_char (splitClusterIPs svc).2 = true.
Proof.
  unfold splitClusterIPs.
  destruct (split_ips_parse (if bool_decide (svc_ClusterIPs svc = []) && negb (bool_decide (svc_ClusterIP svc = ""))
    then [svc_ClusterIP svc] else svc_ClusterIPs svc) "" "") as [[->|[ip H4]] [->|[ip' H6]]]; [auto..|].
  all: try apply ParseIP_chars in H4; try apply ParseIP_chars in H6; done.
Qed.

(** A target port is a number or the name of a port. *)
Definition port_ok (p : ServicePort) : Prop :=
  0 <= port_Port p /\ no_char colon (target_of p) /\ plain (target_of p).

(** Endpoints as the API server stores them: addresses without brackets, ports that
    are not negative. *)
Definition endpoints_ok (eps : Endpoints) : Prop :=
  Forall (fun s => Forall plain (Addresses s) /\ Forall (fun p => 0 <= ep_Port p) (ep_Ports s)) (Subsets eps).

Lemma trim_left_by_id p c s : p c = false -> trim_left_by p (String c s) = String c s.
Proof. simpl. by intros ->. Qed.

Lemma trim_right_by_id p s : forallb_string (fun c => negb (p c)) s = true -> trim_right_by p s = s.
Proof.
  induction s as [|c s IH]; [done|]. simpl. rewrite andb_true_iff, negb_true_iff. intros [Hc Hs].
  rewrite IH by done. destruct s; [by rewrite Hc|done].
Qed.

Lemma Trim_id p s : forallb_string (fun c => negb (p c)) s = true -> Trim p s = s.
Proof.
  intros Hs. unfold Trim. destruct s as [|c s]; [done|]. rewrite trim_left_by_id.
  - by apply trim_right_by_id.
  - simpl in Hs. rewrite andb_true_iff, negb_true_iff in Hs. by destruct Hs.
Qed.

Lemma plain_trim s : plain s -> Trim is_bracket s = s.
Proof.
  intros [Hl Hr]. apply Trim_id. unfold no_char in *. induction s as [|c s IH]; [done|].
  simpl in *. apply andb_true_iff in Hl as [Hl1 Hl2], Hr as [Hr1 Hr2].
  rewrite IH by done. rewrite negb_true_iff in *. unfold is_bracket. by rewrite Hl1, Hr1.
Qed.

Lemma digits_plain n : 0 <= n -> no_char colon (fmt_d n) /\ plain (fmt_d n).
Proof. intros Hn. pose proof (fmt_d_digits n Hn). split; [|split]; by apply digits_no_char. Qed.

Lemma good_JoinHostPort ip n ipv6 : plain ip -> ip <> "" -> 0 <= n ->
  of_family ipv6 (JoinHostPort ip (fmt_d n)) = true -> good_endpoint (JoinHostPort ip (fmt_d n)).
Proof.
  intros Hip Hne Hn. destruct (digits_plain n Hn) as [Hc Hp]. pose proof (fmt_d_digits n Hn) as Hd.
  unfold of_family. rewrite SplitHostPort_JoinHostPort, plain_trim by done.
  destruct (ParseIP ip) as [a|] eqn:Hparse; [|done]. intros _. apply ParseIP_chars in Hparse.
  split_and!.
  - unfold JoinHostPort. by destruct (has_byte colon ip), ip.
  - unfold JoinHostPort. destruct (has_byte colon ip); rewrite !no_space_app;
      split_and!; try done; first [by apply ip_no_space|by apply digits_no_space].
  - unfold JoinHostPort. destruct (has_byte colon ip); rewrite !no_char_app;
      split_and!; try done; first [by apply ip_no_char|by apply digits_no_char].
  - exists ip, (fmt_d n). by apply SplitHostPort_JoinHostPort.
Qed.

Lemma good_endpoints eps svc name ipv6 : endpoints_ok eps ->
  Forall good_endpoint
    (endpointUpstreamsForFamily (default [] (endpointsByServicePort eps svc !! name)) ipv6).
Proof.
  intros Hok. apply Forall_forall. intros x [Hf Hx]%elem_of_sort_strings%list_elem_of_filter.
  apply endpointsByServicePort_spec in Hx as (s & p & ip & Hs & Hp & Hip & _ & _ & Hne & ->).
  unfold endpoints_ok in Hok. rewrite Forall_forall in Hok. destruct (Hok s Hs) as [Ha Hports].
  eapply good_JoinHostPort; [| | |exact Hf]; [|done|].
  - by eapply (proj1 (Forall_forall _ _) Ha).
  - by eapply (proj1 (Forall_forall _ _) Hports).
Qed.

Definition endpoints_good (E : ServiceEndpoints) : Prop :=
  forall name ipv6, Forall good_endpoint (endpointUpstreamsForFamily (default [] (E !! name)) ipv6).

Lemma listen_hostport p : 0 <= port_Port p -> hostport (listen_v4 p) /\ hostport (listen_v6 p).
Proof.
  intros Hp. destruct (digits_plain _ Hp). split.
  - exists "0.0.0.0", (fmt_d (port_Port p)). by apply (SplitHostPort_bare "0.0.0.0").
  - exists "::", (fmt_d (port_Port p)). by apply (SplitHostPort_bracketed "::").
Qed.

Lemma good_legs v4 v6 E p : endpoints_good E -> port_ok p -> no_char colon v4 ->
  forallb_string ip_char v4 = true -> forallb_string ip_char v6 = true ->
  Forall good_leg (legs_of v4 v6 E p).
Proof.
  intros HE (Hp & Htc & Htp) Hc H4 H6. destruct (listen_hostport p Hp) as [Hl4 Hl6].
  pose proof (fmt_d_digits _ Hp) as Hd.
  assert (no_char "=" (fmt_d (port_Port p))) as Heq by by apply digits_no_char.
  unfold legs_of. apply Forall_app. split; case_bool_decide; try done; apply Forall_singleton; unfold good_leg; simpl.
  - split; [by apply no_char_app|]. split; [done|]. split; [by destruct v4|]. split; [done|].
    split; [|apply HE]. exists v4, (target_of p). by apply SplitHostPort_bare; [..|apply ip_plain|].
  - split; [by apply no_char_app|]. split; [done|]. split; [done|]. split; [done|].
    split; [|apply HE]. exists v6, (target_of p). by apply SplitHostPort_bracketed; [apply ip_plain|..].
Qed.

Lemma listen_v4_inj p q : listen_v4 p = listen_v4 q -> port_Port p = port_Port q.
Proof. intros H. apply app_string_inj_l in H. by apply (inj pretty) in H. Qed.

Lemma listen_v6_inj p q : listen_v6 p = listen_v6 q -> port_Port p = port_Port q.
Proof. intros H. apply app_string_inj_l in H. by apply (inj pretty) in H. Qed.

Lemma legs_listen v4 v6 E q ls : ls ∈ leg_listen <$> legs_of v4 v6 E q -> ls = listen_v4 q \/ ls = listen_v6 q.
Proof.
  unfold legs_of. rewrite fmap_app, elem_of_app.
  repeat case_bool_decide; simpl; rewrite ?list_elem_of_singleton, ?elem_of_nil; tauto.
Qed.

Lemma listens_distinct v4 v6 E ps : NoDup (port_Port <$> ps) ->
  NoDup (leg_listen <$> (ps ≫= legs_of v4 v6 E)).
Proof.
  pose proof (fun q ls => legs_listen v4 v6 E q ls) as Hin.
  induction ps as [|p ps IH]; [constructor|]. rewrite fmap_cons, NoDup_cons. intros [Hp Hnd].
  rewrite bind_cons, fmap_app, NoDup_app. split_and!; [| |by apply IH].
  - unfold legs_of. rewrite fmap_app. repeat case_bool_decide; simpl;
      first [apply NoDup_nil_2 | apply NoDup_singleton
            | apply NoDup_cons; split; [by intros ?%list_elem_of_singleton|apply NoDup_singleton]].
  - intros ls Hls%Hin (l & -> & (q & Hl & Hq)%list_elem_of_bind)%list_elem_of_fmap.
    apply Hp. apply list_elem_of_fmap. exists q. split; [|done].
    apply (list_elem_of_fmap_2 leg_listen), Hin in Hl.
    destruct Hls as [H1|H1], Hl as [H2|H2]; rewrite H1 in H2; auto using listen_v4_inj, listen_v6_inj; done.
Qed.

(** ** The contract *)

(** The endpoints that end up in the arguments. *)
Definition local_endpoints (svc : Service) (eps : Endpoints) : ServiceEndpoints :=
  if bool_decide (lookup_str (svc_Annotations svc) AnnotationExternalTrafficPolicy = "Local")
  then endpointsByServicePort eps svc else ∅.

(** The rules of the proxy: for each TCP and then each UDP port in order, one per
    address family of the Service, from the port on all addresses of the family to
    the ClusterIP, and the endpoints of the family. *)
Definition service_legs (svc : Service) (eps : Endpoints) : list Leg :=
  svc_Ports svc ≫= legs_of (splitClusterIPs svc).1 (splitClusterIPs svc).2 (local_endpoints svc eps).

Definition container_args (ds : DaemonSet) : list (list string) :=
  ctr_Args <$> Containers (ds_PodSpec (ds_Spec ds)).

Lemma built_args `{LabelSelectors} svc image ns E ds : BuildDaemonSet svc image ns E = OK ds ->
  let E' := if bool_decide (lookup_str (svc_Annotations svc) AnnotationExternalTrafficPolicy = "Local")
            then E else ∅ in
  let pp := lookup_str (svc_Annotations svc) AnnotationProxyProtocol in
  let legs := svc_Ports svc ≫= legs_of (splitClusterIPs svc).1 (splitClusterIPs svc).2 E' in
  container_args ds = [["proxy"; "--drain-timeout=30s"; "--health-bind-address=:8081"] ++
    (render <$> (legs ≫= leg_args)) ++
    (if bool_decide (pp = "") then [] else ["--proxy-protocol=" +:+ pp])] /\
  legs <> [] /\ Forall (fun p => 1024 <= port_Port p \/
    lookup_str (svc_Annotations svc) AnnotationAllowPrivilegedPort = "true") (svc_Ports svc).
Proof.
  intros Hb E' pp legs. subst legs. unfold BuildDaemonSet, portsAndArgs in Hb. fold E' pp in Hb. clearbody E' pp.
  destruct (splitClusterIPs svc) as [v4 v6]. simpl in Hb |- *.
  destruct (bool_decide (v4 = "") && bool_decide (v6 = "")) eqn:Hips; [done|].
  destruct (bool_decide (length (svc_Ports svc) = 0%nat)) eqn:Hports; [done|].
  destruct (find _ _) as [p|] eqn:Hpriv; [done|].
  apply bind_result_ok in Hb as ([ports args] & Hargs & Hds). apply bind_result_ok in Hds as ([sel aff] & _ & [= <-]).
  apply bind_result_ok in Hargs as ([ports' args'] & [-> _]%ports_loop_legs & [= <- <-]).
  unfold container_args, daemonset_of. simpl. split_and!.
  - destruct (bool_decide (pp = "")); simpl; rewrite ?app_nil_r; reflexivity.
  - apply bool_decide_eq_false in Hports. destruct (svc_Ports svc) as [|p ps]; [done|]. rewrite bind_cons. intros [Hnil _]%app_nil.
    unfold legs_of in Hnil. apply andb_false_iff in Hips as [H1|H1]; rewrite H1 in Hnil; apply app_nil in Hnil as [? ?]; done.
  - apply Forall_forall. intros p Hp. pose proof (find_none _ _ Hpriv p) as Hnone.
    rewrite list_elem_of_In in Hp. specialize (Hnone Hp). simpl in Hnone.
    apply andb_false_iff in Hnone as [?%Z.ltb_ge|?%negb_false_iff%bool_decide_eq_true]; auto.
Qed.

Lemma good_local_endpoints svc eps : endpoints_ok eps -> endpoints_good (local_endpoints svc eps).
Proof.
  intros Hok name ipv6. unfold local_endpoints. case_bool_decide; [by apply good_endpoints|].
  by rewrite lookup_empty.
Qed.

Lemma daemonset_runs `{LabelSelectors} (svc : Service) (image ns : string) (eps : Endpoints) (ds : DaemonSet)
    (Hbuild : BuildDaemonSet svc image ns (endpointsByServicePort eps svc) = OK ds)
    (Hports : Forall port_ok (svc_Ports svc))
    (Hv4 : no_char colon (splitClusterIPs svc).1) (Heps : endpoints_ok eps) :
  let pp := lookup_str (svc_Annotations svc) AnnotationProxyProtocol in
  exists args, container_args ds = ["proxy" :: args] /\
    (pp = "" \/ pp = "1" \/ pp = "2" ->
       Run args =
         OK (legs_specs pp (share (service_legs svc eps)), MkServeOptions (30 * second) (30 * second) ":8081" 250000000)) /\
    (~ (pp = "" \/ pp = "1" \/ pp = "2") -> exists e, Run args = Fail e).
Proof.
  intros pp. destruct (built_args _ _ _ _ _ Hbuild) as (Hargs & Hlegs & _).
  exists (["--drain-timeout=30s"; "--health-bind-address=:8081"] ++
    (render <$> (service_legs svc eps ≫= leg_args)) ++
    (if bool_decide (pp = "") then [] else ["--proxy-protocol=" +:+ pp])). split; [exact Hargs|].
  fold (local_endpoints svc eps) in Hlegs. fold (service_legs svc eps) in Hlegs.
  set (legs := service_legs svc eps) in *. clearbody pp.
  assert (parse_proxy_flags (["--drain-timeout=30s"; "--health-bind-address=:8081"] ++
      (render <$> (legs ≫= leg_args)) ++ (if bool_decide (pp = "") then [] else ["--proxy-protocol=" +:+ pp]))
      default_config =
    OK (MkProxyConfig (flags_of pp legs) (MkServeOptions (30 * second) (30 * second) ":8081" 250000000))) as Hparse.
  { clearbody legs. set (opts := MkServeOptions _ _ _ _).
    assert (forall rest, parse_proxy_flags (["--drain-timeout=30s"; "--health-bind-address=:8081"] ++ rest) default_config =
      parse_proxy_flags rest (MkProxyConfig (MkProxyFlags [] [] "" []) opts)) as ->
      by by (intros rest; simpl; do 2 f_equal; vm_compute).
    rewrite parse_rendered. destruct (bool_decide_reflect (pp = "")) as [->|Hpp]; [done|].
    by rewrite parse_proxy_protocol. }
  unfold Run. rewrite Hparse. simpl. split.
  - intros Hv. rewrite Run_specs_legs; [done|done| |done].
    + apply Forall_forall. intros l (p & Hl & Hp)%list_elem_of_bind.
      destruct (splitClusterIPs_chars svc) as [H4 H6]. rewrite Forall_forall in Hports.
      assert (endpoints_good (local_endpoints svc eps)) as HE.
      { by apply good_local_endpoints. }
      pose proof (good_legs _ _ _ p HE (Hports p Hp) Hv4 H4 H6) as Hg.
      rewrite Forall_forall in Hg. by apply Hg.
  - intros Hv. destruct (Run_specs_bad_version pp legs Hv) as [e ->]. by exists e.
Qed.

Lemma service_legs_share svc eps : NoDup (port_Port <$> svc_Ports svc) ->
  share (service_legs svc eps) = service_legs svc eps.
Proof. intros Hnd. by apply share_own, listens_distinct. Qed.

(** C9: The proxy reads what the controller wrote. Whenever a DaemonSet is built for a
    Service, whose port numbers, target ports, IPv4 address and endpoint addresses have the
    form the API server requires, its one container runs the proxy subcommand, and what the
    proxy does with the arguments is known exactly. With a proxy-protocol annotation other
    than 1 or 2 it refuses to start. Otherwise it accepts them and recovers the forwarding
    rules of the Service: every port, in every address family of the Service, its ClusterIP
    and target port, and the ready endpoints of that port and family when traffic is to stay
    local; except that rules on the same listen address share one list of endpoints, the
    last one given, which makes no difference if no port number occurs twice. *)
Theorem daemonset_proxy_serves `{LabelSelectors} (svc : Service) (image ns : string) (eps : Endpoints) (ds : DaemonSet)
    (Hbuild : BuildDaemonSet svc image ns (endpointsByServicePort eps svc) = OK ds)
    (Hports : Forall port_ok (svc_Ports svc))
    (Hv4 : no_char colon (splitClusterIPs svc).1) (Heps : endpoints_ok eps) :
  let pp := lookup_str (svc_Annotations svc) AnnotationProxyProtocol in
  exists args, container_args ds = ["proxy" :: args] /\
    (pp = "" \/ pp = "1" \/ pp = "2" ->
       Run args =
         OK (legs_specs pp (share (service_legs svc eps)), MkServeOptions (30 * second) (30 * second) ":8081" 250000000)) /\
    (NoDup (port_Port <$> svc_Ports svc) -> share (service_legs svc eps) = service_legs svc eps) /\
    (~ (pp = "" \/ pp = "1" \/ pp = "2") -> exists e, Run args = Fail e).
Proof.
  intros pp. destruct (daemonset_runs svc image ns eps ds Hbuild Hports Hv4 Heps) as (args & H1 & H2 & H3).
  exists args. split_and!; [done|done|apply service_legs_share|done].
Qed.

(** A dual-stack Service with local traffic. *)
Definition sample_dual : Service :=
  MkService "demo" "web" 1 {[ AnnotationExternalTrafficPolicy := "Local"; AnnotationAllowPrivilegedPort := "true" ]}
    "LoadBalancer" None "10.96.0.1" ["10.96.0.1"; "fd00::1"]
    [MkServicePort "https" "TCP" 443 "8443"; MkServicePort "quic" "UDP" 8444 "quic"] [] [].
Definition sample_endpoints : Endpoints :=
  MkEndpoints "demo" "web"
    [MkEndpointSubset ["10.1.0.2"; "10.1.0.1"; "fd01::1"] [MkEndpointPort "https" "TCP" 8443]].

Example sample_rules :
  legs_specs "" (service_legs sample_dual sample_endpoints) =
    [MkSpec "0.0.0.0:443" "10.96.0.1:8443" "tcp" "" ["10.1.0.1:8443"; "10.1.0.2:8443"];
     MkSpec "[::]:443" "[fd00::1]:8443" "tcp" "" ["[fd01::1]:8443"];
     MkSpec "0.0.0.0:8444" "10.96.0.1:quic" "udp" "" [];
     MkSpec "[::]:8444" "[fd00::1]:quic" "udp" "" []].
Proof. vm_compute. reflexivity. Qed.

Lemma sample_dual_ok :
  Forall port_ok (svc_Ports sample_dual) /\ NoDup (port_Port <$> svc_Ports sample_dual) /\
  no_char colon (splitClusterIPs sample_dual).1 /\ endpoints_ok sample_endpoints.
Proof.
  split; [|split; [|split]].
  - repeat constructor; simpl; lia || (vm_compute; reflexivity).
  - apply (bool_decide_unpack _). vm_compute. exact I.
  - vm_compute. reflexivity.
  - repeat constructor; simpl; lia || (vm_compute; reflexivity).
Qed.

Lemma daemonset_proxy_serves_witness :
  exists ds args,
    @BuildDaemonSet equality_selectors sample_dual "bulb:1" "bulb-system"
      (endpointsByServicePort sample_endpoints sample_dual) = OK ds /\
    container_args ds = ["proxy" :: args] /\
    Run args = OK (legs_specs "" (service_legs sample_dual sample_endpoints),
      MkServeOptions (30 * second) (30 * second) ":8081" 250000000).
Proof.
  destruct (@BuildDaemonSet equality_selectors sample_dual "bulb:1" "bulb-system"
    (endpointsByServicePort sample_endpoints sample_dual)) as [ds|e] eqn:Hb; [|vm_compute in Hb; discriminate].
  destruct sample_dual_ok as (H1 & H2 & H3 & H4).
  destruct (@daemonset_proxy_serves equality_selectors sample_dual "bulb:1" "bulb-system"
    sample_endpoints ds Hb H1 H3 H4) as (args & Ha & Hr & Hs & _).
  exists ds, args. split; [reflexivity|]. split; [exact Ha|]. rewrite Hs in Hr by exact H2.
  apply Hr. left. vm_compute. reflexivity.
Defined.

(** A DNS server: TCP and UDP on port 53, answered on different ports of the pod. *)
Definition sample_dns : Service :=
  MkService "demo" "dns" 1 {[ AnnotationExternalTrafficPolicy := "Local"; AnnotationAllowPrivilegedPort := "true" ]}
    "LoadBalancer" None "10.96.0.10" ["10.96.0.10"]
    [MkServicePort "dns-tcp" "TCP" 53 "5300"; MkServicePort "dns" "UDP" 53 "5353"] [] [].
Definition sample_dns_endpoints : Endpoints :=
  MkEndpoints "demo" "dns"
    [MkEndpointSubset ["10.1.0.1"] [MkEndpointPort "dns-tcp" "TCP" 5300; MkEndpointPort "dns" "UDP" 5353]].

(** The endpoints of a listen address are those of the last leg on it, if that has any. *)
Lemma listener_endpoints_last l1 l l2 : leg_endpoints l <> [] -> Forall (fun l' => leg_listen l' <> leg_listen l) l2 ->
  listener_endpoints (l1 ++ l :: l2) (leg_listen l) = leg_endpoints l.
Proof.
  intros Hl H2. unfold listener_endpoints. rewrite filter_app, filter_cons_True by done.
  assert (filter (fun l' => leg_listen l' = leg_listen l /\ leg_endpoints l' <> []) l2 = []) as ->.
  { induction H2 as [|l' l2 H H2 IH]; [done|]. rewrite filter_cons_False by tauto. exact IH. }
  by rewrite last_snoc.
Qed.

(** The leg of a port in one address family. *)
Definition family_leg (v4 v6 : string) (E : ServiceEndpoints) (ipv6 : bool) (p : ServicePort) : Leg :=
  MkLeg (port_protocol p) (if ipv6 then listen_v6 p else listen_v4 p)
    (if ipv6 then "[" +:+ v6 +:+ "]:" +:+ target_of p else v4 +:+ ":" +:+ target_of p)
    (endpointUpstreamsForFamily (default [] (E !! endpointKey p)) ipv6).

Lemma legs_of_family v4 v6 E (ipv6 : bool) p : (if ipv6 then v6 else v4) <> "" -> exists l1 l2,
  legs_of v4 v6 E p = l1 ++ family_leg v4 v6 E ipv6 p :: l2 /\
  Forall (fun l => leg_listen l <> leg_listen (family_leg v4 v6 E ipv6 p)) l2.
Proof.
  unfold legs_of. intros Hip. destruct ipv6; rewrite (bool_decide_eq_false_2 _ Hip).
  - by exists (if bool_decide (v4 = "") then [] else [family_leg v4 v6 E false p]), [].
  - exists [], (if bool_decide (v6 = "") then [] else [family_leg v4 v6 E true p]). split; [done|].
    case_bool_decide; [done|]. by apply Forall_singleton.
Qed.

Lemma elem_of_legs_specs version legs s : s ∈ legs_specs version legs <-> exists l, l ∈ legs /\ s = leg_spec version l.
Proof.
  unfold legs_specs. rewrite elem_of_app, !list_elem_of_fmap. setoid_rewrite list_elem_of_filter. split.
  - intros [(l & -> & _ & ?)|(l & -> & _ & ?)]; eauto.
  - intros (l & ? & ->). destruct (is_udp_leg l) eqn:Hl; [right|left]; exists l; by rewrite Hl.
Qed.

(** A Service that something is built for has ports, and an address of some family. *)
Lemma built_needs `{LabelSelectors} svc image ns E ds : BuildDaemonSet svc image ns E = OK ds ->
  svc_Ports svc <> [] /\ ((splitClusterIPs svc).1 <> "" \/ (splitClusterIPs svc).2 <> "").
Proof.
  unfold BuildDaemonSet. destruct (splitClusterIPs svc) as [v4 v6]. simpl.
  destruct (bool_decide_reflect (v4 = "")) as [->|H4], (bool_decide_reflect (v6 = "")) as [->|H6]; simpl; try done.
  all: destruct (bool_decide_reflect (length (svc_Ports svc) = 0%nat)) as [|Hl]; [done|].
  all: intros _; split; [by destruct (svc_Ports svc)|auto].
Qed.

(** What is built for a Service has TCP and UDP ports only. *)
Lemma built_protocols `{LabelSelectors} svc image ns E ds : BuildDaemonSet svc image ns E = OK ds ->
  Forall (fun p => port_protocol p = ProtocolTCP \/ port_protocol p = ProtocolUDP) (svc_Ports svc).
Proof.
  unfold BuildDaemonSet, portsAndArgs. destruct (splitClusterIPs svc) as [v4 v6]. destruct (_ && _); [done|].
  destruct (bool_decide (length _ = _)); [done|]. destruct (find _ _); [done|].
  rewrite bind_result_ok. intros ([ports args] & Hp & _).
  by apply bind_result_ok in Hp as ([ports' args'] & [_ Hps]%ports_loop_legs & _).
Qed.

(** There are only two protocols, so no third port has the number of two others. *)
Lemma later_ports_differ svc p q p' ps1 ps2 ps3 :
  Forall (fun p => port_protocol p = ProtocolTCP \/ port_protocol p = ProtocolUDP) (svc_Ports svc) ->
  NoDup ((fun p => (port_Port p, port_protocol p)) <$> svc_Ports svc) ->
  svc_Ports svc = ps1 ++ p :: ps2 ++ q :: ps3 -> port_Port p = port_Port q -> p' ∈ ps3 ->
  port_Port p' <> port_Port q.
Proof.
  intros Hproto Hnd Hsplit Hsame Hp' Heq. rewrite Hsplit in Hnd, Hproto. rewrite Forall_forall in Hproto.
  destruct (list_elem_of_split _ _ Hp') as (l1 & l2 & ->).
  assert (forall x, x ∈ [p; q; p'] -> port_protocol x = ProtocolTCP \/ port_protocol x = ProtocolUDP) as H3.
  { intros x Hx. apply Hproto. revert Hx. clear. set_solver. }
  rewrite !fmap_app, !fmap_cons, !fmap_app, !fmap_cons, !fmap_app, !fmap_cons in Hnd.
  apply NoDup_app in Hnd as (_ & _ & [Hn1 Hnd]%NoDup_cons). apply NoDup_app in Hnd as (_ & _ & [Hn2 _]%NoDup_cons).
  assert (port_protocol p <> port_protocol q /\ port_protocol p <> port_protocol p' /\
    port_protocol q <> port_protocol p') as (N1 & N2 & N3).
  { rewrite Hsame, Heq in *. split_and!; intros E; [apply Hn1|apply Hn1|apply Hn2]; rewrite E;
      rewrite ?elem_of_app, ?elem_of_cons, ?elem_of_app, ?elem_of_cons; tauto. }
  destruct (H3 p) as [E1|E1], (H3 q) as [E2|E2], (H3 p') as [E3|E3]; try (clear; set_solver); congruence.
Qed.

(** C40: The endpoint lists are keyed by the listen address, which does not name the
    protocol. Let a Service with local traffic have one port number twice, once for TCP and
    once for UDP (a pair of number and protocol occurs only once in a Service), and let [q]
    be the later of the two in the list, with ready endpoints in some address family of the
    Service. Then the proxy gives the endpoints of [q] to the rule of [p] in that family,
    whatever the endpoints of [p] are: TCP connections go to the endpoints of the UDP port,
    or the other way round. *)
Theorem shared_port_endpoints_collide `{LabelSelectors} (svc : Service) (image ns : string) (eps : Endpoints)
    (ds : DaemonSet) (p q : ServicePort) (ps1 ps2 ps3 : list ServicePort) (ipv6 : bool)
    (Hbuild : BuildDaemonSet svc image ns (endpointsByServicePort eps svc) = OK ds)
    (Hports : Forall port_ok (svc_Ports svc))
    (Hv4 : no_char colon (splitClusterIPs svc).1) (Heps : endpoints_ok eps)
    (Hdiffer : NoDup ((fun p => (port_Port p, port_protocol p)) <$> svc_Ports svc))
    (Hsplit : svc_Ports svc = ps1 ++ p :: ps2 ++ q :: ps3) (Hsame : port_Port p = port_Port q)
    (Hlocal : lookup_str (svc_Annotations svc) AnnotationExternalTrafficPolicy = "Local")
    (Hversion : lookup_str (svc_Annotations svc) AnnotationProxyProtocol ∈ ["1"; "2"; ""])
    (Hfamily : (if ipv6 then (splitClusterIPs svc).2 else (splitClusterIPs svc).1) <> "")
    (Hready : endpointUpstreamsForFamily (upstreams_of (endpointKey q) (endpointsByServicePort eps svc)) ipv6 <> []) :
  exists args specs opts, container_args ds = ["proxy" :: args] /\ Run args = OK (specs, opts) /\
    MkSpec (if ipv6 then listen_v6 p else listen_v4 p)
      (if ipv6 then "[" +:+ (splitClusterIPs svc).2 +:+ "]:" +:+ target_of p
       else (splitClusterIPs svc).1 +:+ ":" +:+ target_of p)
      (if bool_decide (port_protocol p = ProtocolUDP) then "udp" else "tcp")
      (lookup_str (svc_Annotations svc) AnnotationProxyProtocol)
      (endpointUpstreamsForFamily (upstreams_of (endpointKey q) (endpointsByServicePort eps svc)) ipv6) ∈ specs.
Proof.
  destruct (daemonset_runs svc image ns eps ds Hbuild Hports Hv4 Heps) as (args & Hargs & Hrun & _).
  eexists args, _, _. split; [exact Hargs|]. split; [apply Hrun; revert Hversion; set_solver|].
  pose proof (built_protocols _ _ _ _ _ Hbuild) as Hproto.
  apply elem_of_legs_specs. set (E := endpointsByServicePort eps svc) in *.
  exists (share_leg (service_legs svc eps) (family_leg (splitClusterIPs svc).1 (splitClusterIPs svc).2 E ipv6 p)).
  assert (service_legs svc eps = svc_Ports svc ≫= legs_of (splitClusterIPs svc).1 (splitClusterIPs svc).2 E) as Hlegs.
  { unfold service_legs, local_endpoints. by rewrite bool_decide_eq_true_2. }
  destruct (legs_of_family (splitClusterIPs svc).1 (splitClusterIPs svc).2 E ipv6 p Hfamily) as (lp1 & lp2 & Hp & _).
  destruct (legs_of_family (splitClusterIPs svc).1 (splitClusterIPs svc).2 E ipv6 q Hfamily) as (lq1 & lq2 & Hq & Hq2).
  split.
  - apply list_elem_of_fmap_2. rewrite Hlegs. apply list_elem_of_bind. exists p.
    rewrite Hp, Hsplit. split; [apply elem_of_app; right; by left|apply elem_of_app; right; by left].
  - unfold leg_spec, share_leg. simpl. f_equal.
    assert ((if ipv6 then listen_v6 p else listen_v4 p) = leg_listen (family_leg (splitClusterIPs svc).1 (splitClusterIPs svc).2 E ipv6 q))
      as -> by (simpl; unfold listen_v4, listen_v6; by rewrite Hsame).
    rewrite Hlegs, Hsplit, bind_app, bind_cons, bind_app, bind_cons, Hq, !app_assoc, <-app_assoc.
    rewrite <-(app_comm_cons lq2). rewrite listener_endpoints_last; [done|exact Hready|].
    apply Forall_app. split; [exact Hq2|]. apply Forall_forall. intros l (p' & Hl & Hp')%list_elem_of_bind Heq.
    apply (later_ports_differ svc p q p' ps1 ps2 ps3 Hproto Hdiffer Hsplit Hsame Hp').
    apply (list_elem_of_fmap_2 leg_listen), legs_listen in Hl. simpl in Heq.
    destruct ipv6, Hl as [Hl|Hl]; rewrite Hl in Heq; by auto using listen_v4_inj, listen_v6_inj.
Qed.

Lemma shared_port_endpoints_collide_witness :
  exists ds args specs opts,
    @BuildDaemonSet equality_selectors sample_dns "bulb:1" "bulb-system"
      (endpointsByServicePort sample_dns_endpoints sample_dns) = OK ds /\
    container_args ds = ["proxy" :: args] /\ Run args = OK (specs, opts) /\
    MkSpec "0.0.0.0:53" "10.96.0.10:5300" "tcp" "" ["10.1.0.1:5353"] ∈ specs /\
    upstreams_of "dns-tcp" (endpointsByServicePort sample_dns_endpoints sample_dns) = ["10.1.0.1:5300"].
Proof.
  destruct (@BuildDaemonSet equality_selectors sample_dns "bulb:1" "bulb-system"
    (endpointsByServicePort sample_dns_endpoints sample_dns)) as [ds|e] eqn:Hb; [|vm_compute in Hb; discriminate].
  destruct (@shared_port_endpoints_collide equality_selectors sample_dns "bulb:1" "bulb-system" sample_dns_endpoints ds
    (MkServicePort "dns-tcp" "TCP" 53 "5300") (MkServicePort "dns" "UDP" 53 "5353") [] [] [] false Hb)
    as (args & specs & opts & Ha & Hr & Hin).
  - repeat constructor; simpl; lia || (vm_compute; reflexivity).
  - vm_compute. reflexivity.
  - repeat constructor; simpl; lia || (vm_compute; reflexivity).
  - apply (bool_decide_unpack _). vm_compute. exact I.
  - reflexivity.
  - reflexivity.
  - vm_compute. reflexivity.
  - right. right. left.
  - vm_compute. discriminate.
  - vm_compute. discriminate.
  - exists ds, args, specs, opts. split_and!; [reflexivity|exact Ha|exact Hr| |vm_compute; reflexivity].
    vm_compute in Hin. exact Hin.
Defined.
