(* ===== verification/DnsRecords.v ===== *)
(** * DnsRecords: the DNS records of a Service

    Models internal/controller/dnsrecord.go: which A and AAAA records a Service
    gets from the public addresses of the nodes, and how they are brought into the
    cluster and removed. Log lines are left out. *)
From S2P Require Import Prelude GoStrings Effects ApiTypes FwPorts GoNet Kube KubeApply LBPorts.
Open Scope Z_scope.

Definition AnnotationDNSName : string := "bulb.toturi.tech/dns-name".
Definition dnsTypeA : string := "A".
Definition dnsTypeAAAA : string := "AAAA".
Definition defaultDNSTTL : Z := 60.

Definition DNSRecordName (svc : Service) : string := "bulb-" +:+ svc_Namespace svc +:+ "-" +:+ svc_Name svc.
Definition DNSRecordNameAAAA (svc : Service) : string := DNSRecordName svc +:+ "-aaaa".

(** The loop of [splitByFamily]. *)
Fixpoint split_family (ips v4 v6 : list string) : list string * list string :=
  match ips with
  | [] => (v4, v6)
  | raw :: ips' =>
      match ParseIP raw with
      | None => split_family ips' v4 v6
      | Some ip =>
          match To4 ip with
          | Some _ => split_family ips' (v4 ++ [raw]) v6
          | None => split_family ips' v4 (v6 ++ [raw])
          end
      end
  end.
Definition splitByFamily (ips : list string) : list string * list string := split_family ips [] [].

Definition buildDNSRecordAlways (svc : Service) (fqdn recType name : string) (targets : list string)
    : DNSRecord :=
  MkDNSRecord name (serviceLabels svc) (MkDNSRecordSpec fqdn recType defaultDNSTTL (sort_strings targets)).

Definition buildDNSRecord (svc : Service) (fqdn recType name : string) (targets : list string)
    : option DNSRecord :=
  if (length targets =? 0)%nat then None
  else Some (buildDNSRecordAlways svc fqdn recType name targets).

Definition BuildDNSRecords (svc : Service) (publicIPs : list string) : list DNSRecord :=
  let fqdn := lookup_str (svc_Annotations svc) AnnotationDNSName in
  if bool_decide (fqdn = "") then []
  else
    let '(v4, v6) := splitByFamily publicIPs in
    let out :=
      match buildDNSRecord svc fqdn dnsTypeA (DNSRecordName svc) v4 with Some rec => [rec] | None => [] end in
    let out := out ++
      match buildDNSRecord svc fqdn dnsTypeAAAA (DNSRecordNameAAAA svc) v6 with Some rec => [rec] | None => [] end in
    if (length out =? 0)%nat
    then [buildDNSRecordAlways svc fqdn dnsTypeA (DNSRecordName svc) []]
    else out.

(** [existing.Spec = desired.Spec; existing.Labels = desired.Labels] *)
Definition set_dnsrecord (desired existing : DNSRecord) : DNSRecord :=
  MkDNSRecord (dns_Name existing) (dns_Labels desired) (dns_Spec desired).

Definition applyOneDNSRecord (desired : DNSRecord) : prog KubeE (result unit) :=
  let* got := call (Get KDNSRecord ("", dns_Name desired)) in
  match got with
  | Fail e =>
      if IsNotFound e then wrapped "create dnsrecord: " (call (Create KDNSRecord desired))
      else Ret (Fail (wrap "get dnsrecord: " e))
  | OK existing =>
      if bool_decide (dns_Spec existing = dns_Spec desired) &&
         bool_decide (dns_Labels existing = dns_Labels desired)
      then Ret (OK tt)
      else wrapped "update dnsrecord: " (call (Update KDNSRecord (set_dnsrecord desired existing)))
  end.

Definition delete_dnsrecord (prefix : string) (item : DNSRecord) : prog KubeE (result unit) :=
  let* r := call (Delete KDNSRecord item) in
  match r with
  | Fail e => if IsNotFound e then Ret (OK tt) else Ret (Fail (wrap (prefix +:+ dns_Name item +:+ ": ") e))
  | OK _ => Ret (OK tt)
  end.

Definition pruneUnwantedDNSRecords (svc : Service) (wanted : list string) : prog KubeE (result unit) :=
  let? items := wrapped "list dnsrecords for prune: "
                  (call (List KDNSRecord (labels_for (svc_Namespace svc) (svc_Name svc)))) in
  for_each items (fun item =>
    if bool_decide (dns_Name item ∈ wanted) then Ret (OK tt)
    else delete_dnsrecord "delete stale dnsrecord " item).

Definition applyDNSRecords (desired : list DNSRecord) (svc : Service) : prog KubeE (result unit) :=
  let? _ := for_each desired applyOneDNSRecord in
  pruneUnwantedDNSRecords svc (dns_Name <$> desired).

Definition cleanupDNSRecordsByName (svcNamespace svcName : string) : prog KubeE (result unit) :=
  let? items := wrapped "list dnsrecords for cleanup: "
                  (call (List KDNSRecord (labels_for svcNamespace svcName))) in
  for_each items (delete_dnsrecord "delete dnsrecord ").

(** ** The records *)

(** The addresses of one family. *)
Definition family (v4 : bool) (raw : string) : bool :=
  match ParseIP raw with
  | Some ip => bool_decide (bool_decide (To4 ip = None) = negb v4)
  | None => false
  end.

Lemma split_family_filter ips v4 v6 :
  split_family ips v4 v6 =
  (v4 ++ filter (fun raw => family true raw = true) ips, v6 ++ filter (fun raw => family false raw = true) ips).
Proof.
  revert v4 v6. induction ips as [|raw ips IH]; intros v4 v6; cbn [split_family].
  { by rewrite !filter_nil, !app_nil_r. }
  assert (family true raw = match ParseIP raw with Some ip => bool_decide (To4 ip <> None) | None => false end)
    as H4 by (unfold family; destruct (ParseIP raw) as [ip|]; [by destruct (To4 ip)|done]).
  assert (family false raw = match ParseIP raw with Some ip => bool_decide (To4 ip = None) | None => false end)
    as H6 by (unfold family; destruct (ParseIP raw) as [ip|]; [by destruct (To4 ip)|done]).
  destruct (ParseIP raw) as [ip|].
  - destruct (To4 ip); simpl in *; rewrite IH.
    + by rewrite filter_cons_True, filter_cons_False, <-app_assoc by congruence.
    + by rewrite filter_cons_False, filter_cons_True, <-app_assoc by congruence.
  - by rewrite IH, !filter_cons_False by congruence.
Qed.

Lemma length_zero {A} (l : list A) : (length l =? 0)%nat = bool_decide (l = []).
Proof. by destruct l. Qed.

Lemma app_string_neq_suffix (s t : string) : t <> "" -> s <> s +:+ t.
Proof.
  intros Ht. induction s as [|c s IH]; [by destruct t|]. rewrite app_string_cons. by intros [= ?].
Qed.

Lemma BuildDNSRecords_names svc ips : NoDup (dns_Name <$> BuildDNSRecords svc ips).
Proof.
  unfold BuildDNSRecords. case_bool_decide; [constructor|].
  destruct (splitByFamily ips) as [v4 v6]. unfold buildDNSRecord. rewrite !length_zero.
  assert (DNSRecordName svc <> DNSRecordNameAAAA svc) as Hne by by apply app_string_neq_suffix.
  repeat case_bool_decide; simpl in *; try done; try apply NoDup_singleton.
  apply NoDup_cons. split; [|apply NoDup_singleton]. by intros ?%list_elem_of_singleton.
Qed.

Lemma BuildDNSRecords_objects svc ips rec : rec ∈ BuildDNSRecords svc ips ->
  dns_Labels rec = serviceLabels svc /\ (dns_Name rec = DNSRecordName svc \/ dns_Name rec = DNSRecordNameAAAA svc).
Proof.
  unfold BuildDNSRecords. case_bool_decide; [by intros ?%not_elem_of_nil|].
  destruct (splitByFamily ips) as [v4 v6]. unfold buildDNSRecord. rewrite !length_zero.
  repeat case_bool_decide; simpl in *; try done; rewrite ?elem_of_cons, ?elem_of_nil; intuition (subst; auto).
Qed.

Lemma BuildDNSRecords_fields svc ips rec : rec ∈ BuildDNSRecords svc ips ->
  dns_Type (dns_Spec rec) ∈ ["A"; "AAAA"] /\ TTL (dns_Spec rec) = 60 /\ FQDN (dns_Spec rec) <> "".
Proof.
  unfold BuildDNSRecords. case_bool_decide; [by intros ?%not_elem_of_nil|].
  destruct (splitByFamily ips) as [v4 v6]. unfold buildDNSRecord. rewrite !length_zero.
  repeat case_bool_decide; simpl in *; try done; rewrite ?elem_of_cons, ?elem_of_nil; intuition (subst; simpl; auto; set_solver).
Qed.

(** A Service with a dns-name annotation gets the records of that name whose
    targets are exactly the given public addresses: the IPv4 ones, sorted, in an A
    record, the IPv6 ones in an AAAA record under another object name, and no
    record for a family without addresses, except that there is always at least
    one record: without any address it is an A record without targets. A Service
    without the annotation gets none. *)
Theorem BuildDNSRecords_correct (svc : Service) (ips : list string) :
  let recs := BuildDNSRecords svc ips in
  let fqdn := lookup_str (svc_Annotations svc) AnnotationDNSName in
  let v4 := filter (fun raw => family true raw = true) ips in
  let v6 := filter (fun raw => family false raw = true) ips in
  NoDup (dns_Name <$> recs) /\
  (recs = [] <-> fqdn = "") /\
  (forall rec, rec ∈ recs <-> fqdn <> "" /\
     dns_Labels rec = serviceLabels svc /\ FQDN (dns_Spec rec) = fqdn /\ TTL (dns_Spec rec) = 60 /\
     (dns_Name rec = DNSRecordName svc /\ dns_Type (dns_Spec rec) = "A" /\
        Targets (dns_Spec rec) = sort_strings v4 /\ (v4 <> [] \/ v6 = []) \/
      dns_Name rec = DNSRecordNameAAAA svc /\ dns_Type (dns_Spec rec) = "AAAA" /\
        Targets (dns_Spec rec) = sort_strings v6 /\ v6 <> [])).
Proof.
  intros recs fqdn v4 v6. split; [apply BuildDNSRecords_names|].
  subst recs. unfold BuildDNSRecords, splitByFamily. rewrite split_family_filter. simpl.
  fold fqdn v4 v6. clearbody fqdn v4 v6.
  assert (forall (t n : string) targets rec,
    rec = buildDNSRecordAlways svc fqdn t n targets <->
    dns_Labels rec = serviceLabels svc /\ FQDN (dns_Spec rec) = fqdn /\ TTL (dns_Spec rec) = 60 /\
    dns_Name rec = n /\ dns_Type (dns_Spec rec) = t /\ Targets (dns_Spec rec) = sort_strings targets) as Hrec.
  { intros t n targets [n' ls [f' t' ttl ts]]. unfold buildDNSRecordAlways, defaultDNSTTL. simpl.
    split; [by intros [= -> -> -> -> -> ->]|]. by intros (-> & -> & -> & -> & -> & ->). }
  unfold buildDNSRecord. rewrite !length_zero. case_bool_decide as Hf.
  { split; [done|]. intros rec. split; [by intros ?%not_elem_of_nil|]. by intros [? _]. }
  destruct (bool_decide_reflect (v4 = [])) as [H4|H4], (bool_decide_reflect (v6 = [])) as [H6|H6]; simpl;
    (split; [done|]; intros rec; rewrite ?elem_of_cons, ?elem_of_nil, ?Hrec; try rewrite H4; intuition done).
Qed.

(** ** Applying and removing *)

Lemma applyOne_ensure want : exists same pc pg pu,
  applyOneDNSRecord want = ensure KDNSRecord want same (set_dnsrecord want) pc pg pu /\
  forall o, same o = true -> updated KDNSRecord (set_dnsrecord want o) o = o.
Proof.
  eexists _, _, _, _. split; [reflexivity|]. intros o Ho. simpl in Ho.
  apply andb_true_iff in Ho as [H1%bool_decide_eq_true H2%bool_decide_eq_true].
  unfold updated, set_dnsrecord. destruct o. simpl in *. by rewrite <-H1, <-H2.
Qed.

Definition dnsrecords_applied (desired : list DNSRecord) (svc : Service)
    (m m' : gmap NamespacedName DNSRecord) : Prop :=
  applied KDNSRecord desired set_dnsrecord (serviceLabels svc) m m'.

Lemma kwp_applyDNSRecords desired svc (Q : result unit -> Cluster -> Prop) c :
  keyed c -> NoDup (dns_Name <$> desired) ->
  (forall m', dnsrecords_applied desired svc (dnsrecords c) m' -> Q (OK tt) (with_objects c KDNSRecord m')) ->
  kwp (applyDNSRecords desired svc) Q c.
Proof.
  intros Hk Hnd HQ. unfold applyDNSRecords, pruneUnwantedDNSRecords.
  apply (kwp_apply_all KDNSRecord applyOneDNSRecord desired set_dnsrecord (serviceLabels svc)
    (fun item => bool_decide (dns_Name item ∈ dns_Name <$> desired)) (fun _ => Ret tt)
    (fun item => "delete stale dnsrecord " +:+ dns_Name item +:+ ": ")); [done| |done| | |done|done].
  - replace (name_of KDNSRecord <$> desired) with (pair "" <$> (dns_Name <$> desired)).
    + by apply NoDup_fmap_2; [intros ?? [= ->]|].
    + by rewrite <-list_fmap_compose.
  - intros w _. apply applyOne_ensure.
  - intros o. rewrite bool_decide_eq_true, !list_elem_of_fmap. simpl.
    split; intros (w & Hw & ?); exists w; split; [congruence|done|congruence|done].
Qed.

Lemma kwp_cleanupDNSRecords ns name (Q : result unit -> Cluster -> Prop) c :
  keyed c ->
  Q (OK tt) (with_objects c KDNSRecord (removed KDNSRecord (labels_for ns name) (dnsrecords c))) ->
  kwp (cleanupDNSRecordsByName ns name) Q c.
Proof.
  intros Hk HQ. unfold cleanupDNSRecordsByName.
  apply (kwp_remove_all KDNSRecord (labels_for ns name) (fun _ => false) (fun _ => Ret tt)
    (fun item => "delete dnsrecord " +:+ dns_Name item +:+ ": ")); done.
Qed.
