(* ===== verification/ServiceReconciler.v ===== *)
(** * ServiceReconciler: the reconcile loop of the controller

    Models internal/controller/reconciler.go and status.go: one call of [Reconcile]
    for a Service, from reading it to its status, with the branches that take its
    objects out of the cluster again, and the functions that say which Services to
    reconcile when something changes. Metrics and log lines are left out: nothing
    reads them back. *)
From S2P Require Import Prelude GoStrings Effects ApiTypes FwPorts GoNet Kube KubeApply LBPorts Conflicts DaemonSets DnsRecords.
Open Scope Z_scope.

(** ** internal/controller/status.go *)

Definition ConditionReconciled : string := "Reconciled".
Definition ConditionPortConflict : string := "PortConflict".
Definition ConditionInvalidService : string := "InvalidService".
Definition ConditionNoReadyEndpoint : string := "NoReadyEndpoints".
Definition ConditionTrue : string := "True".
Definition ConditionFalse : string := "False".

Definition serviceCondition (svc : Service) (typ status reason message : string) : Condition :=
  MkCondition typ status (svc_Generation svc) 0 reason message.

Fixpoint set_conditions (conds new : list Condition) : prog KubeE (list Condition) :=
  match new with
  | [] => Ret conds
  | condition :: new' =>
      let* conds := call (SetStatusCondition conds condition) in
      set_conditions conds new'
  end.

Definition ingress_of (ips : list string) : list Ingress := (fun ip => MkIngress ip "") <$> ips.

Definition updateStatus (svc : Service) (ips : list string) (conditions : list Condition)
    : prog KubeE (result unit) :=
  let desiredIngress := ingress_of ips in
  let* conds := set_conditions (svc_Conditions svc) conditions in
  let patched := with_status desiredIngress conds svc in
  if bool_decide (svc_Ingress svc = svc_Ingress patched) &&
     bool_decide (svc_Conditions svc = svc_Conditions patched)
  then Ret (OK tt)
  else call (StatusPatch KService patched svc).

Definition eventf (r : ServiceReconciler) (svc : Service) (eventType reason message : string)
    : prog KubeE unit :=
  if EventRecorder r then call (Eventf svc eventType reason message) else Ret tt.

(** ** Taking the objects of a Service away *)

Inductive cleanupMode := cleanupForceDelete | cleanupHonorKeep.

#[export] Instance cleanupMode_eq_dec : EqDecision cleanupMode.
Proof. solve_decision. Defined.

Definition cleanupModeForService (svc : Service) : cleanupMode :=
  if bool_decide (lookup_str (svc_Annotations svc) AnnotationKeepOnUninstall = "true")
  then cleanupHonorKeep else cleanupForceDelete.

(** The labels say that the DaemonSet is the one of this Service. *)
Definition owned (ds : DaemonSet) (svcNamespace svcName : string) : bool :=
  bool_decide (lookup_str (ds_Labels ds) labelService = svcName) &&
  bool_decide (lookup_str (ds_Labels ds) labelServiceNs = svcNamespace) &&
  bool_decide (lookup_str (ds_Labels ds) labelManagedBy = labelManagedByV).

Definition deletes (mode : cleanupMode) (ds : DaemonSet) : bool :=
  bool_decide (mode = cleanupForceDelete) ||
  negb (bool_decide (lookup_str (ds_Annotations ds) AnnotationKeepOnUninstall = "true")).

Definition cleanupByName (r : ServiceReconciler) (svcNamespace svcName : string) (mode : cleanupMode)
    : prog KubeE (result unit) :=
  let dsName := "bulb-" +:+ svcNamespace +:+ "-" +:+ svcName in
  let* ds := call (Get KDaemonSet (sr_Namespace r, dsName)) in
  match ds with
  | Fail e =>
      if IsNotFound e then
        let? _ := cleanupLBPorts svcNamespace svcName in
        let? _ := cleanupDNSRecordsByName svcNamespace svcName in
        Ret (OK tt)
      else Ret (Fail (wrap "get daemonset for cleanup: " e))
  | OK ds =>
      if negb (owned ds svcNamespace svcName) then Ret (OK tt)
      else
        let? _ :=
          if deletes mode ds then
            let* d := call (Delete KDaemonSet ds) in
            match d with
            | Fail e => if IsNotFound e then Ret (OK tt) else Ret (Fail (wrap "delete daemonset: " e))
            | OK _ => Ret (OK tt)
            end
          else Ret (OK tt) in
        let? _ := cleanupLBPorts svcNamespace svcName in
        let? _ := cleanupDNSRecordsByName svcNamespace svcName in
        Ret (OK tt)
  end.

Definition markInvalidService (r : ServiceReconciler) (svc : Service) (reason : string) (cause : error)
    : prog KubeE (result unit) :=
  let msg := Error cause in
  let* _ := eventf r svc "Warning" reason msg in
  let? _ := wrapped "update invalid service condition: " (updateStatus svc []
    [serviceCondition svc ConditionInvalidService ConditionTrue reason msg;
     serviceCondition svc ConditionReconciled ConditionFalse reason msg;
     serviceCondition svc ConditionPortConflict ConditionFalse "NoConflict" "No port conflict detected";
     serviceCondition svc ConditionNoReadyEndpoint ConditionFalse "ReadyEndpointsFound"
       "Ready endpoints are available or not required"]) in
  cleanupByName r (svc_Namespace svc) (svc_Name svc) cleanupForceDelete.

(** ** Bringing them into the cluster *)

(** [existing.Spec, .Labels, .Annotations = desired...] *)
Definition set_daemonset (desired existing : DaemonSet) : DaemonSet :=
  MkDaemonSet (ds_Namespace existing) (ds_Name existing) (ds_Labels desired) (ds_Annotations desired)
    (ds_Spec desired).

Definition applyDaemonSet (desired : DaemonSet) : prog KubeE (result unit) :=
  let* got := call (Get KDaemonSet (ds_Namespace desired, ds_Name desired)) in
  match got with
  | Fail e =>
      if IsNotFound e then wrapped "create daemonset: " (call (Create KDaemonSet desired))
      else Ret (Fail (wrap "get daemonset: " e))
  | OK existing =>
      if bool_decide (ds_Spec existing = ds_Spec desired) &&
         bool_decide (ds_Labels existing = ds_Labels desired) &&
         bool_decide (ds_Annotations existing = ds_Annotations desired)
      then Ret (OK tt)
      else wrapped "update daemonset: " (call (Update KDaemonSet (set_daemonset desired existing)))
  end.

Definition PublicIPAnnotations : list string :=
  ["bulb.toturi.tech/public-ipv4"; "bulb.toturi.tech/public-ipv6"].

(** The inner loop of [nodePublicIPs]; its set [seen] holds the addresses in [ips]. *)
Fixpoint add_node_ips (node : Node) (annotations : list string) (ips : list string) : list string :=
  match annotations with
  | [] => ips
  | ann :: annotations' =>
      let ip := lookup_str (node_Annotations node) ann in
      add_node_ips node annotations'
        (if negb (bool_decide (ip = "")) && negb (bool_decide (ip ∈ ips)) then ips ++ [ip] else ips)
  end.

Fixpoint public_ips (nodes : list Node) (ips : list string) : list string :=
  match nodes with
  | [] => ips
  | node :: nodes' =>
      public_ips nodes' (if Unschedulable node then ips else add_node_ips node PublicIPAnnotations ips)
  end.

Definition nodePublicIPs : prog KubeE (result (list string)) :=
  let? nodes := wrapped "list nodes: " (call (List KNode ∅)) in
  Ret (OK (sort_strings (public_ips nodes []))).

Definition serviceEndpoints (svc : Service) : prog KubeE (result ServiceEndpoints) :=
  if negb (bool_decide (lookup_str (svc_Annotations svc) AnnotationExternalTrafficPolicy = "Local"))
  then Ret (OK ∅)
  else
    let* eps := call (Get KEndpoints (svc_Namespace svc, svc_Name svc)) in
    match eps with
    | Fail e =>
        if IsNotFound e then Ret (OK ∅)
        else Ret (Fail (wrap ("get endpoints " +:+ svc_Namespace svc +:+ "/" +:+ svc_Name svc +:+ ": ") e))
    | OK eps => Ret (OK (endpointsByServicePort eps svc))
    end.

(** ** Reconcile *)

Definition success_conditions (svc : Service) : list Condition :=
  [serviceCondition svc ConditionReconciled ConditionTrue "Reconciled" "Service reconciled successfully";
   serviceCondition svc ConditionPortConflict ConditionFalse "NoConflict" "No port conflict detected";
   serviceCondition svc ConditionInvalidService ConditionFalse "Valid" "Service annotations and ports are valid";
   serviceCondition svc ConditionNoReadyEndpoint ConditionFalse "ReadyEndpointsFound"
     "Ready endpoints are available or not required"].

Definition no_endpoints_message (svc : Service) : string :=
  "Service " +:+ svc_Namespace svc +:+ "/" +:+ svc_Name svc
    +:+ " uses externalTrafficPolicy=Local but has no ready endpoints".

Definition no_endpoints_conditions (svc : Service) : list Condition :=
  let msg := no_endpoints_message svc in
  [serviceCondition svc ConditionNoReadyEndpoint ConditionTrue "NoReadyEndpoints" msg;
   serviceCondition svc ConditionReconciled ConditionFalse "NoReadyEndpoints" msg;
   serviceCondition svc ConditionPortConflict ConditionFalse "NoConflict" "No port conflict detected";
   serviceCondition svc ConditionInvalidService ConditionFalse "Valid" "Service annotations and ports are valid"].

Definition conflict_conditions (svc : Service) (conflict : portConflict) : list Condition :=
  let reason := conflict_Reason conflict in
  let msg := conflict_Message conflict in
  [serviceCondition svc ConditionPortConflict ConditionTrue reason msg;
   serviceCondition svc ConditionReconciled ConditionFalse reason msg;
   serviceCondition svc ConditionInvalidService ConditionFalse "Valid" "Service annotations and ports are valid";
   serviceCondition svc ConditionNoReadyEndpoint ConditionFalse "ReadyEndpointsFound"
     "Ready endpoints are available or not required"].

Section reconcile.
Context `{LabelSelectors}.

(** From [applyDaemonSet] to the end. *)
Definition serve_service (r : ServiceReconciler) (svc : Service) (lbports : list LBPort) (desired : DaemonSet)
    : prog KubeE (result unit) :=
  let? _ := applyDaemonSet desired in
  let? _ := applyLBPorts r lbports svc in
  let* _ := pruneStaleAppliedNodes svc in
  let* _ := emitLBPortEvents r svc in
  let? ips := nodePublicIPs in
  let? _ := wrapped "apply dnsrecords: " (applyDNSRecords (BuildDNSRecords svc ips) svc) in
  let? _ := wrapped "update service status: " (updateStatus svc ips (success_conditions svc)) in
  let* _ := eventf r svc "Normal" "Reconciled" "Service reconciled successfully" in
  Ret (OK tt).

(** From [BuildLBPorts], given the endpoints. *)
Definition reconcile_ports (r : ServiceReconciler) (svc : Service) (endpoints : ServiceEndpoints)
    : prog KubeE (result unit) :=
  let* lbports := BuildLBPorts svc in
  match lbports with
  | Fail e => markInvalidService r svc "InvalidAnnotation" e
  | OK lbports =>
      let? conflict := wrapped "detect port conflicts: " (detectPortConflict svc lbports) in
      match conflict with
      | Some conflict =>
          let* _ := eventf r svc "Warning" (conflict_Reason conflict) (conflict_Message conflict) in
          let? _ := wrapped "update port conflict condition: "
                      (updateStatus svc [] (conflict_conditions svc conflict)) in
          cleanupByName r (svc_Namespace svc) (svc_Name svc) cleanupForceDelete
      | None =>
          match BuildDaemonSet svc (sr_Image r) (sr_Namespace r) endpoints with
          | Fail e => markInvalidService r svc "InvalidService" e
          | OK desired => serve_service r svc lbports desired
          end
      end
  end.

Definition Reconcile (r : ServiceReconciler) (req : NamespacedName) : prog KubeE (result unit) :=
  let* svc := call (Get KService req) in
  match svc with
  | Fail e =>
      if IsNotFound e then cleanupByName r (fst req) (snd req) cleanupHonorKeep
      else Ret (Fail (wrap "get service: " e))
  | OK svc =>
      if negb (ServiceMatches svc) then
        cleanupByName r (svc_Namespace svc) (svc_Name svc) (cleanupModeForService svc)
      else
        let? endpoints := wrapped "read service endpoints: " (serviceEndpoints svc) in
        if bool_decide (lookup_str (svc_Annotations svc) AnnotationExternalTrafficPolicy = "Local")
           && endpoints_empty endpoints then
          let* _ := eventf r svc "Warning" "NoReadyEndpoints" (no_endpoints_message svc) in
          let? _ := wrapped "update no-ready-endpoints condition: "
                      (updateStatus svc [] (no_endpoints_conditions svc)) in
          cleanupByName r (svc_Namespace svc) (svc_Name svc) cleanupForceDelete
        else reconcile_ports r svc endpoints
  end.
End reconcile.

(** ** What is reconciled when *)

(** [servicePredicate]: an object is [None] when it is not a Service. *)
Definition predicate_match (obj : option Service) : bool :=
  match obj with Some svc => ServiceMatches svc | None => false end.

Inductive watch_event :=
| CreateEvent (obj : option Service)
| UpdateEvent (old new : option Service)
| DeleteEvent (obj : option Service)
| GenericEvent (obj : option Service).

Definition servicePredicate (e : watch_event) : bool :=
  match e with
  | CreateEvent obj | DeleteEvent obj | GenericEvent obj => predicate_match obj
  | UpdateEvent old new => predicate_match old || predicate_match new
  end.

Definition service_requests (svcs : list Service) : list NamespacedName :=
  name_of KService <$> filter (fun svc => ServiceMatches svc = true) svcs.

Definition nodeToAllServices : prog KubeE (list NamespacedName) :=
  let* svcs := call (List KService ∅) in
  match svcs return prog KubeE (list NamespacedName) with
  | Fail _ => Ret []
  | OK svcs => Ret (service_requests svcs)
  end.

Definition endpointToService (obj : option Endpoints) : list NamespacedName :=
  match obj with Some eps => [(eps_Namespace eps, eps_Name eps)] | None => [] end.

(** [SetupWithManager] up to the registration of the controller. *)
Definition SetupWithManager (r : ServiceReconciler) : result unit :=
  if bool_decide (sr_Namespace r = "") then Fail (errorf "ServiceReconciler.Namespace is required")
  else if bool_decide (sr_Image r = "") then Fail (errorf "ServiceReconciler.Image is required")
  else OK tt.
