(* ===== verification/ReconcileSpec.v ===== *)
(** * ReconcileSpec: what one reconcile does to the cluster

    [reconciled] says, without effects, which cluster a call of the controller's
    [Reconcile] leads to, case by case; the theorem of this file is that over an
    API server that behaves as documented [Reconcile] always succeeds and leads to
    such a cluster. *)
From S2P Require Import Prelude GoStrings Effects ApiTypes FwPorts GoNet Kube KubeApply LBPorts Conflicts DaemonSets DnsRecords ServiceReconciler.
From Stdlib Require Import Ascii.
Open Scope Z_scope.

(** ** The cluster without the objects of a Service *)

Definition ds_key (r : ServiceReconciler) (ns name : string) : NamespacedName :=
  (sr_Namespace r, "bulb-" +:+ ns +:+ "-" +:+ name).

Definition without_records (ns name : string) (c : Cluster) : Cluster :=
  with_objects (with_objects c KLBPort (removed KLBPort (labels_for ns name) (lbports c)))
    KDNSRecord (removed KDNSRecord (labels_for ns name) (dnsrecords c)).

Definition cleaned (r : ServiceReconciler) (ns name : string) (mode : cleanupMode) (c : Cluster) : Cluster :=
  match daemonsets c !! ds_key r ns name with
  | None => without_records ns name c
  | Some ds =>
      if negb (owned ds ns name) then c
      else if deletes mode ds
      then without_records ns name (with_objects c KDaemonSet (delete (ds_key r ns name) (daemonsets c)))
      else without_records ns name c
  end.

Lemma kwp_remove_records ns name c (Q : result unit -> Cluster -> Prop) :
  keyed c -> Q (OK tt) (without_records ns name c) ->
  kwp (let? _ := cleanupLBPorts ns name in let? _ := cleanupDNSRecordsByName ns name in Ret (OK tt)) Q c.
Proof.
  intros Hk HQ. apply wp_bindr, kwp_cleanupLBPorts; [done|].
  apply wp_bindr, kwp_cleanupDNSRecords; [by apply (keyed_removed KLBPort)|]. exact HQ.
Qed.

Lemma kwp_cleanupByName r ns name mode c (Q : result unit -> Cluster -> Prop) :
  keyed c -> Q (OK tt) (cleaned r ns name mode c) -> kwp (cleanupByName r ns name mode) Q c.
Proof.
  intros Hk HQ. unfold cleanupByName, cleaned in *. split; [done|]. intros x c1 [-> Hx]. simpl in Hx.
  fold (ds_key r ns name) in Hx. destruct (daemonsets c !! ds_key r ns name) as [ds|] eqn:Hds.
  - subst x. simpl. destruct (owned ds ns name); simpl in *; [|done].
    destruct (deletes mode ds); simpl; [|by apply kwp_remove_records].
    split; [done|]. intros x c1. unfold changes. simpl.
    pose proof (Hk DaemonSet KDaemonSet (ds_key r ns name) ds Hds) as Hname. simpl in Hname. rewrite Hname, Hds.
    intros [-> ->]. apply kwp_remove_records; [|done].
    apply (keyed_with_objects c KDaemonSet); [done|]. intros key o [_ Ho]%lookup_delete_Some.
    by apply (Hk DaemonSet KDaemonSet).
  - destruct Hx as (e & -> & He). simpl. rewrite He. by apply kwp_remove_records.
Qed.

(** ** The status of a Service *)

(** [SetStatusCondition] for one after the other. *)
Fixpoint conditions_set (conds new conds' : list Condition) : Prop :=
  match new with
  | [] => conds' = conds
  | n :: new' => exists conds1, condition_set conds n conds1 /\ conditions_set conds1 new' conds'
  end.

Definition status_set (svc : Service) (ips : list string) (new : list Condition) (c c' : Cluster) : Prop :=
  exists conds, conditions_set (svc_Conditions svc) new conds /\
    c' = with_objects c KService
           (<[name_of KService svc := with_status (ingress_of ips) conds svc]> (services c)).

(** The first condition of its type says the same. *)
Definition shows (conds : list Condition) (n : Condition) : Prop :=
  exists i o, list_find (fun o => cond_Type o = cond_Type n) conds = Some (i, o) /\ same_condition o n.

Lemma condition_set_shows conds n conds' : condition_set conds n conds' -> shows conds' n.
Proof.
  unfold condition_set, shows. destruct (list_find _ conds) as [[i old]|] eqn:Hf.
  - apply list_find_Some in Hf as (Hi & Ht & Hfirst). intros (o & -> & Ho & _). exists i, o. split; [|done].
    apply list_find_Some. split_and!.
    + apply list_lookup_insert_eq. by eapply lookup_lt_Some.
    + by destruct Ho.
    + intros j y Hj Hlt. rewrite list_lookup_insert_ne in Hj by lia. by eapply Hfirst.
  - apply list_find_None in Hf. intros (o & -> & Ho). exists (length conds), o. split; [|done].
    apply list_find_app_Some. right. split; [lia|]. split; [by apply list_find_None|].
    rewrite Nat.sub_diag. simpl. destruct Ho as [Ht _]. by rewrite decide_True.
Qed.

(** A condition of another type is not touched. *)
Lemma condition_set_other conds n conds' m : cond_Type m <> cond_Type n ->
  condition_set conds n conds' -> shows conds m -> shows conds' m.
Proof.
  intros Hne Hset (j & om & (Hj & Htm & Hfirst)%list_find_Some & Hom). unfold condition_set in Hset.
  destruct (list_find _ conds) as [[i old]|] eqn:Hf.
  - apply list_find_Some in Hf as (Hi & Ht & _). destruct Hset as (o & -> & [Ho _] & _).
    assert (i <> j) as Hij by (intros ->; rewrite Hi in Hj; injection Hj as ->; congruence).
    exists j, om. split; [|done]. apply list_find_Some. split_and!; [by rewrite list_lookup_insert_ne|done|].
    intros k y Hk Hlt. destruct (decide (k = i)) as [->|Hki].
    + rewrite list_lookup_insert_eq in Hk by by eapply lookup_lt_Some. injection Hk as <-. congruence.
    + rewrite list_lookup_insert_ne in Hk by done. by eapply Hfirst.
  - destruct Hset as (o & -> & _). exists j, om. split; [|done]. apply list_find_app_Some. left.
    by apply list_find_Some.
Qed.

Lemma conditions_set_other conds new conds' m : cond_Type m ∉ cond_Type <$> new ->
  conditions_set conds new conds' -> shows conds m -> shows conds' m.
Proof.
  revert conds. induction new as [|n new IH]; intros conds Hm; simpl; [by intros ->|].
  rewrite fmap_cons, not_elem_of_cons in Hm. destruct Hm as [Hne Hm].
  intros (conds1 & H1 & H2) Hs. eapply IH; [done|done|]. by eapply condition_set_other.
Qed.

Lemma conditions_set_shows conds new conds' : NoDup (cond_Type <$> new) ->
  conditions_set conds new conds' -> Forall (shows conds') new.
Proof.
  revert conds. induction new as [|n new IH]; intros conds Hnd; [constructor|].
  rewrite fmap_cons, NoDup_cons in Hnd. destruct Hnd as [Hn Hnd].
  intros (conds1 & H1%condition_set_shows & H2). constructor; [|by eapply IH].
  by eapply conditions_set_other.
Qed.

(** Setting what is there changes nothing. *)
Lemma conditions_set_same conds new conds' :
  Forall (shows conds) new -> conditions_set conds new conds' -> conds' = conds.
Proof.
  intros Hs. induction Hs as [|n new (i & o & Hf & Ho) _ IH]; simpl; [done|].
  intros (conds1 & H1 & H2). unfold condition_set in H1. rewrite Hf in H1.
  destruct H1 as (o' & -> & _ & Hsame). rewrite (Hsame Ho) in H2. apply list_find_Some in Hf as [Hi _].
  rewrite list_insert_id in H2 by done. by apply IH.
Qed.

Lemma kwp_set_conditions conds new (Q : list Condition -> Cluster -> Prop) c :
  (forall conds', conditions_set conds new conds' -> Q conds' c) -> kwp (set_conditions conds new) Q c.
Proof.
  revert conds. induction new as [|n new IH]; intros conds HQ; simpl; [by apply HQ|].
  split; [done|]. intros conds1 c1 [-> H1]. apply IH. intros conds' H2. apply HQ. by exists conds1.
Qed.

Lemma with_status_id svc : with_status (svc_Ingress svc) (svc_Conditions svc) svc = svc.
Proof. by destruct svc. Qed.

Lemma kwp_updateStatus svc ips new (Q : result unit -> Cluster -> Prop) c :
  services c !! name_of KService svc = Some svc ->
  (forall c', status_set svc ips new c c' -> Q (OK tt) c') ->
  kwp (updateStatus svc ips new) Q c.
Proof.
  intros Hsvc HQ. unfold updateStatus. apply wp_bind, kwp_set_conditions.
  intros conds Hnew. simpl. destruct (_ && _) eqn:Hsame.
  - apply andb_true_iff in Hsame as [H1%bool_decide_eq_true H2%bool_decide_eq_true]. apply HQ.
    exists conds. split; [done|]. rewrite <-H1, <-H2, with_status_id. simpl in Hsvc. simpl.
    rewrite insert_id by done. by destruct c.
  - split; [done|]. intros x c1. unfold kube_law, changes. simpl in *. rewrite Hsvc. intros [-> ->].
    apply HQ. by exists conds.
Qed.

Lemma keyed_status_set svc ips new c c' : keyed c -> status_set svc ips new c c' -> keyed c'.
Proof.
  intros Hk (conds & _ & ->). apply (keyed_with_objects c KService); [done|].
  intros key o [[<- <-]|[_ Ho]]%lookup_insert_Some; [done|]. by apply (Hk Service KService).
Qed.

(** ** The pieces of a Service that is served *)

Lemma kwp_applyDaemonSet desired (Q : result unit -> Cluster -> Prop) c :
  keyed c ->
  Q (OK tt) (with_objects c KDaemonSet (<[name_of KDaemonSet desired := desired]> (daemonsets c))) ->
  kwp (applyDaemonSet desired) Q c.
Proof.
  intros Hk HQ.
  change (applyDaemonSet desired) with (ensure KDaemonSet desired
    (fun existing => bool_decide (ds_Spec existing = ds_Spec desired) &&
       bool_decide (ds_Labels existing = ds_Labels desired) &&
       bool_decide (ds_Annotations existing = ds_Annotations desired))
    (set_daemonset desired) "create daemonset: " "get daemonset: " "update daemonset: ").
  apply kwp_ensure; [done|done| |].
  - intros [n ns ls an sp] [[H1%bool_decide_eq_true H2%bool_decide_eq_true]%andb_true_iff
      H3%bool_decide_eq_true]%andb_true_iff. simpl in *. unfold updated, set_daemonset. simpl. by subst.
  - unfold ensured, settled. cbn [objects]. destruct (daemonsets c !! name_of KDaemonSet desired) as [o|] eqn:Ho; [|done].
    pose proof (Hk DaemonSet KDaemonSet _ o Ho) as Hname. unfold updated, set_daemonset.
    simpl in Hname. injection Hname as -> ->. by destruct desired.
Qed.

Lemma keyed_daemonset desired c : keyed c ->
  keyed (with_objects c KDaemonSet (<[name_of KDaemonSet desired := desired]> (daemonsets c))).
Proof.
  intros Hk. apply (keyed_with_objects c KDaemonSet); [done|].
  intros key o [[<- <-]|[_ Ho]]%lookup_insert_Some; [done|]. by apply (Hk DaemonSet KDaemonSet).
Qed.

(** The public addresses: those of the annotations of nodes that can be scheduled on. *)
Definition has_public_ip (all : list Node) (ip : string) : Prop :=
  exists n ann, n ∈ all /\ Unschedulable n = false /\ ann ∈ PublicIPAnnotations /\
    lookup_str (node_Annotations n) ann = ip /\ ip <> "".

Lemma add_node_ips_spec n anns ips : NoDup ips ->
  NoDup (add_node_ips n anns ips) /\
  forall ip, ip ∈ add_node_ips n anns ips <->
    ip ∈ ips \/ exists ann, ann ∈ anns /\ lookup_str (node_Annotations n) ann = ip /\ ip <> "".
Proof.
  revert ips. induction anns as [|ann anns IH]; intros ips Hnd; cbn [add_node_ips].
  { split; [done|]. intros ip. split; [auto|]. intros [?|(a & ?%not_elem_of_nil & _)]; done. }
  set (ip0 := lookup_str (node_Annotations n) ann). destruct (negb _ && _) eqn:Hnew.
  - apply andb_true_iff in Hnew as [H1%negb_true_iff%bool_decide_eq_false H2%negb_true_iff%bool_decide_eq_false].
    destruct (IH (ips ++ [ip0])) as [IH1 IH2].
    { apply NoDup_app. split_and!; [done| |apply NoDup_singleton]. by intros x Hx ->%list_elem_of_singleton. }
    split; [done|]. intros ip. rewrite IH2, elem_of_app, list_elem_of_singleton.
    setoid_rewrite elem_of_cons. split.
    + intros [[?| ->]|(a & ? & ? & ?)]; [by left|right; by exists ann; auto|right; exists a; auto].
    + intros [?|(a & [->|?] & <- & ?)]; [by left; left|by left; right|right; by exists a].
  - destruct (IH ips Hnd) as [IH1 IH2]. split; [done|]. intros ip. rewrite IH2. setoid_rewrite elem_of_cons.
    split; [intros [?|(a & ? & ? & ?)]; [by left|right; exists a; auto]|].
    intros [?|(a & [->|?] & <- & Hne)]; [by left| |right; by exists a]. left.
    apply andb_false_iff in Hnew as [H1%negb_false_iff%bool_decide_eq_true|H1%negb_false_iff%bool_decide_eq_true]; done.
Qed.

Lemma public_ips_spec all ips : NoDup ips ->
  NoDup (public_ips all ips) /\
  forall ip, ip ∈ public_ips all ips <-> ip ∈ ips \/ has_public_ip all ip.
Proof.
  unfold has_public_ip. revert ips. induction all as [|n all IH]; intros ips Hnd; cbn [public_ips].
  { split; [done|]. intros ip. split; [auto|]. intros [?|(n & a & ?%not_elem_of_nil & _)]; done. }
  assert (forall n', n' ∈ n :: all <-> n' = n \/ n' ∈ all) as Hcons by (intros; apply elem_of_cons).
  setoid_rewrite Hcons. destruct (Unschedulable n) eqn:Hu.
  - destruct (IH ips Hnd) as [IH1 IH2]. split; [done|]. intros ip. rewrite IH2. split.
    + intros [?|(n' & ann & ? & ?)]; [by left|right; exists n', ann; tauto].
    + intros [?|(n' & ann & [->|?] & ? & ?)]; [by left|congruence|right; by exists n', ann].
  - destruct (add_node_ips_spec n PublicIPAnnotations ips Hnd) as [H1 H2].
    destruct (IH _ H1) as [IH1 IH2]. split; [done|]. intros ip. rewrite IH2, H2. split.
    + intros [[?|(ann & ?)]|(n' & ann & ? & ?)]; [by left|right; exists n, ann; tauto|right; exists n', ann; tauto].
    + intros [?|(n' & ann & [->|?] & ? & ?)]; [by left; left|left; right; by exists ann|right; by exists n', ann].
Qed.

Definition cluster_ips (c : Cluster) : list string := sort_strings (public_ips (all_nodes c) []).

Lemma cluster_ips_spec c : StronglySorted String.le (cluster_ips c) /\ NoDup (cluster_ips c) /\
  forall ip, ip ∈ cluster_ips c <-> has_public_ip (all_nodes c) ip.
Proof.
  destruct (public_ips_spec (all_nodes c) []) as [H1 H2]; [constructor|]. unfold cluster_ips. split_and!.
  - apply sort_strings_sorted.
  - by rewrite sort_strings_perm.
  - intros ip. rewrite elem_of_sort_strings, H2. split; [|auto]. by intros [?%not_elem_of_nil|?].
Qed.

Lemma kwp_nodePublicIPs (Q : result (list string) -> Cluster -> Prop) c :
  Q (OK (cluster_ips c)) c -> kwp nodePublicIPs Q c.
Proof.
  intros HQ. apply wp_bindr, wp_wrapped. split; [done|]. intros x c1 (-> & items & -> & Hp).
  apply (list_all c KNode) in Hp. simpl.
  replace (sort_strings (public_ips items [])) with (cluster_ips c); [done|]. apply sort_strings_ext.
  destruct (public_ips_spec items []) as [H1 H2]; [constructor|].
  destruct (public_ips_spec (all_nodes c) []) as [H3 H4]; [constructor|].
  apply NoDup_Permutation; [done..|]. intros ip. rewrite H2, H4. unfold has_public_ip.
  by setoid_rewrite Hp.
Qed.

Definition endpoints_for (c : Cluster) (svc : Service) : ServiceEndpoints :=
  if bool_decide (lookup_str (svc_Annotations svc) AnnotationExternalTrafficPolicy = "Local") then
    match endpoints c !! name_of KService svc with
    | Some eps => endpointsByServicePort eps svc
    | None => ∅
    end
  else ∅.

Lemma kwp_serviceEndpoints svc (Q : result ServiceEndpoints -> Cluster -> Prop) c :
  Q (OK (endpoints_for c svc)) c -> kwp (serviceEndpoints svc) Q c.
Proof.
  unfold serviceEndpoints, endpoints_for. case_bool_decide; simpl; [|done]. intros HQ.
  split; [done|]. intros x c1 [-> Hx]. simpl in Hx.
  destruct (endpoints c !! (svc_Namespace svc, svc_Name svc)) as [eps|]; [by subst|].
  destruct Hx as (e & -> & He). by rewrite He.
Qed.

(** ** Names of LBPorts *)

Lemma cut_inj sep (a b s t : string) : no_char sep a -> no_char sep b ->
  a +:+ String sep s = b +:+ String sep t -> a = b /\ s = t.
Proof.
  intros Ha Hb Heq. pose proof (cut_app a s sep Ha) as H1. rewrite Heq, cut_app in H1 by done.
  by injection H1.
Qed.

Lemma fmt_d_neg n : n < 0 -> fmt_d n = String "-" (fmt_d (- n)).
Proof. by destruct n. Qed.

Lemma fmt_d_head n : 0 <= n -> exists c s, fmt_d n = String c s /\ is_digit c = true.
Proof.
  intros Hn. pose proof (fmt_d_digits n Hn) as Hd. destruct (fmt_d n) as [|c s] eqn:Heq.
  - by destruct (fmt_d_nonempty n).
  - exists c, s. simpl in Hd. apply andb_true_iff in Hd as [? _]. done.
Qed.

(** A number followed by a dash can be read back, even a negative one. *)
Lemma fmt_d_dash_inj a b s t :
  fmt_d a +:+ String "-" s = fmt_d b +:+ String "-" t -> fmt_d a = fmt_d b /\ s = t.
Proof.
  assert (forall n, 0 <= n -> no_char "-" (fmt_d n)) as Hdash.
  { intros n Hn. apply digits_no_char; [done|]. by apply fmt_d_digits. }
  assert (forall a b s t, a < 0 -> 0 <= b -> fmt_d a +:+ String "-" s <> fmt_d b +:+ String "-" t) as Hmixed.
  { intros a' b' s' t' Ha Hb. rewrite (fmt_d_neg a') by done.
    destruct (fmt_d_head b' Hb) as (c & u & -> & Hc). rewrite !app_string_cons. by intros [= <- _]. }
  destruct (decide (a < 0)) as [Ha|Ha], (decide (b < 0)) as [Hb|Hb]; intros Heq.
  - rewrite (fmt_d_neg a), (fmt_d_neg b), !app_string_cons in Heq by done. injection Heq as Heq.
    apply cut_inj in Heq as [H1 H2]; [|apply Hdash; lia..].
    split; [|done]. rewrite (fmt_d_neg a), (fmt_d_neg b) by done. by f_equal.
  - exfalso. by apply Hmixed in Heq; [..|lia].
  - exfalso. symmetry in Heq. by apply Hmixed in Heq; [..|lia].
  - apply cut_inj in Heq; [done|apply Hdash; lia..].
Qed.

Lemma lower_port_protocol p :
  (if bool_decide (ToLower (port_Protocol p) = "") then ToLower ProtocolTCP else ToLower (port_Protocol p)) =
  ToLower (normalizedProtocol (port_protocol p)).
Proof.
  unfold port_protocol, normalizedProtocol.
  destruct (bool_decide_reflect (port_Protocol p = "")) as [->|Hp]; [done|].
  rewrite !bool_decide_false; [done|done|]. unfold ToLower. by rewrite string_map_inv_nil.
Qed.

Lemma LBPortName_key svc ns p q :
  LBPortName svc p = LBPortName svc q ->
  lbport_portKey (lbport_for svc ns p) = lbport_portKey (lbport_for svc ns q).
Proof.
  unfold LBPortName, lbport_portKey, portKey. simpl. rewrite !lower_port_protocol.
  intros H. apply app_string_inj_l in H. apply app_string_inj_l in H.
  apply (app_string_inj_l "-") in H. apply app_string_inj_l in H. apply (app_string_inj_l "-") in H.
  apply fmt_d_dash_inj in H as [-> ->]. done.
Qed.

Lemma NoDup_fmap_from {A B C} (f : A -> B) (g : A -> C) (l : list A) :
  (forall x y, f x = f y -> g x = g y) -> NoDup (g <$> l) -> NoDup (f <$> l).
Proof.
  intros Hfg. induction l as [|x l IH]; [constructor|]. rewrite !fmap_cons, !NoDup_cons.
  intros [Hx Hl]. split; [|by apply IH]. intros (y & Hy & Hin)%list_elem_of_fmap. apply Hx.
  apply list_elem_of_fmap. exists y. split; [by apply Hfg|done].
Qed.

Section spec.
Context `{LabelSelectors}.

Lemma built_names c svc ports : built c svc = OK ports ->
  NoDup (lbport_portKey <$> ports) -> NoDup (lbp_Name <$> ports).
Proof.
  unfold built. rewrite bind_result_ok. intros (ns & _ & [= <-]). rewrite <-!list_fmap_compose.
  apply NoDup_fmap_from. apply LBPortName_key.
Qed.

(** ** One reconcile *)

(** The Service is served: its DaemonSet is the one built for it, its LBPorts and
    DNS records are the ones built for it and there are no others, its LBPorts list
    only schedulable nodes as applied, and its status lists the public addresses. *)
Definition served (svc : Service) (ports : list LBPort) (ds : DaemonSet) (c c' : Cluster) : Prop :=
  exists m_ports m_records,
    lbports_applied ports svc (lbports c) m_ports /\
    dnsrecords_applied (BuildDNSRecords svc (cluster_ips c)) svc (dnsrecords c) m_records /\
    status_set svc (cluster_ips c) (success_conditions svc)
      (MkCluster (services c) (nodes c) (endpoints c)
         (<[name_of KDaemonSet ds := ds]> (daemonsets c))
         (statuses_pruned (schedulable (all_nodes c)) (serviceLabels svc) m_ports)
         m_records) c'.

(** The Service is not served: its status says why and its objects are taken away. *)
Definition rejected (r : ServiceReconciler) (svc : Service) (conds : list Condition) (c c' : Cluster) : Prop :=
  exists c1, status_set svc [] conds c c1 /\
    c' = cleaned r (svc_Namespace svc) (svc_Name svc) cleanupForceDelete c1.

Definition invalid_conditions (svc : Service) (reason : string) (cause : error) : list Condition :=
  let msg := Error cause in
  [serviceCondition svc ConditionInvalidService ConditionTrue reason msg;
   serviceCondition svc ConditionReconciled ConditionFalse reason msg;
   serviceCondition svc ConditionPortConflict ConditionFalse "NoConflict" "No port conflict detected";
   serviceCondition svc ConditionNoReadyEndpoint ConditionFalse "ReadyEndpointsFound"
     "Ready endpoints are available or not required"].

(** externalTrafficPolicy=Local without an endpoint that is ready. *)
Definition starved (c : Cluster) (svc : Service) : Prop :=
  lookup_str (svc_Annotations svc) AnnotationExternalTrafficPolicy = "Local" /\
  endpoints_empty (endpoints_for c svc) = true.

Inductive reconciled (r : ServiceReconciler) (req : NamespacedName) (c c' : Cluster) : Prop :=
| reconciled_gone :
    services c !! req = None ->
    c' = cleaned r (fst req) (snd req) cleanupHonorKeep c -> reconciled r req c c'
| reconciled_not_ours svc :
    services c !! req = Some svc -> ServiceMatches svc = false ->
    c' = cleaned r (svc_Namespace svc) (svc_Name svc) (cleanupModeForService svc) c -> reconciled r req c c'
| reconciled_starved svc :
    services c !! req = Some svc -> ServiceMatches svc = true -> starved c svc ->
    rejected r svc (no_endpoints_conditions svc) c c' -> reconciled r req c c'
| reconciled_invalid_ports svc e :
    services c !! req = Some svc -> ServiceMatches svc = true -> ~ starved c svc ->
    built c svc = Fail e ->
    rejected r svc (invalid_conditions svc "InvalidAnnotation" e) c c' -> reconciled r req c c'
| reconciled_conflict svc ports conflict :
    services c !! req = Some svc -> ServiceMatches svc = true -> ~ starved c svc ->
    built c svc = OK ports -> ~ conflict_free c svc ports ->
    rejected r svc (conflict_conditions svc conflict) c c' -> reconciled r req c c'
| reconciled_invalid_service svc ports e :
    services c !! req = Some svc -> ServiceMatches svc = true -> ~ starved c svc ->
    built c svc = OK ports -> conflict_free c svc ports ->
    BuildDaemonSet svc (sr_Image r) (sr_Namespace r) (endpoints_for c svc) = Fail e ->
    rejected r svc (invalid_conditions svc "InvalidService" e) c c' -> reconciled r req c c'
| reconciled_served svc ports ds :
    services c !! req = Some svc -> ServiceMatches svc = true -> ~ starved c svc ->
    built c svc = OK ports -> conflict_free c svc ports ->
    BuildDaemonSet svc (sr_Image r) (sr_Namespace r) (endpoints_for c svc) = OK ds ->
    served svc ports ds c c' -> reconciled r req c c'.

Lemma kwp_eventf r svc ty reason msg (Q : unit -> Cluster -> Prop) c : Q tt c -> kwp (eventf r svc ty reason msg) Q c.
Proof. intros HQ. unfold eventf. destruct (EventRecorder r); [|done]. split; [done|]. by intros [] ? ->. Qed.

(** The three steps of every branch that turns a Service down. *)
Lemma kwp_reject r svc ty reason msg prefix conds (Q : result unit -> Cluster -> Prop) c :
  keyed c -> services c !! name_of KService svc = Some svc ->
  (forall c', rejected r svc conds c c' -> Q (OK tt) c') ->
  kwp (let* _ := eventf r svc ty reason msg in
       let? _ := wrapped prefix (updateStatus svc [] conds) in
       cleanupByName r (svc_Namespace svc) (svc_Name svc) cleanupForceDelete) Q c.
Proof.
  intros Hk Hsvc HQ. apply wp_bind, kwp_eventf, wp_bindr, wp_wrapped, kwp_updateStatus; [done|].
  intros c1 Hc1. cbn beta iota delta [wrap_result]. apply kwp_cleanupByName; [by eapply keyed_status_set|].
  apply HQ. by exists c1.
Qed.

Lemma keyed_pruned valid ls c m : keyed (with_objects c KLBPort m) ->
  keyed (with_objects c KLBPort (statuses_pruned valid ls m)).
Proof.
  intros Hk. rewrite <-(with_objects_twice c KLBPort m).
  apply (keyed_with_objects (with_objects c KLBPort m) KLBPort); [done|].
  intros key l. unfold statuses_pruned. rewrite lookup_fmap. intros (l0 & Hl0 & ->)%fmap_Some.
  pose proof (Hk LBPort KLBPort key l0) as Hname. simpl in Hname. case_decide; by apply Hname.
Qed.

Lemma BuildDaemonSet_name svc image ns E ds : BuildDaemonSet svc image ns E = OK ds ->
  ds_Namespace ds = ns /\ ds_Name ds = DaemonSetName svc /\ ds_Labels ds = serviceLabels svc /\
  ds_Annotations ds = daemonSetAnnotations svc.
Proof.
  unfold BuildDaemonSet. destruct (splitClusterIPs svc). destruct (_ && _); [done|].
  destruct (bool_decide (length _ = _)); [done|]. destruct (find _ _); [done|].
  rewrite bind_result_ok. intros ([? ?] & _ & Hds). apply bind_result_ok in Hds as ([? ?] & _ & [= <-]). done.
Qed.

Lemma kwp_serve_service r svc ports ds (Q : result unit -> Cluster -> Prop) c :
  keyed c -> services c !! name_of KService svc = Some svc -> NoDup (lbp_Name <$> ports) ->
  (forall c', served svc ports ds c c' -> Q (OK tt) c') ->
  kwp (serve_service r svc ports ds) Q c.
Proof.
  intros Hk Hsvc Hnd HQ. unfold serve_service.
  apply wp_bindr, kwp_applyDaemonSet; [done|]. set (c1 := with_objects c KDaemonSet _).
  assert (keyed c1) as Hk1 by by apply keyed_daemonset.
  apply wp_bindr, kwp_applyLBPorts; [done..|]. intros m1 Hm1.
  assert (keyed (with_objects c1 KLBPort m1)) as Hk2.
  { eapply (keyed_applied KLBPort); [done| |exact Hm1]. done. }
  apply wp_bind, kwp_pruneStaleAppliedNodes; [done|]. rewrite with_objects_twice.
  change (all_nodes (with_objects c1 KLBPort m1)) with (all_nodes c).
  change (lbports (with_objects c1 KLBPort m1)) with m1. set (m2 := statuses_pruned _ _ m1).
  assert (keyed (with_objects c1 KLBPort m2)) as Hk3 by by apply keyed_pruned.
  apply wp_bind, kwp_emitLBPortEvents. apply wp_bindr, kwp_nodePublicIPs.
  change (cluster_ips (with_objects c1 KLBPort m2)) with (cluster_ips c).
  apply wp_bindr, wp_wrapped, kwp_applyDNSRecords; [done|apply BuildDNSRecords_names|]. intros m3 Hm3. cbn beta iota delta [wrap_result].
  apply wp_bindr, wp_wrapped, kwp_updateStatus; [done|].
  intros c' Hc'. cbn beta iota delta [wrap_result]. apply wp_bind, kwp_eventf, HQ. exists m1, m3. split; [done|]. split; [done|]. exact Hc'.
Qed.

Lemma kwp_reconcile_ports r svc (Q : result unit -> Cluster -> Prop) c :
  keyed c -> node_names_ok c -> services c !! name_of KService svc = Some svc ->
  ServiceMatches svc = true -> ~ starved c svc ->
  (forall c', reconciled r (name_of KService svc) c c' -> Q (OK tt) c') ->
  kwp (reconcile_ports r svc (endpoints_for c svc)) Q c.
Proof.
  intros Hk Hn Hsvc Hm Hst HQ. unfold reconcile_ports. apply wp_bind, kwp_BuildLBPorts.
  destruct (built c svc) as [ports|e] eqn:Hb.
  2: { apply (kwp_reject r svc); [done..|]. intros c' Hc'. apply HQ.
       by eapply reconciled_invalid_ports. }
  apply wp_bindr, wp_wrapped, kwp_detectPortConflict; [done|done|by eapply built_proper|].
  intros [conflict|] Hcf; cbn beta iota delta [wrap_result].
  { apply (kwp_reject r svc); [done..|]. intros c' Hc'. apply HQ.
    eapply reconciled_conflict; [done..| |exact Hc']. intros Hfree. by apply Hcf in Hfree. }
  assert (conflict_free c svc ports) as Hfree by by apply Hcf.
  destruct (BuildDaemonSet _ _ _ _) as [ds|e] eqn:Hds.
  2: { apply (kwp_reject r svc); [done..|]. intros c' Hc'. apply HQ.
       by eapply reconciled_invalid_service. }
  apply kwp_serve_service; [done|done| |].
  - eapply built_names; [done|]. by destruct Hfree.
  - intros c' Hc'. apply HQ. by eapply reconciled_served.
Qed.

Lemma kwp_Reconcile r req (Q : result unit -> Cluster -> Prop) c :
  keyed c -> node_names_ok c ->
  (forall c', reconciled r req c c' -> Q (OK tt) c') -> kwp (Reconcile r req) Q c.
Proof.
  intros Hk Hn HQ. split; [done|]. intros x c1 [-> Hx]. simpl in Hx.
  destruct (services c !! req) as [svc|] eqn:Hsvc.
  2: { destruct Hx as (e & -> & He). cbn beta iota delta [bind]. rewrite He. apply kwp_cleanupByName; [done|].
       apply HQ. by apply reconciled_gone. }
  subst x. cbn beta iota delta [bind]. pose proof (Hk Service KService req svc Hsvc) as Hname.
  destruct (ServiceMatches svc) eqn:Hm; cbn beta iota delta [negb].
  2: { apply kwp_cleanupByName; [done|]. apply HQ. by eapply reconciled_not_ours. }
  apply wp_bindr, wp_wrapped, kwp_serviceEndpoints. cbn beta iota delta [wrap_result]. rewrite <-Hname in Hsvc.
  destruct (bool_decide _ && _) eqn:Hst.
  - apply andb_true_iff in Hst as [Hl%bool_decide_eq_true He].
    apply (kwp_reject r svc); [done..|]. intros c' Hc'. apply HQ. rewrite <-Hname. by eapply reconciled_starved.
  - apply kwp_reconcile_ports; [done..| |by rewrite Hname]. intros [Hl He].
    rewrite He, bool_decide_true in Hst by done. done.
Qed.

(** The specification is deterministic about which case applies. *)
Lemma reconciled_served_inv r req c c' svc ports ds :
  services c !! req = Some svc -> ServiceMatches svc = true -> ~ starved c svc ->
  built c svc = OK ports -> conflict_free c svc ports ->
  BuildDaemonSet svc (sr_Image r) (sr_Namespace r) (endpoints_for c svc) = OK ds ->
  reconciled r req c c' -> served svc ports ds c c'.
Proof.
  intros Hsvc Hmatch Hready Hbuilt Hfree Hds Hrec.
  destruct Hrec; repeat match goal with
    | H1 : ?a = OK _, H2 : ?a = _ |- _ => rewrite H1 in H2; simplify_eq
    | H1 : ?a = Some _, H2 : ?a = _ |- _ => rewrite H1 in H2; simplify_eq
    end; congruence || done.
Qed.
End spec.

(** C1: One reconcile, over any API server that behaves as documented and whatever
    the cluster holds: it succeeds, and it leads to the cluster the specification
    [reconciled] says. A Service that is gone, not bulb's, without ready
    endpoints, invalid or in conflict has its objects taken away (under the rules
    on ownership and keep-on-uninstall) and its status says why; any other has its
    DaemonSet, LBPorts and DNS records brought to what is built for it, and its
    status lists the public addresses of the schedulable nodes. *)
Theorem Reconcile_refines `{LabelSelectors} {W} (h : handler KubeE W) (view : W -> Cluster)
    (Hserver : KubeServer h view) (r : ServiceReconciler) (req : NamespacedName) (w : W)
    (Hkeyed : keyed (view w)) (Hnodes : node_names_ok (view w)) :
  fst (run h (Reconcile r req) w) = OK tt /\
  reconciled r req (view w) (view (snd (run h (Reconcile r req) w))).
Proof.
  apply (kwp_run h view (Reconcile r req) (fun res c => res = OK tt /\ reconciled r req (view w) c)).
  by apply kwp_Reconcile.
Qed.

Definition sample_reconciler : ServiceReconciler := MkServiceReconciler true "bulb-system" "bulb:1".

Lemma Reconcile_refines_witness :
  fst (run sim_server (@Reconcile equality_selectors sample_reconciler ("demo", "web")) two_services) = OK tt /\
  @reconciled equality_selectors sample_reconciler ("demo", "web") two_services
    (snd (run sim_server (@Reconcile equality_selectors sample_reconciler ("demo", "web")) two_services)).
Proof.
  exact (@Reconcile_refines equality_selectors Cluster sim_server id sim_server_law sample_reconciler
    ("demo", "web") two_services (sample_keyed _ _) (sample_nodes_ok _ _)).
Defined.
