(* ===== verification/ReconcileSafety.v ===== *)
(** * ReconcileSafety: what one reconcile may write, whatever the API server answers

    The theorem of this file holds for any answers: errors, stale reads, objects
    that changed in between. It bounds the requests of the controller's [Reconcile]
    that change something. *)
From S2P Require Import Prelude GoStrings Effects ApiTypes FwPorts GoNet Kube KubeApply LBPorts Conflicts DaemonSets DnsRecords ServiceReconciler ReconcileSpec.
Open Scope Z_scope.

(** Reduce to the next request. *)
Ltac advance := cbn beta iota zeta delta [negb wrap_result].

(** ** Requests that change nothing *)

Definition is_read (X : Type) (e : KubeE X) : Prop :=
  match e with
  | Get _ _ | List _ _ | SetStatusCondition _ _ | Eventf _ _ _ _ => True
  | _ => False
  end.

(** [p] only reads, and what it returns satisfies [Q]. *)
Definition reader {A} (p : prog KubeE A) (Q : A -> Prop) : Prop :=
  wp (fun X e (_ : unit) => is_read X e) (fun _ _ _ _ _ => True) p (fun a _ => Q a) tt.

Lemma reader_mono {A} (p : prog KubeE A) (Q Q' : A -> Prop) :
  (forall a, Q a -> Q' a) -> reader p Q -> reader p Q'.
Proof. intros HQ. apply wp_mono. auto. Qed.

Lemma reader_bind {A B} (p : prog KubeE A) (k : A -> prog KubeE B) Q :
  reader p (fun a => reader (k a) Q) -> reader (bind p k) Q.
Proof. intros Hp. apply wp_bind. eapply wp_mono; [|exact Hp]. by intros a []. Qed.

Lemma reader_bindr {A B} (p : prog KubeE (result A)) (k : A -> prog KubeE (result B)) Q :
  reader p (fun r => match r with OK a => reader (k a) Q | Fail e => Q (Fail e) end) ->
  reader (bindr p k) Q.
Proof. intros Hp. apply reader_bind. eapply reader_mono; [|exact Hp]. by intros []. Qed.

Lemma reader_wrapped {A} prefix (p : prog KubeE (result A)) Q :
  reader p (fun r => Q (wrap_result prefix r)) -> reader (wrapped prefix p) Q.
Proof. intros Hp. by apply reader_bind. Qed.

Lemma reader_call {X} (e : KubeE X) (Q : X -> Prop) : is_read X e -> (forall x, Q x) -> reader (call e) Q.
Proof. intros He HQ. split; [done|]. intros x [] _. apply HQ. Qed.

Section readers.
Context `{LabelSelectors}.

Lemma reader_BuildLBPorts svc (Q : result (list LBPort) -> Prop) :
  (forall ns, Q (OK (lbport_for svc ns <$> svc_Ports svc))) -> (forall e, Q (Fail e)) -> reader (BuildLBPorts svc) Q.
Proof.
  intros HQ Hf. apply reader_bindr. unfold lbPortNodes. case_bool_decide; [apply HQ|].
  destruct (wrap_result _ (ParseToLabelSelector _)) as [spec|e]; [|apply Hf].
  destruct (wrap_result _ (LabelSelectorAsSelector spec)) as [sel|e]; [|apply Hf].
  apply reader_bindr, reader_wrapped, reader_call; [done|]. intros [nodes|e]; [apply HQ|apply Hf].
Qed.

Lemma reader_ownerConflict desired (Q : result (option portConflict) -> Prop) :
  (forall r, Q r) -> reader (lbPortOwnerConflict desired) Q.
Proof.
  intros HQ. induction desired as [|want desired IH]; [apply HQ|]. apply reader_bind, reader_call; [done|].
  intros [o|e]; advance.
  - destruct (_ && _); [apply HQ|]. destruct (sameStringMap _ _); [apply IH|apply HQ].
  - destruct (IsNotFound e); [apply IH|apply HQ].
Qed.

Lemma reader_service_loop svc desired items (Q : result (option portConflict) -> Prop) :
  (forall r, Q r) -> reader (service_loop svc desired items) Q.
Proof.
  intros HQ. induction items as [|other items IH]; [apply HQ|]. cbn [service_loop].
  destruct (bool_decide _ && _); [apply IH|]. destruct (ServiceMatches other); [|apply IH]. advance.
  apply reader_bind, reader_BuildLBPorts; [|intros e; apply IH]. intros ns. advance.
  destruct (overlappingPortConflict _ _ _ _); [apply HQ|apply IH].
Qed.

Lemma reader_detectPortConflict svc desired (Q : result (option portConflict) -> Prop) :
  (forall r, Q r) -> reader (detectPortConflict svc desired) Q.
Proof.
  intros HQ. unfold detectPortConflict. destruct (duplicateServicePortConflict svc desired); [apply HQ|].
  apply reader_bindr, reader_ownerConflict. intros [[cf|]|e]; [apply HQ| |apply HQ].
  apply reader_bindr, reader_wrapped, reader_call; [done|]. intros [items|e]; [|apply HQ].
  by apply reader_service_loop.
Qed.
End readers.

Lemma reader_nodePublicIPs (Q : result (list string) -> Prop) : (forall r, Q r) -> reader nodePublicIPs Q.
Proof. intros HQ. apply reader_bindr, reader_wrapped, reader_call; [done|]. intros [?|?]; apply HQ. Qed.

Lemma reader_serviceEndpoints svc (Q : result ServiceEndpoints -> Prop) :
  (forall r, Q r) -> reader (serviceEndpoints svc) Q.
Proof.
  intros HQ. unfold serviceEndpoints. case_bool_decide; [|apply HQ]. advance. apply reader_bind, reader_call; [done|].
  intros [eps|e]; [apply HQ|]. advance. destruct (IsNotFound e); apply HQ.
Qed.

Lemma reader_eventf r svc ty reason msg (Q : unit -> Prop) : Q tt -> reader (eventf r svc ty reason msg) Q.
Proof. intros HQ. unfold eventf. destruct (EventRecorder r); [|exact HQ]. apply reader_call; [done|]. by intros []. Qed.

Lemma reader_emit r svc (Q : unit -> Prop) : Q tt -> reader (emitLBPortEvents r svc) Q.
Proof.
  intros HQ. unfold emitLBPortEvents. destruct (EventRecorder r); [|exact HQ]. advance. apply reader_bind, reader_call; [done|].
  intros [ns|e]; [|exact HQ]. apply reader_bind, reader_call; [done|]. intros [items|e]; [|exact HQ].
  apply (wp_for_all_do _ _ _ _ (fun _ _ => True)); [done|by intros []|]. intros l l' [] _. unfold lbport_event.
  destruct (_ && _); [split; [done|]; by intros|]. destruct (_ && _); [|done]. split; [done|]; by intros.
Qed.

(** ** What may be written *)

(** An object that was listed by the labels of the Service. *)
Definition listed_before {T} (k : Kind T) (own : NamespacedName) (o : T) (before : list (event KubeE)) : Prop :=
  exists items, Ev (List k (labels_for (fst own) (snd own))) (OK items) ∈ before /\ o ∈ items.

(** A status update that takes away nodes of a listed object, and nothing else. *)
Definition status_shrinks (own : NamespacedName) (l : LBPort) (before : list (event KubeE)) : Prop :=
  exists item latest, listed_before KLBPort own item before /\
    last before = Some (Ev (Get KLBPort ("", lbp_Name item)) (OK latest)) /\
    l = with_applied (AppliedNodes (lbp_Status l)) latest /\
    AppliedNodes (lbp_Status l) ⊆ AppliedNodes (lbp_Status item).

(** An existing object brought to what is wanted. *)
Definition merged {T} (k : Kind T) : T -> T -> T :=
  match k in Kind T return T -> T -> T with
  | KDaemonSet => set_daemonset
  | KLBPort => set_lbport
  | KDNSRecord => set_dnsrecord
  | _ => fun want _ => want
  end.

(** The objects built for a Service; LBPorts only if its DaemonSet can be built. *)
Definition built_for `{LabelSelectors} (r : ServiceReconciler) (svc : Service) (T : Type) (k : Kind T) : T -> Prop :=
  match k in Kind T return T -> Prop with
  | KDaemonSet => fun ds => exists eps, BuildDaemonSet svc (sr_Image r) (sr_Namespace r) eps = OK ds
  | KLBPort => fun l => (exists eps ds, BuildDaemonSet svc (sr_Image r) (sr_Namespace r) eps = OK ds) /\
      exists ns p, p ∈ svc_Ports svc /\ l = lbport_for svc ns p
  | KDNSRecord => fun d => exists ips, d ∈ BuildDNSRecords svc ips
  | _ => fun _ => False
  end.

(** The update of an object, just after it was read. *)
Definition update_ok {T} (made : T -> Prop) (k : Kind T) (o : T) (before : list (event KubeE)) : Prop :=
  exists want existing, made want /\ o = merged k want existing /\
    last before = Some (Ev (Get k (name_of k want)) (OK existing)).

Definition delete_ok (r : ServiceReconciler) (own : NamespacedName) (before : list (event KubeE))
    {T} (k : Kind T) : T -> Prop :=
  match k in Kind T return T -> Prop with
  | KDaemonSet => fun ds => owned ds (fst own) (snd own) = true /\
      last before = Some (Ev (Get KDaemonSet (ds_key r (fst own) (snd own))) (OK ds))
  | KLBPort => fun l => listed_before KLBPort own l before
  | KDNSRecord => fun d => listed_before KDNSRecord own d before
  | _ => fun _ => False
  end.

Definition patch_ok (own : NamespacedName) {T} (k : Kind T) : T -> T -> Prop :=
  match k in Kind T return T -> T -> Prop with
  | KService => fun obj base => name_of KService base = own /\
      obj = with_status (svc_Ingress obj) (svc_Conditions obj) base
  | _ => fun _ _ => False
  end.

(** The requests that may be made for the Service [own], [made] being the objects built
    for it, after the exchange [before]. *)
Definition write_ok (r : ServiceReconciler) (own : NamespacedName) (made : forall T, Kind T -> T -> Prop)
    (X : Type) (e : KubeE X) (before : list (event KubeE)) : Prop :=
  match e with
  | Get _ _ | List _ _ | SetStatusCondition _ _ | Eventf _ _ _ _ => True
  | Create k obj => made _ k obj
  | Update k obj => update_ok (made _ k) k obj before
  | Delete k obj => delete_ok r own before k obj
  | StatusUpdate k obj =>
      match k in Kind T return T -> Prop with
      | KLBPort => fun l => status_shrinks own l before
      | _ => fun _ => False
      end obj
  | StatusPatch k obj base => patch_ok own k obj base
  end.

Section safe.
Context (r : ServiceReconciler) (own : NamespacedName) (made : forall T, Kind T -> T -> Prop).

Abbreviation swp := (wp (write_ok r own made) trace_step).

Lemma swp_reader {A} (p : prog KubeE A) (Q0 : A -> Prop) (Q : A -> list (event KubeE) -> Prop) s :
  reader p Q0 -> (forall a s', Q0 a -> s `prefix_of` s' -> Q a s') -> swp p Q s.
Proof.
  unfold reader. intros Hp HQ. assert (s `prefix_of` s) as Hpre by done.
  assert (forall s', s `prefix_of` s' -> swp p Q s') as Hgen; [|by apply Hgen]. clear Hpre.
  revert Hp. induction p as [a|X e k IH]; intros Hp s' Hs'; simpl in *; [by apply HQ|].
  destruct Hp as [He Hp]. split; [by destruct e|]. intros x s'' ->. apply (IH x); [by apply (Hp x tt)|].
  etrans; [exact Hs'|]. by apply prefix_app_r.
Qed.

(** A subprogram that may end with any result. *)
Lemma swp_any {A} (p : prog KubeE A) (Q : A -> list (event KubeE) -> Prop) s :
  reader p (fun _ => True) -> (forall a s', Q a s') -> swp p Q s.
Proof. intros Hp HQ. eapply swp_reader; [exact Hp|auto]. Qed.

Lemma swp_call {X} (e : KubeE X) (Q : X -> list (event KubeE) -> Prop) s :
  write_ok r own made X e s -> (forall x, Q x (s ++ [Ev e x])) -> swp (call e) Q s.
Proof. intros He HQ. split; [done|]. intros x s' ->. apply HQ. Qed.

(** A loop over listed objects whose body keeps the list event in the exchange. *)
Lemma swp_listed_loop {T} (items : list T) (body : T -> prog KubeE (result unit)) (ev : event KubeE)
    (Q : result unit -> list (event KubeE) -> Prop) s :
  ev ∈ s -> (forall res s', Q res s') ->
  (forall item s' (Q' : result unit -> list (event KubeE) -> Prop), item ∈ items -> ev ∈ s' ->
     (forall res s'', ev ∈ s'' -> Q' res s'') -> swp (body item) Q' s') ->
  swp (for_each items body) Q s.
Proof.
  intros Hev HQ Hbody. revert s Hev. induction items as [|item items IH]; intros s Hev; [apply HQ|].
  apply wp_bindr, Hbody; [by left|done|]. intros [[]|e] s' Hev'; [|apply HQ].
  apply IH; [|done]. intros item' s'' Q' Hin. apply Hbody. by right.
Qed.

Lemma swp_delete {T} (k : Kind T) (item : T) (p : result unit -> prog KubeE (result unit)) ev
    (Q : result unit -> list (event KubeE) -> Prop) s :
  ev ∈ s -> write_ok r own made _ (Delete k item) s ->
  (forall x, exists res, p x = Ret res) -> (forall res s', ev ∈ s' -> Q res s') ->
  swp (bind (call (Delete k item)) p) Q s.
Proof.
  intros Hev Hok Hp HQ. apply wp_bind, swp_call; [done|]. intros x. destruct (Hp x) as [res ->].
  apply HQ. apply elem_of_app. by left.
Qed.

Lemma swp_updateStatus svc ips conds (Q : result unit -> list (event KubeE) -> Prop) s :
  name_of KService svc = own -> (forall res s', Q res s') -> swp (updateStatus svc ips conds) Q s.
Proof.
  intros Hown HQ. unfold updateStatus. apply wp_bind, swp_any.
  - generalize (svc_Conditions svc). induction conds as [|c conds IH]; intros l; [done|].
    apply reader_bind, reader_call; [done|]. intros x. apply IH.
  - intros l s'. destruct (_ && _); [apply HQ|]. apply swp_call; [|by intros; apply HQ]. by split.
Qed.

Lemma swp_cleanupLBPorts (Q : result unit -> list (event KubeE) -> Prop) s :
  (forall res s', Q res s') -> swp (cleanupLBPorts (fst own) (snd own)) Q s.
Proof.
  intros HQ. apply wp_bindr, wp_wrapped, swp_call; [done|]. intros [items|e]; [|apply HQ].
  eapply swp_listed_loop; [by apply elem_of_app; right; left|done|].
  intros item s' Q' Hin Hev HQ'. eapply swp_delete; [exact Hev| | |exact HQ'].
  - by exists items.
  - intros [[]|e]; [by eexists|]. destruct (IsNotFound e); by eexists.
Qed.

Lemma swp_cleanupDNSRecords (Q : result unit -> list (event KubeE) -> Prop) s :
  (forall res s', Q res s') -> swp (cleanupDNSRecordsByName (fst own) (snd own)) Q s.
Proof.
  intros HQ. apply wp_bindr, wp_wrapped, swp_call; [done|]. intros [items|e]; [|apply HQ].
  eapply swp_listed_loop; [by apply elem_of_app; right; left|done|].
  intros item s' Q' Hin Hev HQ'. eapply swp_delete; [exact Hev| | |exact HQ'].
  - by exists items.
  - intros [[]|e]; [by eexists|]. destruct (IsNotFound e); by eexists.
Qed.

Lemma swp_cleanup_both (Q : result unit -> list (event KubeE) -> Prop) s :
  (forall res s', Q res s') ->
  swp (let? _ := cleanupLBPorts (fst own) (snd own) in
       let? _ := cleanupDNSRecordsByName (fst own) (snd own) in Ret (OK tt)) Q s.
Proof.
  intros HQ. apply wp_bindr, swp_cleanupLBPorts. intros [[]|e] s1; [|apply HQ].
  apply wp_bindr, swp_cleanupDNSRecords. intros [[]|e] s2; apply HQ.
Qed.

Lemma swp_cleanupByName mode (Q : result unit -> list (event KubeE) -> Prop) s :
  (forall res s', Q res s') -> swp (cleanupByName r (fst own) (snd own) mode) Q s.
Proof.
  intros HQ. apply wp_bind, swp_call; [done|]. intros [ds|e].
  - destruct (owned ds (fst own) (snd own)) eqn:Hown; [|apply HQ]. cbn beta iota delta [negb].
    apply wp_bindr. destruct (deletes mode ds); [|by apply swp_cleanup_both].
    apply wp_bind, swp_call; [by split; [|rewrite last_snoc]|].
    intros [[]|e]; [by apply swp_cleanup_both|].
    destruct (IsNotFound e); [by apply swp_cleanup_both|apply HQ].
  - destruct (IsNotFound e); [|apply HQ]. by apply swp_cleanup_both.
Qed.

Lemma swp_applyDaemonSet ds (Q : result unit -> list (event KubeE) -> Prop) s :
  made _ KDaemonSet ds -> (forall res s', Q res s') -> swp (applyDaemonSet ds) Q s.
Proof.
  intros Hds HQ. apply wp_bind, swp_call; [done|]. intros [o|e]; advance.
  - destruct (_ && _); [apply HQ|]. apply wp_wrapped, swp_call; [|intros; apply HQ].
    exists ds, o. split_and!; [done..|]. by rewrite last_snoc.
  - destruct (IsNotFound e); [|apply HQ]. apply wp_wrapped, swp_call; [done|]. intros; apply HQ.
Qed.

Lemma swp_apply_all {A} (l : list A) (body : A -> prog KubeE (result unit))
    (Q : result unit -> list (event KubeE) -> Prop) s :
  (forall x s' Q', x ∈ l -> (forall res s'', Q' res s'') -> swp (body x) Q' s') ->
  (forall res s', Q res s') -> swp (for_each l body) Q s.
Proof.
  intros Hbody HQ. revert s. induction l as [|x l IH]; intros s; [apply HQ|].
  apply wp_bindr, Hbody; [by left|]. intros [[]|e] s'; [|apply HQ].
  apply IH. intros x' s'' Q' Hx. apply Hbody. by right.
Qed.

Lemma own_labels svc : name_of KService svc = own -> serviceLabels svc = labels_for (fst own) (snd own).
Proof. intros Hown. unfold serviceLabels. by rewrite <-Hown. Qed.

Lemma swp_applyLBPorts ports svc (Q : result unit -> list (event KubeE) -> Prop) s :
  name_of KService svc = own ->
  Forall (made _ KLBPort) ports ->
  (forall res s', Q res s') -> swp (applyLBPorts r ports svc) Q s.
Proof.
  intros Hown Hports HQ. unfold applyLBPorts. rewrite (own_labels svc Hown) in *.
  rewrite Forall_forall in Hports. apply wp_bindr, swp_apply_all.
  - intros want s' Q' Hw HQ'. pose proof (Hports want Hw) as Hmade.
    apply wp_bind, swp_call; [done|]. intros [o|e]; advance.
    + destruct (_ && _); [apply HQ'|]. apply wp_wrapped, swp_call; [|intros; apply HQ'].
      exists want, o. split_and!; [done..|]. by rewrite last_snoc.
    + destruct (IsNotFound e); [|apply HQ']. apply wp_wrapped, swp_call; [done|]. intros; apply HQ'.
  - intros [[]|e] s1; [|apply HQ]. apply wp_bindr, wp_wrapped, swp_call; [done|]. intros [items|e]; [|apply HQ].
    advance. eapply swp_listed_loop; [by apply elem_of_app; right; left|done|].
    intros item s' Q' Hin Hev HQ'. case_bool_decide; [by apply HQ'|].
    apply wp_bind, (swp_reader _ (fun _ => True)).
    { destruct (EventRecorder r); [by apply reader_call|done]. }
    intros [] s'' _ Hpre. assert (forall ev, ev ∈ s' -> ev ∈ s'') as Hsub.
    { destruct Hpre as [t ->]. intros ev. rewrite elem_of_app. by left. }
    eapply swp_delete; [by apply Hsub, Hev| | |exact HQ'].
    + exists items. split; [by apply Hsub|done].
    + intros [[]|e]; [by eexists|]. destruct (IsNotFound e); by eexists.
Qed.

Lemma swp_pruneStaleAppliedNodes svc (Q : result unit -> list (event KubeE) -> Prop) s :
  name_of KService svc = own -> (forall res s', Q res s') -> swp (pruneStaleAppliedNodes svc) Q s.
Proof.
  intros Hown HQ. unfold pruneStaleAppliedNodes. rewrite (own_labels svc Hown).
  apply wp_bindr, wp_wrapped, swp_call; [done|]. intros [nodes|e]; [|apply HQ]. advance.
  apply wp_bindr, wp_wrapped, swp_call; [done|]. intros [items|e]; [|apply HQ]. advance.
  eapply swp_listed_loop; [by apply elem_of_app; right; left|done|].
  intros item s' Q' Hin Hev HQ'. unfold prune_lbport. destruct (_ =? 0)%nat; [by apply HQ'|].
  destruct (length (filter _ _) =? _)%nat; [by apply HQ'|].
  apply wp_bindr, wp_wrapped, swp_call; [done|].
  assert (forall e : event KubeE, Ev (List KLBPort (labels_for (fst own) (snd own))) (OK items) ∈ s' ++ [e]) as Hev'
    by (intros; apply elem_of_app; by left).
  intros [latest|e]; [|by apply HQ']. advance.
  apply wp_wrapped, swp_call; [|intros; apply HQ'; apply elem_of_app; by left].
  exists item, latest. split_and!; [by exists items|by rewrite last_snoc|done|].
  intros n [_ ?]%list_elem_of_filter. done.
Qed.

Lemma swp_applyDNSRecords recs svc (Q : result unit -> list (event KubeE) -> Prop) s :
  name_of KService svc = own -> Forall (made _ KDNSRecord) recs ->
  (forall res s', Q res s') -> swp (applyDNSRecords recs svc) Q s.
Proof.
  intros Hown Hrecs HQ. unfold applyDNSRecords, pruneUnwantedDNSRecords.
  change (labels_for (svc_Namespace svc) (svc_Name svc)) with (serviceLabels svc).
  rewrite (own_labels svc Hown) in *. rewrite Forall_forall in Hrecs. apply wp_bindr, swp_apply_all.
  - intros want s' Q' Hw HQ'. pose proof (Hrecs want Hw) as Hmade.
    apply wp_bind, swp_call; [done|]. intros [o|e]; advance.
    + destruct (_ && _); [apply HQ'|]. apply wp_wrapped, swp_call; [|intros; apply HQ'].
      exists want, o. split_and!; [done..|]. by rewrite last_snoc.
    + destruct (IsNotFound e); [|apply HQ']. apply wp_wrapped, swp_call; [done|]. intros; apply HQ'.
  - intros [[]|e] s1; [|apply HQ]. apply wp_bindr, wp_wrapped, swp_call; [done|]. intros [items|e]; [|apply HQ].
    advance. eapply swp_listed_loop; [by apply elem_of_app; right; left|done|].
    intros item s' Q' Hin Hev HQ'. case_bool_decide; [by apply HQ'|].
    eapply swp_delete; [exact Hev| | |exact HQ'].
    + by exists items.
    + intros [[]|e]; [by eexists|]. destruct (IsNotFound e); by eexists.
Qed.
End safe.

(** ** The whole of it *)

Section reconcile_safe.
Context `{LabelSelectors} (r : ServiceReconciler).

Section service.
Context (svc : Service).

Abbreviation own := (name_of KService svc).
Abbreviation swp := (wp (write_ok r own (built_for r svc)) trace_step).

Lemma swp_reject ty reason msg prefix conds (Q : result unit -> list (event KubeE) -> Prop) s :
  (forall res s', Q res s') ->
  swp (let* _ := eventf r svc ty reason msg in
       let? _ := wrapped prefix (updateStatus svc [] conds) in
       cleanupByName r (svc_Namespace svc) (svc_Name svc) cleanupForceDelete) Q s.
Proof.
  intros HQ. apply wp_bind, (swp_any r); [by apply reader_eventf|]. intros [] s1.
  apply wp_bindr, wp_wrapped, swp_updateStatus; [done|]. intros [[]|e] s2; [|apply HQ]. advance.
  by apply (swp_cleanupByName r own).
Qed.

Lemma swp_serve_service ports ds (Q : result unit -> list (event KubeE) -> Prop) s :
  built_for r svc _ KDaemonSet ds -> Forall (built_for r svc _ KLBPort) ports ->
  (forall res s', Q res s') -> swp (serve_service r svc ports ds) Q s.
Proof.
  intros Hds Hports HQ.
  apply wp_bindr, swp_applyDaemonSet; [done|]. intros [[]|e] s1; [|apply HQ].
  apply wp_bindr, swp_applyLBPorts; [done..|]. intros [[]|e] s2; [|apply HQ].
  apply wp_bind, swp_pruneStaleAppliedNodes; [done|]. intros _ s3.
  apply wp_bind, (swp_any r); [by apply reader_emit|]. intros [] s4.
  apply wp_bindr, (swp_any r); [by apply reader_nodePublicIPs|]. intros [ips|e] s5; [|apply HQ].
  apply wp_bindr, wp_wrapped, swp_applyDNSRecords; [done| |].
  { apply Forall_forall. intros d Hd. by exists ips. }
  intros [[]|e] s6; [|apply HQ]. advance.
  apply wp_bindr, wp_wrapped, swp_updateStatus; [done|]. intros [[]|e] s7; [|apply HQ]. advance.
  apply wp_bind, (swp_any r); [by apply reader_eventf|]. intros [] s8. apply HQ.
Qed.

Lemma swp_reconcile_ports E (Q : result unit -> list (event KubeE) -> Prop) s :
  (forall res s', Q res s') -> swp (reconcile_ports r svc E) Q s.
Proof.
  intros HQ. apply wp_bind. eapply swp_reader.
  { apply (reader_BuildLBPorts svc (fun res => match res with
      | OK ports => exists ns, ports = lbport_for svc ns <$> svc_Ports svc
      | Fail _ => True end)); [|done].
    intros ns. by exists ns. }
  intros [ports|e] s1 Hports _; advance; [|by apply swp_reject].
  apply wp_bindr, wp_wrapped, (swp_any r); [by apply reader_detectPortConflict|].
  intros [[conflict|]|e] s2; advance; [by apply swp_reject| |apply HQ].
  destruct (BuildDaemonSet _ _ _ _) as [ds|e] eqn:Hds; [|by apply swp_reject].
  destruct Hports as [ns ->]. apply swp_serve_service; [by exists E| |done].
  apply Forall_fmap, Forall_forall. intros p Hp. split; [by exists E, ds|]. by exists ns, p.
Qed.
End service.

(** The Service a reconcile acts for: the one it has read, or the one it was asked for. *)
Definition own_of (req : NamespacedName) (src : option Service) : NamespacedName :=
  match src with Some svc => name_of KService svc | None => req end.

Definition made_of (src : option Service) : forall T, Kind T -> T -> Prop :=
  match src with Some svc => built_for r svc | None => fun _ _ _ => False end.

(** The first request reads the Service; [src] is what it is answered. *)
Definition acts_for (req : NamespacedName) (src : option Service) (tr : list (event KubeE)) : Prop :=
  exists x tr', tr = Ev (Get KService req) x :: tr' /\
    match x with OK svc => src = Some svc | Fail _ => src = None end.

Lemma exec_Reconcile_safe req tr res : exec (Reconcile r req) tr res ->
  exists src, acts_for req src tr /\ respects (write_ok r (own_of req src) (made_of src)) tr.
Proof.
  intros (x & t1 & -> & Hex).
  assert (forall own made, respects (write_ok r own made) [Ev (Get KService req) x]) as Hone.
  { intros own made. apply (wp_exec (write_ok r own made) (call (Get KService req)) (fun _ _ => True) _ x); [done|].
    by apply exec_call. }
  assert (forall own made p, exec p t1 res ->
    wp (write_ok r own made) trace_step p (fun _ _ => True) [Ev (Get KService req) x] ->
    respects (write_ok r own made) (Ev (Get KService req) x :: t1)) as Hrest.
  { intros own made p Hp Hwp.
    by apply (wp_exec_from (write_ok r own made) p (fun _ _ => True) [Ev (Get KService req) x] t1 res). }
  destruct x as [svc|e]; simpl in Hex.
  - exists (Some svc). split; [by eexists _, _|]. eapply Hrest; [exact Hex|].
    destruct (ServiceMatches svc); cbn beta iota delta [negb].
    2: { by apply (swp_cleanupByName r (name_of KService svc)). }
    apply wp_bindr, wp_wrapped, (swp_any r); [by apply reader_serviceEndpoints|].
    intros [E|e] s1; advance; [|done].
    destruct (_ && _); [by apply swp_reject|by apply swp_reconcile_ports].
  - exists None. split; [by eexists _, _|]. eapply Hrest; [exact Hex|].
    destruct (IsNotFound e); [|done]. by apply (swp_cleanupByName r req).
Qed.
End reconcile_safe.

(** C7: Whatever the API server answers, in whatever order objects change or requests
    fail, a reconcile writes only what belongs to the one Service it acts for: it
    creates the DaemonSet, LBPorts and DNS records built for the Service it has read,
    each time the DaemonSet could be built, and updates an object only to one of these,
    right after reading it; it deletes a DaemonSet only if the object it has
    just read carries the Service's labels, and LBPorts and DNS records only if they
    were listed by them; it takes nodes out of the status of such LBPorts and adds none;
    and of Services it patches the status of this one. Nodes and Endpoints are
    never written. *)
Theorem Reconcile_writes_own `{LabelSelectors} (r : ServiceReconciler) (req : NamespacedName)
    (tr : list (event KubeE)) (res : result unit) (Hexec : exec (Reconcile r req) tr res) :
  exists src, acts_for req src tr /\ respects (write_ok r (own_of req src) (made_of r src)) tr.
Proof. by eapply exec_Reconcile_safe. Qed.

(** A Service that is gone while a DaemonSet of its name belongs to someone else. *)
Lemma Reconcile_writes_own_witness :
  let ds := MkDaemonSet "bulb-system" "bulb-demo-web" ∅ ∅
    (MkDaemonSetSpec ∅ ∅ (MkPodSpec false "" 0 ∅ None [])) in
  let tr := [Ev (Get KService ("demo", "web")) (Fail (MkError "not found" true));
             Ev (Get KDaemonSet ("bulb-system", "bulb-demo-web")) (OK ds)] in
  exists src, acts_for ("demo", "web") src tr /\
    respects (write_ok sample_reconciler (own_of ("demo", "web") src) (@made_of equality_selectors sample_reconciler src)) tr.
Proof.
  intros ds tr. apply (@Reconcile_writes_own equality_selectors sample_reconciler ("demo", "web") tr (OK tt)).
  eexists _, _. split; [reflexivity|]. eexists _, _. split; [reflexivity|]. split; reflexivity.
Defined.
