(* ===== verification/Admission.v ===== *)
(** * Admission: the objects the controller writes, as the API server checks them

    The validation of the API server is not part of the program: this file states the
    documented rules that bear on what the controller writes (the schemas of
    deploy/manifests/05-lbport-crd.yaml and 06-dnsrecord-crd.yaml, the form of names,
    labels and container ports) and proves which of them always hold of its writes, for
    Services that passed the validation themselves, and where one may not. *)
From S2P Require Import Prelude GoStrings Effects ApiTypes FwPorts FwAgent GoNet Kube KubeApply LBPorts Conflicts DaemonSets DnsRecords ServiceReconciler ReconcileSpec ReconcileSafety.
From Stdlib Require Import Ascii.
Open Scope Z_scope.

(** ** Names *)

Definition is_lower (c : ascii) : bool := (97 <=? code c) && (code c <=? 122).
Definition is_alnum (c : ascii) : bool := is_digit c || is_lower c.
Definition is_label_char (c : ascii) : bool := is_alnum c || Ascii.eqb c "-".

(** Lower case letters, digits and inner dashes, at most [max] of them: a DNS-1123 label,
    with 63, and one form of a DNS-1123 subdomain, with 253. *)
Definition dns_name (max : nat) (s : string) : bool :=
  match s with EmptyString => false | String c _ => is_alnum c end &&
  match last_char s with None => false | Some c => is_alnum c end &&
  forallb_string is_label_char s && (String.length s <=? max)%nat.

Fixpoint no_double_dash (s : string) : bool :=
  match s with
  | String a (String b _ as s') => negb (Ascii.eqb a "-" && Ascii.eqb b "-") && no_double_dash s'
  | _ => true
  end.

(** IANA_SVC_NAME, the form of the name of a container port. *)
Definition iana_name (s : string) : bool :=
  dns_name 15 s && existsb_string is_lower s && no_double_dash s.

(** ** Services *)

Definition protocol_ok (p : Protocol) : Prop := p ∈ ["TCP"; "UDP"; "SCTP"].

(** What is checked of a Service, of the fields the controller uses. *)
Record service_valid (svc : Service) : Prop := {
  valid_namespace : dns_name 63 (svc_Namespace svc) = true;
  valid_name : dns_name 63 (svc_Name svc) = true;
  valid_ports : Forall (fun p => 1 <= port_Port p <= 65535 /\ protocol_ok (port_protocol p)) (svc_Ports svc);
  valid_port_names : length (svc_Ports svc) = 1%nat \/ Forall (fun p => port_Name p <> "") (svc_Ports svc);
  valid_named : Forall (fun p => port_Name p = "" \/ dns_name 63 (port_Name p) = true) (svc_Ports svc);
  valid_names_differ : NoDup (port_Name <$> svc_Ports svc);
  valid_ports_differ : NoDup ((fun p => (port_Port p, port_protocol p)) <$> svc_Ports svc)
}.

(** ** The objects *)

Definition labels_valid (ls : str_map) : Prop := map_Forall (fun _ v => dns_name 63 v = true) ls.

(** The schema of the kind, and for a DaemonSet that its selector selects its pods. *)
Definition conforms {T} (k : Kind T) : T -> Prop :=
  match k in Kind T return T -> Prop with
  | KLBPort => fun l => spec_Owner (lbp_Spec l) <> "" /\ schema_lbport l /\ labels_valid (lbp_Labels l)
  | KDNSRecord => fun d => dns_Type (dns_Spec d) ∈ ["A"; "AAAA"] /\ 1 <= TTL (dns_Spec d) < 2 ^ 31 /\
      FQDN (dns_Spec d) <> "" /\ labels_valid (dns_Labels d)
  | KDaemonSet => fun ds => ds_Selector (ds_Spec ds) ⊆ ds_TemplateLabels (ds_Spec ds) /\
      ds_Selector (ds_Spec ds) <> ∅ /\ labels_valid (ds_Labels ds) /\ labels_valid (ds_TemplateLabels (ds_Spec ds))
  | _ => fun _ => True
  end.

(** ** Lemmas on names *)

Lemma alnum_label c : is_alnum c = true -> is_label_char c = true.
Proof. intros H. unfold is_label_char. by rewrite H. Qed.

Lemma dns_name_spec max s : dns_name max s = true <->
  (exists c s', s = String c s' /\ is_alnum c = true) /\
  (exists d, last_char s = Some d /\ is_alnum d = true) /\
  forallb_string is_label_char s = true /\ (String.length s <= max)%nat.
Proof.
  unfold dns_name. rewrite !andb_true_iff, Nat.leb_le. split.
  - intros [[[H1 H2] H3] H4]. destruct s as [|c s']; [done|].
    destruct (last_char (String c s')) as [d|]; [|done]. eauto 10.
  - intros ((c & s' & -> & Hc) & (d & -> & Hd) & H3 & H4). eauto.
Qed.

Lemma dns_name_max a b s : (a <= b)%nat -> dns_name a s = true -> dns_name b s = true.
Proof. intros Hab. rewrite !dns_name_spec. intros (? & ? & ? & ?). split_and!; [done..|lia]. Qed.

(** Names joined by a dash. *)
Lemma dns_name_join a b s t : dns_name a s = true -> dns_name b t = true ->
  dns_name (a + 1 + b) (s +:+ "-" +:+ t) = true.
Proof.
  rewrite !dns_name_spec. intros ((c & s' & -> & Hc) & _ & Hs & Ls) (_ & (d & Ht & Hd) & Hta & Lt).
  split_and!.
  - exists c, (s' +:+ "-" +:+ t). by rewrite app_string_cons.
  - exists d. split; [|done]. apply last_char_app. by apply (last_char_app "-" t).
  - rewrite !forallb_string_app, Hs, Hta. done.
  - rewrite !length_app_string. simpl in *. lia.
Qed.

Lemma digit_alnum c : is_digit c = true -> is_alnum c = true.
Proof. intros H. unfold is_alnum. by rewrite H. Qed.

Lemma last_char_forallb p s : forallb_string p s = true -> s <> "" -> exists d, last_char s = Some d /\ p d = true.
Proof.
  induction s as [|c s IH]; [done|]. simpl. rewrite andb_true_iff. intros [Hc Hs] _.
  destruct s as [|c' s]; [by exists c|]. destruct IH as (d & -> & ?); [done..|]. by exists d.
Qed.

Lemma length_pretty_N_go (x : N) (k : nat) s : (0 < x)%N -> (x < 10 ^ N.of_nat k)%N ->
  (String.length (pretty_N_go x s) <= k + String.length s)%nat.
Proof.
  revert x s. induction k as [|k IH]; intros x s Hx Hlt; [change (10 ^ N.of_nat 0)%N with 1%N in Hlt; lia|].
  rewrite pretty_N_go_step by done.
  destruct (decide (x `div` 10 = 0)%N) as [->|Hne]; [rewrite pretty_N_go_0; simpl; lia|].
  assert (0 < x `div` 10)%N as Hpos by (apply N.neq_0_lt_0; exact Hne).
  etrans; [apply IH; [exact Hpos|]|simpl; lia].
  apply N.Div0.div_lt_upper_bound. rewrite <-N.pow_succ_r by lia. by replace (N.succ (N.of_nat k)) with (N.of_nat (S k)) by lia.
Qed.

(** The text of a port. *)
Lemma fmt_d_port n : 1 <= n <= 65535 -> dns_name 5 (fmt_d n) = true.
Proof.
  intros Hn. pose proof (fmt_d_digits n ltac:(lia)) as Hd. apply dns_name_spec. split_and!.
  - destruct (fmt_d_head n) as (c & s & Hs & Hc); [lia|]. exists c, s. split; [done|]. by apply digit_alnum.
  - destruct (last_char_forallb _ _ Hd (fmt_d_nonempty n)) as (d & ? & ?). exists d. split; [done|]. by apply digit_alnum.
  - eapply forallb_string_impl; [|exact Hd]. intros c Hc. by apply alnum_label, digit_alnum.
  - destruct n as [|x|x]; [lia| |lia]. change (fmt_d (Z.pos x)) with (pretty_N_go (N.pos x) "").
    etrans; [apply (length_pretty_N_go _ 5); [lia|simpl; lia]|simpl; lia].
Qed.

Lemma digits_no_double_dash s : forallb_string is_digit s = true -> no_double_dash s = true.
Proof.
  induction s as [|a [|b s] IH]; [done|done|]. cbn [forallb_string]. rewrite !andb_true_iff.
  intros [Ha [Hb Hs]]. cbn [no_double_dash]. rewrite andb_true_iff. split.
  - destruct (Ascii.eqb_spec a "-") as [->|]; [by vm_compute in Ha|done].
  - apply IH. cbn [forallb_string]. by rewrite Hb, Hs.
Qed.

(** The name a port gets that has none. *)
Lemma default_port_name n : 1 <= n <= 65535 -> iana_name ("p-" +:+ fmt_d n) = true.
Proof.
  intros Hn. unfold iana_name. rewrite !andb_true_iff. split_and!.
  - apply (dns_name_max 7); [lia|]. apply (dns_name_join 1 5 "p"); [done|by apply fmt_d_port].
  - done.
  - destruct (fmt_d_head n) as (c & s & Hs & Hc); [lia|]. rewrite Hs. change ("p-" +:+ String c s) with (String "p" (String "-" (String c s))).
    pose proof (digits_no_double_dash (fmt_d n) (fmt_d_digits n ltac:(lia))) as H. rewrite Hs in H.
    cbn [no_double_dash] in H |- *. destruct (Ascii.eqb_spec c "-") as [->|]; [by vm_compute in Hc|]. simpl. exact H.
Qed.

Lemma labels_for_valid ns name : dns_name 63 ns = true -> dns_name 63 name = true -> labels_valid (labels_for ns name).
Proof.
  intros Hns Hname. unfold labels_valid, labels_for.
  repeat (apply map_Forall_insert_2; [done|]). apply map_Forall_empty.
Qed.

Section writes.
Context `{LabelSelectors}.

(** What a Service must be for its DaemonSet to be built. *)
Lemma ports_loop_ports v4 v6 eps ps ports args ports' args' :
  ports_loop v4 v6 eps ps ports args = OK (ports', args') ->
  ports' = ports ++ ((fun p => MkContainerPort (portName p) (port_Port p) (port_Port p) (port_protocol p)) <$> ps) /\
  Forall (fun p => port_protocol p = ProtocolTCP \/ port_protocol p = ProtocolUDP) ps.
Proof.
  revert ports args. induction ps as [|p ps IH]; intros ports args; cbn [ports_loop].
  { intros [= <- <-]. by rewrite app_nil_r. }
  destruct (negb _ && _) eqn:Hproto; [done|]. intros [-> Hps]%IH. split; [by rewrite <-app_assoc|].
  constructor; [|done].
  apply andb_false_iff in Hproto as [?%negb_false_iff%bool_decide_eq_true|?%negb_false_iff%bool_decide_eq_true]; auto.
Qed.

Lemma BuildDaemonSet_ports svc image ns E ds : BuildDaemonSet svc image ns E = OK ds ->
  ds_Selector (ds_Spec ds) = serviceLabels svc /\ ds_TemplateLabels (ds_Spec ds) = serviceLabels svc /\
  ctr_Ports <$> Containers (ds_PodSpec (ds_Spec ds)) =
    [((fun p => MkContainerPort (portName p) (port_Port p) (port_Port p) (port_protocol p)) <$> svc_Ports svc)
     ++ [healthContainerPort]] /\
  Forall (fun p => port_protocol p = ProtocolTCP \/ port_protocol p = ProtocolUDP) (svc_Ports svc).
Proof.
  unfold BuildDaemonSet, portsAndArgs. destruct (splitClusterIPs svc) as [v4 v6]. destruct (_ && _); [done|].
  destruct (bool_decide (length _ = _)); [done|]. destruct (find _ _); [done|].
  rewrite bind_result_ok. intros ([ports args] & Hp & Hds).
  apply bind_result_ok in Hp as ([ports' args'] & [-> Hps]%ports_loop_ports & [= <- <-]).
  by apply bind_result_ok in Hds as ([? ?] & _ & [= <-]).
Qed.

(** The pod of the DaemonSet: one container, on a network of its own. *)
Lemma BuildDaemonSet_container svc image ns E ds : BuildDaemonSet svc image ns E = OK ds ->
  exists c, Containers (ds_PodSpec (ds_Spec ds)) = [c] /\ HostNetwork (ds_PodSpec (ds_Spec ds)) = false /\
    LivenessProbe c = httpProbe "/healthz" /\ ReadinessProbe c = httpProbe "/readyz" /\
    ctr_Ports c = ((fun p => MkContainerPort (portName p) (port_Port p) (port_Port p) (port_protocol p)) <$> svc_Ports svc)
      ++ [healthContainerPort].
Proof.
  intros Hb. destruct (BuildDaemonSet_ports _ _ _ _ _ Hb) as (_ & _ & Hports & _). revert Hb Hports.
  unfold BuildDaemonSet, portsAndArgs. destruct (splitClusterIPs svc) as [v4 v6]. destruct (_ && _); [done|].
  destruct (bool_decide (length _ = _)); [done|]. destruct (find _ _); [done|].
  rewrite bind_result_ok. intros ([ports args] & Hp & Hds).
  apply bind_result_ok in Hds as ([? ?] & _ & [= <-]). simpl. intros [= Hports]. by eexists.
Qed.

(** A name in the cluster made of those of a Service. *)
Lemma bulb_name ns name : dns_name 63 ns = true -> dns_name 63 name = true ->
  dns_name 132 ("bulb-" +:+ ns +:+ "-" +:+ name) = true.
Proof.
  intros Hns Hname. apply (dns_name_join 4 127 "bulb"); [done|]. by apply (dns_name_join 63 63).
Qed.

Lemma object_names svc : service_valid svc ->
  dns_name 253 (DaemonSetName svc) = true /\
  dns_name 253 (DNSRecordName svc) = true /\ dns_name 253 (DNSRecordNameAAAA svc) = true /\
  forall p, p ∈ svc_Ports svc -> port_protocol p = ProtocolTCP \/ port_protocol p = ProtocolUDP ->
    dns_name 253 (LBPortName svc p) = true.
Proof.
  intros [Hns Hname Hports _ _ _ _]. pose proof (bulb_name _ _ Hns Hname) as Hb. split_and!.
  - by apply (dns_name_max 132); [lia|].
  - by apply (dns_name_max 132); [lia|].
  - apply (dns_name_max 137); [lia|]. by apply (dns_name_join 132 4 _ "aaaa").
  - intros p Hp Hproto. rewrite Forall_forall in Hports. destruct (Hports p Hp) as [Hport _].
    assert (LBPortName svc p = ("bulb-" +:+ svc_Namespace svc +:+ "-" +:+ svc_Name svc) +:+ "-" +:+
      (fmt_d (port_Port p) +:+ "-" +:+ ToLower (port_protocol p))) as ->.
    { unfold LBPortName. rewrite lower_port_protocol. unfold normalizedProtocol.
      rewrite !app_string_assoc. by destruct Hproto as [-> | ->]. }
    apply (dns_name_max (132 + 1 + 9)); [lia|]. apply dns_name_join; [done|].
    apply (dns_name_join 5 3); [by apply fmt_d_port|]. by destruct Hproto as [-> | ->].
Qed.

Lemma serviceLabels_valid svc : service_valid svc -> labels_valid (serviceLabels svc).
Proof. intros [Hns Hname _ _ _ _ _]. exact (labels_for_valid _ _ Hns Hname). Qed.

(** The objects built for a valid Service. *)
Lemma built_conforms r svc {T} (k : Kind T) (o : T) : service_valid svc -> built_for r svc T k o ->
  conforms k o /\ dns_name 253 (snd (name_of k o)) = true.
Proof.
  intros Hv. pose proof (serviceLabels_valid svc Hv) as Hls. destruct (object_names svc Hv) as (Hd & Ha & Haaaa & Hl).
  destruct k; simpl; try done.
  - intros [E Hds]. destruct (BuildDaemonSet_name _ _ _ _ _ Hds) as (_ & -> & -> & _).
    destruct (BuildDaemonSet_ports _ _ _ _ _ Hds) as (-> & -> & _ & _). split; [|done].
    by split_and!.
  - intros ((E & ds & Hds) & ns & p & Hp & ->). destruct (BuildDaemonSet_ports _ _ _ _ _ Hds) as (_ & _ & _ & Hps).
    rewrite Forall_forall in Hps. split; [|by apply Hl, Hps]. split_and!; [done| |done].
    split; [|by apply Hps]. destruct Hv as [_ _ Hports _ _ _ _]. rewrite Forall_forall in Hports. by apply Hports.
  - intros [ips Hd0]. destruct (BuildDNSRecords_objects _ _ _ Hd0) as [Hlabels Hname].
    assert (dns_Type (dns_Spec o) ∈ ["A"; "AAAA"] /\ TTL (dns_Spec o) = 60 /\ FQDN (dns_Spec o) <> "")
      as (? & -> & ?) by by apply (BuildDNSRecords_fields svc ips).
    rewrite Hlabels. split; [split_and!; [done|lia|lia|done|done]|]. by destruct Hname as [-> | ->].
Qed.

Lemma merged_conforms {T} (k : Kind T) want existing : conforms k want -> conforms k (merged k want existing).
Proof. by destruct k. Qed.

(** C8: What the controller writes passes the schemas. If the Service it reads is a valid one,
    every LBPort, DNS record and DaemonSet a reconcile creates or updates, whatever it is
    answered, has the fields its schema requires, within their bounds: a port between 1 and
    65535 with protocol TCP or UDP (also for a Service with SCTP ports), a record type A or
    AAAA with a TTL of at least 1, labels with valid values, a DaemonSet whose selector
    selects its pods; and every object it creates has a valid name. *)
Theorem writes_conform (r : ServiceReconciler) (req : NamespacedName) (tr : list (event KubeE)) (res : result unit)
    (Hexec : exec (Reconcile r req) tr res)
    (Hvalid : forall svc, Ev (Get KService req) (OK svc) ∈ tr -> service_valid svc) :
  (forall T (k : Kind T) o x, Ev (Create k o) x ∈ tr -> conforms k o /\ dns_name 253 (snd (name_of k o)) = true) /\
  (forall T (k : Kind T) o x, Ev (Update k o) x ∈ tr -> conforms k o).
Proof.
  apply exec_Reconcile_safe in Hexec as (src & (x0 & tr0 & -> & Hsrc) & Hok).
  assert (forall T (k : Kind T) o, made_of r src T k o -> conforms k o /\ dns_name 253 (snd (name_of k o)) = true) as Hmade.
  { destruct src as [svc|]; [|done]. intros T k o. apply built_conforms, Hvalid.
    destruct x0 as [svc'|]; [|done]. injection Hsrc as ->. by left. }
  split; intros T k o x Hin; apply list_elem_of_split in Hin as (l1 & l2 & Heq);
    specialize (Hok _ _ _ _ _ Heq); simpl in Hok; [by apply Hmade|].
  destruct Hok as (want & existing & Hw & -> & _). by apply merged_conforms, Hmade.
Qed.
End writes.

(** ** The ports of the proxy pod *)

(** The host port of a container port: in a pod on the network of its node the container
    port itself, if none is given; in any other pod, with 0, none. *)
Definition host_port (hostNetwork : bool) (p : ContainerPort) : Z :=
  if hostNetwork && bool_decide (cp_HostPort p = 0) then cp_ContainerPort p else cp_HostPort p.

(** What is checked of a container port. *)
Definition container_port_valid (p : ContainerPort) : Prop :=
  (cp_Name p = "" \/ iana_name (cp_Name p) = true) /\ 1 <= cp_ContainerPort p <= 65535 /\
  0 <= cp_HostPort p <= 65535 /\ protocol_ok (cp_Protocol p).

(** What is checked of the ports of a pod: names differ in a container, the host ports there
    are differ in the pod and, on the network of the node, are the container ports. *)
Definition pod_ports_valid (s : PodSpec) : Prop :=
  Forall (fun c => Forall container_port_valid (ctr_Ports c) /\
    NoDup (cp_Name <$> filter (fun p => cp_Name p <> "") (ctr_Ports c))) (Containers s) /\
  (let ports := Containers s ≫= ctr_Ports in
   NoDup ((fun p => (host_port (HostNetwork s) p, cp_Protocol p)) <$>
     filter (fun p => host_port (HostNetwork s) p <> 0) ports) /\
   (HostNetwork s = true -> Forall (fun p => host_port true p = cp_ContainerPort p) ports)).

Definition container_port (p : ServicePort) : ContainerPort :=
  MkContainerPort (portName p) (port_Port p) (port_Port p) (port_protocol p).

Lemma portNames_differ svc : service_valid svc -> NoDup (portName <$> svc_Ports svc).
Proof.
  intros [_ _ _ Hone _ Hnd _]. destruct Hone as [Hlen|Hne].
  - destruct (svc_Ports svc) as [|p [|q l]]; try done. apply NoDup_singleton.
  - replace (portName <$> svc_Ports svc) with (port_Name <$> svc_Ports svc); [done|].
    apply list_fmap_ext. intros i p Hp. rewrite Forall_forall in Hne.
    unfold portName. rewrite bool_decide_eq_false_2; [done|]. apply Hne. by eapply list_elem_of_lookup_2.
Qed.

Lemma portName_iana p : 1 <= port_Port p <= 65535 ->
  iana_name (portName p) = true <-> port_Name p = "" \/ iana_name (port_Name p) = true.
Proof.
  intros Hp. unfold portName. case_bool_decide as Hn; cbn [negb].
  - split; [by left|]. intros _. by apply default_port_name.
  - split; [by right|]. by intros [?|?].
Qed.

Lemma portName_probes p : portName p = probePortName <-> port_Name p = probePortName.
Proof. unfold portName. case_bool_decide as Hn; cbn [negb]; [|done]. rewrite Hn. by split. Qed.

Lemma portName_nonempty p : portName p <> "".
Proof. unfold portName. by case_bool_decide. Qed.

(** The container ports of the pod of a valid Service: each has a name and a host port,
    except that the port of the probes has no host port. *)
Lemma pod_ports_names ports : Forall (fun p => port_Port p <> 0) ports ->
  cp_Name <$> filter (fun p => cp_Name p <> "") ((container_port <$> ports) ++ [healthContainerPort]) =
    (portName <$> ports) ++ [probePortName] /\
  (fun p => (host_port false p, cp_Protocol p)) <$>
    filter (fun p => host_port false p <> 0) ((container_port <$> ports) ++ [healthContainerPort]) =
    (fun p => (port_Port p, port_protocol p)) <$> ports.
Proof.
  intros Hne. rewrite !filter_app, !fmap_app. split.
  - f_equal. clear Hne. induction ports as [|p ports IH]; [done|].
    cbn [fmap list_fmap]. rewrite filter_cons_True by apply portName_nonempty. cbn. by f_equal.
  - rewrite filter_cons_False, filter_nil, fmap_nil, app_nil_r by (intros Hf; by apply Hf).
    induction Hne as [|p ports Hp _ IH]; [done|].
    cbn [fmap list_fmap]. rewrite filter_cons_True by exact Hp. cbn. by f_equal.
Qed.

Section pods.
Context `{LabelSelectors}.

(** The pod built for a valid Service, on a network of its own: its host ports differ. *)
Lemma pod_ports_valid_built (svc : Service) image ns eps ds :
  service_valid svc -> BuildDaemonSet svc image ns eps = OK ds ->
  pod_ports_valid (ds_PodSpec (ds_Spec ds)) <->
  Forall container_port_valid ((container_port <$> svc_Ports svc) ++ [healthContainerPort]) /\
  NoDup ((portName <$> svc_Ports svc) ++ [probePortName]).
Proof.
  intros [_ _ Hrange _ _ _ Hdiffer] Hbuilt. destruct (BuildDaemonSet_container _ _ _ _ _ Hbuilt) as (c & Hc & Hnet & _ & _ & Hp).
  change (fun p => MkContainerPort _ _ _ _) with container_port in Hp.
  destruct (pod_ports_names (svc_Ports svc)) as [Hn1 Hn2]; [eapply Forall_impl; [exact Hrange|]; simpl; lia|].
  unfold pod_ports_valid. rewrite Hnet, Hc, Forall_singleton. cbn [mbind list_bind]. rewrite app_nil_r, Hp, Hn1, Hn2. naive_solver.
Qed.

(** C15: When the API server takes the DaemonSet built for a valid Service. The names of the
    ports of a Service are those of the container ports of the pod, next to the port of the
    probes; so it is taken exactly if every port that has a name has one that is also the
    name of a container port (at most 15 characters, a letter, no two dashes in a row) and
    none is named probes. For any other Service, valid as it is, the controller goes on
    trying to create a DaemonSet that is refused. Nothing else is in the way: in particular
    a TCP port 8081 is admitted, next to that of the probes. *)
Theorem daemonset_admitted (svc : Service) (image ns : string) (eps : ServiceEndpoints) (ds : DaemonSet)
    (Hvalid : service_valid svc) (Hbuilt : BuildDaemonSet svc image ns eps = OK ds) :
  pod_ports_valid (ds_PodSpec (ds_Spec ds)) <->
  Forall (fun p => (port_Name p = "" \/ iana_name (port_Name p) = true) /\ port_Name p <> "probes") (svc_Ports svc).
Proof.
  rewrite (pod_ports_valid_built _ _ _ _ _ Hvalid Hbuilt).
  destruct (BuildDaemonSet_ports _ _ _ _ _ Hbuilt) as (_ & _ & _ & Hproto).
  pose proof (portNames_differ svc Hvalid) as Hnames. destruct Hvalid as [_ _ Hrange _ _ _ _].
  rewrite Forall_app, NoDup_app, Forall_fmap, Forall_singleton.
  setoid_rewrite list_elem_of_singleton. rewrite !Forall_forall in *. split.
  - intros ((Hall & _) & (_ & Hn & _)) p Hin. destruct (Hall p Hin) as [Hi _]. split.
    + apply portName_iana; [by apply Hrange|]. by destruct Hi as [Hi|Hi]; [by apply portName_nonempty in Hi|].
    + intros Hprobes. apply (Hn "probes"); [|done]. apply list_elem_of_fmap. exists p.
      split; [symmetry; by apply portName_probes|done].
  - intros Hall. split; [split|split; [done|split; [|apply NoDup_singleton]]].
    + intros p Hin. destruct (Hall p Hin) as (Hi & _), (Hrange p Hin). split; [right; by apply portName_iana|].
      simpl. split_and!; try lia. done.
    + unfold container_port_valid, protocol_ok. simpl. split_and!; [by right|lia..|by left].
    + intros x Hx ->. apply list_elem_of_fmap in Hx as (p & Hx & Hin). symmetry in Hx.
      apply portName_probes in Hx. by destruct (Hall p Hin) as (_ & Hn).
Qed.
End pods.

(** *** A Service whose port has a long name, and one with TCP port 8081 *)

#[local] Existing Instance equality_selectors.

Definition port_service (name : string) (port : Z) : Service :=
  MkService "demo" "shop" 1 {[ AnnotationDNSName := "shop.example.org" ]} "LoadBalancer" None "10.0.0.7" ["10.0.0.7"]
    [MkServicePort name "TCP" port "8443"] [] [].

Definition named_port (name : string) : Service := port_service name 8443.

Lemma port_service_valid name port : name = "" \/ dns_name 63 name = true -> 1 <= port <= 65535 ->
  service_valid (port_service name port).
Proof.
  intros Hname Hport. constructor; try done.
  - apply Forall_singleton. split; [done|]. by left.
  - by left.
  - by apply Forall_singleton.
  - apply NoDup_singleton.
  - apply NoDup_singleton.
Qed.

Lemma named_port_valid name : name = "" \/ dns_name 63 name = true -> service_valid (named_port name).
Proof. intros Hname. by apply port_service_valid. Qed.

(** The first is refused, the second is taken. *)
Lemma daemonset_admitted_witness : exists ds ds',
  BuildDaemonSet (named_port "dashboard-secure-web") "bulb:1" "bulb-system" ∅ = OK ds /\
  ~ pod_ports_valid (ds_PodSpec (ds_Spec ds)) /\
  BuildDaemonSet (port_service "admin" 8081) "bulb:1" "bulb-system" ∅ = OK ds' /\
  pod_ports_valid (ds_PodSpec (ds_Spec ds')).
Proof.
  set (svc := named_port "dashboard-secure-web"). set (svc' := port_service "admin" 8081).
  assert (service_valid svc) as Hv by (apply named_port_valid; by right).
  assert (service_valid svc') as Hv' by (apply port_service_valid; [by right|done]).
  destruct (BuildDaemonSet svc "bulb:1" "bulb-system" ∅) as [ds|e] eqn:Hds; [|by vm_compute in Hds].
  destruct (BuildDaemonSet svc' "bulb:1" "bulb-system" ∅) as [ds'|e] eqn:Hds'; [|by vm_compute in Hds'].
  exists ds, ds'. split_and!; [reflexivity| |reflexivity|].
  - destruct (daemonset_admitted svc _ _ _ ds Hv Hds) as [Hiff _]. intros H%Hiff.
    apply Forall_inv in H. by destruct H as [[?|?] _].
  - destruct (daemonset_admitted svc' _ _ _ ds' Hv' Hds') as [_ Hiff]. apply Hiff.
    apply Forall_singleton. split; [by right|done].
Defined.

Definition shop_cluster : Cluster := sample_cluster [named_port "web"] [].

Definition answered_service (ev : event KubeE) : option Service :=
  match ev with
  | @Ev _ X e x =>
      match e in KubeE Y return Y -> option Service with
      | @Get T k _ => match k in Kind T return result T -> option Service with
          | KService => fun r => match r with OK svc => Some svc | Fail _ => None end
          | _ => fun _ => None
          end
      | _ => fun _ => None
      end x
  end.

Definition created_lbport (ev : event KubeE) : option LBPort :=
  match ev with
  | Ev (@Create T k o) _ => match k in Kind T return T -> option LBPort with KLBPort => Some | _ => fun _ => None end o
  | _ => None
  end.

Lemma created_lbport_event ev l : created_lbport ev = Some l -> exists x, ev = Ev (Create KLBPort l) x.
Proof. destruct ev as [X e x]. destruct e as [| |T k o| | | | | |]; try done. destruct k; try done. intros [= ->]. by exists x. Qed.

(** Its LBPort, with the trace of the reconcile that creates it. *)
Lemma writes_conform_witness :
  let tr := trace_of sim_server (Reconcile sample_reconciler ("demo", "shop")) shop_cluster in
  Forall (conforms KLBPort) (omap created_lbport tr) /\ length (omap created_lbport tr) = 1%nat.
Proof.
  intros tr. split; [|by vm_compute].
  assert (omap answered_service tr = [named_port "web"]) as Hread by by vm_compute.
  assert (exec (Reconcile sample_reconciler ("demo", "shop")) tr
    (fst (run sim_server (Reconcile sample_reconciler ("demo", "shop")) shop_cluster))) as Hexec by apply trace_exec.
  clearbody tr. apply Forall_forall. intros l (ev & Hev & Hl)%list_elem_of_omap.
  apply created_lbport_event in Hl as [x ->].
  destruct (writes_conform sample_reconciler ("demo", "shop") tr _ Hexec) as [Hc _].
  - intros svc Hsvc. assert (svc ∈ omap answered_service tr) as Hin by (apply list_elem_of_omap; by eexists).
    rewrite Hread in Hin. apply list_elem_of_singleton in Hin as ->. apply named_port_valid. by right.
  - by apply (Hc _ KLBPort l x).
Defined.
