(* ===== verification/Probes.v ===== *)
(** * Probes: the sockets of a proxy pod, and its probes

    The controller writes two HTTP probes into the pod it builds; the proxy in the pod
    serves them, if it can bind its sockets. This file follows a probe from the DaemonSet to
    the answer, through the ports and arguments of the container, the flags of the proxy,
    the sockets it asks for and the routes of its probe server. *)
From S2P Require Import Prelude GoStrings Effects ApiTypes GoNet ProxyFlags ProxyUpstream ProxyServe Listeners ProxyArgs HealthServer Kube LBPorts DaemonSets ProxyContract Admission.
Open Scope Z_scope.

(** The port a probe goes to: that of the first container port of its name. *)
Definition probe_target (c : Container) (p : Probe) : option Z :=
  cp_ContainerPort <$> find (fun cp => bool_decide (cp_Name cp = probe_Port p)) (ctr_Ports c).

Lemma find_last {A} (f : A -> bool) (l : list A) (x : A) :
  Forall (fun y => f y = false) l -> f x = true -> find f (l ++ [x]) = Some x.
Proof. intros Hl Hx. induction Hl as [|y l Hy _ IH]; simpl; [by rewrite Hx|by rewrite Hy]. Qed.

Lemma list_fmap_bind {A B C} (f : A -> list B) (g : B -> C) (l : list A) : g <$> (l ≫= f) = l ≫= (fun x => g <$> f x).
Proof. induction l as [|x l IH]; [done|]. by rewrite !bind_cons, fmap_app, IH. Qed.

(** In a pod that is taken the port of the probes is the only one of its name. *)
Lemma probes_port ports : NoDup (cp_Name <$> filter (fun p => cp_Name p <> "") (ports ++ [healthContainerPort])) ->
  find (fun cp => bool_decide (cp_Name cp = probePortName)) (ports ++ [healthContainerPort]) = Some healthContainerPort.
Proof.
  rewrite filter_app, fmap_app, NoDup_app. intros (_ & Hn & _). apply find_last; [|done].
  apply Forall_forall. intros cp Hin. apply bool_decide_eq_false. intros Hp. apply (Hn (cp_Name cp)).
  - apply list_elem_of_fmap_2, list_elem_of_filter. by rewrite Hp.
  - rewrite Hp. by left.
Qed.

(** ** The sockets *)

Definition port_key (p : ServicePort) : BindKey :=
  (if bool_decide (port_protocol p = ApiTypes.ProtocolUDP) then "udp" else "tcp", fmt_d (port_Port p)).

Lemma wildcard_listen proto p : 0 <= port_Port p ->
  wildcard_key proto (listen_v4 p) = Some (proto, fmt_d (port_Port p)) /\
  wildcard_key proto (listen_v6 p) = Some (proto, fmt_d (port_Port p)).
Proof.
  intros Hp. destruct (digits_plain _ Hp) as [Hc Hd]. unfold wildcard_key, wildcard_port.
  assert (SplitHostPort (listen_v4 p) = OK ("0.0.0.0", fmt_d (port_Port p))) as -> by by apply (SplitHostPort_bare "0.0.0.0").
  by assert (SplitHostPort (listen_v6 p) = OK ("::", fmt_d (port_Port p))) as -> by by apply (SplitHostPort_bracketed "::").
Qed.

Lemma spec_key_leg version l :
  spec_key (leg_spec version l) = wildcard_key (if is_udp_leg l then "udp" else "tcp") (leg_listen l).
Proof. unfold spec_key, leg_spec, protocol. simpl. by destruct (is_udp_leg l). Qed.

Lemma legs_of_keys version v4 v6 E p : 0 <= port_Port p ->
  omap (spec_key ∘ leg_spec version) (legs_of v4 v6 E p) =
  (if bool_decide (v4 = "") then [] else [port_key p]) ++ (if bool_decide (v6 = "") then [] else [port_key p]).
Proof.
  intros Hp. unfold legs_of. rewrite omap_app. destruct (wildcard_listen (port_key p).1 p Hp) as [H4 H6].
  f_equal; case_bool_decide; csimpl; [done| |done|]; unfold compose; rewrite spec_key_leg.
  - unfold is_udp_leg. simpl. unfold port_key in *. simpl in *. by rewrite H4.
  - unfold is_udp_leg. simpl. unfold port_key in *. simpl in *. by rewrite H6.
Qed.

(** The order of the rules, and that they share endpoints, do not matter here. *)
Lemma legs_specs_keys version legs :
  omap spec_key (legs_specs version (share legs)) ≡ₚ omap (spec_key ∘ leg_spec version) legs.
Proof.
  rewrite legs_specs_share. generalize legs at 1 3 as all. intros all.
  rewrite omap_app, !omap_fmap. induction legs as [|l legs IH]; [done|].
  assert (forall all, spec_key (leg_spec version (share_leg all l)) = spec_key (leg_spec version l)) as Hl
    by (intros all'; by rewrite !spec_key_leg).
  destruct (is_udp_leg l) eqn:Hu.
  - rewrite filter_cons_False, (filter_cons_True _ l) by (rewrite Hu; done).
    csimpl. unfold compose in *. rewrite Hl. destruct (spec_key _); csimpl; rewrite <-IH; [|done]. solve_Permutation.
  - rewrite filter_cons_True, (filter_cons_False _ l) by (rewrite Hu; done).
    csimpl. unfold compose in *. rewrite Hl. by destruct (spec_key _); csimpl; rewrite <-IH.
Qed.

(** The proxy of a Service asks twice for one port: because the Service has addresses of
    both families, or because it has the TCP port that the proxy serves its probes on. *)
Definition sockets_clash (svc : Service) : Prop :=
  ((splitClusterIPs svc).1 <> "" /\ (splitClusterIPs svc).2 <> "") \/
  exists p, p ∈ svc_Ports svc /\ port_Port p = 8081 /\ port_protocol p = ApiTypes.ProtocolTCP.

Lemma port_keys_differ svc : service_valid svc ->
  Forall (fun p => port_protocol p = ApiTypes.ProtocolTCP \/ port_protocol p = ApiTypes.ProtocolUDP) (svc_Ports svc) ->
  NoDup (port_key <$> svc_Ports svc).
Proof.
  intros [_ _ Hrange _ _ _ Hnd] Hproto. induction (svc_Ports svc) as [|p ps IH]; [constructor|].
  rewrite fmap_cons. rewrite fmap_cons, NoDup_cons in Hnd. destruct Hnd as [Hn Hnd].
  apply Forall_cons in Hproto as [Hp Hps]. apply Forall_cons in Hrange as [Hrp Hrange].
  apply NoDup_cons. split; [|by apply IH]. intros (q & Heq & Hq)%list_elem_of_fmap. apply Hn.
  apply list_elem_of_fmap. exists q. split; [|done]. rewrite Forall_forall in Hps.
  unfold port_key in Heq. injection Heq as Hk Hd. apply (inj pretty) in Hd.
  rewrite Hd. f_equal. destruct Hp as [Hp|Hp], (Hps q Hq) as [Hq'|Hq']; rewrite Hp, Hq' in *; done.
Qed.

Lemma port_key_probes p : port_protocol p = ApiTypes.ProtocolTCP \/ port_protocol p = ApiTypes.ProtocolUDP ->
  port_key p = ("tcp", "8081") <-> port_Port p = 8081 /\ port_protocol p = ApiTypes.ProtocolTCP.
Proof.
  intros Hp. unfold port_key. split.
  - intros [= Hk Hd]. change "8081" with (fmt_d 8081) in Hd. apply (inj pretty) in Hd. split; [done|].
    by destruct Hp as [->|Hu]; [|rewrite Hu in Hk].
  - by intros [-> ->].
Qed.

Lemma list_bind_singletons {A B} (f : A -> B) (g : A -> list B) (l : list A) :
  (forall x, g x = [f x]) -> l ≫= g = f <$> l.
Proof. intros Hg. induction l as [|x l IH]; [done|]. by rewrite bind_cons, Hg, IH. Qed.

Lemma NoDup_twice {A B} (f : A -> B) (l : list A) : l <> [] -> ~ NoDup (l ≫= fun x => [f x] ++ [f x]).
Proof. destruct l as [|x l]; [done|]. intros _. rewrite bind_cons. simpl. intros [H _]%NoDup_cons. apply H. by left. Qed.

(** The sockets of the proxy of a valid Service are on ports of their own exactly if its
    Service does not make them clash. *)
Lemma service_keys_differ (svc : Service) (eps : Endpoints) (pp : string) (opts : ServeOptions) :
  service_valid svc -> svc_Ports svc <> [] ->
  Forall (fun p => port_protocol p = ApiTypes.ProtocolTCP \/ port_protocol p = ApiTypes.ProtocolUDP) (svc_Ports svc) ->
  (splitClusterIPs svc).1 <> "" \/ (splitClusterIPs svc).2 <> "" -> HealthBindAddress opts = ":8081" ->
  NoDup (serve_keys (legs_specs pp (share (service_legs svc eps))) opts) <-> ~ sockets_clash svc.
Proof.
  intros Hv Hne Hproto Hip Ho. pose proof (port_keys_differ svc Hv Hproto) as Hnd.
  unfold serve_keys, service_legs. rewrite legs_specs_keys, Ho, omap_bind.
  change (health_key ":8081") with [("tcp", "8081")].
  assert (forall f, (forall p, p ∈ svc_Ports svc -> omap (spec_key ∘ leg_spec pp)
    (legs_of (splitClusterIPs svc).1 (splitClusterIPs svc).2 (local_endpoints svc eps) p) = f p) ->
    (svc_Ports svc ≫= fun p => omap (spec_key ∘ leg_spec pp)
      (legs_of (splitClusterIPs svc).1 (splitClusterIPs svc).2 (local_endpoints svc eps) p)) = svc_Ports svc ≫= f) as Hbind.
  { clear. intros f Hf. induction (svc_Ports svc) as [|p ps IH]; [done|]. rewrite !bind_cons, IH, Hf; [done|by left|].
    intros q Hq. apply Hf. by right. }
  rewrite (Hbind (fun p => (if bool_decide ((splitClusterIPs svc).1 = "") then [] else [port_key p]) ++
    (if bool_decide ((splitClusterIPs svc).2 = "") then [] else [port_key p]))).
  2: { intros p Hp. apply legs_of_keys. destruct Hv as [_ _ Hrange _ _ _ _]. rewrite Forall_forall in Hrange.
       destruct (Hrange p Hp). lia. }
  unfold sockets_clash. clear Hbind.
  assert (NoDup ((port_key <$> svc_Ports svc) ++ [("tcp", "8081")]) <->
    ~ exists p, p ∈ svc_Ports svc /\ port_Port p = 8081 /\ port_protocol p = ApiTypes.ProtocolTCP) as Hone.
  { rewrite NoDup_app. setoid_rewrite list_elem_of_singleton. rewrite Forall_forall in Hproto. split.
    - intros (_ & Hn & _) (p & Hp & Hk). apply (Hn (port_key p)); [by apply list_elem_of_fmap_2|].
      by apply port_key_probes; [apply Hproto|].
    - intros Hn. split_and!; [done| |apply NoDup_singleton]. intros k (p & -> & Hp)%list_elem_of_fmap Hk.
      apply Hn. exists p. split; [done|]. by apply port_key_probes; [apply Hproto|]. }
  case_bool_decide as H4; case_bool_decide as H6; [by destruct Hip| | |].
  - rewrite (list_bind_singletons port_key), Hone by done. tauto.
  - rewrite (list_bind_singletons port_key), Hone by (intros x; by rewrite app_nil_r). tauto.
  - split; [|tauto]. intros [H _]%NoDup_app. by apply NoDup_twice in H.
Qed.

Section probes.
Context `{LabelSelectors}.

(** C10: The sockets and the probes of a proxy pod. Let the API server take the DaemonSet
    built for a valid Service, whose target ports, IPv4 address and endpoint addresses have
    the form it requires and whose proxy-protocol annotation is 1, 2 or absent. The proxy
    accepts the arguments of the container, and both probes go to port 8081, which is the
    port they make it serve its probes on.
    (1) If the Service has addresses of both families, or a TCP port 8081, the proxy never
    serves: as it listens on all addresses, and a port can be listened on that way only once,
    one of its sockets is refused, and it ends with an error without having accepted anything.
    (2) For any other Service all its sockets are on ports of their own.
    (3) The liveness probe is answered 200; the readiness probe is answered 200 exactly if,
    for every TCP rule of the Service, the upstream it tries, which is the first ready
    endpoint (or the ClusterIP, without local traffic), takes a connection, 503 otherwise,
    every connection made being closed. *)
Theorem probes_answered (svc : Service) (image ns : string) (eps : Endpoints) (ds : DaemonSet)
    (Hvalid : service_valid svc)
    (Hbuild : BuildDaemonSet svc image ns (endpointsByServicePort eps svc) = OK ds)
    (Hports : Forall port_ok (svc_Ports svc))
    (Hv4 : no_char colon (splitClusterIPs svc).1) (Heps : endpoints_ok eps)
    (Hversion : lookup_str (svc_Annotations svc) AnnotationProxyProtocol ∈ ["1"; "2"; ""])
    (Htaken : pod_ports_valid (ds_PodSpec (ds_Spec ds))) :
  exists c args specs opts,
    Containers (ds_PodSpec (ds_Spec ds)) = [c] /\ ctr_Args c = "proxy" :: args /\ Run args = OK (specs, opts) /\
    probe_target c (LivenessProbe c) = Some 8081 /\ probe_target c (ReadinessProbe c) = Some 8081 /\
    HealthBindAddress opts = ":" +:+ fmt_d 8081 /\
    (sockets_clash svc -> forall tr r, exec (Serve specs opts) tr r -> exclusive tr ->
       (exists e, r = Fail e) /\ omap started tr = []) /\
    (~ sockets_clash svc -> NoDup (serve_keys specs opts)) /\
    serve_http specs (probe_Path (LivenessProbe c)) = Ret (200, "ok
") /\
    forall tr code body, exec (serve_http specs (probe_Path (ReadinessProbe c))) tr (code, body) ->
      let dialled := readinessUpstream <$> filter (fun s => protocol s = ProtocolTCP) specs in
      let ok a := [Ev (Dial (DialContext a)) (OK tt); Ev (Dial (CloseConn a)) tt] in
      (code = 200 /\ tr = dialled ≫= ok) \/
      (code = 503 /\ exists l1 a l2 e, dialled = l1 ++ a :: l2 /\
         tr = (l1 ≫= ok) ++ [Ev (Dial (DialContext a)) (Fail e)]).
Proof.
  destruct (BuildDaemonSet_container _ _ _ _ _ Hbuild) as (c & Hc & _ & Hl & Hr & Hcp).
  destruct (daemonset_runs svc image ns eps ds Hbuild Hports Hv4 Heps) as (args & Hargs & Hrun & _).
  destruct Htaken as [Hnames _]. rewrite Hc, Forall_singleton, Hcp in Hnames.
  destruct Hnames as [_ Hname%probes_port].
  destruct (built_needs _ _ _ _ _ Hbuild) as [Hne Hip].
  eexists c, args, _, _. split; [exact Hc|]. split; [|split; [|split; [|split; [|split; [|split; [|split; [|split]]]]]]].
  - revert Hargs. unfold container_args. rewrite Hc. by intros [= ->].
  - apply Hrun. revert Hversion. set_solver.
  - unfold probe_target. rewrite Hl, Hcp. cbn [httpProbe probe_Port]. by rewrite Hname.
  - unfold probe_target. rewrite Hr, Hcp. cbn [httpProbe probe_Port]. by rewrite Hname.
  - done.
  - intros Hclash tr r Hexec Hex. apply (Serve_clash _ _ _ _ Hexec Hex).
    rewrite service_keys_differ by eauto using built_protocols. tauto.
  - intros Hok. by apply service_keys_differ; eauto using built_protocols.
  - by rewrite Hl.
  - intros tr code body. rewrite Hr. simpl. intros (t0 & Hx & ->)%exec_translate.
    apply exec_readyz in Hx as [[-> ->]|(-> & l1 & a & l2 & e & Hd & ->)].
    + left. split; [done|]. by rewrite list_fmap_bind.
    + right. split; [done|]. exists l1, a, l2, e. split; [done|]. by rewrite fmap_app, list_fmap_bind.
Qed.
End probes.

Lemma sample_dual_valid : service_valid sample_dual.
Proof.
  constructor; try (vm_compute; reflexivity).
  - repeat (apply Forall_cons; split; [split; [simpl; lia|apply (bool_decide_unpack _); by vm_compute]|]). by apply Forall_nil.
  - right. by repeat constructor.
  - repeat (apply Forall_cons; split; [right; by vm_compute|]). by apply Forall_nil.
  - apply (bool_decide_unpack _). by vm_compute.
  - apply (bool_decide_unpack _). by vm_compute.
Qed.

(** The dual-stack Service of ProxyContract: its proxy ends when the second socket on port
    443 is refused. *)
Lemma probes_answered_witness :
  exists ds c args specs opts,
    @BuildDaemonSet equality_selectors sample_dual "bulb:1" "bulb-system"
      (endpointsByServicePort sample_endpoints sample_dual) = OK ds /\
    Containers (ds_PodSpec (ds_Spec ds)) = [c] /\ Run args = OK (specs, opts) /\
    probe_target c (LivenessProbe c) = Some 8081 /\ probe_target c (ReadinessProbe c) = Some 8081 /\
    forall tr r, exec (Serve specs opts) tr r -> exclusive tr -> exists e, r = Fail e.
Proof.
  destruct (@BuildDaemonSet equality_selectors sample_dual "bulb:1" "bulb-system"
    (endpointsByServicePort sample_endpoints sample_dual)) as [ds|e] eqn:Hb; [|vm_compute in Hb; discriminate].
  destruct sample_dual_ok as (H1 & _ & H3 & H4).
  assert (pod_ports_valid (ds_PodSpec (ds_Spec ds))) as Htaken.
  { apply (@pod_ports_valid_built equality_selectors _ _ _ _ _ sample_dual_valid Hb).
    split; [|apply (bool_decide_unpack _); by vm_compute].
    repeat (apply Forall_cons; split; [split; [right; by vm_compute|]; simpl; split_and!; try lia;
      apply (bool_decide_unpack _); by vm_compute|]). by apply Forall_nil. }
  destruct (@probes_answered equality_selectors sample_dual "bulb:1" "bulb-system" sample_endpoints ds sample_dual_valid
    Hb H1 H3 H4 ltac:(right; right; left; vm_compute; reflexivity) Htaken)
    as (c & args & specs & opts & Hc & _ & Hrun & Hl & Hr & _ & Hclash & _).
  exists ds, c, args, specs, opts. split_and!; [reflexivity|exact Hc|exact Hrun|exact Hl|exact Hr|].
  intros tr r Hx He. apply (Hclash ltac:(left; vm_compute; split; discriminate) tr r Hx He).
Defined.
