(* ===== verification/Exposure.v ===== *)
(** * Exposure: from a Service to the firewall of a node

    The controller and the firewall agents meet in the LBPorts. This file composes
    the controller's [Reconcile] with the agent's [DesiredPortsForNode]: which ports
    a node opens once a Service has been reconciled. *)
From S2P Require Import Prelude GoStrings Effects ApiTypes FwPorts Kube KubeApply LBPorts Conflicts DaemonSets DnsRecords ServiceReconciler ReconcileSpec.
Open Scope Z_scope.

Section exposure.
Context `{LabelSelectors}.

(** The LBPorts with the labels of a Service, as an agent would list them. *)
Definition service_lbports (svc : Service) (c : Cluster) (items : list LBPort) : Prop :=
  items ≡ₚ filter (fun l => serviceLabels svc ⊆ lbp_Labels l) (map_to_list (lbports c)).*2.

Lemma labels_of_settled want (o : option LBPort) :
  lbp_Spec (settled KLBPort want (set_lbport want) o) = lbp_Spec want /\
  lbp_Labels (settled KLBPort want (set_lbport want) o) = lbp_Labels want.
Proof. unfold settled. by destruct o. Qed.

Lemma pruned_parts valid l : lbp_Spec (prune_one valid l) = lbp_Spec l /\ lbp_Labels (prune_one valid l) = lbp_Labels l.
Proof. done. Qed.

(** After serving, the specs of the Service's LBPorts are those that were built. *)
Lemma served_specs svc ports ds c c' items :
  Forall (fun l => lbp_Labels l = serviceLabels svc) ports ->
  served svc ports ds c c' -> service_lbports svc c' items ->
  forall s, s ∈ lbp_Spec <$> items <-> s ∈ lbp_Spec <$> ports.
Proof.
  intros Hls (m1 & m2 & [Hin Hout] & _ & conds & _ & ->) Hitems s. unfold service_lbports in Hitems. simpl in Hitems.
  rewrite Forall_forall in Hls.
  assert (forall key l, statuses_pruned (schedulable (all_nodes c)) (serviceLabels svc) m1 !! key = Some l <->
    exists l0, m1 !! key = Some l0 /\
      l = (if decide (serviceLabels svc ⊆ lbp_Labels l0) then prune_one (schedulable (all_nodes c)) l0 else l0)) as Hm.
  { intros key l. unfold statuses_pruned. rewrite lookup_fmap, fmap_Some. naive_solver. }
  rewrite !list_elem_of_fmap. setoid_rewrite Hitems. setoid_rewrite list_elem_of_filter.
  setoid_rewrite list_elem_of_fmap. split.
  - intros (l & -> & Hl & ([key l'] & -> & Hkey%elem_of_map_to_list%Hm)). simpl in Hl. cbn [snd].
    destruct Hkey as (l0 & Hl0 & ->). destruct (decide (key ∈ name_of KLBPort <$> ports)) as [Hk|Hk].
    + apply list_elem_of_fmap in Hk as (want & -> & Hw). rewrite Hin in Hl0 by done. injection Hl0 as <-.
      exists want. split; [|done]. destruct (labels_of_settled want (lbports c !! name_of KLBPort want)) as [<- _].
      by case_decide.
    + exfalso. rewrite Hout in Hl0 by done. destruct (lbports c !! key) as [o|]; [|done].
      case_decide as Ho; [done|]. injection Hl0 as <-. rewrite decide_False in Hl by done. done.
  - intros (want & -> & Hw). pose proof (Hin want Hw) as Hstored.
    destruct (labels_of_settled want (lbports c !! name_of KLBPort want)) as [Hs Hl].
    set (l0 := settled _ _ _ _) in *. exists (prune_one (schedulable (all_nodes c)) l0). split_and!; [done| |].
    + simpl. rewrite Hl, (Hls want Hw). done.
    + exists (name_of KLBPort want, prune_one (schedulable (all_nodes c)) l0). split; [done|].
      apply elem_of_map_to_list, Hm. exists l0. split; [done|]. rewrite decide_True; [done|].
      by rewrite Hl, (Hls want Hw).
Qed.

(** Whether a node is one the Service is exposed on. *)
Definition in_scope (svc : Service) (c : Cluster) (n : string) : Prop :=
  let raw := lookup_str (svc_Annotations svc) AnnotationNodes in
  raw = "" \/ exists spec selector node,
    ParseToLabelSelector raw = OK spec /\ LabelSelectorAsSelector spec = OK selector /\
    node ∈ all_nodes c /\ node_Name node = n /\ Unschedulable node = false /\
    Matches selector (node_Labels node) = true.

Lemma scope_covers svc c ns n : node_names_ok c -> scope svc (all_nodes c) = OK ns ->
  (allNodesToken ∈ ns \/ n ∈ ns) <-> (in_scope svc c n \/ n = allNodesToken /\ ns = [allNodesToken]).
Proof.
  intros Hok. unfold scope, in_scope. cbv zeta. case_bool_decide as Hraw.
  { intros [= <-]. rewrite !list_elem_of_singleton. tauto. }
  rewrite bind_result_ok. intros (spec & Hspec & Hsel). apply bind_result_ok in Hsel as (sel & Hsel & [= <-]).
  destruct (ParseToLabelSelector _) as [spec'|] eqn:Hp; [|done]. injection Hspec as ->.
  destruct (LabelSelectorAsSelector spec) as [sel'|] eqn:Hs; [|done]. injection Hsel as ->.
  assert (forall x, x ∈ matched_nodes sel (all_nodes c) <-> exists node, node ∈ all_nodes c /\
    node_Name node = x /\ Unschedulable node = false /\ Matches sel (node_Labels node) = true) as Hm.
  { intros x. unfold matched_nodes. rewrite elem_of_sort_strings, list_elem_of_fmap.
    setoid_rewrite list_elem_of_filter. naive_solver. }
  assert (allNodesToken ∉ matched_nodes sel (all_nodes c)) as Hnt.
  { intros (node & Hn & Hname & _)%Hm. unfold node_names_ok in Hok. rewrite Forall_forall in Hok.
    by apply (Hok node Hn). }
  rewrite (Hm n). split.
  - intros [?|(node & ?)]; [done|]. left. right. exists spec, sel, node. tauto.
  - intros [[?|(sp & se & node & [= <-] & Hse & ?)]|[-> Heq]]; [done| |].
    + rewrite Hs in Hse. injection Hse as <-. right. exists node. tauto.
    + exfalso. apply Hnt. rewrite Heq. by left.
Qed.

(** The key of a Service port in the firewall. *)
Definition port_key (p : ServicePort) : PortKey := MkPortKey (port_Port p) (ToLower (port_protocol p)).

Lemma lbport_for_key svc ns p : lbport_key (lbport_for svc ns p) = port_key p.
Proof.
  destruct p as [nm pr po tp]. unfold lbport_key, port_key, protocolString, defaultTCP, port_protocol. simpl.
  f_equal. destruct (decide (pr = "")) as [->|Hp]; [done|].
  rewrite (bool_decide_false (pr = "")) by done. by destruct pr.
Qed.

(** What an agent computes from the LBPorts of a Service that is served. *)
Lemma served_desired svc ports ds c c' items n :
  node_names_ok c -> n <> allNodesToken -> built c svc = OK ports ->
  served svc ports ds c c' -> service_lbports svc c' items ->
  forall k, (exists p, p ∈ DesiredPortsForNode items n /\ key p = k) <->
    in_scope svc c n /\ exists p, p ∈ svc_Ports svc /\ port_key p = k.
Proof.
  intros Hok Hn Hb Hserved Hitems k. unfold built in Hb. apply bind_result_ok in Hb as (ns & Hns & [= <-]).
  pose proof (served_specs svc (lbport_for svc ns <$> svc_Ports svc) ds c c' items) as Hspecs. rewrite Forall_fmap in Hspecs.
  specialize (Hspecs ltac:(by apply Forall_true) Hserved Hitems).
  destruct (DesiredPortsForNode_spec items n) as (_ & _ & -> & _).
  assert ((exists l, l ∈ items /\ (allNodesToken ∈ spec_Nodes (lbp_Spec l) \/ n ∈ spec_Nodes (lbp_Spec l))
      /\ lbport_key l = k) <->
    exists s, s ∈ lbp_Spec <$> items /\ (allNodesToken ∈ spec_Nodes s \/ n ∈ spec_Nodes s) /\
      lbport_key (MkLBPort "" ∅ s (MkLBPortStatus [])) = k) as ->.
  { setoid_rewrite list_elem_of_fmap. split.
    - intros (l & ? & ? & <-). exists (lbp_Spec l). eauto.
    - intros (s & (l & -> & ?) & ? & <-). exists l. auto. }
  setoid_rewrite Hspecs. setoid_rewrite list_elem_of_fmap. setoid_rewrite list_elem_of_fmap.
  pose proof (scope_covers svc c ns n Hok Hns) as Hcov. split.
  - intros (s & (l & -> & p & -> & Hp) & Hc & <-). simpl in Hc. apply Hcov in Hc as [Hc|[? _]]; [|done].
    split; [done|]. exists p. split; [done|]. by rewrite <-(lbport_for_key svc ns p).
  - intros [Hc (p & Hp & <-)]. exists (lbp_Spec (lbport_for svc ns p)). split_and!.
    + exists (lbport_for svc ns p). split; [done|]. by exists p.
    + simpl. apply Hcov. by left.
    + by rewrite <-(lbport_for_key svc ns p).
Qed.
End exposure.

(** End to end from a Service to a node's firewall: once a Service that is bulb's,
    valid and without conflict has been reconciled over an API server that behaves
    as documented, the ports the firewall agent of a node computes from the LBPorts
    of the Service are exactly the ports of the Service, if the node is in its
    scope (any node without a nodes annotation, else the schedulable nodes the
    selector matches), and none otherwise. *)
Theorem reconciled_service_exposed `{LabelSelectors} {W} (h : handler KubeE W) (view : W -> Cluster)
    (Hserver : KubeServer h view) (r : ServiceReconciler) (req : NamespacedName) (w : W)
    (svc : Service) (ports : list LBPort) (ds : DaemonSet) (n : string) (items : list LBPort)
    (Hkeyed : keyed (view w)) (Hnodes : node_names_ok (view w)) (Hn : n <> allNodesToken)
    (Hsvc : services (view w) !! req = Some svc) (Hmatch : ServiceMatches svc = true)
    (Hready : ~ starved (view w) svc) (Hbuilt : built (view w) svc = OK ports)
    (Hfree : conflict_free (view w) svc ports)
    (Hds : BuildDaemonSet svc (sr_Image r) (sr_Namespace r) (endpoints_for (view w) svc) = OK ds)
    (Hitems : service_lbports svc (view (snd (run h (Reconcile r req) w))) items) :
  forall k, (exists p, p ∈ DesiredPortsForNode items n /\ key p = k) <->
    in_scope svc (view w) n /\ exists p, p ∈ svc_Ports svc /\ port_key p = k.
Proof.
  eapply served_desired; [done|done|exact Hbuilt| |exact Hitems].
  apply (kwp_run h view (Reconcile r req) (fun _ c => served svc ports ds (view w) c)).
  apply kwp_Reconcile; [done..|]. intros c'. by apply reconciled_served_inv.
Qed.

(** *** A cluster with one Service *)

Definition sample_shop : Service :=
  sample_service "shop" {[ AnnotationNodes := "role=edge" ]} [MkServicePort "http" "TCP" 8080 "80"].
Definition one_service : Cluster := sample_cluster [sample_shop] [].

Lemma named_in {T} (k : Kind T) l key o : named k l !! key = Some o -> o ∈ l.
Proof.
  unfold named. intros Hin%elem_of_list_to_map_2.
  by apply list_elem_of_fmap in Hin as (o' & [= -> <-] & Ho').
Qed.

Lemma one_service_free : @conflict_free equality_selectors one_service sample_shop
  [lbport_for sample_shop ["edge-1"] (MkServicePort "http" "TCP" 8080 "80")].
Proof.
  split; [apply NoDup_singleton|]. split.
  - intros want _ (o & Ho & _). change (named KLBPort [] !! ("", lbp_Name want) = Some o) in Ho.
    apply named_in in Ho. by apply not_elem_of_nil in Ho.
  - intros other (Hin & Hne & _). apply (named_in KService [sample_shop]) in Hin.
    apply list_elem_of_singleton in Hin. by subst.
Qed.

Lemma edge_in_scope : @in_scope equality_selectors sample_shop one_service "edge-1".
Proof.
  right. exists (MkLabelSelector {[ "role" := "edge" ]} []), ({[ "role" := "edge" ]} : str_map).
  exists (MkNode "edge-1" false {[ "role" := "edge" ]} {[ "bulb.toturi.tech/public-ipv4" := "203.0.113.7" ]}).
  split; [vm_compute; reflexivity|]. split; [reflexivity|]. split; [|split; [|split]]; try reflexivity.
  - apply list_elem_of_fmap. eexists (("", "edge-1"), _). split; [reflexivity|].
    apply elem_of_map_to_list. reflexivity.
Qed.

Lemma reconciled_service_exposed_witness :
  exists items p,
    @service_lbports sample_shop
      (snd (run sim_server (@Reconcile equality_selectors sample_reconciler ("demo", "shop")) one_service)) items /\
    p ∈ DesiredPortsForNode items "edge-1" /\ key p = MkPortKey 8080 "tcp".
Proof.
  set (c' := snd (run sim_server (@Reconcile equality_selectors sample_reconciler ("demo", "shop")) one_service)).
  destruct (@BuildDaemonSet equality_selectors sample_shop "bulb:1" "bulb-system" (endpoints_for one_service sample_shop))
    as [ds|e] eqn:Hds; [|vm_compute in Hds; discriminate].
  destruct (@reconciled_service_exposed equality_selectors Cluster sim_server id sim_server_law sample_reconciler
    ("demo", "shop") one_service sample_shop
    [lbport_for sample_shop ["edge-1"] (MkServicePort "http" "TCP" 8080 "80")] ds "edge-1"
    (filter (fun l => serviceLabels sample_shop ⊆ lbp_Labels l) (map_to_list (lbports c')).*2)
    (sample_keyed _ _) (sample_nodes_ok _ _) ltac:(discriminate) ltac:(vm_compute; reflexivity)
    ltac:(vm_compute; reflexivity) ltac:(intros [Hl _]; vm_compute in Hl; discriminate)
    ltac:(vm_compute; reflexivity) one_service_free Hds (reflexivity _) (MkPortKey 8080 "tcp")) as [_ Hex].
  destruct Hex as (p & Hp & Hkey).
  - split; [exact edge_in_scope|]. eexists. split; [left|vm_compute; reflexivity].
  - eexists _, p. split; [unfold service_lbports; reflexivity|]. by split.
Defined.
