(* ===== verification/Settles.v ===== *)
(** * Settles: a second reconcile of a served Service changes nothing

    The controller is called again for every change of a watched object, its own
    writes among them. Once a Service is served, the next reconcile finds everything
    as it should be and leaves the cluster as it is, so the calls end. *)
From S2P Require Import Prelude GoStrings Effects ApiTypes FwPorts Kube KubeApply LBPorts Conflicts DaemonSets DnsRecords ServiceReconciler ReconcileSpec Exposure.
Open Scope Z_scope.

(** ** Applying again *)

Section applied.
Context {T : Type} (k : Kind T).

Lemma applied_stable desired merge ls m m' :
  (forall w, w ∈ desired -> exists o, m !! name_of k w = Some o /\ updated k (merge w o) o = o) ->
  (forall key o, key ∉ name_of k <$> desired -> m !! key = Some o -> ~ ls ⊆ labels_of k o) ->
  applied k desired merge ls m m' -> m' = m.
Proof.
  intros Hold Hothers [Hin Hout]. apply map_eq. intros key.
  destruct (decide (key ∈ name_of k <$> desired)) as [Hk|Hk].
  - apply list_elem_of_fmap in Hk as (w & -> & Hw). destruct (Hold w Hw) as (o & Ho & Hsame).
    rewrite (Hin w Hw), Ho. simpl. by rewrite Hsame.
  - rewrite Hout by done. destruct (m !! key) as [o|] eqn:Ho; [|done].
    rewrite decide_False; [done|]. by eapply Hothers.
Qed.

(** What is left beside the desired objects has other labels. *)
Lemma applied_others desired merge ls m m' key o :
  applied k desired merge ls m m' -> key ∉ name_of k <$> desired -> m' !! key = Some o ->
  ~ ls ⊆ labels_of k o.
Proof.
  intros [_ Hout] Hk. rewrite Hout by done. destruct (m !! key); [|done].
  case_decide; [done|]. by intros [= <-].
Qed.
End applied.

Lemma set_lbport_same want o :
  lbp_Spec o = lbp_Spec want -> lbp_Labels o = lbp_Labels want ->
  updated KLBPort (set_lbport want o) o = o.
Proof. destruct o as [? ? ? []]. simpl. by intros -> ->. Qed.

Lemma set_dnsrecord_same want o :
  dns_Spec o = dns_Spec want -> dns_Labels o = dns_Labels want ->
  updated KDNSRecord (set_dnsrecord want o) o = o.
Proof. destruct o. simpl. intros -> ->. done. Qed.

Lemma statuses_pruned_lookup valid ls m key l :
  statuses_pruned valid ls m !! key = Some l <->
  exists l0, m !! key = Some l0 /\ l = (if decide (ls ⊆ lbp_Labels l0) then prune_one valid l0 else l0).
Proof. unfold statuses_pruned. rewrite lookup_fmap, fmap_Some. naive_solver. Qed.

Lemma prune_one_twice valid l : prune_one valid (prune_one valid l) = prune_one valid l.
Proof.
  unfold prune_one, with_applied. simpl. do 2 f_equal. rewrite list_filter_filter_l; [done|]. tauto.
Qed.

Lemma statuses_pruned_twice valid ls m :
  statuses_pruned valid ls (statuses_pruned valid ls m) = statuses_pruned valid ls m.
Proof.
  unfold statuses_pruned. rewrite <-map_fmap_compose. apply map_fmap_ext. intros key l _. simpl.
  destruct (decide (ls ⊆ lbp_Labels l)) as [Hl|Hl].
  - destruct (pruned_parts valid l) as [_ Hp]. rewrite decide_True by (by rewrite Hp). apply prune_one_twice.
  - by rewrite decide_False.
Qed.

(** The LBPorts of a served Service, pruned, are where they should be. *)
Lemma lbports_settled desired svc valid m m1 :
  lbports_applied desired svc m m1 ->
  let m2 := statuses_pruned valid (serviceLabels svc) m1 in
  (forall w, w ∈ desired -> exists o, m2 !! name_of KLBPort w = Some o /\
     lbp_Spec o = lbp_Spec w /\ lbp_Labels o = lbp_Labels w) /\
  (forall key o, key ∉ name_of KLBPort <$> desired -> m2 !! key = Some o -> ~ serviceLabels svc ⊆ lbp_Labels o).
Proof.
  intros Happ m2. split.
  - intros w Hw. destruct Happ as [Hin _]. pose proof (labels_of_settled w (m !! name_of KLBPort w)) as [H1 H2].
    eexists. split; [apply statuses_pruned_lookup; eexists; split; [by apply Hin|reflexivity]|].
    rewrite <-H1, <-H2. by case_decide.
  - intros key o Hk (l0 & Hl0 & ->)%statuses_pruned_lookup.
    pose proof (applied_others KLBPort _ _ _ _ _ _ _ Happ Hk Hl0) as Hn. simpl in Hn. by rewrite decide_False.
Qed.

(** ** A served Service *)

Section settles.
Context `{LabelSelectors}.

(** The cluster a served Service leads to, its parts named. *)
Definition served_cluster (svc' : Service) (ds : DaemonSet) (m_ports : gmap NamespacedName LBPort)
    (m_records : gmap NamespacedName DNSRecord) (c : Cluster) : Cluster :=
  MkCluster (<[name_of KService svc' := svc']> (services c)) (nodes c) (endpoints c)
    (<[name_of KDaemonSet ds := ds]> (daemonsets c)) m_ports m_records.

Lemma sameStringMap_refl m : sameStringMap m m = true.
Proof.
  unfold sameStringMap. apply andb_true_iff. split; apply bool_decide_eq_true; [done|].
  intros key v Hv. unfold lookup_str. by rewrite Hv.
Qed.

Lemma conflict_free_served svc ing conds ports ds valid m1 m_records c :
  built c svc = OK ports -> lbports_applied ports svc (lbports c) m1 -> conflict_free c svc ports ->
  let svc' := with_status ing conds svc in
  conflict_free (served_cluster svc' ds (statuses_pruned valid (serviceLabels svc) m1) m_records c) svc' ports.
Proof.
  intros Hbuilt Happ (H1 & _ & H3) svc'. split; [done|]. split.
  - intros want Hw (o & Ho & Hf). destruct (lbports_settled _ _ valid _ _ Happ) as [Hin _].
    destruct (Hin want Hw) as (o' & Ho' & Hs & Hl). simpl in Ho, Ho'. rewrite Ho in Ho'. injection Ho' as <-.
    rewrite Hs, Hl, sameStringMap_refl in Hf. destruct Hf as [[_ Hf]|Hf]; [|done].
    unfold built in Hbuilt. apply bind_result_ok in Hbuilt as (ns & _ & [= <-]).
    apply list_elem_of_fmap in Hw as (p & -> & _). done.
  - intros other (Hin & Hne & Hm & others & Hb & Hclash). apply (H3 other). split_and!; [|exact Hne|exact Hm|].
    + simpl in Hin. rewrite lookup_insert_ne in Hin by (intros Heq; by apply Hne). exact Hin.
    + by exists others.
Qed.

(** Serving a Service that is served leads nowhere. *)
Lemma served_again svc ports ds c c' c'' :
  keyed c -> built c svc = OK ports -> served svc ports ds c c' ->
  forall svc', services c' !! name_of KService svc = Some svc' ->
  served svc' ports ds c' c'' -> c'' = c'.
Proof.
  intros Hk Hbuilt (m1 & m2 & Hm1 & Hm2 & conds & Hconds & ->) svc' Hsvc'.
  simpl in Hsvc'. rewrite lookup_insert_eq in Hsvc'. injection Hsvc' as <-.
  set (svc' := with_status _ _ _). intros (m1' & m2' & Hm1' & Hm2' & conds' & Hconds' & ->).
  set (valid := schedulable (all_nodes c)) in *. simpl in Hm1', Hm2'.
  change (conditions_set conds (success_conditions svc) conds') in Hconds'.
  assert (m1' = statuses_pruned valid (serviceLabels svc) m1) as ->.
  { destruct (lbports_settled _ _ valid _ _ Hm1) as [Hin Hout]. eapply (applied_stable KLBPort); [|exact Hout|exact Hm1'].
    intros w Hw. destruct (Hin w Hw) as (o & Ho & Hs & Hl). exists o. split; [exact Ho|]. by apply set_lbport_same. }
  assert (m2' = m2) as ->.
  { eapply (applied_stable KDNSRecord); [| |exact Hm2'].
    - intros w Hw. destruct Hm2 as [Hin _]. eexists. split; [apply Hin, Hw|].
      apply set_dnsrecord_same; unfold settled; by destruct (_ !! _).
    - intros key o. apply (applied_others KDNSRecord _ _ _ _ _ _ _ Hm2). }
  assert (conds' = conds) as ->.
  { eapply conditions_set_same; [|exact Hconds']. eapply conditions_set_shows; [|exact Hconds].
    apply (bool_decide_unpack _). by vm_compute. }
  cbn [with_objects services nodes endpoints daemonsets lbports dnsrecords].
  f_equal.
  - change (name_of KService svc') with (name_of KService svc). rewrite insert_insert_eq. done.
  - by rewrite insert_insert_eq.
  - apply statuses_pruned_twice.
Qed.

Lemma keyed_served svc ports ds c c' :
  keyed c -> services c !! name_of KService svc = Some svc -> served svc ports ds c c' -> keyed c'.
Proof.
  intros Hk Hsvc (m1 & m2 & Hm1 & Hm2 & Hst). eapply keyed_status_set; [|exact Hst].
  assert (keyed (with_objects c KDaemonSet (<[name_of KDaemonSet ds := ds]> (daemonsets c)))) as Hk1
    by by apply keyed_daemonset.
  pose proof (keyed_applied KLBPort _ ports set_lbport (serviceLabels svc) m1 Hk1 ltac:(done) Hm1) as Hk2.
  apply (keyed_pruned (schedulable (all_nodes c)) (serviceLabels svc)) in Hk2.
  exact (keyed_applied KDNSRecord _ _ set_dnsrecord (serviceLabels svc) m2 Hk2 ltac:(done) Hm2).
Qed.
End settles.

(** C5: The controller comes to rest. Once a Service that is bulb's, valid and without
    conflict has been reconciled over an API server that behaves as documented,
    reconciling it again succeeds and leaves the cluster exactly as it is: no object
    is created, updated or deleted, and no status changes. *)
Theorem Reconcile_settles `{LabelSelectors} {W} (h : handler KubeE W) (view : W -> Cluster)
    (Hserver : KubeServer h view) (r : ServiceReconciler) (req : NamespacedName) (w : W)
    (svc : Service) (ports : list LBPort) (ds : DaemonSet)
    (Hkeyed : keyed (view w)) (Hnodes : node_names_ok (view w))
    (Hsvc : services (view w) !! req = Some svc) (Hmatch : ServiceMatches svc = true)
    (Hready : ~ starved (view w) svc) (Hbuilt : built (view w) svc = OK ports)
    (Hfree : conflict_free (view w) svc ports)
    (Hds : BuildDaemonSet svc (sr_Image r) (sr_Namespace r) (endpoints_for (view w) svc) = OK ds) :
  let w1 := snd (run h (Reconcile r req) w) in
  fst (run h (Reconcile r req) w1) = OK tt /\ view (snd (run h (Reconcile r req) w1)) = view w1.
Proof.
  intros w1. pose proof (Hkeyed Service KService req svc Hsvc) as Hname. simpl in Hname. subst req.
  assert (served svc ports ds (view w) (view w1)) as Hserved.
  { apply (kwp_run h view (Reconcile r _) (fun _ c => served svc ports ds (view w) c)).
    apply kwp_Reconcile; [done..|]. intros c'. by apply reconciled_served_inv. }
  assert (keyed (view w1)) as Hkeyed1 by by eapply keyed_served.
  pose proof Hserved as (m1 & m2 & Hm1 & _ & conds & _ & Hw1). simpl in Hw1.
  set (svc' := with_status (ingress_of (cluster_ips (view w))) conds svc) in *.
  assert (services (view w1) !! name_of KService svc' = Some svc') as Hsvc'.
  { rewrite Hw1. apply lookup_insert_eq. }
  apply (kwp_run h view (Reconcile r _) (fun res c => res = OK tt /\ c = view w1)).
  apply kwp_Reconcile; [done|by rewrite Hw1|]. intros c'' Hrec. split; [done|].
  eapply served_again; [exact Hkeyed|exact Hbuilt|exact Hserved|exact Hsvc'|].
  eapply reconciled_served_inv; [exact Hsvc'|exact Hmatch|..|exact Hrec]; rewrite Hw1.
  - exact Hready.
  - exact Hbuilt.
  - by apply conflict_free_served.
  - exact Hds.
Qed.

Lemma Reconcile_settles_witness :
  let c1 := snd (run sim_server (@Reconcile equality_selectors sample_reconciler ("demo", "shop")) one_service) in
  c1 <> one_service /\
  snd (run sim_server (@Reconcile equality_selectors sample_reconciler ("demo", "shop")) c1) = c1.
Proof.
  destruct (@BuildDaemonSet equality_selectors sample_shop "bulb:1" "bulb-system" (endpoints_for one_service sample_shop))
    as [ds|e] eqn:Hds; [|vm_compute in Hds; discriminate].
  split.
  - intros Hc. apply (f_equal (fun c => size (lbports c))) in Hc. vm_compute in Hc. discriminate.
  - exact (proj2 (@Reconcile_settles equality_selectors Cluster sim_server id sim_server_law sample_reconciler
      ("demo", "shop") one_service sample_shop
      [lbport_for sample_shop ["edge-1"] (MkServicePort "http" "TCP" 8080 "80")] ds
      (sample_keyed _ _) (sample_nodes_ok _ _) ltac:(vm_compute; reflexivity)
      ltac:(vm_compute; reflexivity) ltac:(intros [Hl _]; vm_compute in Hl; discriminate)
      ltac:(vm_compute; reflexivity) one_service_free Hds)).
Defined.
