(* ===== verification/Labeler.v ===== *)
(** * Labeler: the public addresses of a node

    Models internal/labeler/labeler.go: the detection of the node's public addresses
    on the interface of the default route, and the annotation of its Node object.
    Its flags are in Startup; signals and log lines are left out. The interfaces and their addresses
    are answers of the environment, the route table the lines its scanner yields. *)
From S2P Require Import Prelude GoStrings Effects ApiTypes GoNet FwPorts Kube KubeApply LBPorts Conflicts DaemonSets DnsRecords ServiceReconciler ReconcileSpec.
Open Scope Z_scope.

Definition AnnotationIPv4 : string := "bulb.toturi.tech/public-ipv4".
Definition AnnotationIPv6 : string := "bulb.toturi.tech/public-ipv6".

(** ** Addresses, as package net classifies them *)

Definition byte_at (ip : IP) (i : nat) : Z := nth i ip 0.

Definition IPv6loopback : IP := replicate 15 0 ++ [1].

Definition IsLoopback (ip : IP) : bool :=
  match To4 ip with
  | Some ip4 => byte_at ip4 0 =? 127
  | None => bool_decide (ip = IPv6loopback)
  end.

Definition IsLinkLocalUnicast (ip : IP) : bool :=
  match To4 ip with
  | Some ip4 => (byte_at ip4 0 =? 169) && (byte_at ip4 1 =? 254)
  | None => (length ip =? 16)%nat && (byte_at ip 0 =? 254) && (Z.land (byte_at ip 1) 192 =? 128)
  end.

Definition IsLinkLocalMulticast (ip : IP) : bool :=
  match To4 ip with
  | Some ip4 => (byte_at ip4 0 =? 224) && (byte_at ip4 1 =? 0) && (byte_at ip4 2 =? 0)
  | None => (length ip =? 16)%nat && (byte_at ip 0 =? 255) && (Z.land (byte_at ip 1) 15 =? 2)
  end.

(** The four networks of [isPrivateV4], as address and mask. *)
Definition private_nets : list (list Z * list Z) :=
  [([10; 0; 0; 0], [255; 0; 0; 0]); ([172; 16; 0; 0], [255; 240; 0; 0]);
   ([192; 168; 0; 0], [255; 255; 0; 0]); ([100; 64; 0; 0], [255; 192; 0; 0])].

(** [IPNet.Contains] for a 4-byte network. *)
Definition net_contains (n : list Z * list Z) (ip : IP) : bool :=
  let ip := match To4 ip with Some ip4 => ip4 | None => ip end in
  (length ip =? 4)%nat &&
  forallb (fun i => Z.land (nth i (fst n) 0) (nth i (snd n) 0) =? Z.land (nth i ip 0) (nth i (snd n) 0)) (seq 0 4).

Definition isPrivateV4 (ip : IP) : bool := existsb (fun n => net_contains n ip) private_nets.

(** ** Detection *)

(** A [net.Addr]: an [*net.IPNet], or something else. *)
Inductive Addr := AddrIPNet (ip : IP) | AddrOther.

Inductive HostE : Type -> Type :=
| OpenRoutes : HostE (result (list string * option error))  (* the lines and scanner.Err() *)
| InterfaceByName (name : string) : HostE (result string)
| Addrs (iface : string) : HostE (result (list Addr))
| WaitTick : HostE bool.                                     (* false: the context is done *)

(** The loop over the lines, up to the first default route. *)
Fixpoint default_route (lines : list string) : option string :=
  match lines with
  | [] => None
  | line :: lines' =>
      match Fields line with
      | f0 :: f1 :: f2 :: _ =>
          if bool_decide (f1 = "00000000") && negb (bool_decide (f2 = "00000000"))
          then Some f0 else default_route lines'
      | _ => default_route lines'
      end
  end.

Definition defaultRouteInterface : prog HostE (result string) :=
  let? (lines, err) := wrapped "open /proc/net/route: " (call OpenRoutes) in
  match default_route lines with
  | Some name => wrapped ("lookup interface " +:+ name +:+ ": ") (call (InterfaceByName name))
  | None =>
      match err with
      | Some e => Ret (Fail (wrap "scan /proc/net/route: " e))
      | None => Ret (Fail (errorf "no default route found in /proc/net/route"))
      end
  end.

(** The loop over the addresses. *)
Fixpoint pick_addresses (addrs : list Addr) (ipv4 ipv6 : string) : string * string :=
  match addrs with
  | [] => (ipv4, ipv6)
  | AddrOther :: addrs' => pick_addresses addrs' ipv4 ipv6
  | AddrIPNet ip :: addrs' =>
      if IsLoopback ip || IsLinkLocalUnicast ip || IsLinkLocalMulticast ip
      then pick_addresses addrs' ipv4 ipv6
      else
        let is_v4 := bool_decide (To4 ip <> None) in
        let ipv4 := if is_v4 && negb (isPrivateV4 ip) && bool_decide (ipv4 = "") then IP_String ip else ipv4 in
        let ipv6 := if negb is_v4 && bool_decide (ipv6 = "") then IP_String ip else ipv6 in
        pick_addresses addrs' ipv4 ipv6
  end.

Definition defaultDetectPublicIPs : prog HostE (result (string * string)) :=
  let? iface := wrapped "detect default route interface: " defaultRouteInterface in
  let? addrs := wrapped ("list addresses on " +:+ iface +:+ ": ") (call (Addrs iface)) in
  Ret (OK (pick_addresses addrs "" "")).

(** ** Annotation *)

(** [value != "" && ann[key] != value] *)
Definition needs_annotation (key value : string) (ann : str_map) : bool :=
  negb (bool_decide (value = "")) && negb (bool_decide (lookup_str ann key = value)).

Definition set_annotation (key value : string) (ann : str_map) : str_map :=
  if needs_annotation key value ann then <[key := value]> ann else ann.

Definition with_annotations (ann : str_map) (n : Node) : Node :=
  MkNode (node_Name n) (Unschedulable n) (node_Labels n) ann.

Definition annotateNode (nodeName ipv4 ipv6 : string) : prog KubeE (result unit) :=
  let? node := wrapped "get node: " (call (Get KNode ("", nodeName))) in
  let ann := node_Annotations node in
  let changed := needs_annotation AnnotationIPv4 ipv4 ann in
  let ann := set_annotation AnnotationIPv4 ipv4 ann in
  let changed := changed || needs_annotation AnnotationIPv6 ipv6 ann in
  let ann := set_annotation AnnotationIPv6 ipv6 ann in
  if negb changed then Ret (OK tt)
  else wrapped "annotate node: " (call (Update KNode (with_annotations ann node))).

Definition LabelerE : Type -> Type := sumE HostE KubeE.

Definition ReconcileOnce (nodeName : string) (detectFn : prog HostE (result (string * string)))
    : prog LabelerE (result unit) :=
  bindr (wrapped "detect public IPs: " (translate (fun X => @inlE HostE KubeE X) detectFn))
    (fun ips => translate (fun X => @inrE HostE KubeE X) (annotateNode nodeName (fst ips) (snd ips))).

Definition reconcileOnce (nodeName : string) : prog LabelerE (result unit) :=
  ReconcileOnce nodeName defaultDetectPublicIPs.

(** How [runLoop] ends. *)
Inductive loop_end := Return (r : result unit) | Panic (msg : string).

(** The loop of [runLoop], for at most [fuel] ticks; [None] when it is still running. *)
Fixpoint tick_loop (fuel : nat) (nodeName : string) : prog LabelerE (option loop_end) :=
  match fuel with
  | O => Ret None
  | S fuel =>
      bind (call (@inlE HostE KubeE bool WaitTick)) (fun tick : bool =>
        if tick then let* _ := reconcileOnce nodeName in tick_loop fuel nodeName
        else Ret (Some (Return (OK tt))))
  end.

(** [time.NewTicker] panics when the interval is not positive. *)
Definition runLoop (fuel : nat) (nodeName : string) (interval : Z) : prog LabelerE (option loop_end) :=
  let* first := reconcileOnce nodeName in
  match first with
  | Fail e => Ret (Some (Return (Fail e)))
  | OK _ =>
      if interval <=? 0 then Ret (Some (Panic "non-positive interval for NewTicker"))
      else tick_loop fuel nodeName
  end.

(** ** What is detected *)

Definition candidate (v4 : bool) (a : Addr) : option string :=
  match a with
  | AddrOther => None
  | AddrIPNet ip =>
      if IsLoopback ip || IsLinkLocalUnicast ip || IsLinkLocalMulticast ip then None
      else if bool_decide (To4 ip <> None) then
        if v4 && negb (isPrivateV4 ip) then Some (IP_String ip) else None
      else if v4 then None else Some (IP_String ip)
  end.

Lemma IP_String_nonempty ip : IP_String ip <> "".
Proof.
  unfold IP_String. destruct ip as [|b ip]; [done|]. destruct (To4 (b :: ip)) as [p4|] eqn:H4.
  - apply To4_length in H4. destruct p4 as [|c p4]; [done|]. apply Join_nonempty, fmt_d_nonempty.
  - case_bool_decide as Hl; [|done]. unfold v6_string.
    destruct (longest_zeros 0 (groups (b :: ip)) (0%nat, 0%nat)) as [st len]. case_match.
    + destruct ip; [done|]. apply Join_nonempty, hex16_nonempty.
    + destruct (Join _ _); done.
Qed.

Lemma pick_addresses_first addrs ipv4 ipv6 :
  pick_addresses addrs ipv4 ipv6 =
  (if bool_decide (ipv4 = "") then default "" (head (omap (candidate true) addrs)) else ipv4,
   if bool_decide (ipv6 = "") then default "" (head (omap (candidate false) addrs)) else ipv6).
Proof.
  revert ipv4 ipv6. induction addrs as [|a addrs IH]; intros ipv4 ipv6; cbn [pick_addresses].
  { simpl. f_equal; by case_bool_decide. }
  destruct a as [ip|]; [|apply IH]. cbn [omap list_omap candidate].
  destruct (_ || _); [apply IH|].
  pose proof (IP_String_nonempty ip) as Hne. destruct (bool_decide_reflect (To4 ip <> None)); simpl.
  - destruct (isPrivateV4 ip); simpl; [apply IH|]. rewrite IH. f_equal.
    destruct (bool_decide_reflect (ipv4 = "")) as [->|Hip]; by rewrite !bool_decide_false.
  - rewrite IH. f_equal.
    destruct (bool_decide_reflect (ipv6 = "")) as [->|Hip]; by rewrite !bool_decide_false.
Qed.

(** ** The specification of the detection *)

(** A line of the table that is a default route with a gateway, and its interface. *)
Definition is_default (line name : string) : Prop :=
  exists gateway rest, Fields line = name :: "00000000" :: gateway :: rest /\ gateway <> "00000000".

Definition no_default (lines : list string) : Prop := forall line name, line ∈ lines -> ~ is_default line name.

Definition first_default (lines : list string) (name : string) : Prop :=
  exists l1 line l2, lines = l1 ++ line :: l2 /\ no_default l1 /\ is_default line name.

(** The first address of a family that may be published, or the empty string. *)
Definition first_address (v4 : bool) (addrs : list Addr) : string :=
  default "" (head (omap (candidate v4) addrs)).

Lemma no_default_cons line lines :
  no_default (line :: lines) <-> (forall name, ~ is_default line name) /\ no_default lines.
Proof.
  unfold no_default. split.
  - intros H. split; intros; apply H; by constructor.
  - intros [H1 H2] line' name Hin. apply elem_of_cons in Hin as [->|Hin]; [apply H1|by apply H2].
Qed.

Lemma default_route_cons line lines :
  (exists name, is_default line name /\ default_route (line :: lines) = Some name) \/
  ((forall name, ~ is_default line name) /\ default_route (line :: lines) = default_route lines).
Proof.
  unfold is_default. cbn [default_route]. destruct (Fields line) as [|f0 [|f1 [|f2 fs]]].
  1-3: by right; split; [intros name (? & ? & [=] & _)|].
  destruct (bool_decide_reflect (f1 = "00000000")) as [->|H1]; simpl.
  - destruct (bool_decide_reflect (f2 = "00000000")) as [->|H2]; simpl.
    + right. split; [|done]. by intros name (? & ? & [= _ <- _] & ?).
    + left. exists f0. split; [by exists f2, fs|done].
  - right. split; [|done]. by intros name (? & ? & [= _ ? _] & ?).
Qed.

Lemma is_default_inj line name name' : is_default line name -> is_default line name' -> name = name'.
Proof. intros (? & ? & H & _) (? & ? & H' & _). congruence. Qed.

Lemma default_route_spec lines :
  match default_route lines with
  | Some name => first_default lines name
  | None => no_default lines
  end.
Proof.
  induction lines as [|line lines IH]; [by intros ? ? ?%not_elem_of_nil|].
  destruct (default_route_cons line lines) as [(name & Hd & ->)|[Hn ->]].
  - exists [], line, lines. split_and!; [done| |done]. by intros ? ? ?%not_elem_of_nil.
  - destruct (default_route lines) as [name|]; [|by apply no_default_cons].
    destruct IH as (l1 & line' & l2 & -> & Hl1 & Hd). exists (line :: l1), line', l2.
    split_and!; [done|by apply no_default_cons|done].
Qed.

Lemma first_default_iff lines name : default_route lines = Some name <-> first_default lines name.
Proof.
  split; [intros H; pose proof (default_route_spec lines) as Hs; by rewrite H in Hs|].
  intros (l1 & line & l2 & -> & Hl1 & Hd). induction l1 as [|line' l1 IH].
  - destruct (default_route_cons line l2) as [(name' & Hd' & H)|[Hn _]]; [|by edestruct Hn].
    simpl. by rewrite (is_default_inj line name name').
  - apply no_default_cons in Hl1 as [Hn Hl1].
    destruct (default_route_cons line' (l1 ++ line :: l2)) as [(name' & Hd' & _)|[_ H]].
    + by edestruct Hn.
    + simpl app. rewrite H. by apply IH.
Qed.

Lemma no_default_iff lines : default_route lines = None <-> no_default lines.
Proof.
  split; [intros H; pose proof (default_route_spec lines) as Hs; by rewrite H in Hs|].
  intros Hn. destruct (default_route lines) as [name|] eqn:Hd; [|done].
  apply first_default_iff in Hd as (l1 & line & l2 & -> & _ & Hd). exfalso.
  apply (Hn line name); [|done]. apply elem_of_app. right. by left.
Qed.

(** Which exchanges the detection can have, and what it then returns. *)
Inductive detection : list (event HostE) -> result (string * string) -> Prop :=
| detect_no_table e :
    detection [Ev OpenRoutes (Fail e)]
      (Fail (wrap "detect default route interface: " (wrap "open /proc/net/route: " e)))
| detect_scan_error lines e :
    no_default lines ->
    detection [Ev OpenRoutes (OK (lines, Some e))]
      (Fail (wrap "detect default route interface: " (wrap "scan /proc/net/route: " e)))
| detect_no_route lines :
    no_default lines ->
    detection [Ev OpenRoutes (OK (lines, None))]
      (Fail (errorf "detect default route interface: no default route found in /proc/net/route"))
| detect_no_interface lines err name e :
    first_default lines name ->
    detection [Ev OpenRoutes (OK (lines, err)); Ev (InterfaceByName name) (Fail e)]
      (Fail (wrap "detect default route interface: " (wrap ("lookup interface " +:+ name +:+ ": ") e)))
| detect_no_addresses lines err name iface e :
    first_default lines name ->
    detection [Ev OpenRoutes (OK (lines, err)); Ev (InterfaceByName name) (OK iface); Ev (Addrs iface) (Fail e)]
      (Fail (wrap ("list addresses on " +:+ iface +:+ ": ") e))
| detect_addresses lines err name iface addrs :
    first_default lines name ->
    detection [Ev OpenRoutes (OK (lines, err)); Ev (InterfaceByName name) (OK iface); Ev (Addrs iface) (OK addrs)]
      (OK (first_address true addrs, first_address false addrs)).

(** C32: The detection of a node's public addresses, whatever the host answers. It
    reads the route table, looks up the interface of the first default route that
    has a gateway, lists its addresses, and returns the first public IPv4 address
    and the first IPv6 address that is not loopback or link-local, each empty when
    there is none. Every failure is returned as such, after exactly those requests
    that precede it, and a scan error counts only when no default route was read. *)
Theorem defaultDetectPublicIPs_correct tr r :
  exec defaultDetectPublicIPs tr r <-> detection tr r.
Proof.
  split.
  - simpl. intros (x & t1 & -> & H1). destruct x as [[lines err]|e]; simpl in H1;
      [|destruct H1 as [-> ->]; constructor].
    destruct (default_route lines) as [name|] eqn:Hd; [apply first_default_iff in Hd|apply no_default_iff in Hd].
    + destruct H1 as (iface & t2 & -> & H2). destruct iface as [iface|e]; simpl in H2;
        [|destruct H2 as [-> ->]; by constructor].
      destruct H2 as (addrs & t3 & -> & H3). destruct addrs as [addrs|e]; simpl in H3;
        destruct H3 as [-> ->]; [rewrite pick_addresses_first|]; by econstructor.
    + destruct err as [e|]; simpl in H1; destruct H1 as [-> ->]; by constructor.
  - intros H. destruct H; simpl;
      repeat match goal with
      | H : first_default _ _ |- _ => apply first_default_iff in H
      | H : no_default _ |- _ => apply no_default_iff in H
      end;
      repeat (eexists _, _; split; [reflexivity|]; simpl; try match goal with H : default_route _ = _ |- _ => rewrite H end; simpl);
      rewrite ?pick_addresses_first; done.
Qed.

(** ** The specification of the annotation *)

(** An address that was detected replaces the annotation; one that was not leaves it. *)
Definition annotated_with (key value : string) (ann : str_map) : str_map :=
  if bool_decide (value = "") then ann else <[key := value]> ann.

Definition annotated (ipv4 ipv6 : string) (ann : str_map) : str_map :=
  annotated_with AnnotationIPv6 ipv6 (annotated_with AnnotationIPv4 ipv4 ann).

Lemma set_annotation_spec key value ann : set_annotation key value ann = annotated_with key value ann.
Proof.
  unfold set_annotation, needs_annotation, annotated_with.
  destruct (bool_decide_reflect (value = "")) as [Hv|Hv]; simpl; [done|].
  destruct (bool_decide_reflect (lookup_str ann key = value)) as [Hl|Hl]; simpl; [|done].
  symmetry. apply insert_id. unfold lookup_str in Hl. destruct (ann !! key); simpl in Hl; congruence.
Qed.

Lemma needs_annotation_false key value ann :
  needs_annotation key value ann = false -> set_annotation key value ann = ann.
Proof. unfold set_annotation. by intros ->. Qed.

Lemma with_annotations_id n : with_annotations (node_Annotations n) n = n.
Proof. by destruct n. Qed.

Definition annotate_node (ipv4 ipv6 : string) (n : Node) : Node :=
  with_annotations (annotated ipv4 ipv6 (node_Annotations n)) n.

Lemma kwp_annotateNode nodeName ipv4 ipv6 (Q : result unit -> Cluster -> Prop) c :
  keyed c ->
  match nodes c !! ("", nodeName) with
  | Some n =>
      Q (OK tt) (with_objects c KNode (<[("", nodeName) := annotate_node ipv4 ipv6 n]> (nodes c)))
  | None => forall e, IsNotFound e = true -> Q (Fail (wrap "get node: " e)) c
  end ->
  kwp (annotateNode nodeName ipv4 ipv6) Q c.
Proof.
  intros Hk HQ. unfold annotateNode. apply wp_bindr, wp_wrapped. split; [done|]. intros x c1 [-> Hx].
  simpl in Hx. destruct (nodes c !! ("", nodeName)) as [n|] eqn:Hn.
  2: { destruct Hx as (e & -> & He). by apply HQ. }
  subst x. cbn [wp wrap_result].
  pose proof (Hk Node KNode ("", nodeName) n Hn) as Hname.
  rewrite !set_annotation_spec. destruct (negb _) eqn:Hc.
  - simpl. apply negb_true_iff, orb_false_iff in Hc as [H4 H6].
    apply needs_annotation_false in H4, H6. rewrite set_annotation_spec in H4, H6.
    unfold annotate_node, annotated in HQ. rewrite H4 in H6, HQ. rewrite H6 in HQ.
    rewrite with_annotations_id, insert_id in HQ by exact Hn. by destruct c.
  - apply wp_wrapped. split; [done|]. intros x c2. unfold kube_law, changes.
    change (name_of KNode (with_annotations _ n)) with (name_of KNode n). rewrite Hname.
    change (objects c KNode) with (nodes c). rewrite Hn. intros [-> ->]. exact HQ.
Qed.

Definition node_annotated (nodeName : string) (ips : string * string) (c c' : Cluster) (r : result unit) : Prop :=
  match nodes c !! ("", nodeName) with
  | Some n =>
      r = OK tt /\
      c' = with_objects c KNode (<[("", nodeName) := annotate_node (fst ips) (snd ips) n]> (nodes c))
  | None => c' = c /\ exists e, r = Fail (wrap "get node: " e) /\ IsNotFound e = true
  end.

Lemma run_annotateNode {W} (h : handler KubeE W) (view : W -> Cluster) `{!KubeServer h view}
    nodeName ips w : keyed (view w) ->
  let '(r, w') := run h (annotateNode nodeName (fst ips) (snd ips)) w in
  node_annotated nodeName ips (view w) (view w') r.
Proof.
  intros Hk. pose proof (kwp_run h view (annotateNode nodeName (fst ips) (snd ips))
    (fun r c' => node_annotated nodeName ips (view w) c' r) w) as H.
  destruct (run h _ w) as [r w']. apply H, kwp_annotateNode; [done|]. unfold node_annotated.
  destruct (nodes (view w) !! ("", nodeName)); [done|]. intros e He. eauto.
Qed.

(** One round of the labeler, over any host and any API server that behaves as
    documented, with any detection. When the detection fails, so does the round, and
    nothing is written. Otherwise, of all objects only the node's annotations change:
    each address that was detected is under its key, one that was not leaves the key
    as it was, and so does every other annotation. A node that does not exist is
    an error. *)
Theorem ReconcileOnce_annotates {W1 W2} (host : handler HostE W1) (h : handler KubeE W2) (view : W2 -> Cluster)
    (Hserver : KubeServer h view) (nodeName : string) (detectFn : prog HostE (result (string * string)))
    (w1 : W1) (w2 : W2) (Hkeyed : keyed (view w2)) :
  let detected := run host detectFn w1 in
  let '(r, (w1', w2')) := run (sum_handler host h) (ReconcileOnce nodeName detectFn) (w1, w2) in
  w1' = snd detected /\
  match fst detected with
  | Fail e => r = Fail (wrap "detect public IPs: " e) /\ w2' = w2
  | OK ips => node_annotated nodeName ips (view w2) (view w2') r
  end.
Proof.
  simpl. unfold ReconcileOnce. rewrite run_bindr, run_wrapped, run_inl.
  destruct (run host detectFn w1) as [[ips|e] w1']; [|done]. cbn beta iota delta [wrap_result].
  rewrite run_inr. pose proof (run_annotateNode h view nodeName ips w2 Hkeyed) as H.
  by destruct (run h _ w2).
Qed.

(** *** The addresses the controller publishes *)

Lemma elem_of_all_nodes c n : keyed c -> n ∈ all_nodes c <-> nodes c !! ("", node_Name n) = Some n.
Proof. apply (elem_of_values c KNode). Qed.

Lemma public_ip_update c name n n' ip :
  keyed c -> nodes c !! ("", name) = Some n -> node_Name n' = name ->
  has_public_ip (all_nodes (with_objects c KNode (<[("", name) := n']> (nodes c)))) ip <->
  has_public_ip [n'] ip \/ has_public_ip (filter (fun m => node_Name m <> name) (all_nodes c)) ip.
Proof.
  intros Hk Hn Hname. set (c' := with_objects _ _ _).
  assert (keyed c') as Hk'.
  { apply (keyed_with_objects c KNode); [done|]. intros key o.
    intros [[<- <-]|[_ Ho]]%lookup_insert_Some; [by simpl; rewrite Hname|by apply (Hk Node KNode)]. }
  assert (forall m, m ∈ all_nodes c' <-> m = n' \/ (node_Name m <> name /\ m ∈ all_nodes c)) as Hall.
  { intros m. rewrite !elem_of_all_nodes by done. unfold c'. simpl. rewrite lookup_insert_Some. split.
    - intros [[_ <-]|[Hne Hm]]; [by left|]. right. split; [|done]. congruence.
    - intros [->|[Hne Hm]]; [left; by rewrite Hname|]. right. split; [|done]. congruence. }
  unfold has_public_ip. setoid_rewrite list_elem_of_filter. setoid_rewrite list_elem_of_singleton.
  split.
  - intros (m & ann & [->|Hm]%Hall & H); [left; by exists n', ann|right; by exists m, ann].
  - intros [(m & ann & -> & H)|(m & ann & Hm & H)]; [exists n', ann|exists m, ann];
      (split; [apply Hall; auto|done]).
Qed.

Lemma annotated_lookup ipv4 ipv6 ann :
  lookup_str (annotated ipv4 ipv6 ann) AnnotationIPv4 =
    (if bool_decide (ipv4 = "") then lookup_str ann AnnotationIPv4 else ipv4) /\
  lookup_str (annotated ipv4 ipv6 ann) AnnotationIPv6 =
    (if bool_decide (ipv6 = "") then lookup_str ann AnnotationIPv6 else ipv6).
Proof.
  unfold annotated, annotated_with, lookup_str. split; repeat case_bool_decide; by simplify_map_eq.
Qed.

Lemma public_ip_annotated ipv4 ipv6 n ip : Unschedulable n = false ->
  has_public_ip [annotate_node ipv4 ipv6 n] ip <->
  ip <> "" /\
  (ip = (if bool_decide (ipv4 = "") then lookup_str (node_Annotations n) AnnotationIPv4 else ipv4) \/
   ip = (if bool_decide (ipv6 = "") then lookup_str (node_Annotations n) AnnotationIPv6 else ipv6)).
Proof.
  intros Hu. destruct (annotated_lookup ipv4 ipv6 (node_Annotations n)) as [<- <-]. unfold has_public_ip. split.
  - intros (m & ann & -> %list_elem_of_singleton & _ & Hann & <- & Hne). split; [done|].
    apply elem_of_cons in Hann as [->| ->%list_elem_of_singleton]; auto.
  - intros [Hne H]. destruct H as [->| ->]; eexists _, _;
      (split; [by apply list_elem_of_singleton|]; split; [done|]; split; [|split; [reflexivity|done]]); [by left|by right; left].
Qed.

(** C25: What the labeler writes is what the controller publishes. After a round that
    detects addresses on a schedulable node, the addresses the controller puts in the
    status of its Services and in their DNS records are those detected, those of the
    other schedulable nodes, and, for a family with no address detected any more, the
    one that was annotated before: a round never withdraws an address. *)
Theorem labeled_addresses_published {W1 W2} (host : handler HostE W1) (h : handler KubeE W2) (view : W2 -> Cluster)
    (Hserver : KubeServer h view) (nodeName : string) (detectFn : prog HostE (result (string * string)))
    (w1 : W1) (w2 : W2) (n : Node) (ips : string * string) (Hkeyed : keyed (view w2))
    (Hnode : nodes (view w2) !! ("", nodeName) = Some n) (Hschedulable : Unschedulable n = false)
    (Hdetected : fst (run host detectFn w1) = OK ips) :
  let c' := view (snd (snd (run (sum_handler host h) (ReconcileOnce nodeName detectFn) (w1, w2)))) in
  let others := filter (fun m => node_Name m <> nodeName) (all_nodes (view w2)) in
  let kept key ip := if bool_decide (ip = "") then lookup_str (node_Annotations n) key else ip in
  forall ip, ip ∈ cluster_ips c' <->
    (ip <> "" /\ (ip = kept AnnotationIPv4 (fst ips) \/ ip = kept AnnotationIPv6 (snd ips))) \/
    has_public_ip others ip.
Proof.
  simpl. intros ip. unfold ReconcileOnce. rewrite run_bindr, run_wrapped, run_inl.
  destruct (run host detectFn w1) as [d w1']. simpl in Hdetected. subst d. cbn beta iota delta [wrap_result].
  rewrite run_inr. pose proof (run_annotateNode h view nodeName ips w2 Hkeyed) as H.
  destruct (run h _ w2) as [r w2']. unfold node_annotated in H. rewrite Hnode in H. destruct H as [_ Hc]. simpl.
  destruct (cluster_ips_spec (view w2')) as (_ & _ & Hips). rewrite Hips, Hc.
  pose proof (Hkeyed Node KNode ("", nodeName) n Hnode) as Hname. injection Hname as Hname.
  rewrite (public_ip_update (view w2) nodeName n) by done. by rewrite public_ip_annotated.
Qed.

(** *** A node with one public address of each family *)

Definition sample_host : handler HostE unit := fun X e w =>
  match e in HostE Y return Y * unit with
  | OpenRoutes =>
      (OK (["Iface Destination Gateway Flags"; "cni0 0000000A 00000000 0001"; "eth0 00000000 0101A8C0 0003"], None), w)
  | InterfaceByName name => (OK name, w)
  | Addrs _ =>
      (OK [AddrIPNet [127;0;0;1]; AddrIPNet [192;168;1;4]; AddrOther; AddrIPNet [198;51;100;20];
           AddrIPNet [254;128;0;0;0;0;0;0;0;0;0;0;0;0;0;10]; AddrIPNet [32;1;13;184;0;0;0;0;0;0;0;0;0;0;0;7]], w)
  | WaitTick => (false, w)
  end.

Definition sample_nodes_only : Cluster := sample_cluster [] [].

Lemma ReconcileOnce_annotates_witness :
  fst (run sample_host defaultDetectPublicIPs tt) = OK ("198.51.100.20", "2001:db8::7") /\
  let '(r, (_, c')) := run (sum_handler sample_host sim_server) (reconcileOnce "edge-1") (tt, sample_nodes_only) in
  node_annotated "edge-1" ("198.51.100.20", "2001:db8::7") sample_nodes_only c' r /\ r = OK tt.
Proof.
  split; [by vm_compute|].
  pose proof (ReconcileOnce_annotates sample_host sim_server id sim_server_law "edge-1" defaultDetectPublicIPs tt
    sample_nodes_only (sample_keyed [] [])) as H. cbn zeta in H. unfold reconcileOnce.
  destruct (run (sum_handler sample_host sim_server) _ _) as [r [w1 c']]. destruct H as [_ H].
  replace (fst (run sample_host defaultDetectPublicIPs tt)) with (OK ("198.51.100.20", "2001:db8::7"))
    in H by by vm_compute.
  split; [exact H|]. unfold node_annotated in H. by destruct H.
Defined.

Lemma labeled_addresses_published_witness :
  let c' := snd (snd (run (sum_handler sample_host sim_server)
    (ReconcileOnce "edge-1" defaultDetectPublicIPs) (tt, sample_nodes_only))) in
  "2001:db8::7" ∈ cluster_ips c' /\ "203.0.113.9" ∈ cluster_ips c'.
Proof.
  set (n := MkNode "edge-1" false {[ "role" := "edge" ]} {[ "bulb.toturi.tech/public-ipv4" := "203.0.113.7" ]}).
  pose proof (labeled_addresses_published sample_host sim_server id sim_server_law "edge-1" defaultDetectPublicIPs tt
    sample_nodes_only n ("198.51.100.20", "2001:db8::7") (sample_keyed [] []) ltac:(by vm_compute) eq_refl
    ltac:(by vm_compute)) as H.
  assert (has_public_ip (filter (fun m => node_Name m <> "edge-1") (all_nodes sample_nodes_only)) "203.0.113.9") as Ho.
  { exists (MkNode "core-1" false ∅ {[ "bulb.toturi.tech/public-ipv4" := "203.0.113.9" ]}), AnnotationIPv4.
    split_and!; [|done|by left|by vm_compute|done]. apply list_elem_of_filter. split; [done|].
    apply elem_of_all_nodes; [apply sample_keyed|]. by vm_compute. }
  cbn zeta in H |- *. split_and!.
  - apply H. left. split; [done|]. right. by vm_compute.
  - apply H. right. exact Ho.
Defined.

(** ** The loop *)

(** The exchange after the first round: a round for every tick, whatever it returns,
    until the context is done. *)
Inductive rounds (nodeName : string) : list (event LabelerE) -> Prop :=
| rounds_done : rounds nodeName [Ev (inlE WaitTick) false]
| rounds_tick t r rest :
    exec (reconcileOnce nodeName) t r -> rounds nodeName rest ->
    rounds nodeName (Ev (inlE WaitTick) true :: t ++ rest).

Lemma exec_tick_loop nodeName tr :
  (exists fuel, exec (tick_loop fuel nodeName) tr (Some (Return (OK tt)))) <-> rounds nodeName tr.
Proof.
  split.
  - intros [fuel H]. revert tr H. induction fuel as [|fuel IH]; intros tr; cbn [tick_loop exec]; [by intros [? _]|].
    intros ([|] & tr' & -> & H).
    + cbn beta iota delta [bind] in H. apply exec_bind in H as (r & t1 & t2 & -> & H1 & H2).
      eapply rounds_tick; [exact H1|by apply IH].
    + destruct H as [_ ->]. apply rounds_done.
  - induction 1 as [|t r rest Ht _ [fuel IH]]; [by exists 1%nat, false, []|].
    exists (S fuel), true, (t ++ rest). split; [done|].
    cbn beta iota delta [bind]. apply exec_bind. by exists r, t, rest.
Qed.

Lemma tick_loop_ok fuel nodeName tr r : exec (tick_loop fuel nodeName) tr (Some r) -> r = Return (OK tt).
Proof.
  revert tr. induction fuel as [|fuel IH]; intros tr; cbn [tick_loop exec]; [by intros [? _]|].
  intros ([|] & tr' & -> & H).
  - cbn beta iota delta [bind] in H. apply exec_bind in H as (? & ? & ? & _ & _ & H). by eapply IH.
  - by destruct H as [[= ->] _].
Qed.

(** The labeler's loop. It ends with an error exactly when the first round fails, and
    then at once. After a first round that succeeds it panics when the interval is not
    positive, which nothing checks; otherwise it runs a round at every tick, goes on
    when one fails, and ends without error exactly when the context is done. *)
Theorem runLoop_correct nodeName interval tr r :
  (exists fuel, exec (runLoop fuel nodeName interval) tr (Some r)) <->
  (exists e, r = Return (Fail e) /\ exec (reconcileOnce nodeName) tr (Fail e)) \/
  (interval <= 0 /\ r = Panic "non-positive interval for NewTicker" /\ exec (reconcileOnce nodeName) tr (OK tt)) \/
  (0 < interval /\ r = Return (OK tt) /\
   exists t1 t2, tr = t1 ++ t2 /\ exec (reconcileOnce nodeName) t1 (OK tt) /\ rounds nodeName t2).
Proof.
  split.
  - intros (fuel & (first & t1 & t2 & -> & H1 & H2)%exec_bind). destruct first as [[]|e].
    + destruct (Z.leb_spec interval 0).
      * destruct H2 as [[= ->] ->]. rewrite app_nil_r. auto.
      * right; right. pose proof (tick_loop_ok _ _ _ _ H2) as ->. split; [done|]. split; [done|]. exists t1, t2.
        split_and!; [done|exact H1|]. apply exec_tick_loop. by exists fuel.
    + left. destruct H2 as [[= ->] ->]. rewrite app_nil_r. by exists e.
  - intros [(e & -> & H)|[(Hi & -> & H)|(Hi & -> & t1 & t2 & -> & H1 & [fuel H2]%exec_tick_loop)]].
    + exists 0%nat. apply exec_bind. exists (Fail e), tr, []. by rewrite app_nil_r.
    + exists 0%nat. apply exec_bind. exists (OK tt), tr, []. rewrite app_nil_r. split_and!; [done..|].
      by rewrite (proj2 (Z.leb_le interval 0)).
    + exists fuel. apply exec_bind. exists (OK tt), t1, t2. split_and!; [done..|].
      by rewrite (proj2 (Z.leb_gt interval 0)).
Qed.
