(* ===== verification/Startup.v ===== *)
(** * Startup: from the command line to the running roles

    Models main of cmd/bulb/main.go and the [Run] functions of the controller
    (internal/controller/controller.go), the firewall agent (internal/firewall/
    firewall.go) and the labeler (internal/labeler/labeler.go): their flags, what they
    refuse, and the calls to controller-runtime and client-go they make, in order, up
    to the start of the manager. The proxy's is in ProxyArgs. Environment variables
    are arguments; the scheme, the logger, signals and metrics are left out. *)
From S2P Require Import Prelude GoStrings Effects ApiTypes GoNet FwPorts FwBackend Firewalld FwConfig FwAgent Durations Flags ProxyFlags ProxyServe ProxyArgs Kube LBPorts Conflicts DaemonSets DnsRecords ServiceReconciler Labeler.
Open Scope Z_scope.

(** ** cmd/bulb/main.go *)

Inductive MainE : Type -> Type :=
| RunSubcommand (name : string) (args : list string) : MainE (result unit)
| PrintStdout (text : string) : MainE unit
| PrintStderr (text : string) : MainE unit.

Definition subcommands : list string :=
  ["controller"; "proxy"; "firewall-agent"; "dns-agent"; "node-ip-labeler"].

(** [main] on [os.Args], with the text of [usage]; the result is the exit status. *)
Definition main (usage : string) (os_Args : list string) : prog MainE Z :=
  match os_Args with
  | _ :: cmd :: args =>
      if bool_decide (cmd ∈ subcommands) then
        let* err := call (RunSubcommand cmd args) in
        match err with
        | Fail e =>
            let* _ := call (PrintStderr ("bulb " +:+ cmd +:+ ": " +:+ Error e +:+ "
")) in Ret 1
        | OK _ => Ret 0
        end
      else if bool_decide (cmd ∈ ["-h"; "--help"; "help"]) then
        let* _ := call (PrintStdout usage) in Ret 0
      else
        let* _ := call (PrintStderr ("bulb: unknown subcommand " +:+ fmt_q cmd +:+ "

")) in
        let* _ := call (PrintStderr usage) in Ret 2
  | _ => let* _ := call (PrintStderr usage) in Ret 2
  end.

(** [Run] of internal/dns/dns.go. *)
Definition dns_Run (args : list string) : result unit := Fail (errorf "not yet implemented (Phase 3)").

(** ** The manager *)

(** The [ctrl.Options] given; a field not set is empty or false. *)
Record ManagerOptions := MkManagerOptions {
  MetricsBindAddress : string;
  HealthProbeBindAddress : string;
  LeaderElection : bool;
  LeaderElectionID : string;
  LeaderElectionNamespace : string
}.

(** Calls to controller-runtime; [R] is the reconciler handed to it. *)
Inductive ManagerE (R : Type) : Type -> Type :=
| GetConfigOrDie : ManagerE R unit
| NewClient : ManagerE R (result unit)
| NewManager (opts : ManagerOptions) : ManagerE R (result unit)
| CompleteController (r : R) : ManagerE R (result unit)
| AddHealthzCheck (name : string) : ManagerE R (result unit)
| AddReadyzCheck (name : string) : ManagerE R (result unit)
| StartManager : ManagerE R (result unit).
Arguments GetConfigOrDie {R}.
Arguments NewClient {R}.
Arguments NewManager {R}.
Arguments CompleteController {R}.
Arguments AddHealthzCheck {R}.
Arguments AddReadyzCheck {R}.
Arguments StartManager {R}.

(** [r.SetupWithManager(mgr)], given what it checks itself. *)
Definition setup_with_manager {R} (checks : result unit) (r : R) : prog (ManagerE R) (result unit) :=
  match checks with
  | Fail e => Ret (Fail e)
  | OK _ => call (CompleteController r)
  end.

(** From [AddHealthzCheck] to the end of [Run], the same in both. *)
Definition serve_manager {R} (readyz_name : string) : prog (ManagerE R) (result unit) :=
  let? _ := wrapped "add healthz: " (call (AddHealthzCheck "ping")) in
  let? _ := wrapped "add readyz: " (call (AddReadyzCheck readyz_name)) in
  wrapped "manager exited: " (call StartManager).

(** ** The controller *)

Module Controller.
Record Config := MkConfig {
  namespace : string;
  image : string;
  metricsAddr : string;
  probeAddr : string;
  leaderID : string;
  leaderEnable : bool
}.

Definition default_config : Config := MkConfig "bulb-system" "" ":9100" ":8081" "bulb-controller" true.

Definition set_flag (name value : string) (c : Config) : option (result Config) :=
  let '(MkConfig n i m p l e) := c in
  if bool_decide (name = "namespace") then Some (OK (MkConfig value i m p l e))
  else if bool_decide (name = "image") then Some (OK (MkConfig n value m p l e))
  else if bool_decide (name = "metrics-bind-address") then Some (OK (MkConfig n i value p l e))
  else if bool_decide (name = "health-probe-bind-address") then Some (OK (MkConfig n i m value l e))
  else if bool_decide (name = "leader-election-id") then Some (OK (MkConfig n i m p value e))
  else if bool_decide (name = "leader-elect") then Some (bool_value name value (fun b => MkConfig n i m p l b))
  else None.

Definition is_bool (name : string) : bool := bool_decide (name = "leader-elect").

(** [Run] once the flags are parsed. *)
Definition start (c : Config) : prog (ManagerE ServiceReconciler) (result unit) :=
  if bool_decide (image c = "") then Ret (Fail (errorf "--image is required"))
  else
    let* _ := call GetConfigOrDie in
    let? _ := wrapped "create manager: " (call (NewManager
      (MkManagerOptions (metricsAddr c) (probeAddr c) (leaderEnable c) (leaderID c) (namespace c)))) in
    let r := MkServiceReconciler true (namespace c) (image c) in
    let? _ := wrapped "setup reconciler: " (setup_with_manager (ServiceReconciler.SetupWithManager r) r) in
    serve_manager "ping".

Definition Run (args : list string) : prog (ManagerE ServiceReconciler) (result unit) :=
  match parse_flags set_flag is_bool args default_config with
  | Fail e => Ret (Fail e)
  | OK c => start c
  end.
End Controller.

(** ** The firewall agent *)

Module Agent.
Record Config := MkConfig {
  nodeName : string;
  configNamespace : string;
  configName : string;
  metricsAddr : string;
  probeAddr : string
}.

Definition default_config (NODE_NAME : string) : Config :=
  MkConfig NODE_NAME defaultConfigNamespace defaultConfigMapName ":9100" ":8081".

Definition set_flag (name value : string) (c : Config) : option (result Config) :=
  let '(MkConfig n ns cn m p) := c in
  if bool_decide (name = "node-name") then Some (OK (MkConfig value ns cn m p))
  else if bool_decide (name = "config-namespace") then Some (OK (MkConfig n value cn m p))
  else if bool_decide (name = "configmap") then Some (OK (MkConfig n ns value m p))
  else if bool_decide (name = "metrics-bind-address") then Some (OK (MkConfig n ns cn value p))
  else if bool_decide (name = "health-probe-bind-address") then Some (OK (MkConfig n ns cn m value))
  else None.

Definition RunE : Type -> Type := sumE (ManagerE (AgentReconciler AnyBackend)) SetupE.
Definition manager {A} (p : prog (ManagerE (AgentReconciler AnyBackend)) A) : prog RunE A :=
  translate (fun X => @inlE (ManagerE (AgentReconciler AnyBackend)) SetupE X) p.

Definition start (c : Config) : prog RunE (result unit) :=
  if bool_decide (nodeName c = "") then Ret (Fail (errorf "--node-name is required (or set NODE_NAME)"))
  else
    let* _ := manager (call GetConfigOrDie) in
    let? _ := wrapped "create bootstrap client: " (manager (call NewClient)) in
    let? r := translate (fun X => @inrE (ManagerE (AgentReconciler AnyBackend)) SetupE X)
                (agent_setup (nodeName c) (configNamespace c) (configName c)) in
    let? _ := wrapped "create manager: " (manager (call (NewManager
      (MkManagerOptions (metricsAddr c) (probeAddr c) false "" "")))) in
    let? _ := wrapped "setup firewall-agent reconciler: "
                (manager (setup_with_manager (FwAgent.SetupWithManager r) r)) in
    manager (serve_manager "backend").

Definition Run (NODE_NAME : string) (args : list string) : prog RunE (result unit) :=
  match parse_flags set_flag (fun _ => false) args (default_config NODE_NAME) with
  | Fail e => Ret (Fail e)
  | OK c => start c
  end.
End Agent.

(** ** The labeler *)

Module NodeIPLabeler.
Record Config := MkConfig { nodeName : string; interval : Z }.

Definition default_config : Config := MkConfig "" (60 * second).

Definition set_flag (name value : string) (c : Config) : option (result Config) :=
  if bool_decide (name = "node-name") then Some (OK (MkConfig value (interval c)))
  else if bool_decide (name = "interval") then Some (duration_value name value (fun d => MkConfig (nodeName c) d))
  else None.

(** [rest.InClusterConfig] and [client.New]. *)
Inductive ClientE : Type -> Type :=
| InClusterConfig : ClientE (result unit)
| NewClient : ClientE (result unit).

Definition RunE : Type -> Type := sumE ClientE LabelerE.

Definition client {A} (p : prog ClientE A) : prog RunE A := translate (fun X => @inlE ClientE LabelerE X) p.

Definition start (fuel : nat) (NODE_NAME : string) (c : Config) : prog RunE (option loop_end) :=
  let name := if bool_decide (nodeName c = "") then NODE_NAME else nodeName c in
  if bool_decide (name = "") then
    Ret (Some (Return (Fail (errorf "--node-name or NODE_NAME env is required"))))
  else
    let* cfg := client (wrapped "get in-cluster config: " (call InClusterConfig)) in
    match cfg with
    | Fail e => Ret (Some (Return (Fail e)))
    | OK _ =>
        let* cl := client (wrapped "create client: " (call NewClient)) in
        match cl with
        | Fail e => Ret (Some (Return (Fail e)))
        | OK _ => translate (fun X => @inrE ClientE LabelerE X) (runLoop fuel name (interval c))
        end
    end.

Definition Run (fuel : nat) (NODE_NAME : string) (args : list string) : prog RunE (option loop_end) :=
  match parse_flags set_flag (fun _ => false) args default_config with
  | Fail e => Ret (Some (Return (Fail e)))
  | OK c => start fuel NODE_NAME c
  end.
End NodeIPLabeler.

(** ** The arguments the deployments give

    Those of deploy/manifests and of the Helm chart, with the values of the environment
    variables and of the chart in place of their names. *)

Definition controller_args (ns img : string) : list string :=
  ["--namespace=" +:+ ns; "--image=" +:+ img; "--leader-elect=true";
   "--metrics-bind-address=:9100"; "--health-probe-bind-address=:8081"].

Definition agent_args (node ns : string) : list string :=
  ["--node-name=" +:+ node; "--config-namespace=" +:+ ns; "--configmap=bulb-firewall-agent";
   "--metrics-bind-address=:9100"; "--health-probe-bind-address=:8081"].

Definition labeler_args (node every : string) : list string :=
  ["--node-name=" +:+ node; "--interval=" +:+ every].

(** The arguments of the manifests and of the Helm chart mean what they say: whatever
    the names, the image and the interval, each role's [Run] starts with exactly them, on
    top of the defaults for what is not given; an interval that is no duration is refused. *)
Theorem deployed_arguments (ns img node every NODE_NAME : string) (fuel : nat) :
  Controller.Run (controller_args ns img) =
    Controller.start (Controller.MkConfig ns img ":9100" ":8081" "bulb-controller" true) /\
  Agent.Run NODE_NAME (agent_args node ns) =
    Agent.start (Agent.MkConfig node ns "bulb-firewall-agent" ":9100" ":8081") /\
  NodeIPLabeler.Run fuel NODE_NAME (labeler_args node every) =
    match ParseDuration every with
    | Some d => NodeIPLabeler.start fuel NODE_NAME (NodeIPLabeler.MkConfig node d)
    | None => Ret (Some (Return (Fail (invalid_value "interval" every))))
    end.
Proof.
  split_and!; [done..|]. unfold NodeIPLabeler.Run, labeler_args, parse_flags, apply_flag, duration_value.
  simpl. unfold duration_value. change ("" +:+ every) with every. by destruct (ParseDuration every).
Qed.

(** ** The order of the calls *)

(** Calls in order, each failure wrapped in its prefix; the first failure ends it. *)
Definition stages_exec {E : Type -> Type} (l : list (string * E (result unit))) (tr : list (event E))
    (r : result unit) : Prop :=
  (r = OK tt /\ tr = (fun s => Ev s.2 (OK tt)) <$> l) \/
  (exists l1 s l2 e, l = l1 ++ s :: l2 /\ r = Fail (wrap s.1 e) /\
     tr = ((fun s => Ev s.2 (OK tt)) <$> l1) ++ [Ev s.2 (Fail e)]).

Lemma exec_bindr_ret {E : Type -> Type} (p : prog E (result unit)) tr r :
  exec (let? _ := p in Ret (OK tt)) tr r <-> exec p tr r.
Proof.
  rewrite exec_bindr. split.
  - intros [(e & -> & H)|([] & t1 & t2 & -> & H & [-> ->])]; [done|]. by rewrite app_nil_r.
  - destruct r as [[]|e]; intros H; [right|left; eauto].
    exists tt, tr, []. by rewrite app_nil_r.
Qed.

Lemma exec_bindr_proper {E : Type -> Type} {A B} (p : prog E (result A)) (k k' : A -> prog E (result B)) tr r :
  (forall a tr, exec (k a) tr r <-> exec (k' a) tr r) -> exec (bindr p k) tr r <-> exec (bindr p k') tr r.
Proof. intros Hk. rewrite !exec_bindr. by setoid_rewrite Hk. Qed.

Definition serving {R} (readyz_name : string) : list (string * ManagerE R (result unit)) :=
  [("add healthz: ", AddHealthzCheck "ping"); ("add readyz: ", AddReadyzCheck readyz_name);
   ("manager exited: ", StartManager)].

Definition create_manager {R} (o : ManagerOptions) : string * ManagerE R (result unit) :=
  ("create manager: ", NewManager o).

Definition controller_options (c : Controller.Config) : ManagerOptions :=
  MkManagerOptions (Controller.metricsAddr c) (Controller.probeAddr c) (Controller.leaderEnable c)
    (Controller.leaderID c) (Controller.namespace c).

Definition controller_stages (c : Controller.Config) : list (string * ManagerE ServiceReconciler (result unit)) :=
  create_manager (controller_options c) ::
  ("setup reconciler: ", CompleteController (MkServiceReconciler true (Controller.namespace c) (Controller.image c))) ::
  serving "ping".

Lemma exec_stages {E : Type -> Type} (l : list (string * E (result unit))) tr r :
  exec (for_each l (fun s => wrapped s.1 (call s.2))) tr r <-> stages_exec l tr r.
Proof. apply (exec_for_each_calls (fun s : string * E (result unit) => s.2) fst). Qed.

Lemma exec_serve_manager {R} name tr r : exec (@serve_manager R name) tr r <-> stages_exec (serving name) tr r.
Proof.
  rewrite <-exec_stages. apply exec_bindr_proper. intros [] t1. apply exec_bindr_proper. intros [] t2.
  symmetry. apply (exec_bindr_ret (wrapped "manager exited: " (call StartManager))).
Qed.

(** The controller's start. It needs flags that parse and an image: without them nothing
    is asked of the cluster. Then it makes a manager with the addresses and the lease asked
    for, hands it the reconciler with the image and the namespace of the flags (an empty
    namespace is refused there), adds the two probes and starts it, in this order; the first
    call that fails ends [Run] with its error, and nothing after it is done. *)
Theorem controller_starts (args : list string) (tr : list (event (ManagerE ServiceReconciler))) (r : result unit) :
  exec (Controller.Run args) tr r <->
  match parse_flags Controller.set_flag Controller.is_bool args Controller.default_config with
  | Fail e => tr = [] /\ r = Fail e
  | OK c =>
      if bool_decide (Controller.image c = "") then tr = [] /\ r = Fail (errorf "--image is required")
      else exists tr', tr = Ev GetConfigOrDie tt :: tr' /\
        if bool_decide (Controller.namespace c = "") then
          exists r0, stages_exec [create_manager (controller_options c)] tr' r0 /\
            r = let! _ := r0 in Fail (errorf "setup reconciler: ServiceReconciler.Namespace is required")
        else stages_exec (controller_stages c) tr' r
  end.
Proof.
  unfold Controller.Run. destruct (parse_flags _ _ _ _) as [c|e]; [|simpl; naive_solver].
  unfold Controller.start. case_bool_decide as Hi; [simpl; naive_solver|].
  assert (forall p, exec (bind (call (@GetConfigOrDie ServiceReconciler)) (fun _ => p)) tr r <->
    exists tr', tr = Ev GetConfigOrDie tt :: tr' /\ exec p tr' r) as -> by (intros p; simpl; split;
    [intros ([] & t & H); eauto|intros (t & H); eauto]).
  apply exist_proper. intros t. apply and_iff_compat_l.
  unfold ServiceReconciler.SetupWithManager. cbn [sr_Namespace sr_Image].
  rewrite (bool_decide_eq_false_2 _ Hi). case_bool_decide.
  - setoid_rewrite <-exec_stages. cbn [for_each].
    setoid_rewrite (exec_bindr_ret (wrapped _ (call _))). rewrite exec_bindr. split.
    + intros [(e & -> & H1)|([] & t1 & t2 & -> & H1 & [(e & -> & H2)|(? & ? & ? & _ & H2 & _)]%exec_bindr)].
      * by exists (Fail e).
      * exists (OK tt). destruct H2 as [? ->]. rewrite app_nil_r. simplify_eq/=. done.
      * by destruct H2.
    + intros ([[]|e] & H1 & ->); [|left; eauto]. right.
      exists tt, t, []. rewrite app_nil_r. split_and!; [done..|]. by simpl.
  - rewrite <-exec_stages. apply exec_bindr_proper. intros [] t1. apply exec_bindr_proper. intros [] t2.
    rewrite exec_serve_manager, <-exec_stages. done.
Qed.

(** Requests to the host before the manager starts only look at it. *)
Definition looks_only (ev : event Agent.RunE) : Prop :=
  match ev with Ev (inlE _) _ => True | Ev (inrE e) x => reads_only (Ev e x) end.

(** The answer to the start of the manager. *)
Definition start_answer (ev : event Agent.RunE) : option (result unit) :=
  match ev with
  | @Ev _ X (inlE e) x =>
      match e in ManagerE _ Y return Y -> option (result unit) with StartManager => Some | _ => fun _ => None end x
  | Ev (inrE _) _ => None
  end.

Lemma not_started tr res : Forall (fun ev => start_answer ev = None) tr -> Ev (inlE StartManager) res ∈ tr -> False.
Proof. intros H Hin. rewrite Forall_forall in H. by apply H in Hin. Qed.

(** One step: it fails, ending the start, or goes well. *)
Lemma exec_step {B} (prefix : string) (e : ManagerE (AgentReconciler AnyBackend) (result unit))
    (k : unit -> prog Agent.RunE (result B)) tr r :
  exec (let? x := wrapped prefix (Agent.manager (call e)) in k x) tr r ->
  (exists err, tr = [Ev (inlE e) (Fail err)] /\ r = Fail (wrap prefix err)) \/
  (exists tr', tr = Ev (inlE e) (OK tt) :: tr' /\ exec (k tt) tr' r).
Proof.
  intros ([[]|err] & tr' & -> & H); [right|left; destruct H as [-> ->]]; eauto.
Qed.

Definition made_manager (c : Agent.Config) : ManagerE (AgentReconciler AnyBackend) (result unit) :=
  NewManager (MkManagerOptions (Agent.metricsAddr c) (Agent.probeAddr c) false "" "").

Lemma quiet_setup n ns cn tr res : exec (agent_setup n ns cn) tr res ->
  Forall looks_only (map_event (fun X => inrE) <$> tr) /\
  Forall (fun ev => start_answer ev = None) (map_event (fun X => inrE) <$> tr).
Proof.
  intros [H _]%exec_agent_setup. split; apply Forall_fmap; (eapply Forall_impl; [exact H|]); by intros [].
Qed.

Ltac quiet := split; [by repeat constructor|]; intros res []%not_started; by repeat constructor.

Lemma exec_agent_serves c (rec : AgentReconciler AnyBackend) b tr r : NodeName rec <> "" -> ag_Backend rec = Some b ->
  exec (let? _ := wrapped "create manager: " (Agent.manager (call (made_manager c))) in
        let? _ := wrapped "setup firewall-agent reconciler: "
                    (Agent.manager (setup_with_manager (FwAgent.SetupWithManager rec) rec)) in
        Agent.manager (serve_manager "backend")) tr r ->
  Forall looks_only tr /\
  forall res, Ev (inlE StartManager) res ∈ tr ->
    tr = [Ev (inlE (made_manager c)) (OK tt); Ev (inlE (CompleteController rec)) (OK tt);
          Ev (inlE (AddHealthzCheck "ping")) (OK tt); Ev (inlE (AddReadyzCheck "backend")) (OK tt);
          Ev (inlE StartManager) res] /\
    r = wrap_result "manager exited: " res.
Proof.
  intros Hn Hb. unfold FwAgent.SetupWithManager. rewrite (bool_decide_eq_false_2 _ Hn), Hb. cbn [setup_with_manager].
  intros [(err & -> & ->)|(t1 & -> & H)]%exec_step; [quiet|].
  apply exec_step in H as [(err & -> & ->)|(t2 & -> & H)]; [quiet|].
  destruct H as ([[]|err] & t3 & -> & H); [|destruct H as [-> ->]; quiet].
  destruct H as ([[]|err] & t4 & -> & H); [|destruct H as [-> ->]; quiet].
  destruct H as (x & t5 & -> & -> & ->). split; [by repeat constructor|].
  intros res Hin. repeat (apply elem_of_cons in Hin as [[= Hin]%(f_equal start_answer)|Hin]); [by subst x|].
  by apply elem_of_nil in Hin.
Qed.

(** C12: The agent's start. Until its manager starts it only looks at the host, and it starts
    the manager only after everything before went well, in this order: its flags parsed and
    name a node; a client; the ConfigMap it was told was read, and is a configuration; the
    backend it names was made, a connection to the system bus for firewalld; this backend
    was found usable, which is the answer to a query of the host; and the manager got a
    reconciler with exactly the node's name, this backend (behind the dry run if that is
    configured) and the policy configured. *)
Theorem agent_starts (NODE_NAME : string) (args : list string) (tr : list (event Agent.RunE)) (r : result unit)
    (Hrun : exec (Agent.Run NODE_NAME args) tr r) :
  Forall looks_only tr /\
  forall res, Ev (inlE StartManager) res ∈ tr -> exists c data cfg b made asked,
    parse_flags Agent.set_flag (fun _ => false) args (Agent.default_config NODE_NAME) = OK c /\
    Agent.nodeName c <> "" /\
    config_of data = (cfg, None) /\ chosen cfg b made /\ found_usable b asked /\
    let ns := if bool_decide (Agent.configNamespace c = "") then defaultConfigNamespace else Agent.configNamespace c in
    let cn := if bool_decide (Agent.configName c = "") then defaultConfigMapName else Agent.configName c in
    let rec := MkAgentReconciler (Agent.nodeName c)
      (Some (if cfg_DryRun cfg then AnyDryRun (MkDryRunBackend b) else b))
      (MkFirewallPolicy (cfg_DeniedPorts cfg)) (cfg_DryRun cfg) [] None in
    tr = [Ev (inlE GetConfigOrDie) tt; Ev (inlE NewClient) (OK tt)] ++
         (map_event (fun X => inrE) <$> (Ev (SetupConfig (GetConfigMap ns cn)) (OK data) ::
            made ++ (map_event (fun X => SetupHost) <$> asked))) ++
         [Ev (inlE (made_manager c)) (OK tt);
          Ev (inlE (CompleteController rec)) (OK tt); Ev (inlE (AddHealthzCheck "ping")) (OK tt);
          Ev (inlE (AddReadyzCheck "backend")) (OK tt); Ev (inlE StartManager) res] /\
    r = wrap_result "manager exited: " res.
Proof.
  revert Hrun. unfold Agent.Run. destruct (parse_flags _ _ _ _) as [c|e] eqn:Hargs; [|intros [-> ->]; split; set_solver].
  unfold Agent.start. case_bool_decide as Hn; [intros [-> ->]; split; set_solver|]. intros ([] & t & -> & H).
  apply exec_step in H as [(err & -> & ->)|(t1 & -> & H)].
  { split; [by repeat constructor|]. intros res []%not_started. by repeat constructor. }
  apply exec_bindr in H as [(err & -> & (t2 & H & ->)%exec_translate)|(rec & ta & tb & -> & (t2 & H & ->)%exec_translate & H1)].
  - apply quiet_setup in H as [Hl Hq]. split; [repeat constructor; exact Hl|].
    intros res []%not_started. repeat constructor. exact Hq.
  - destruct (proj2 (exec_agent_setup _ _ _ _ _ H) rec eq_refl) as (Hname & b & Hb & _).
    eapply (exec_agent_serves c) in H1 as [Hs1 Hs2]; [|by rewrite Hname|exact Hb].
    pose proof (quiet_setup _ _ _ _ _ H) as [Hl Hq]. split.
    { repeat constructor. apply Forall_app. by split. }
    intros res Hin. destruct (Hs2 res) as [-> ->].
    { repeat (apply elem_of_cons in Hin as [Hin|Hin]; [by apply (f_equal start_answer) in Hin|]).
      apply elem_of_app in Hin as [Hin|Hin]; [|done]. by destruct (not_started _ _ Hq Hin). }
    apply exec_agent_setup_OK in H as (data & cfg & b' & made & asked & Hdata & Hchosen & Hused & -> & ->).
    by exists c, data, cfg, b', made, asked.
Qed.

(** *** The agent of the manifests, on a host with firewalld *)

Definition manager_ok {R} : handler (ManagerE R) unit := fun X e w =>
  (match e in ManagerE _ Y return Y with
   | GetConfigOrDie => tt
   | NewClient | NewManager _ | CompleteController _ | AddHealthzCheck _ | AddReadyzCheck _ | StartManager => OK tt
   end, w).

Lemma agent_starts_witness : exists (tr : list (event Agent.RunE)) c cfg b made asked,
  Ev (inlE StartManager) (OK tt) ∈ tr /\
  parse_flags Agent.set_flag (fun _ => false) (agent_args "n1" "bulb-system") (Agent.default_config "") = OK c /\
  Agent.nodeName c = "n1" /\ chosen cfg b made /\ found_usable b asked.
Proof.
  set (run_it := Agent.Run "" (agent_args "n1" "bulb-system")).
  set (tr := trace_of (sum_handler manager_ok sim_setup) run_it (tt, tt)).
  assert (exec run_it tr (OK tt)) as Htr by exact (trace_exec (sum_handler manager_ok sim_setup) run_it (tt, tt)).
  assert (Ev (inlE StartManager) (OK tt) ∈ tr) as Hin.
  { vm_compute. repeat (apply elem_of_cons; (left; reflexivity) || right). }
  destruct (proj2 (agent_starts "" _ tr (OK tt) Htr) (OK tt) Hin)
    as (c & data & cfg & b & made & asked & Hc & _ & _ & Hchosen & Hused & _).
  exists tr, c, cfg, b, made, asked. split_and!; [exact Hin|exact Hc| |exact Hchosen|exact Hused].
  vm_compute in Hc. injection Hc as <-. reflexivity.
Defined.
