(* ===== verification/Convergence.v ===== *)
(** * Convergence: all Services of a cluster together

    The controller reconciles the Services one after the other, in the order of its
    work queue. This file says what a whole round leads to: every Service bulb serves
    has its objects in place, whichever order they came in, because the reconcile of
    one leaves the objects of the others alone. With the firewall agents that gives
    the ports open on a node for a whole cluster of Services. *)
From S2P Require Import Prelude GoStrings Effects ApiTypes FwPorts FwBackend Firewalld FwAgent Kube KubeApply LBPorts Conflicts DaemonSets DnsRecords ServiceReconciler ReconcileSpec Exposure Settles.
Open Scope Z_scope.

(** ** The labels of a Service tell it from others *)

Lemma labels_for_lookup ns name m : labels_for ns name ⊆ m ->
  m !! labelServiceNs = Some ns /\ m !! labelService = Some name.
Proof. intros H. split; (eapply lookup_weaken; [|exact H]); done. Qed.

Lemma labels_for_inj ns name ns' name' m :
  labels_for ns name ⊆ m -> labels_for ns' name' ⊆ m -> (ns, name) = (ns', name').
Proof. intros [H1 H2]%labels_for_lookup [H3 H4]%labels_for_lookup. congruence. Qed.

Lemma serviceLabels_inj s1 s2 m :
  serviceLabels s1 ⊆ m -> serviceLabels s2 ⊆ m -> name_of KService s1 = name_of KService s2.
Proof. intros H1 H2. exact (labels_for_inj _ _ _ _ m H1 H2). Qed.

(** ** The objects of one kind *)

Section frame.
Context {T : Type} (k : Kind T) (merge : T -> T -> T) (agree : T -> T -> Prop).
Context (agree_settled : forall w o, agree (settled k w (merge w) o) w).
Context (agree_labels : forall o w, agree o w -> labels_of k o = labels_of k w).

(** The objects with the labels [ls] are the desired ones. *)
Definition exactly (desired : list T) (ls : str_map) (m : gmap NamespacedName T) : Prop :=
  (forall w, w ∈ desired -> exists o, m !! name_of k w = Some o /\ agree o w) /\
  (forall key o, m !! key = Some o -> ls ⊆ labels_of k o -> key ∈ name_of k <$> desired).

Lemma exactly_applied desired ls m m' : applied k desired merge ls m m' -> exactly desired ls m'.
Proof.
  intros Happ. split.
  - intros w Hw. destruct Happ as [Hin _]. eexists. split; [by apply Hin|apply agree_settled].
  - intros key o Ho Hl. apply dec_stable. intros Hk. by eapply applied_others.
Qed.

Lemma applied_keeps desired ls m m' key :
  applied k desired merge ls m m' -> key ∉ name_of k <$> desired ->
  (forall o, m !! key = Some o -> ~ ls ⊆ labels_of k o) -> m' !! key = m !! key.
Proof.
  intros [_ Hout] Hk Hl. rewrite Hout by done. destruct (m !! key) as [o|] eqn:Ho; [|done].
  rewrite decide_False; [done|]. by apply Hl.
Qed.

Lemma applied_origin desired ls m m' key o :
  applied k desired merge ls m m' -> key ∉ name_of k <$> desired -> m' !! key = Some o -> m !! key = Some o.
Proof.
  intros [_ Hout] Hk. rewrite Hout by done. destruct (m !! key); [|done]. by case_decide.
Qed.

(** Applying the objects of one owner keeps those of another. *)
Lemma exactly_frame desired1 ls1 desired2 ls2 m m' :
  (forall l, ls1 ⊆ l -> ls2 ⊆ l -> False) ->
  Forall (fun o => labels_of k o = ls1) desired1 -> Forall (fun o => labels_of k o = ls2) desired2 ->
  (forall key, key ∈ name_of k <$> desired1 -> key ∈ name_of k <$> desired2 -> False) ->
  applied k desired1 merge ls1 m m' -> exactly desired2 ls2 m -> exactly desired2 ls2 m'.
Proof.
  intros Hls H1 H2 Hnames Happ [Hin Hout]. rewrite Forall_forall in H1, H2. split.
  - intros w Hw. destruct (Hin w Hw) as (o & Ho & Ha). exists o. split; [|done].
    rewrite (applied_keeps _ _ _ _ _ Happ); [done| |].
    + intros Hk. apply (Hnames _ Hk), list_elem_of_fmap. eauto.
    + intros o' Ho' Hl. rewrite Ho in Ho'. injection Ho' as <-. rewrite (agree_labels _ _ Ha), (H2 w Hw) in Hl.
      by apply (Hls ls2).
  - intros key o Ho Hl. destruct (decide (key ∈ name_of k <$> desired1)) as [Hk|Hk].
    + apply list_elem_of_fmap in Hk as (w & -> & Hw). destruct Happ as [Hap _]. rewrite (Hap w Hw) in Ho.
      injection Ho as <-. rewrite (agree_labels _ w), (H1 w Hw) in Hl by apply agree_settled.
      by destruct (Hls ls1).
    + apply (Hout key o); [|done]. by eapply applied_origin.
Qed.

Lemma exactly_removed ls1 desired2 ls2 m :
  (forall l, ls1 ⊆ l -> ls2 ⊆ l -> False) -> Forall (fun o => labels_of k o = ls2) desired2 ->
  exactly desired2 ls2 m -> exactly desired2 ls2 (removed k ls1 m).
Proof.
  intros Hls H2 [Hin Hout]. rewrite Forall_forall in H2. split.
  - intros w Hw. destruct (Hin w Hw) as (o & Ho & Ha). exists o. split; [|done].
    apply map_lookup_filter_Some. split; [done|]. simpl. rewrite (agree_labels _ _ Ha), (H2 w Hw).
    intros Hl. by apply (Hls ls2).
  - intros key o [Ho _]%map_lookup_filter_Some. by apply Hout.
Qed.

Lemma exactly_fmap (f : T -> T) desired ls m :
  (forall o w, agree o w -> agree (f o) w) -> (forall o, labels_of k (f o) = labels_of k o) ->
  exactly desired ls m -> exactly desired ls (f <$> m).
Proof.
  intros Hf Hl [Hin Hout]. split.
  - intros w Hw. destruct (Hin w Hw) as (o & Ho & Ha). exists (f o). rewrite lookup_fmap, Ho. auto.
  - intros key o. rewrite lookup_fmap. intros (o0 & Ho & ->)%fmap_Some. rewrite Hl. by apply Hout.
Qed.
End frame.

Definition same_lbport (o w : LBPort) : Prop := lbp_Spec o = lbp_Spec w /\ lbp_Labels o = lbp_Labels w.
Definition same_record (o w : DNSRecord) : Prop := dns_Spec o = dns_Spec w /\ dns_Labels o = dns_Labels w.

Lemma settled_lbport w o : same_lbport (settled KLBPort w (set_lbport w) o) w.
Proof. apply labels_of_settled. Qed.

Lemma settled_record w o : same_record (settled KDNSRecord w (set_dnsrecord w) o) w.
Proof. unfold settled. by destruct o. Qed.

Lemma same_lbport_labels o w : same_lbport o w -> labels_of KLBPort o = labels_of KLBPort w.
Proof. by intros [_ ?]. Qed.

Lemma same_record_labels o w : same_record o w -> labels_of KDNSRecord o = labels_of KDNSRecord w.
Proof. by intros [_ ?]. Qed.

#[local] Hint Resolve settled_lbport settled_record same_lbport_labels same_record_labels : core.

(** ** A cluster whose Services can all be served *)

Section cluster.
Context `{LabelSelectors} (r : ServiceReconciler).

Definition is_bulb (c : Cluster) (svc : Service) : Prop :=
  services c !! name_of KService svc = Some svc /\ ServiceMatches svc = true.

Record servable (c : Cluster) (svc : Service) (ports : list LBPort) (ds : DaemonSet) : Prop := {
  servable_ready : ~ starved c svc;
  servable_built : built c svc = OK ports;
  servable_free : conflict_free c svc ports;
  servable_ds : BuildDaemonSet svc (sr_Image r) (sr_Namespace r) (endpoints_for c svc) = OK ds
}.

(** The names of the objects of two Services do not run into each other. *)
Definition apart (s1 s2 : Service) : Prop :=
  DaemonSetName s1 <> DaemonSetName s2 /\
  DNSRecordName s1 <> DNSRecordNameAAAA s2 /\ DNSRecordNameAAAA s1 <> DNSRecordName s2 /\
  forall p q, p ∈ svc_Ports s1 -> q ∈ svc_Ports s2 -> LBPortName s1 p <> LBPortName s2 q.

Record healthy (c : Cluster) : Prop := {
  healthy_keyed : keyed c;
  healthy_nodes : node_names_ok c;
  healthy_servable : forall svc, is_bulb c svc -> exists ports ds, servable c svc ports ds;
  healthy_apart : forall s1 s2, is_bulb c s1 -> is_bulb c s2 ->
    name_of KService s1 <> name_of KService s2 -> apart s1 s2;
  healthy_lbports : map_Forall (fun _ l => exists svc, is_bulb c svc /\ serviceLabels svc ⊆ lbp_Labels l) (lbports c)
}.

(** The objects of [svc] in [c] are those it should have in the cluster [c0]. *)
Definition in_place (c0 : Cluster) (svc : Service) (c : Cluster) : Prop :=
  exists ports ds, servable c0 svc ports ds /\
    daemonsets c !! name_of KDaemonSet ds = Some ds /\
    exactly KLBPort same_lbport ports (serviceLabels svc) (lbports c) /\
    exactly KDNSRecord same_record (BuildDNSRecords svc (cluster_ips c0)) (serviceLabels svc) (dnsrecords c) /\
    exists conds, Forall (shows conds) (success_conditions svc) /\
      services c !! name_of KService svc = Some (with_status (ingress_of (cluster_ips c0)) conds svc).

(** What a reconcile keeps, besides. *)
Record sound (c0 c : Cluster) : Prop := {
  sound_keyed : keyed c;
  sound_nodes : nodes c = nodes c0;
  sound_endpoints : endpoints c = endpoints c0;
  sound_services : forall key,
    match services c0 !! key with
    | Some svc => exists ing conds, services c !! key = Some (with_status ing conds svc)
    | None => services c !! key = None
    end;
  sound_lbports : map_Forall (fun _ l => exists svc, is_bulb c0 svc /\ serviceLabels svc ⊆ lbp_Labels l) (lbports c);
  sound_owned : forall svc ports w, is_bulb c0 svc -> built c0 svc = OK ports -> w ∈ ports -> ~ foreign (lbports c) w
}.

Lemma sound_start c0 : healthy c0 -> sound c0 c0.
Proof.
  intros Hc. constructor; try apply Hc; try done.
  - intros key. destruct (services c0 !! key) as [svc|]; [|done].
    exists (svc_Ingress svc), (svc_Conditions svc). by rewrite with_status_id.
  - intros svc ports w Hb Hbuilt Hw. destruct (healthy_servable c0 Hc svc Hb) as (ports' & ds & Hs).
    rewrite (servable_built _ _ _ _ Hs) in Hbuilt. injection Hbuilt as <-.
    destruct (servable_free _ _ _ _ Hs) as (_ & Hf & _). by apply Hf.
Qed.

Lemma sound_node_names c0 c : node_names_ok c0 -> sound c0 c -> node_names_ok c.
Proof. intros Hn Hs. unfold node_names_ok, all_nodes. by rewrite (sound_nodes _ _ Hs). Qed.

Lemma built_sound c0 c svc ing conds : sound c0 c -> built c (with_status ing conds svc) = built c0 svc.
Proof. intros Hs. unfold built, all_nodes. by rewrite (sound_nodes _ _ Hs). Qed.

Lemma endpoints_sound c0 c svc ing conds : sound c0 c ->
  endpoints_for c (with_status ing conds svc) = endpoints_for c0 svc.
Proof. intros Hs. unfold endpoints_for. by rewrite (sound_endpoints _ _ Hs). Qed.

Lemma cluster_ips_sound c0 c : sound c0 c -> cluster_ips c = cluster_ips c0.
Proof. intros Hs. unfold cluster_ips, all_nodes. by rewrite (sound_nodes _ _ Hs). Qed.

(** A Service that can be served can still be served. *)
Lemma servable_sound c0 c svc ports ds ing conds :
  sound c0 c -> keyed c0 -> is_bulb c0 svc -> servable c0 svc ports ds ->
  servable c (with_status ing conds svc) ports ds.
Proof.
  intros Hs Hk Hb [H1 H2 H3 H4]. constructor.
  - unfold starved. by rewrite (endpoints_sound c0 c svc ing conds Hs).
  - by rewrite (built_sound c0 c svc ing conds Hs).
  - destruct H3 as (Hnd & _ & Hriv). split; [done|].
    split; [intros want Hw; by eapply (sound_owned c0 c Hs svc)|].
    intros other (Hin & Hne & Hm & others & Hbo & Hcl).
    pose proof (sound_services c0 c Hs (name_of KService other)) as Ho. rewrite Hin in Ho.
    destruct (services c0 !! name_of KService other) as [other0|] eqn:Ho0; [|done].
    destruct Ho as (ing' & conds' & [= Heq]). apply (Hriv other0).
    pose proof (Hk Service KService _ other0 Ho0) as Hname. rewrite Heq in Hm, Hbo.
    rewrite (built_sound c0 c other0 ing' conds' Hs) in Hbo. split_and!; [congruence| |done|eauto].
    rewrite Hname. exact Hne.
  - by rewrite (endpoints_sound c0 c svc ing conds Hs).
Qed.

(** *** Cleaning up after another Service *)

Lemma cleaned_parts ns name mode c :
  let c' := cleaned r ns name mode c in
  services c' = services c /\ nodes c' = nodes c /\ endpoints c' = endpoints c /\
  (lbports c' = lbports c \/ lbports c' = removed KLBPort (labels_for ns name) (lbports c)) /\
  (dnsrecords c' = dnsrecords c \/ dnsrecords c' = removed KDNSRecord (labels_for ns name) (dnsrecords c)) /\
  (forall key ds, daemonsets c !! key = Some ds -> owned ds ns name = false -> daemonsets c' !! key = Some ds) /\
  (forall key ds, daemonsets c' !! key = Some ds -> daemonsets c !! key = Some ds).
Proof.
  unfold cleaned. destruct (daemonsets c !! ds_key r ns name) as [ds0|] eqn:Hds; [|simpl; tauto].
  destruct (owned ds0 ns name) eqn:Ho; simpl; [|tauto].
  destruct (deletes mode ds0); simpl; [|tauto]. split_and!; try done; try (by right).
  - intros key ds Hk Hno. rewrite lookup_delete_ne; [done|]. intros <-. congruence.
  - by intros key ds [_ ?]%lookup_delete_Some.
Qed.

(** The objects of a Service are not labelled as those of another. *)
Definition no_bulb_at (c0 : Cluster) (key : NamespacedName) : Prop :=
  forall svc, is_bulb c0 svc -> name_of KService svc <> key.

Lemma removed_lookup {T} (k : Kind T) ls m key o : removed k ls m !! key = Some o -> m !! key = Some o.
Proof. by intros [? _]%map_lookup_filter_Some. Qed.

Lemma foreign_mono m m' w : (forall key o, m' !! key = Some o -> m !! key = Some o) -> foreign m' w -> foreign m w.
Proof. intros Hm (o & Ho & Hf). exists o. auto. Qed.

Lemma sound_cleaned c0 c ns name mode : keyed c0 -> sound c0 c -> sound c0 (cleaned r ns name mode c).
Proof.
  intros Hk Hs. destruct (cleaned_parts ns name mode c) as (H1 & H2 & H3 & H4 & H5 & _ & H7).
  assert (forall key o, lbports (cleaned r ns name mode c) !! key = Some o -> lbports c !! key = Some o) as Hl.
  { intros key o. destruct H4 as [-> | ->]; [done|]. apply (removed_lookup KLBPort). }
  constructor.
  - intros T k key o. pose proof (sound_keyed _ _ Hs T k key o) as Hkey.
    destruct k; simpl in *; rewrite ?H1, ?H2, ?H3; try done.
    + intros Ho%H7. auto.
    + intros Ho%Hl. auto.
    + intros Ho. destruct H5 as [H5|H5]; rewrite H5 in Ho; [auto|]. apply (removed_lookup KDNSRecord) in Ho. auto.
  - by rewrite H2, (sound_nodes _ _ Hs).
  - by rewrite H3, (sound_endpoints _ _ Hs).
  - intros key. rewrite H1. apply (sound_services _ _ Hs).
  - apply map_Forall_lookup. intros key o Ho%Hl. exact (sound_lbports _ _ Hs key o Ho).
  - intros svc ports w Hb Hbuilt Hw Hf. eapply (sound_owned _ _ Hs); [done..|]. by eapply foreign_mono.
Qed.

Lemma built_labels c svc ports : built c svc = OK ports -> Forall (fun w => lbp_Labels w = serviceLabels svc) ports.
Proof.
  unfold built. rewrite bind_result_ok. intros (ns & _ & [= <-]). rewrite Forall_fmap. by apply Forall_true.
Qed.

Lemma records_labels svc ips : Forall (fun w => dns_Labels w = serviceLabels svc) (BuildDNSRecords svc ips).
Proof.
  apply Forall_forall. by intros w [? _]%BuildDNSRecords_objects.
Qed.

Lemma in_place_cleaned c0 c ns name mode svc :
  is_bulb c0 svc -> no_bulb_at c0 (ns, name) -> in_place c0 svc c -> in_place c0 svc (cleaned r ns name mode c).
Proof.
  intros Hb Hno (ports & ds & Hsv & Hds & Hp & Hd & Hst).
  destruct (cleaned_parts ns name mode c) as (H1 & _ & _ & H4 & H5 & H6 & _).
  assert (forall l, labels_for ns name ⊆ l -> serviceLabels svc ⊆ l -> False) as Hls.
  { intros l Hl1 Hl2. apply (Hno svc Hb). exact (labels_for_inj _ _ _ _ l Hl2 Hl1). }
  exists ports, ds. split_and!; [done|..].
  - apply H6; [done|]. apply not_true_iff_false. intros Ho.
    destruct (BuildDaemonSet_name _ _ _ _ _ (servable_ds _ _ _ _ Hsv)) as (_ & _ & Hl & _).
    unfold owned in Ho. rewrite Hl in Ho.
    apply andb_true_iff in Ho as [[Hn%bool_decide_eq_true Hns%bool_decide_eq_true]%andb_true_iff _].
    apply (Hno svc Hb). simpl. change (svc_Name svc = name) in Hn. change (svc_Namespace svc = ns) in Hns. congruence.
  - destruct H4 as [-> | ->]; [done|]. eapply exactly_removed; [|exact Hls| |done]; [auto|].
    by eapply built_labels, servable_built.
  - destruct H5 as [-> | ->]; [done|]. eapply exactly_removed; [|exact Hls| |done]; [auto|]. apply records_labels.
  - by rewrite H1.
Qed.

(** *** Serving a Service *)

Lemma exactly_pruned valid ls desired ls' m :
  exactly KLBPort same_lbport desired ls' m -> exactly KLBPort same_lbport desired ls' (statuses_pruned valid ls m).
Proof.
  apply exactly_fmap.
  - intros o w [H1 H2]. by case_decide.
  - intros o. by case_decide.
Qed.

Lemma pruned_lookup_same valid ls m key o :
  statuses_pruned valid ls m !! key = Some o -> exists o', m !! key = Some o' /\ same_lbport o o'.
Proof. intros (l0 & Hl0 & ->)%statuses_pruned_lookup. exists l0. split; [done|]. by case_decide. Qed.

Lemma foreign_same m m' w : (forall o, m' !! ("", lbp_Name w) = Some o ->
  exists o', m !! ("", lbp_Name w) = Some o' /\ same_lbport o o') -> foreign m' w -> foreign m w.
Proof.
  intros Hm (o & Ho & Hf). destruct (Hm o Ho) as (o' & Ho' & H1 & H2). exists o'. rewrite <-H1, <-H2. done.
Qed.

Lemma success_distinct svc : NoDup (cond_Type <$> success_conditions svc).
Proof. apply (bool_decide_unpack _). by vm_compute. Qed.

Lemma served_in_place c0 c c' svc ports ds ing conds :
  sound c0 c -> servable c0 svc ports ds -> served (with_status ing conds svc) ports ds c c' -> in_place c0 svc c'.
Proof.
  intros Hs Hsv (m1 & m2 & Hm1 & Hm2 & conds2 & Hset & ->). exists ports, ds. split_and!; [done|..].
  - apply lookup_insert_eq.
  - apply exactly_pruned. eapply (exactly_applied KLBPort set_lbport same_lbport); [auto|exact Hm1].
  - rewrite (cluster_ips_sound c0 c Hs) in Hm2.
    eapply (exactly_applied KDNSRecord set_dnsrecord same_record); [auto|exact Hm2].
  - exists conds2. split; [|rewrite <-(cluster_ips_sound c0 c Hs); apply lookup_insert_eq].
    eapply conditions_set_shows; [|exact Hset]. apply (success_distinct (with_status ing conds svc)).
Qed.

Lemma lbport_names c svc ports key : built c svc = OK ports -> key ∈ name_of KLBPort <$> ports ->
  exists p, p ∈ svc_Ports svc /\ key = ("", LBPortName svc p).
Proof.
  unfold built. rewrite bind_result_ok. intros (ns & _ & [= <-]).
  intros (w & -> & (p & -> & Hp)%list_elem_of_fmap)%list_elem_of_fmap. by exists p.
Qed.

Lemma apart_lbports c s1 s2 ports1 ports2 key : apart s1 s2 -> built c s1 = OK ports1 -> built c s2 = OK ports2 ->
  key ∈ name_of KLBPort <$> ports1 -> key ∈ name_of KLBPort <$> ports2 -> False.
Proof.
  intros (_ & _ & _ & Hne) Hb1 Hb2 H1 H2.
  destruct (lbport_names c s1 ports1 key Hb1 H1) as (p & Hp & ->).
  destruct (lbport_names c s2 ports2 _ Hb2 H2) as (q & Hq & Heq). apply (Hne p q Hp Hq). congruence.
Qed.

Lemma apart_records s1 s2 ips key : apart s1 s2 ->
  key ∈ name_of KDNSRecord <$> BuildDNSRecords s1 ips -> key ∈ name_of KDNSRecord <$> BuildDNSRecords s2 ips -> False.
Proof.
  intros (Hd & H1 & H2 & _) (w1 & -> & [_ Hw1]%BuildDNSRecords_objects)%list_elem_of_fmap
    (w2 & [= Heq] & [_ Hw2]%BuildDNSRecords_objects)%list_elem_of_fmap.
  rewrite Heq in Hw1. unfold DNSRecordNameAAAA in *. change (DNSRecordName s1 <> DNSRecordName s2) in Hd.
  destruct Hw1 as [Hw1|Hw1], Hw2 as [Hw2|Hw2]; rewrite Hw1 in Hw2; try done. by apply app_string_inj_r in Hw2.
Qed.

Lemma served_frame c0 c c' svc svc2 ports ds ing conds :
  healthy c0 -> sound c0 c -> is_bulb c0 svc -> is_bulb c0 svc2 -> name_of KService svc <> name_of KService svc2 ->
  servable c0 svc ports ds -> served (with_status ing conds svc) ports ds c c' ->
  in_place c0 svc2 c -> in_place c0 svc2 c'.
Proof.
  intros Hc0 Hs Hb Hb2 Hne Hsv (m1 & m2 & Hm1 & Hm2 & conds2 & _ & ->) (ports2 & ds2 & Hsv2 & Hds2 & Hp2 & Hr2 & Hst2).
  pose proof (healthy_apart _ Hc0 svc svc2 Hb Hb2 Hne) as Hap.
  assert (forall l, serviceLabels svc ⊆ l -> serviceLabels svc2 ⊆ l -> False) as Hls.
  { intros l H1 H2. apply Hne. exact (serviceLabels_inj svc svc2 l H1 H2). }
  exists ports2, ds2. split_and!; [done|..].
  - simpl. rewrite lookup_insert_ne; [done|]. intros [= _ Heq]. destruct Hap as (Hd & _). apply Hd.
    destruct (BuildDaemonSet_name _ _ _ _ _ (servable_ds _ _ _ _ Hsv)) as (_ & <- & _).
    by destruct (BuildDaemonSet_name _ _ _ _ _ (servable_ds _ _ _ _ Hsv2)) as (_ & <- & _).
  - apply exactly_pruned. eapply (exactly_frame KLBPort set_lbport same_lbport); [auto|auto|exact Hls|..|exact Hm1|exact Hp2].
    + exact (built_labels _ _ _ (servable_built _ _ _ _ Hsv)).
    + exact (built_labels _ _ _ (servable_built _ _ _ _ Hsv2)).
    + intros key. apply (apart_lbports c0 svc svc2); [done|by eapply servable_built..].
  - rewrite (cluster_ips_sound c0 c Hs) in Hm2.
    eapply (exactly_frame KDNSRecord set_dnsrecord same_record); [auto|auto|exact Hls|..|exact Hm2|exact Hr2].
    + apply (records_labels (with_status ing conds svc)).
    + apply records_labels.
    + intros key. by apply (apart_records svc svc2).
  - destruct Hst2 as (conds3 & Hsh & Hl). exists conds3. split; [done|]. simpl. by rewrite lookup_insert_ne.
Qed.

Lemma sound_served c0 c c' svc ports ds ing conds :
  healthy c0 -> sound c0 c -> is_bulb c0 svc -> services c !! name_of KService svc = Some (with_status ing conds svc) ->
  servable c0 svc ports ds -> served (with_status ing conds svc) ports ds c c' -> sound c0 c'.
Proof.
  intros Hc0 Hs Hb Hsvc Hsv Hserved.
  pose proof (keyed_served (with_status ing conds svc) ports ds c c' (sound_keyed _ _ Hs) Hsvc Hserved) as Hkey.
  destruct Hserved as (m1 & m2 & Hm1 & _ & conds2 & _ & ->). pose proof (servable_built _ _ _ _ Hsv) as Hbuilt.
  constructor; simpl.
  - exact Hkey.
  - apply (sound_nodes _ _ Hs).
  - apply (sound_endpoints _ _ Hs).
  - intros key. destruct (decide (key = name_of KService svc)) as [->|Hne].
    + destruct Hb as [-> _]. by eexists _, _; rewrite lookup_insert_eq.
    + rewrite lookup_insert_ne by (intros Heq; by apply Hne). apply (sound_services _ _ Hs).
  - apply map_Forall_lookup. intros key o (o' & Ho' & _ & Hl)%pruned_lookup_same. rewrite Hl.
    destruct (decide (key ∈ name_of KLBPort <$> ports)) as [Hk|Hk].
    + apply list_elem_of_fmap in Hk as (w & -> & Hw). destruct Hm1 as [Hin _]. rewrite (Hin w Hw) in Ho'.
      injection Ho' as <-. exists svc. split; [done|]. destruct (settled_lbport w (lbports c !! name_of KLBPort w)) as [_ Hlw].
      simpl in Hlw. simpl. rewrite Hlw. pose proof (built_labels c0 svc ports Hbuilt) as Hall.
      rewrite Forall_forall in Hall. by rewrite (Hall w Hw).
    + eapply applied_origin in Ho'; [|exact Hm1|done]. exact (sound_lbports _ _ Hs key o' Ho').
  - intros svc2 ports2 w Hb2 Hb2' Hw. destruct (decide (name_of KLBPort w ∈ name_of KLBPort <$> ports)) as [Hk|Hk].
    + apply list_elem_of_fmap in Hk as (w1 & Hn & Hw1).
      assert (name_of KService svc2 = name_of KService svc) as Hsame.
      { apply dec_stable. intros Hne.
        eapply (apart_lbports c0 svc2 svc ports2 ports (name_of KLBPort w)); [by apply Hc0|done|done|..];
          apply list_elem_of_fmap; eauto. }
      assert (svc2 = svc) as -> by (destruct Hb as [Hb _], Hb2 as [Hb2 _]; congruence).
      rewrite Hbuilt in Hb2'. injection Hb2' as <-. intros (o & Ho & Hf).
      destruct (lbports_settled _ _ (schedulable (all_nodes c)) _ _ Hm1) as [Hin _].
      destruct (Hin w Hw) as (o' & Ho' & Hsp & Hl). simpl in Ho, Ho'. rewrite Ho in Ho'. injection Ho' as <-.
      rewrite Hsp, Hl, sameStringMap_refl in Hf. destruct Hf as [[_ Hf]|Hf]; [|done].
      unfold built in Hbuilt. apply bind_result_ok in Hbuilt as (ns & _ & [= <-]).
      by apply list_elem_of_fmap in Hw as (p & -> & _).
    + intros Hf. apply (sound_owned _ _ Hs svc2 ports2 w Hb2 Hb2' Hw). eapply foreign_same; [|exact Hf].
      intros o (o' & Ho' & Ho'')%pruned_lookup_same. exists o'. split; [|done]. by eapply applied_origin.
Qed.

(** *** One reconcile *)

Lemma reconciled_step c0 c c' req : healthy c0 -> sound c0 c -> reconciled r req c c' ->
  sound c0 c' /\
  forall svc, is_bulb c0 svc -> in_place c0 svc c \/ name_of KService svc = req -> in_place c0 svc c'.
Proof.
  intros Hc0 Hs Hrec. pose proof (sound_services _ _ Hs req) as Hreq.
  assert (no_bulb_at c0 req -> forall mode, sound c0 (cleaned r (fst req) (snd req) mode c) /\
    forall svc, is_bulb c0 svc -> in_place c0 svc c \/ name_of KService svc = req ->
      in_place c0 svc (cleaned r (fst req) (snd req) mode c)) as Hclean.
  { intros Hno mode. split; [by apply sound_cleaned, Hs; apply Hc0|]. intros svc Hb [Hp|Hn].
    - apply in_place_cleaned; [done| |done]. by destruct req.
    - by destruct (Hno svc Hb). }
  assert (forall svc0, services c0 !! req = Some svc0 -> name_of KService svc0 = req) as Hname.
  { intros svc0. apply (healthy_keyed _ Hc0 Service KService). }
  destruct (services c0 !! req) as [svc0|] eqn:Hsvc0.
  2: { assert (c' = cleaned r (fst req) (snd req) cleanupHonorKeep c) as ->
         by (destruct Hrec; [done|congruence..]).
       apply Hclean. intros svc [Hb _] <-. congruence. }
  specialize (Hname svc0 eq_refl). destruct Hreq as (ing & conds & Hsvc).
  destruct (ServiceMatches svc0) eqn:Hm.
  - assert (is_bulb c0 svc0) as Hb by (split; [by rewrite Hname|done]).
    destruct (healthy_servable _ Hc0 svc0 Hb) as (ports & ds & Hsv).
    pose proof (servable_sound c0 c svc0 ports ds ing conds Hs (healthy_keyed _ Hc0) Hb Hsv) as [S1 S2 S3 S4].
    pose proof (reconciled_served_inv r req c c' _ ports ds Hsvc Hm S1 S2 S3 S4 Hrec) as Hserved.
    rewrite <-Hname in Hsvc. split; [by eapply sound_served|]. intros svc Hb2 Hcase.
    destruct (decide (name_of KService svc0 = name_of KService svc)) as [Heq|Hne].
    + assert (svc = svc0) as -> by (destruct Hb as [Hb _], Hb2 as [Hb2 _]; congruence).
      by eapply served_in_place.
    + destruct Hcase as [Hp|Hn]; [|congruence]. exact (served_frame c0 c c' svc0 svc ports ds ing conds Hc0 Hs Hb Hb2 Hne Hsv Hserved Hp).
  - assert (exists mode, c' = cleaned r (fst req) (snd req) mode c) as [mode ->].
    { destruct Hrec as [? ->|svc Hg _ ->|svc Hg Hmg|svc ? Hg Hmg|svc ? ? Hg Hmg|svc ? ? Hg Hmg|svc ? ? Hg Hmg];
        [by eexists| |rewrite Hsvc in Hg; injection Hg as <-; change (ServiceMatches svc0 = true) in Hmg; congruence..].
      rewrite Hsvc in Hg. injection Hg as <-. eexists. by rewrite <-Hname. }
    apply Hclean. intros svc [Hb Hmb] <-. congruence.
Qed.

(** ** The work queue *)

(** The reconciles of the queue, one after the other, errors aside. *)
Definition reconcile_all (reqs : list NamespacedName) : prog KubeE unit :=
  for_all_do reqs (fun req => let* _ := Reconcile r req in Ret tt).

Lemma kwp_reconcile_all c0 reqs (Q : unit -> Cluster -> Prop) : healthy c0 ->
  (forall c, sound c0 c ->
     (forall svc, is_bulb c0 svc -> name_of KService svc ∈ reqs -> in_place c0 svc c) -> Q tt c) ->
  kwp (reconcile_all reqs) Q c0.
Proof.
  intros Hc0 HQ. apply (wp_for_all_do _ _ reqs _ (fun rest c => sound c0 c /\
    forall svc, is_bulb c0 svc -> name_of KService svc ∈ reqs -> name_of KService svc ∉ rest -> in_place c0 svc c)).
  - split; [by apply sound_start|]. done.
  - intros c [Hs Hin]. apply HQ; [done|]. intros svc Hb Hr. apply Hin; [done..|]. apply not_elem_of_nil.
  - intros req rest c [Hs Hin]. apply wp_bind, kwp_Reconcile; [apply Hs|by eapply sound_node_names; [apply Hc0|]|].
    intros c' Hrec. destruct (reconciled_step c0 c c' req Hc0 Hs Hrec) as [Hs' Hstep]. split; [done|].
    intros svc Hb Hr Hrest. apply Hstep; [done|].
    destruct (decide (name_of KService svc = req)) as [Heq|Hne]; [by right|left].
    apply Hin; [done..|]. by rewrite not_elem_of_cons.
Qed.

(** ** What the LBPorts of the cluster say *)

(** A Service exposes a port on a node. *)
Definition exposes (c : Cluster) (svc : Service) (n : string) (k : PortKey) : Prop :=
  is_bulb c svc /\ in_scope svc c n /\ exists p, p ∈ svc_Ports svc /\ port_key p = k.

Lemma lbport_specs c0 c (P : LBPortSpec -> Prop) : healthy c0 -> sound c0 c ->
  (forall svc, is_bulb c0 svc -> in_place c0 svc c) ->
  (exists name l, lbports c !! ("", name) = Some l /\ P (lbp_Spec l)) <->
  exists svc ns p, is_bulb c0 svc /\ scope svc (all_nodes c0) = OK ns /\ p ∈ svc_Ports svc /\
    P (lbp_Spec (lbport_for svc ns p)).
Proof.
  intros Hc0 Hs Hall. split.
  - intros (name & l & Hl & HP). destruct (sound_lbports _ _ Hs _ l Hl) as (svc & Hb & Hls).
    destruct (Hall svc Hb) as (ports & ds & Hsv & _ & [Hin Hout] & _).
    apply (Hout _ l Hl) in Hls as Hk. apply list_elem_of_fmap in Hk as (w & Hn & Hw).
    destruct (Hin w Hw) as (o & Ho & Hsp & _). rewrite Hn, Ho in Hl. injection Hl as ->.
    pose proof (servable_built _ _ _ _ Hsv) as Hbuilt. unfold built in Hbuilt.
    apply bind_result_ok in Hbuilt as (ns & Hns & [= <-]). apply list_elem_of_fmap in Hw as (p & -> & Hp).
    exists svc, ns, p. rewrite <-Hsp. done.
  - intros (svc & ns & p & Hb & Hns & Hp & HP). destruct (Hall svc Hb) as (ports & ds & Hsv & _ & [Hin _] & _).
    pose proof (servable_built _ _ _ _ Hsv) as Hbuilt. unfold built in Hbuilt. rewrite Hns in Hbuilt.
    injection Hbuilt as <-. destruct (Hin (lbport_for svc ns p)) as (o & Ho & Hsp & _); [by apply list_elem_of_fmap_2|].
    exists (LBPortName svc p), o. split; [exact Ho|]. by rewrite Hsp.
Qed.

Lemma scope_exposes c0 svc ns p n : node_names_ok c0 -> n <> allNodesToken ->
  scope svc (all_nodes c0) = OK ns ->
  appliesToNode (spec_Nodes (lbp_Spec (lbport_for svc ns p))) n = true <-> in_scope svc c0 n.
Proof.
  intros Hok Hn Hns. rewrite appliesToNode_spec. simpl. rewrite (scope_covers svc c0 ns n Hok Hns).
  split; [|by left]. by intros [?|[? _]].
Qed.

(** The ports the LBPorts of the cluster expose on a node. *)
Lemma exposed_services c0 c policy n k items : healthy c0 -> sound c0 c ->
  (forall svc, is_bulb c0 svc -> in_place c0 svc c) -> n <> allNodesToken ->
  (forall l, l ∈ items <-> exists name, lbports c !! ("", name) = Some l) ->
  exposed policy n items k <->
  (exists svc, exposes c0 svc n k) /\ key_Port k ∉ DeniedPorts policy /\
  (1024 <= key_Port k \/ exists svc, exposes c0 svc n k /\
     lookup_str (svc_Annotations svc) AnnotationAllowPrivilegedPort = "true").
Proof.
  intros Hc0 Hs Hall Hn Hitems.
  assert (forall Q : bool -> Prop,
    (exists l, l ∈ items /\ appliesToNode (spec_Nodes (lbp_Spec l)) n = true /\ lbport_key l = k /\
       Q (spec_AllowPrivileged (lbp_Spec l))) <->
    exists svc, exposes c0 svc n k /\
      Q (bool_decide (lookup_str (svc_Annotations svc) AnnotationAllowPrivilegedPort = "true"))) as Hex.
  { intros Q. set (P s := appliesToNode (spec_Nodes s) n = true /\
      lbport_key (MkLBPort "" ∅ s (MkLBPortStatus [])) = k /\ Q (spec_AllowPrivileged s)).
    transitivity (exists name l, lbports c !! ("", name) = Some l /\ P (lbp_Spec l)).
    { split; [intros (l & [name Hl]%Hitems & ?); by exists name, l|].
      intros (name & l & Hl & ?). exists l. split; [apply Hitems; eauto|done]. }
    rewrite (lbport_specs c0 c P Hc0 Hs Hall). unfold P. split.
    - intros (svc & ns & p & Hb & Hns & Hp & Ha & Hk & HQ). exists svc. split; [|exact HQ]. split_and!; [done| |].
      + by apply (scope_exposes c0 svc ns p n (healthy_nodes _ Hc0) Hn Hns).
      + exists p. split; [done|]. by rewrite <-(lbport_for_key svc ns p).
    - intros (svc & (Hb & Hsc & p & Hp & Hk) & HQ). destruct (healthy_servable _ Hc0 svc Hb) as (ports & ds & Hsv).
      pose proof (servable_built _ _ _ _ Hsv) as Hbuilt. apply bind_result_ok in Hbuilt as (ns & Hns & _).
      exists svc, ns, p. split_and!; try done.
      + by apply (scope_exposes c0 svc ns p n (healthy_nodes _ Hc0) Hn Hns).
      + by rewrite <-Hk, <-(lbport_for_key svc ns p). }
  pose proof (Hex (fun _ => True)) as H1. pose proof (Hex (fun b => b = true)) as H2.
  setoid_rewrite bool_decide_eq_true in H2. unfold exposed. rewrite H2.
  assert (forall A B C : Prop, (A <-> B) -> (A /\ C <-> B /\ C)) as Hcong by tauto. apply Hcong. clear -H1.
  split; [intros (l & ? & ? & ?); destruct (proj1 H1) as (svc & ? & _); eauto 10|].
  intros (svc & ?). destruct (proj2 H1) as (l & ? & ? & ? & _); eauto.
Qed.
End cluster.

(** C3: Once the work queue has gone through all Services bulb serves, in whatever order
    and with whatever other requests in between, over an API server that behaves as
    documented and from any [healthy] cluster, one in which they can all be served, every
    one of them has in place what it should have, and nothing else under its labels: its
    DaemonSet, its LBPorts, its DNS records and its status; serving one does not
    undo another. *)
Theorem all_services_in_place `{LabelSelectors} {W} (h : handler KubeE W) (view : W -> Cluster)
    (Hserver : KubeServer h view) (r : ServiceReconciler) (w : W) (reqs : list NamespacedName)
    (svc : Service) (Hhealthy : healthy r (view w)) (Hsvc : is_bulb (view w) svc)
    (Hreq : name_of KService svc ∈ reqs) :
  in_place r (view w) svc (view (snd (run h (reconcile_all r reqs) w))).
Proof.
  apply (kwp_run h view (reconcile_all r reqs) (fun _ c => in_place r (view w) svc c)).
  apply kwp_reconcile_all; [done|]. auto.
Qed.

(** A port its API schema admits. *)
Definition valid_port (p : ServicePort) : Prop :=
  1 <= port_Port p <= 65535 /\ (port_Protocol p = "" \/ port_Protocol p = ProtocolTCP \/ port_Protocol p = ProtocolUDP).

(** The LBPorts an agent reads are those of the cluster. *)
Definition same_lbports (c : Cluster) (stored : gmap string LBPort) : Prop :=
  forall name, stored !! name = lbports c !! ("", name).

Lemma same_lbports_items c stored l : same_lbports c stored ->
  l ∈ (map_to_list stored).*2 <-> exists name, lbports c !! ("", name) = Some l.
Proof.
  intros Hsame. rewrite list_elem_of_fmap. split.
  - intros ([name l'] & -> & Hl%elem_of_map_to_list). exists name. by rewrite <-Hsame.
  - intros [name Hl]. exists (name, l). split; [done|]. apply elem_of_map_to_list. by rewrite Hsame.
Qed.

Lemma services_schema `{LabelSelectors} r c0 c stored : healthy r c0 -> sound c0 c ->
  (forall svc, is_bulb c0 svc -> in_place r c0 svc c) -> same_lbports c stored ->
  (forall svc, is_bulb c0 svc -> Forall valid_port (svc_Ports svc)) ->
  map_Forall (fun _ => schema_lbport) stored.
Proof.
  intros Hc0 Hs Hall Hsame Hports. apply map_Forall_lookup. intros name l Hl. rewrite Hsame in Hl.
  destruct (proj1 (lbport_specs r c0 c (fun s => s = lbp_Spec l) Hc0 Hs Hall)) as (svc & ns & p & Hb & _ & Hp & Heq).
  { by exists name, l. }
  unfold schema_lbport. rewrite <-Heq. specialize (Hports svc Hb). rewrite Forall_forall in Hports.
  destruct (Hports p Hp) as [? Hpr]. split; [done|]. simpl. unfold port_protocol.
  destruct Hpr as [-> |[-> | ->]]; [left|left|right]; done.
Qed.

(** C2: From the Services of a cluster to the firewall of a node, through the controller,
    the API server and the firewall agent. Let the cluster be [healthy]: every Service of
    bulb can be served (it is valid, has ready endpoints where it needs them, and no port
    conflict with another), the names of their objects stay apart, and there are no LBPorts
    of anything else. Once the work queue has gone through all Services of bulb, and then the
    agent of a node, not in dry-run mode, has reconciled with the LBPorts of that cluster
    over any backend that keeps the backend contract, the ports open on the node are those
    that were open and not bulb's, and exactly those ports of the Services that have the
    node in their scope which are not on the agent's denylist and are not privileged unless
    one of these Services allows it. *)
Theorem services_open_ports `{LabelSelectors} {W B E W1 W2} `{!Backend B E}
    (h : handler KubeE W) (view : W -> Cluster) (Hserver : KubeServer h view)
    (b : B) (h1 : handler E W1) (valid : W1 -> Prop) (opened ownedk : W1 -> gset PortKey)
    (Hcontract : BackendContract b h1 valid opened ownedk)
    (h2 : handler LBPortE W2) (stored : W2 -> gmap string LBPort) (Hapi : LBPortApi h2 stored)
    (r : ServiceReconciler) (w : W) (reqs : list NamespacedName)
    (agent : AgentReconciler B) (w1 : W1) (w2 : W2)
    (Hhealthy : healthy r (view w)) (Hreqs : forall svc, is_bulb (view w) svc -> name_of KService svc ∈ reqs)
    (Hports : forall svc, is_bulb (view w) svc -> Forall valid_port (svc_Ports svc))
    (Hbackend : ag_Backend agent = Some b) (Hdry : DryRun agent = false)
    (Hnode : NodeName agent <> allNodesToken) (Hvalid : valid w1)
    (Hsame : same_lbports (view (snd (run h (reconcile_all r reqs) w))) (stored w2)) :
  exists agent' w1' w2',
    run (sum_handler h1 h2) (FwAgent.Reconcile agent) (w1, w2) = ((agent', OK tt), (w1', w2')) /\
    forall k, k ∈ opened w1' <-> (k ∈ opened w1 /\ k ∉ ownedk w1) \/
      (exists svc, exposes (view w) svc (NodeName agent) k) /\ key_Port k ∉ DeniedPorts (Policy agent) /\
      (1024 <= key_Port k \/ exists svc, exposes (view w) svc (NodeName agent) k /\
         lookup_str (svc_Annotations svc) AnnotationAllowPrivilegedPort = "true").
Proof.
  pose proof (kwp_run h view (reconcile_all r reqs) (fun _ c => sound (view w) c /\
    forall svc, is_bulb (view w) svc -> in_place r (view w) svc c) w) as Hround.
  destruct Hround as [Hs Hall]; [apply kwp_reconcile_all; auto|].
  pose proof (services_schema r _ _ _ Hhealthy Hs Hall Hsame Hports) as Hschema.
  destruct (agent_converges b h1 valid opened ownedk h2 stored Hcontract Hapi agent w1 w2 Hbackend Hdry Hvalid Hschema)
    as (agent' & w1' & w2' & Hrun & _ & Hopen & _).
  exists agent', w1', w2'. split; [done|]. intros k. rewrite Hopen.
  rewrite (exposed_services r (view w) _ (Policy agent) (NodeName agent) k _ Hhealthy Hs Hall Hnode
    (fun l => same_lbports_items _ _ l Hsame)). done.
Qed.

(** ** A cluster with two Services of bulb and one of its own *)

Definition sample_mail : Service :=
  sample_service "mail" {[ AnnotationAllowPrivilegedPort := "true" ]} [MkServicePort "smtp" "" 25 "2525"].
Definition sample_internal : Service :=
  MkService "demo" "internal" 1 ∅ "ClusterIP" None "10.96.0.9" ["10.96.0.9"] [MkServicePort "" "TCP" 8080 "80"] [] [].
Definition market : Cluster := sample_cluster [sample_shop; sample_mail; sample_internal] [].

#[local] Existing Instance equality_selectors.

Lemma market_bulb svc : is_bulb market svc -> svc = sample_shop \/ svc = sample_mail.
Proof.
  intros [Hsvc%(named_in KService) Hm]. repeat (apply elem_of_cons in Hsvc as [->|Hsvc]; [by auto|]).
  by apply not_elem_of_nil in Hsvc.
Qed.

Lemma market_servable svc : is_bulb market svc -> exists ports ds, servable sample_reconciler market svc ports ds.
Proof.
  intros Hb. pose proof (market_bulb svc Hb) as Hcases.
  assert (exists ports, built market svc = OK ports) as [ports Hports]
    by (destruct Hcases as [-> | ->]; eexists; vm_compute; reflexivity).
  assert (exists ds, BuildDaemonSet svc "bulb:1" "bulb-system" (endpoints_for market svc) = OK ds) as [ds Hds]
    by (destruct Hcases as [-> | ->]; eexists; vm_compute; reflexivity).
  exists ports, ds. constructor; [|done| |done].
  - intros [Hl _]. by destruct Hcases as [-> | ->].
  - split_and!.
    + destruct Hcases as [-> | ->]; vm_compute in Hports; injection Hports as <-; apply NoDup_singleton.
    + intros want _ (o & Ho & _). apply (named_in KLBPort []) in Ho. by apply not_elem_of_nil in Ho.
    + intros other (Ho & Hne & Hm & ports' & Hports' & l & x & Hl & Hx & [[Heq _] _]).
      assert (other = sample_shop \/ other = sample_mail) as Hothers by (apply market_bulb; done).
      destruct Hcases as [-> | ->], Hothers as [-> | ->]; try done; vm_compute in Hports, Hports'; simplify_eq;
        apply list_elem_of_singleton in Hl, Hx; subst; done.
Qed.

Lemma market_healthy : healthy sample_reconciler market.
Proof.
  constructor.
  - apply sample_keyed.
  - apply sample_nodes_ok.
  - apply market_servable.
  - intros s1 s2 [-> | ->]%market_bulb [-> | ->]%market_bulb Hne; try done; split_and!; try done;
      intros p q Hp%list_elem_of_singleton Hq%list_elem_of_singleton; by subst.
  - apply map_Forall_lookup. intros key l Hl. apply (named_in KLBPort []) in Hl. by apply not_elem_of_nil in Hl.
Qed.

Definition market_queue : list NamespacedName := [("demo", "mail"); ("demo", "internal"); ("demo", "shop"); ("demo", "gone")].
Definition market_after : Cluster := snd (run sim_server (reconcile_all sample_reconciler market_queue) market).

Lemma all_services_in_place_witness :
  in_place sample_reconciler market sample_shop market_after /\ size (daemonsets market_after) = 2%nat.
Proof.
  split; [|vm_compute; reflexivity].
  refine (all_services_in_place sim_server id sim_server_law sample_reconciler market market_queue sample_shop
    market_healthy _ _); [split; reflexivity|]. apply (bool_decide_unpack _). by vm_compute.
Defined.

(** The agent of a node reads the LBPorts of that cluster. *)
Definition api_of (c : Cluster) : SimApi :=
  list_to_map ((fun l => (lbp_Name l, (lbp_Labels l, lbp_Spec l, lbp_Status l))) <$> (map_to_list (lbports c)).*2).

Definition market_agent : AgentReconciler FirewalldBackend :=
  MkAgentReconciler "edge-1" (Some sim_backend) (MkFirewallPolicy [9000]) false [] None.

Lemma api_of_same c : keyed c -> same_lbports c (sim_stored (api_of c)).
Proof.
  intros Hk name. rewrite sim_stored_lookup. apply option_eq. intros l.
  assert (NoDup ((fun l => (lbp_Name l, (lbp_Labels l, lbp_Spec l, lbp_Status l))) <$> (map_to_list (lbports c)).*2).*1) as Hnd.
  { rewrite <-list_fmap_compose. pose proof (keyed_names c KLBPort Hk) as Hn.
    apply (NoDup_fmap_1 (pair "")). by rewrite <-list_fmap_compose. }
  unfold api_of. split.
  - intros ([[ls sp] st] & Hin%elem_of_list_to_map & ->)%fmap_Some; [|exact Hnd].
    apply list_elem_of_fmap in Hin as (l & [= -> -> -> ->] & Hl). apply (elem_of_values c KLBPort) in Hl; [|done].
    by destruct l.
  - intros Hl. pose proof (Hk LBPort KLBPort _ l Hl) as [= Hname]. apply fmap_Some.
    exists (lbp_Labels l, lbp_Spec l, lbp_Status l). split; [|by destruct l; simpl in *; subst].
    apply elem_of_list_to_map; [exact Hnd|]. apply list_elem_of_fmap. exists l. rewrite Hname. split; [done|].
    apply (elem_of_values c KLBPort); [done|]. simpl. by rewrite Hname.
Qed.

Lemma market_after_keyed : keyed market_after.
Proof.
  apply (kwp_run sim_server id (reconcile_all sample_reconciler market_queue) (fun _ c => keyed c)).
  eapply kwp_reconcile_all; [apply market_healthy|]. intros c Hs _. apply Hs.
Qed.

Lemma services_open_ports_witness :
  exists agent' w1' w2',
    run (sum_handler sim_handler sim_api) (FwAgent.Reconcile market_agent) (sim_start, api_of market_after)
      = ((agent', OK tt), (w1', w2')) /\
    MkPortKey 25 "tcp" ∈ sim_opened w1' /\ MkPortKey 8080 "tcp" ∈ sim_opened w1'.
Proof.
  pose proof (sim_laws (zone sim_backend)).
  destruct (services_open_ports sim_server id sim_server_law sim_backend sim_handler _ _ _
    (FirewalldBackend_contract sim_handler sim_backend sim_opened sim_file) sim_api _ sim_api_laws
    sample_reconciler market market_queue market_agent sim_start (api_of market_after) market_healthy)
    as (agent' & w1' & w2' & Hrun & Hopen).
  - intros svc [-> | ->]%market_bulb; apply (bool_decide_unpack _); by vm_compute.
  - intros svc [-> | ->]%market_bulb; apply Forall_singleton; split; [simpl; lia|by right; left|simpl; lia|by left].
  - reflexivity.
  - reflexivity.
  - discriminate.
  - exact I.
  - exact (api_of_same market_after market_after_keyed).
  - exists agent', w1', w2'. split; [exact Hrun|]. split; apply Hopen; right; split_and!.
    + exists sample_mail. split; [split; reflexivity|]. split; [left; reflexivity|].
      eexists. split; [left|reflexivity].
    + apply (bool_decide_unpack _). by vm_compute.
    + right. exists sample_mail. split; [|reflexivity]. split; [split; reflexivity|]. split; [left; reflexivity|].
      eexists. split; [left|reflexivity].
    + exists sample_shop. split; [split; reflexivity|]. split; [exact edge_in_scope|].
      eexists. split; [left|reflexivity].
    + apply (bool_decide_unpack _). by vm_compute.
    + left. simpl. lia.
Defined.
