(* ===== verification/Wakeups.v ===== *)
(** * Wakeups: which changes the controller reconciles again for

    [SetupWithManager] of internal/controller/reconciler.go registers four watches. This
    file models them, over the functions they are registered with, and shows what they are
    enough for: every change to what a Service is served from leads to a reconcile of it,
    but the end of a conflict with another Service does not.

    The watches themselves are controller-runtime's: [Watches] is what its documentation
    promises of [EnqueueRequestForObject] behind a predicate and of
    [EnqueueRequestsFromMapFunc], and [MapFunc.both] an implementation of that promise. *)
From S2P Require Import Prelude GoStrings Effects ApiTypes FwPorts Kube KubeApply LBPorts Conflicts DaemonSets DnsRecords ServiceReconciler ReconcileSpec Convergence.
Open Scope Z_scope.

(** The event for a change of one object from [old] to [new], either of which may be absent. *)
Definition event_of (old new : option Service) : watch_event :=
  match old, new with
  | None, _ => CreateEvent new
  | Some _, None => DeleteEvent old
  | Some _, Some _ => UpdateEvent old new
  end.

(** The object before or after a change. *)
Definition either {T} (old new : option T) (o : T) : Prop := old = Some o \/ new = Some o.

(** [reqs] is what a function with the results [P] gives for some objects, and no more. *)
Definition mapped_to {T} (objs : T -> Prop) (P : T -> list NamespacedName -> Prop) (reqs : list NamespacedName) : Prop :=
  (forall o, objs o -> exists some, P o some /\ some ⊆ reqs) /\
  (forall req, req ∈ reqs -> exists o some, objs o /\ P o some /\ req ∈ some).

(** What controller-runtime enqueues for a change of one object: its own name if the
    predicate lets the event through, or what a function gives for the object, which for
    an update is called on the old and on the new one. *)
Class Watches := {
  enqueue_object : (watch_event -> bool) -> NamespacedName -> option Service -> option Service -> list NamespacedName;
  enqueue_mapped : forall T, (T -> prog KubeE (list NamespacedName)) -> option T -> option T ->
    prog KubeE (list NamespacedName);
  enqueue_object_spec pred key old new :
    enqueue_object pred key old new = if pred (event_of old new) then [key] else [];
  enqueue_mapped_spec T (f : T -> prog KubeE (list NamespacedName)) old new c (P : T -> list NamespacedName -> Prop) :
    (forall o, either old new o -> kwp (f o) (fun reqs c' => c' = c /\ P o reqs) c) ->
    kwp (enqueue_mapped T f old new)
      (fun reqs c' => c' = c /\ mapped_to (either old new) P reqs) c
}.

(** The watches of the controller: what a change of an object enqueues. *)
Definition watch `{Watches} {T} (k : Kind T) (key : NamespacedName)
    : option T -> option T -> prog KubeE (list NamespacedName) :=
  match k in Kind T return option T -> option T -> prog KubeE (list NamespacedName) with
  | KService => fun old new => Ret (enqueue_object servicePredicate key old new)
  | KLBPort => enqueue_mapped LBPort (fun l => Ret (lbPortToService (lbp_Labels l)))
  | KNode => enqueue_mapped Node (fun _ => nodeToAllServices)
  | KEndpoints => enqueue_mapped Endpoints (fun eps => Ret (endpointToService (Some eps)))
  | KDaemonSet | KDNSRecord => fun _ _ => Ret []
  end.

(** ** What a Service is served from *)

(** One object of the cluster has changed. *)
Definition changed {T} (k : Kind T) (key : NamespacedName) (old new : option T) (c c' : Cluster) : Prop :=
  objects c k !! key = old /\ c' = with_objects c k (partial_alter (fun _ => new) key (objects c k)).

(** The LBPorts with the labels of a Service. *)
Definition own_lbports (req : NamespacedName) (c : Cluster) : gmap NamespacedName LBPort :=
  filter (fun kv => labels_for (fst req) (snd req) ⊆ lbp_Labels kv.2) (lbports c).

(** The Service itself, its Endpoints, the nodes, and its LBPorts, whose status its events report. *)
Definition inputs (req : NamespacedName) (c : Cluster) :=
  (services c !! req, endpoints c !! req, nodes c, own_lbports req c).

(** These are all that a Service is served from, besides the conflicts. *)
Lemma inputs_enough `{LabelSelectors} req c c' svc : inputs req c = inputs req c' -> name_of KService svc = req ->
  built c svc = built c' svc /\ endpoints_for c svc = endpoints_for c' svc /\ cluster_ips c = cluster_ips c'.
Proof.
  intros [= _ He Hn _] <-. unfold built, endpoints_for, cluster_ips, all_nodes. rewrite Hn.
  change (svc_Namespace svc, svc_Name svc) with (name_of KService svc). by rewrite He.
Qed.

Lemma changed_new {T} (k : Kind T) key old new c c' : changed k key old new c c' -> objects c' k !! key = new.
Proof. intros [_ ->]. by rewrite objects_same, lookup_partial_alter_eq. Qed.

Lemma changed_other {T} (k : Kind T) key old new c c' other : changed k key old new c c' -> other <> key ->
  objects c' k !! other = objects c k !! other.
Proof. intros [_ ->] Hne. by rewrite objects_same, lookup_partial_alter_ne. Qed.

(** Nothing changes when an object that was absent stays absent. *)
Lemma changed_some {T} (k : Kind T) key old new c c' : changed k key old new c c' -> c' <> c -> exists o, either old new o.
Proof.
  intros [<- ->] Hne. unfold either. destruct (objects c k !! key) as [o|] eqn:Ho; [eauto|]. destruct new as [n|]; [eauto|].
  destruct Hne. rewrite <-Ho, partial_alter_self. apply with_objects_id.
Qed.

(** An object of the change has the name the change is of. *)
Lemma changed_name {T} (k : Kind T) key old new c c' o : keyed c -> keyed c' -> changed k key old new c c' ->
  either old new o -> name_of k o = key.
Proof.
  intros Hk Hk' Hc [Ho | Ho]; [apply (Hk T k); rewrite <-Ho; apply Hc|].
  apply (Hk' T k). by rewrite (changed_new _ _ _ _ _ _ Hc).
Qed.

(** ** No change of what a Service is served from is missed *)

Lemma kwp_nodeToAllServices c : keyed c ->
  kwp nodeToAllServices (fun reqs c' => c' = c /\
    forall req svc, services c !! req = Some svc -> ServiceMatches svc = true -> req ∈ reqs) c.
Proof.
  intros Hk. split; [done|]. intros x c' (-> & items & -> & Hp). split; [done|]. intros req svc Hsvc Hm.
  unfold service_requests. apply list_elem_of_fmap. exists svc.
  split; [symmetry; by apply (Hk Service KService)|]. apply list_elem_of_filter. split; [done|].
  apply (list_all c KService) in Hp. rewrite Hp. apply (elem_of_values c KService); [done|].
  by rewrite (Hk Service KService req svc Hsvc).
Qed.

Lemma lbPortToService_labels req ls : fst req <> "" -> snd req <> "" -> labels_for (fst req) (snd req) ⊆ ls ->
  lbPortToService ls = [req].
Proof.
  intros H1 H2 Hls. unfold lbPortToService, lookup_str. destruct (labels_for_lookup _ _ _ Hls) as [-> ->]. simpl.
  rewrite !bool_decide_eq_false_2 by done. by destruct req.
Qed.

(** A change of the LBPorts of a Service is one of an LBPort with its labels. *)
Lemma own_lbports_changed key old new req c c' : changed KLBPort key old new c c' ->
  own_lbports req c <> own_lbports req c' ->
  exists l, either old new l /\ labels_for (fst req) (snd req) ⊆ lbp_Labels l.
Proof.
  intros Hc Hne. set (own := fun l => labels_for (fst req) (snd req) ⊆ lbp_Labels l).
  destruct (decide (Exists own (option_list old ++ option_list new))) as [(l & Hl & Hown)%Exists_exists|Hno].
  - exists l. split; [|done]. unfold either. destruct old, new; unfold option_list in Hl; simpl in Hl; set_solver.
  - destruct Hne. apply map_eq. intros i. unfold own_lbports. rewrite !map_lookup_filter.
    destruct (decide (i = key)) as [->|Hi]; [|by rewrite (changed_other _ _ _ _ _ _ i Hc Hi : lbports c' !! i = _)].
    rewrite (changed_new _ _ _ _ _ _ Hc : lbports c' !! key = _), (proj1 Hc : lbports c !! key = _).
    rewrite Exists_app in Hno.
    assert (forall o : option LBPort, ~ Exists own (option_list o) -> (o ≫= (fun l => guard (own l);; Some l)) = None) as Hnone.
    { intros [l|] Hl; [|done]. simpl in *. case_guard; [|done]. destruct Hl. by left. }
    etransitivity; [apply Hnone; tauto|symmetry; apply Hnone; tauto].
Qed.

(** A change of a Service that is served before or after passes the predicate. *)
Lemma servicePredicate_either old new svc : either old new svc -> ServiceMatches svc = true ->
  servicePredicate (event_of old new) = true.
Proof.
  intros Hsvc Hm. destruct old, new, Hsvc; simplify_eq; simpl; rewrite Hm; by rewrite ?orb_true_r.
Qed.

(** C6: No wakeup is missed for what a Service is served from: if any one object of the
    cluster changes, whatever its kind, and that changes the Service, its Endpoints, the
    nodes or the LBPorts of a Service bulb serves (before or after), a reconcile of that
    Service is enqueued, over any API server and watches that keep their promises. *)
Theorem changes_wake `{Watches} {W} (h : handler KubeE W) (view : W -> Cluster) (Hserver : KubeServer h view)
    {T} (k : Kind T) (key req : NamespacedName) (old new : option T) (c : Cluster) (w : W)
    (Hkeyed : keyed c) (Hkeyed' : keyed (view w)) (Hchange : changed k key old new c (view w))
    (Hnames : fst req <> "" /\ snd req <> "")
    (Hserved : exists svc, (services c !! req = Some svc \/ services (view w) !! req = Some svc) /\ ServiceMatches svc = true)
    (Hinputs : inputs req c <> inputs req (view w)) :
  req ∈ fst (run h (watch k key old new) w).
Proof.
  assert (view w <> c) as Hdiff by congruence.
  destruct (changed_some _ _ _ _ _ _ Hchange Hdiff) as [o Ho]. destruct Hserved as (svc & Hsvc & Hm).
  apply (kwp_run h view (watch k key old new) (fun reqs _ => req ∈ reqs)).
  revert Hkeyed' Hchange Hsvc Hinputs Hdiff. generalize (view w). intros c' Hkeyed' Hchange Hsvc Hinputs Hdiff.
  pose proof (changed_name _ _ _ _ _ _ o Hkeyed Hkeyed' Hchange Ho) as Hkey.
  destruct k.
  - destruct (decide (req = key)) as [->|Hne].
    2: { destruct Hinputs. destruct Hchange as [_ ->]. unfold inputs. simpl. by rewrite lookup_partial_alter_ne. }
    simpl. rewrite enqueue_object_spec, (servicePredicate_either _ _ svc); [by left| |done].
    by rewrite <-(changed_new _ _ _ _ _ _ Hchange), <-(proj1 Hchange).
  - eapply wp_mono, (enqueue_mapped_spec _ _ _ _ _ (fun _ reqs => req ∈ reqs)).
    + intros reqs ? (_ & H' & _). destruct (H' o Ho) as (some & Hin & Hsub). by apply Hsub.
    + intros n _. eapply wp_mono, kwp_nodeToAllServices; [|done]. intros reqs ? [-> Hall]. split; [done|].
      apply (Hall req svc); [|done]. destruct Hsvc as [Hsvc|Hsvc]; [|done]. by rewrite (proj2 Hchange).
  - destruct (decide (req = key)) as [->|Hne].
    2: { destruct Hinputs. destruct Hchange as [_ ->]. unfold inputs. simpl. by rewrite lookup_partial_alter_ne. }
    eapply wp_mono, (enqueue_mapped_spec _ _ _ _ _ (fun eps reqs => reqs = [name_of KEndpoints eps])); [|done].
    intros reqs ? (_ & H' & _). destruct (H' o Ho) as (some & -> & Hsub). apply Hsub. rewrite Hkey. by left.
  - destruct Hinputs. by rewrite (proj2 Hchange).
  - destruct (own_lbports_changed key old new req c c' Hchange) as (l & Hl & Hlabels).
    { intros Heq. apply Hinputs. unfold inputs. rewrite Heq. by rewrite (proj2 Hchange). }
    eapply wp_mono, (enqueue_mapped_spec _ _ _ _ _ (fun l reqs => reqs = lbPortToService (lbp_Labels l))); [|done].
    intros reqs ? (_ & H' & _). destruct (H' l Hl) as (some & -> & Hsub). apply Hsub.
    rewrite (lbPortToService_labels req) by tauto. by left.
  - destruct Hinputs. by rewrite (proj2 Hchange).
Qed.

(** ** A deleted Service wakes no other *)

(** The requests that a change of an LBPort with the labels of a Service leads to. *)
Lemma watch_own_lbport `{Watches} {W} (h : handler KubeE W) (view : W -> Cluster) `{!KubeServer h view} req key old new w :
  (forall l, either old new l -> labels_for (fst req) (snd req) ⊆ lbp_Labels l) ->
  forall other, other ∈ fst (run h (watch KLBPort key old new) w) -> other = req.
Proof.
  intros Hl. apply (kwp_run h view (watch KLBPort key old new) (fun reqs _ => forall other, other ∈ reqs -> other = req)).
  eapply wp_mono, (enqueue_mapped_spec _ _ _ _ _ (fun l reqs => reqs = lbPortToService (lbp_Labels l))); [|done].
  intros reqs ? (_ & _ & H') other Ho. destruct (H' other Ho) as (l & some & Hold & -> & Hin).
  destruct (labels_for_lookup _ _ _ (Hl l Hold)) as [H1 H2]. revert Hin. unfold lbPortToService, lookup_str.
  rewrite H1, H2. simpl. case_match; [by intros ?%not_elem_of_nil|].
  intros ->%list_elem_of_singleton. by destruct req.
Qed.

(** An object that removing those with some labels has changed had these labels, and is gone. *)
Lemma own_removed {T} (k : Kind T) (ls : str_map) (m m' : gmap NamespacedName T) (key : NamespacedName) (o : T) : m' !! key <> m !! key ->
  m' = m \/ m' = removed k ls m -> either (m !! key) (m' !! key) o -> ls ⊆ labels_of k o.
Proof.
  intros Hne [-> | ->]; [done|]. unfold removed, either in *. rewrite map_lookup_filter in *.
  destruct (m !! key) as [o'|]; [|done]. simpl in *. case_guard as Hls; [done|]. simpl in *.
  by intros [[= ->]|?].
Qed.

(** C39: Nobody is told when a Service goes away: its deletion enqueues its own name only,
    and the reconcile of that name changes nothing that leads to a request for any other
    Service. So a Service that was turned down because of the deleted one is left as it
    is until something else of its own changes. *)
Theorem deletion_wakes_itself `{LabelSelectors} `{Watches} {W} (h : handler KubeE W) (view : W -> Cluster)
    (Hserver : KubeServer h view) (r : ServiceReconciler) (req : NamespacedName) (svc : Service) (c : Cluster) (w : W)
    (Hkeyed : keyed (view w)) (Hnodes : node_names_ok (view w))
    (Hdeleted : changed KService req (Some svc) None c (view w)) (Hserved : ServiceMatches svc = true) :
  let after := view (snd (run h (Reconcile r req) w)) in
  fst (run h (watch KService req (Some svc) None) w) = [req] /\
  services after = services (view w) /\
  forall T (k : Kind T) key later other, objects after k !! key <> objects (view w) k !! key ->
    other ∈ fst (run h (watch k key (objects (view w) k !! key) (objects after k !! key)) later) -> other = req.
Proof.
  intros after. pose proof (changed_new _ _ _ _ _ _ Hdeleted : services (view w) !! req = None) as Hnone.
  assert (after = cleaned r (fst req) (snd req) cleanupHonorKeep (view w)) as ->.
  { apply (kwp_run h view (Reconcile r req) (fun _ c' => c' = cleaned r (fst req) (snd req) cleanupHonorKeep (view w))).
    apply kwp_Reconcile; [done..|]. intros c' Hrec. by destruct Hrec; simplify_eq. }
  destruct (cleaned_parts r (fst req) (snd req) cleanupHonorKeep (view w)) as (Hs & Hn & He & Hl & _).
  split_and!; [|done|].
  - simpl. rewrite enqueue_object_spec. simpl. by rewrite Hserved.
  - intros T k key later other Hne. destruct k; simpl in Hne; rewrite ?Hs, ?Hn, ?He in Hne; try done.
    + by intros ?%not_elem_of_nil.
    + apply (watch_own_lbport h view). intros l Hlb. exact (own_removed KLBPort _ _ _ key l Hne Hl Hlb).
    + by intros ?%not_elem_of_nil.
Qed.

(** ** Witnesses *)

(** Watches that call the function on both objects, the old one first. *)
Module MapFunc.
Definition both {T} (f : T -> prog KubeE (list NamespacedName)) (old new : option T)
    : prog KubeE (list NamespacedName) :=
  let* a := match old with Some o => f o | None => Ret [] end in
  let* b := match new with Some o => f o | None => Ret [] end in
  Ret (a ++ b).

Lemma kwp_one {T} (f : T -> prog KubeE (list NamespacedName)) (o : option T) c (P : T -> list NamespacedName -> Prop)
    (Q : list NamespacedName -> Cluster -> Prop) :
  (forall x, o = Some x -> kwp (f x) (fun reqs c' => c' = c /\ P x reqs) c) ->
  (forall reqs, mapped_to (fun x => o = Some x) P reqs -> Q reqs c) ->
  kwp (match o with Some x => f x | None => Ret [] end) Q c.
Proof.
  intros Hf HQ. destruct o as [x|]; simpl.
  - eapply wp_mono, Hf; [|done]. intros reqs ? [-> HP]. apply HQ. split.
    + intros y [= <-]. by exists reqs.
    + intros req Hin. by exists x, reqs.
  - apply HQ. split; [done|]. by intros ? ?%not_elem_of_nil.
Qed.

#[refine] Instance watches : Watches := {
  enqueue_object pred key old new := if pred (event_of old new) then [key] else [];
  enqueue_mapped T := both
}.
Proof.
  - done.
  - intros T f old new c P Hf. unfold both.
    apply wp_bind, (kwp_one f old c P); [intros x ->; apply Hf; by left|]. intros a [Ha Ha'].
    apply wp_bind, (kwp_one f new c P); [intros x ->; apply Hf; by right|]. intros b [Hb Hb']. split; [done|]. split.
    + intros o [Ho|Ho]; [destruct (Ha o Ho) as (some & ? & ?)|destruct (Hb o Ho) as (some & ? & ?)];
        exists some; split; [done|set_solver|done|set_solver].
    + intros req [Hin|Hin]%elem_of_app; [destruct (Ha' req Hin) as (o & some & ? & ? & ?)
                                        |destruct (Hb' req Hin) as (o & some & ? & ? & ?)];
        exists o, some; split_and!; first [done | by left | by right].
Defined.
End MapFunc.

(** Two Services on port 8080, after both were turned down, and after one of them is deleted. *)
Definition rival (name : string) : Service := sample_service name ∅ [MkServicePort "http" "TCP" 8080 "80"].
Definition rivals : Cluster := sample_cluster [rival "web"; rival "api"] [].
Definition turned_down : Cluster :=
  snd (run sim_server (@reconcile_all equality_selectors sample_reconciler [("demo", "web"); ("demo", "api")]) rivals).
Definition web_down : Service := default (rival "web") (services turned_down !! ("demo", "web")).
Definition web_deleted : Cluster := with_objects turned_down KService (delete ("demo", "web") (services turned_down)).

(** [keyed] of a concrete cluster, by computation. *)
Definition named_by {T} (k : Kind T) (c : Cluster) : Prop := map_Forall (fun key o => name_of k o = key) (objects c k).

Lemma keyed_by_kinds c : named_by KService c /\ named_by KNode c /\ named_by KEndpoints c /\ named_by KDaemonSet c /\
  named_by KLBPort c /\ named_by KDNSRecord c -> keyed c.
Proof. intros (H1 & H2 & H3 & H4 & H5 & H6) T k key o Ho. destruct k; eauto. Qed.

Lemma web_deleted_ok : keyed web_deleted /\ node_names_ok web_deleted.
Proof.
  split; [apply keyed_by_kinds; unfold named_by|unfold node_names_ok]; apply (bool_decide_unpack _); vm_compute; exact I.
Qed.

Lemma changes_wake_witness :
  ("demo", "web") ∈ fst (run sim_server (@watch MapFunc.watches Service KService ("demo", "web") (Some web_down) None) web_deleted).
Proof.
  apply (@changes_wake MapFunc.watches Cluster sim_server id sim_server_law Service KService ("demo", "web") ("demo", "web")
    (Some web_down) None turned_down web_deleted).
  - apply keyed_by_kinds. unfold named_by. apply (bool_decide_unpack _). vm_compute. exact I.
  - apply web_deleted_ok.
  - split; [vm_compute; reflexivity|]. reflexivity.
  - split; discriminate.
  - exists web_down. split; [left|]; vm_compute; reflexivity.
  - intros H%(f_equal (fun i => bool_decide (is_Some i.1.1.1))). vm_compute in H. discriminate.
Defined.

(** After web is deleted, only its own name is enqueued, and its reconcile leaves the cluster as it
    is. Nothing stands in the way of api any more, but it still shows the conflict and has no
    DaemonSet; a reconcile, if there were one, would give it one. *)
Lemma deletion_wakes_itself_witness :
  let reconcile req := snd (run sim_server (@Reconcile equality_selectors sample_reconciler req) web_deleted) in
  fst (run sim_server (@watch MapFunc.watches Service KService ("demo", "web") (Some web_down) None) web_deleted) = [("demo", "web")] /\
  reconcile ("demo", "web") = web_deleted /\
  (cond_Type <$> filter (fun x => cond_Status x = ConditionTrue)
     (svc_Conditions (default (rival "api") (services web_deleted !! ("demo", "api"))))) = [ConditionPortConflict] /\
  daemonsets web_deleted = ∅ /\ size (daemonsets (reconcile ("demo", "api"))) = 1%nat.
Proof.
  intros reconcile. split.
  { apply (@deletion_wakes_itself equality_selectors MapFunc.watches Cluster sim_server id sim_server_law sample_reconciler
      ("demo", "web") web_down turned_down web_deleted); [apply web_deleted_ok..| |].
    - split; [vm_compute; reflexivity|]. reflexivity.
    - vm_compute; reflexivity. }
  split_and!; vm_compute; reflexivity.
Defined.
