(* ===== verification/DeepCopy.v ===== *)
(** * DeepCopy: the copies of the API types, in memory

    Elsewhere a value of an API type is a value of the model and a copy is the value
    itself. This file models what makes that right: Go slices and maps are references
    to memory that several objects can share, an append may write into memory that is
    already there, and sort.Strings sorts in place. The DeepCopy methods of
    api/v1alpha1 give an object memory of its own, so the agent can change the object
    it got from the cache of its client without changing the cache.

    The growth of a slice in append is not specified by Go: [growslice] is a
    parameter. So is the deep copy of ObjectMeta, which is apimachinery's; of its
    fields Name and Labels are here, as in ApiTypes. TypeMeta and ListMeta hold
    no references the source touches and are left out. *)
From S2P Require Import Prelude GoStrings Effects ApiTypes FwPorts FwAgent.

(** ** Memory *)

(** A slice that is not nil: a window of a backing array, with room up to its capacity. *)
Record window := Window { w_array : positive; w_off : nat; w_len : nat; w_cap : nat }.
Abbreviation slice := (option window).

(** A map that is not nil is a reference. *)
Record ObjectMeta := MkObjectMeta { om_Name : string; om_Labels : option positive }.

Record LBPortSpecM := MkLBPortSpecM {
  m_Port : Z;
  m_Protocol : Protocol;
  m_Nodes : slice;
  m_Owner : string;
  m_AllowPrivileged : bool
}.
Record LBPortStatusM := MkLBPortStatusM { m_AppliedNodes : slice }.
Record LBPortM := MkLBPortM { m_ObjectMeta : ObjectMeta; m_Spec : LBPortSpecM; m_Status : LBPortStatusM }.

Record DNSRecordSpecM := MkDNSRecordSpecM { m_FQDN : string; m_Type : string; m_TTL : Z; m_Targets : slice }.
Record DNSRecordM := MkDNSRecordM { d_ObjectMeta : ObjectMeta; d_Spec : DNSRecordSpecM }.

(** Backing arrays of strings and of objects, and maps. *)
Record Mem := MkMem {
  strs : gmap positive (list string);
  maps : gmap positive str_map;
  lbp_arrays : gmap positive (list LBPortM);
  dns_arrays : gmap positive (list DNSRecordM)
}.

Definition with_strs (m : Mem) (s : gmap positive (list string)) : Mem :=
  MkMem s (maps m) (lbp_arrays m) (dns_arrays m).

(** Statements run in memory. *)
Definition mem (A : Type) : Type := Mem -> A * Mem.
#[export] Instance mem_ret : MRet mem := fun A x m => (x, m).
#[export] Instance mem_bind : MBind mem := fun A B k c m => let '(x, m1) := c m in k x m1.

(** What was allocated is still there as it was. *)
Record extends (m m' : Mem) : Prop := {
  extends_strs : strs m ⊆ strs m';
  extends_maps : maps m ⊆ maps m';
  extends_lbps : lbp_arrays m ⊆ lbp_arrays m';
  extends_dnss : dns_arrays m ⊆ dns_arrays m'
}.

#[export] Instance extends_preorder : PreOrder extends.
Proof.
  split; [by constructor|]. intros m1 m2 m3 [] []. constructor; by etrans.
Qed.

(** ** Slices of strings *)

Definition slice_len (s : slice) : nat := match s with Some w => w_len w | None => 0 end.
Definition slice_cap (s : slice) : nat := match s with Some w => w_cap w | None => 0 end.

(** The elements of a window of an array. *)
Definition window_of {A} (w : window) (array : list A) : list A := take (w_len w) (drop (w_off w) array).

Definition elements {A} (arrays : gmap positive (list A)) (s : slice) : list A :=
  match s with Some w => window_of w (default [] (arrays !! w_array w)) | None => [] end.

Definition window_in {A} (w : window) (array : list A) : Prop :=
  (w_len w <= w_cap w /\ w_off w + w_cap w <= length array)%nat.

Definition slice_ok {A} (arrays : gmap positive (list A)) (s : slice) : Prop :=
  match s with
  | Some w => exists array, arrays !! w_array w = Some array /\ window_in w array
  | None => True
  end.

(** The slice shares no memory with what is allocated in [arrays]. *)
Definition slice_fresh {A} (arrays : gmap positive (list A)) (s : slice) : Prop :=
  match s with Some w => arrays !! w_array w = None | None => True end.

Definition read_strings (s : slice) : mem (list string) := fun m => (elements (strs m) s, m).

(** [sort.Strings(s)]. *)
Definition sort_Strings (s : slice) : mem unit := fun m =>
  match s with
  | None => (tt, m)
  | Some w =>
      (tt, with_strs m (alter (fun a => list_inserts (w_off w) (sort_strings (window_of w a)) a) (w_array w) (strs m)))
  end.

Section runtime.
Context (growslice : nat -> nat -> nat).

(** [append(s, xs...)]: in place when there is room, else in a new array. *)
Definition append (s : slice) (xs : list string) : mem slice := fun m =>
  let n := (slice_len s + length xs)%nat in
  if decide (n <= slice_cap s)%nat then
    match s with
    | None => (None, m)
    | Some w =>
        (Some (Window (w_array w) (w_off w) n (w_cap w)),
         with_strs m (alter (list_inserts (w_off w + w_len w) xs) (w_array w) (strs m)))
    end
  else
    let cap := growslice (slice_cap s) n in
    let l := fresh (dom (strs m)) in
    (Some (Window l 0 n cap),
     with_strs m (<[l := elements (strs m) s ++ xs ++ replicate (cap - n) ""]> (strs m))).

(** ** The DeepCopy methods *)

Context (ObjectMeta_DeepCopyInto : ObjectMeta -> mem ObjectMeta).

Definition LBPortSpec_DeepCopy (inn : LBPortSpecM) : mem LBPortSpecM :=
  match m_Nodes inn with
  | None => mret inn
  | Some _ =>
      xs ← read_strings (m_Nodes inn);
      nodes ← append None xs;
      mret (MkLBPortSpecM (m_Port inn) (m_Protocol inn) nodes (m_Owner inn) (m_AllowPrivileged inn))
  end.

Definition LBPortStatus_DeepCopy (inn : LBPortStatusM) : mem LBPortStatusM :=
  match m_AppliedNodes inn with
  | None => mret inn
  | Some _ =>
      xs ← read_strings (m_AppliedNodes inn);
      nodes ← append None xs;
      mret (MkLBPortStatusM nodes)
  end.

(** What is left in [*out]. *)
Definition LBPort_DeepCopyInto (inn : LBPortM) : mem LBPortM :=
  meta ← ObjectMeta_DeepCopyInto (m_ObjectMeta inn);
  spec ← LBPortSpec_DeepCopy (m_Spec inn);
  status ← LBPortStatus_DeepCopy (m_Status inn);
  mret (MkLBPortM meta spec status).

(** A nil pointer is [None]. *)
Definition LBPort_DeepCopy (inn : option LBPortM) : mem (option LBPortM) :=
  match inn with
  | None => mret None
  | Some x => y ← LBPort_DeepCopyInto x; mret (Some y)
  end.

(** ** The status updates of the agent

    [ensureNodeInStatus] and [ensureNodeNotInStatus] of internal/firewall/firewall.go
    from the Get to the Update: the client's cache hands out a deep copy. *)

Definition with_nodes (nodes : slice) (x : LBPortM) : LBPortM :=
  MkLBPortM (m_ObjectMeta x) (m_Spec x) (MkLBPortStatusM nodes).

Definition add_node (node : string) (cached : LBPortM) : mem LBPortM :=
  latest ← LBPort_DeepCopyInto cached;
  nodes ← append (m_AppliedNodes (m_Status latest)) [node];
  _ ← sort_Strings nodes;
  mret (with_nodes nodes latest).

(** [filtered := make([]string, 0, n)]. *)
Definition make_strings (cap : nat) : mem slice := fun m =>
  let l := fresh (dom (strs m)) in
  (Some (Window l 0 0 cap), with_strs m (<[l := replicate cap ""]> (strs m))).

Fixpoint append_others (node : string) (names : list string) (filtered : slice) : mem slice :=
  match names with
  | [] => mret filtered
  | n :: names' =>
      if negb (bool_decide (n = node)) then
        filtered ← append filtered [n];
        append_others node names' filtered
      else append_others node names' filtered
  end.

Definition remove_node (node : string) (cached : LBPortM) : mem LBPortM :=
  latest ← LBPort_DeepCopyInto cached;
  filtered ← make_strings (slice_len (m_AppliedNodes (m_Status latest)));
  names ← read_strings (m_AppliedNodes (m_Status latest));
  filtered ← append_others node names filtered;
  mret (with_nodes filtered latest).

Definition DNSRecordSpec_DeepCopy (inn : DNSRecordSpecM) : mem DNSRecordSpecM :=
  match m_Targets inn with
  | None => mret inn
  | Some _ =>
      xs ← read_strings (m_Targets inn);
      targets ← append None xs;
      mret (MkDNSRecordSpecM (m_FQDN inn) (m_Type inn) (m_TTL inn) targets)
  end.

Definition DNSRecord_DeepCopyInto (inn : DNSRecordM) : mem DNSRecordM :=
  meta ← ObjectMeta_DeepCopyInto (d_ObjectMeta inn);
  spec ← DNSRecordSpec_DeepCopy (d_Spec inn);
  mret (MkDNSRecordM meta spec).

Definition DNSRecord_DeepCopy (inn : option DNSRecordM) : mem (option DNSRecordM) :=
  match inn with
  | None => mret None
  | Some x => y ← DNSRecord_DeepCopyInto x; mret (Some y)
  end.
End runtime.

(** *** Lists of objects *)

(** The backing arrays of one type of object. *)
Class ItemHeap (T : Type) := {
  arrays : Mem -> gmap positive (list T);
  with_arrays : Mem -> gmap positive (list T) -> Mem;
  zero : T
}.

#[export] Instance LBPort_heap : ItemHeap LBPortM := {
  arrays := lbp_arrays;
  with_arrays m a := MkMem (strs m) (maps m) a (dns_arrays m);
  zero := MkLBPortM (MkObjectMeta "" None) (MkLBPortSpecM 0 "" None "" false) (MkLBPortStatusM None)
}.
#[export] Instance DNSRecord_heap : ItemHeap DNSRecordM := {
  arrays := dns_arrays;
  with_arrays m a := MkMem (strs m) (maps m) (lbp_arrays m) a;
  zero := MkDNSRecordM (MkObjectMeta "" None) (MkDNSRecordSpecM "" "" 0 None)
}.

Section items.
Context {T : Type} `{!ItemHeap T}.

(** [make([]T, n)]. *)
Definition make_items (n : nat) : mem window := fun m =>
  let l := fresh (dom (arrays m)) in
  (Window l 0 n n, with_arrays m (<[l := replicate n zero]> (arrays m))).

Definition read_item (w : window) (i : nat) : mem T := fun m =>
  (default zero (default [] (arrays m !! w_array w) !! (w_off w + i)%nat), m).

Definition write_item (w : window) (i : nat) (x : T) : mem unit := fun m =>
  (tt, with_arrays m (alter (insert (w_off w + i)%nat x) (w_array w) (arrays m))).

(** [for i := range in.Items { in.Items[i].DeepCopyInto(&out.Items[i]) }] *)
Fixpoint copy_items (DeepCopyInto : T -> mem T) (inn out : window) (idx : list nat) : mem unit :=
  match idx with
  | [] => mret tt
  | i :: idx' =>
      x ← read_item inn i;
      y ← DeepCopyInto x;
      _ ← write_item out i y;
      copy_items DeepCopyInto inn out idx'
  end.

(** [DeepCopyInto] of a list type, of its Items. *)
Definition List_DeepCopyInto (DeepCopyInto : T -> mem T) (Items : slice) : mem slice :=
  match Items with
  | None => mret None
  | Some inn =>
      out ← make_items (w_len inn);
      _ ← copy_items DeepCopyInto inn out (seq 0 (w_len inn));
      mret (Some out)
  end.
End items.

Section lists.
Context (growslice : nat -> nat -> nat) (ObjectMeta_DeepCopyInto : ObjectMeta -> mem ObjectMeta).

Definition LBPortList_DeepCopyInto : slice -> mem slice :=
  List_DeepCopyInto (LBPort_DeepCopyInto growslice ObjectMeta_DeepCopyInto).
Definition DNSRecordList_DeepCopyInto : slice -> mem slice :=
  List_DeepCopyInto (DNSRecord_DeepCopyInto growslice ObjectMeta_DeepCopyInto).

(** A nil pointer is [None]. *)
Definition LBPortList_DeepCopy (inn : option slice) : mem (option slice) :=
  match inn with
  | None => mret None
  | Some Items => out ← LBPortList_DeepCopyInto Items; mret (Some out)
  end.
Definition DNSRecordList_DeepCopy (inn : option slice) : mem (option slice) :=
  match inn with
  | None => mret None
  | Some Items => out ← DNSRecordList_DeepCopyInto Items; mret (Some out)
  end.
End lists.

(** ** What the objects in memory stand for *)

Definition map_value (m : Mem) (r : option positive) : str_map := default ∅ (r ≫= fun l => maps m !! l).

Definition lbport_value (m : Mem) (x : LBPortM) : LBPort :=
  MkLBPort (om_Name (m_ObjectMeta x)) (map_value m (om_Labels (m_ObjectMeta x)))
    (MkLBPortSpec (m_Port (m_Spec x)) (m_Protocol (m_Spec x)) (elements (strs m) (m_Nodes (m_Spec x)))
       (m_Owner (m_Spec x)) (m_AllowPrivileged (m_Spec x)))
    (MkLBPortStatus (elements (strs m) (m_AppliedNodes (m_Status x)))).

Definition dnsrecord_value (m : Mem) (x : DNSRecordM) : DNSRecord :=
  MkDNSRecord (om_Name (d_ObjectMeta x)) (map_value m (om_Labels (d_ObjectMeta x)))
    (MkDNSRecordSpec (m_FQDN (d_Spec x)) (m_Type (d_Spec x)) (m_TTL (d_Spec x))
       (elements (strs m) (m_Targets (d_Spec x)))).

(** Every reference is to memory that is allocated. *)
Definition meta_ok (m : Mem) (o : ObjectMeta) : Prop :=
  match om_Labels o with Some l => is_Some (maps m !! l) | None => True end.
Definition lbport_ok (m : Mem) (x : LBPortM) : Prop :=
  meta_ok m (m_ObjectMeta x) /\ slice_ok (strs m) (m_Nodes (m_Spec x)) /\
  slice_ok (strs m) (m_AppliedNodes (m_Status x)).
Definition dnsrecord_ok (m : Mem) (x : DNSRecordM) : Prop :=
  meta_ok m (d_ObjectMeta x) /\ slice_ok (strs m) (m_Targets (d_Spec x)).

(** No reference is to memory that was allocated in [m]. *)
Definition meta_fresh (m : Mem) (o : ObjectMeta) : Prop :=
  match om_Labels o with Some l => maps m !! l = None | None => True end.
Definition lbport_fresh (m : Mem) (x : LBPortM) : Prop :=
  meta_fresh m (m_ObjectMeta x) /\ slice_fresh (strs m) (m_Nodes (m_Spec x)) /\
  slice_fresh (strs m) (m_AppliedNodes (m_Status x)).
Definition dnsrecord_fresh (m : Mem) (x : DNSRecordM) : Prop :=
  meta_fresh m (d_ObjectMeta x) /\ slice_fresh (strs m) (m_Targets (d_Spec x)).

(** A type of objects with its values, its references and its [DeepCopyInto]. *)
Record Copied {T V : Type} (value : Mem -> T -> V) (ok fresh : Mem -> T -> Prop)
    (c : T -> mem T) : Prop := {
  copied_extends : forall x m, ok m x -> extends m (snd (c x m));
  copied_value : forall x m, ok m x -> value (snd (c x m)) (fst (c x m)) = value m x;
  copied_ok : forall x m, ok m x -> ok (snd (c x m)) (fst (c x m));
  copied_fresh : forall x m, ok m x -> fresh m (fst (c x m))
}.

(** *** Values do not change when memory is allocated *)

Lemma elements_mono {A} (a a' : gmap positive (list A)) s : slice_ok a s -> a ⊆ a' -> elements a' s = elements a s.
Proof.
  destruct s as [w|]; [|done]. intros (l & Hl & _) Hsub. simpl. by rewrite Hl, (lookup_weaken _ _ _ _ Hl Hsub).
Qed.

Lemma slice_ok_mono {A} (a a' : gmap positive (list A)) s : slice_ok a s -> a ⊆ a' -> slice_ok a' s.
Proof.
  destruct s as [w|]; [|done]. intros (l & Hl & Hw) Hsub. exists l. split; [by eapply lookup_weaken|done].
Qed.

Lemma slice_fresh_mono {A} (a a' : gmap positive (list A)) s : slice_fresh a' s -> a ⊆ a' -> slice_fresh a s.
Proof. destruct s as [w|]; [|done]. simpl. intros Hf Hsub. by eapply lookup_weaken_None. Qed.

Lemma map_value_mono m m' r : match r with Some l => is_Some (maps m !! l) | None => True end ->
  extends m m' -> map_value m' r = map_value m r.
Proof.
  destruct r as [l|]; [|done]. intros [v Hv] He. unfold map_value. simpl.
  by rewrite Hv, (lookup_weaken _ _ _ _ Hv (extends_maps _ _ He)).
Qed.

Lemma lbport_value_mono m m' x : lbport_ok m x -> extends m m' -> lbport_value m' x = lbport_value m x.
Proof.
  intros (H1 & H2 & H3) He. unfold lbport_value. rewrite (map_value_mono m m') by done.
  by rewrite (elements_mono _ _ _ H2 (extends_strs _ _ He)), (elements_mono _ _ _ H3 (extends_strs _ _ He)).
Qed.

Lemma dnsrecord_value_mono m m' x : dnsrecord_ok m x -> extends m m' -> dnsrecord_value m' x = dnsrecord_value m x.
Proof.
  intros (H1 & H2) He. unfold dnsrecord_value. rewrite (map_value_mono m m') by done.
  by rewrite (elements_mono _ _ _ H2 (extends_strs _ _ He)).
Qed.

Lemma meta_ok_mono m m' o : meta_ok m o -> extends m m' -> meta_ok m' o.
Proof.
  unfold meta_ok. destruct (om_Labels o); [|done]. intros [v Hv] He. exists v.
  exact (lookup_weaken _ _ _ _ Hv (extends_maps _ _ He)).
Qed.

Lemma meta_fresh_mono m m' o : meta_fresh m' o -> extends m m' -> meta_fresh m o.
Proof.
  unfold meta_fresh. destruct (om_Labels o); [|done]. intros Hf He.
  exact (lookup_weaken_None _ _ _ Hf (extends_maps _ _ He)).
Qed.

(** ** Writing into memory of one's own *)

(** [s] is all right and was allocated since [m0], of which nothing has changed. *)
Definition private (m0 m : Mem) (s : slice) : Prop :=
  extends m0 m /\ slice_ok (strs m) s /\ slice_fresh (strs m0) s.

Lemma extends_insert m0 m l a : extends m0 m -> strs m0 !! l = None -> extends m0 (with_strs m (<[l := a]> (strs m))).
Proof. intros [] Hl. constructor; simpl; try done. by apply insert_subseteq_r. Qed.

Lemma extends_alter m0 m l f : extends m0 m -> strs m0 !! l = None -> extends m0 (with_strs m (alter f l (strs m))).
Proof.
  intros [] Hl. constructor; simpl; try done. apply map_subseteq_spec. intros l' a Ha.
  rewrite lookup_alter_ne by congruence. by eapply lookup_weaken.
Qed.

Lemma fresh_array {A} (a : gmap positive A) : a !! fresh (dom a) = None.
Proof. apply not_elem_of_dom. apply is_fresh. Qed.

Lemma private_fresh m0 m : extends m0 m -> strs m0 !! fresh (dom (strs m)) = None.
Proof. intros He. eapply lookup_weaken_None; [apply fresh_array|by apply extends_strs]. Qed.

Lemma make_strings_private m0 m cap : extends m0 m ->
  let '(s, m') := make_strings cap m in private m0 m' s /\ elements (strs m') s = [] /\ extends m m'.
Proof.
  intros He. simpl. set (l := fresh _). split; [split_and!|split].
  - apply extends_insert; [done|]. by apply private_fresh.
  - eexists. simpl. rewrite lookup_insert_eq. split; [done|]. unfold window_in. simpl. rewrite length_replicate. lia.
  - simpl. by apply private_fresh.
  - simpl. by rewrite lookup_insert_eq.
  - apply extends_insert; [done|]. apply fresh_array.
Qed.

Section append.
Context (growslice : nat -> nat -> nat) (growslice_enough : forall cap n, (n <= growslice cap n)%nat).

Lemma window_inserts w (a : list string) xs : window_in w a -> (w_len w + length xs <= w_cap w)%nat ->
  window_of (Window (w_array w) (w_off w) (w_len w + length xs) (w_cap w))
    (list_inserts (w_off w + w_len w) xs a) = window_of w a ++ xs.
Proof.
  intros [H1 H2] H3. unfold window_of. simpl. apply list_eq. intros i.
  destruct (decide (i < w_len w + length xs)%nat) as [Hi|Hi].
  2: { rewrite !lookup_ge_None_2; [done| |]; rewrite ?length_app, ?length_take, ?length_drop, ?length_inserts; lia. }
  rewrite lookup_take_lt, lookup_drop by done. destruct (decide (i < w_len w)%nat) as [Hlt|Hge].
  - rewrite list_lookup_inserts_lt by lia. rewrite lookup_app_l by (rewrite length_take, length_drop; lia).
    by rewrite lookup_take_lt, lookup_drop by done.
  - rewrite list_lookup_inserts by lia. rewrite lookup_app_r by (rewrite length_take, length_drop; lia).
    f_equal. rewrite length_take, length_drop. lia.
Qed.

Lemma append_private m0 m s xs : private m0 m s ->
  let '(s', m') := append growslice s xs m in
  private m0 m' s' /\ elements (strs m') s' = elements (strs m) s ++ xs.
Proof.
  intros (He & Hok & Hf). unfold append. case_decide as Hn.
  - destruct s as [w|]; simpl in *.
    + destruct Hok as (a & Ha & Hw). split; [split_and!|].
      * by apply extends_alter.
      * simpl. rewrite lookup_alter_eq, Ha. simpl. eexists. split; [done|].
        unfold window_in in *. simpl. rewrite length_inserts. lia.
      * done.
      * rewrite lookup_alter_eq, Ha. simpl. by apply window_inserts.
    + split; [done|]. by destruct xs; [|simpl in Hn; lia].
  - set (l := fresh _). set (n := (slice_len s + length xs)%nat).
    assert (length (elements (strs m) s) = slice_len s) as Hlen.
    { destruct s as [w|]; [|done]. destruct Hok as (a & Ha & Hw). simpl. rewrite Ha. unfold window_of, window_in in *.
      simpl. rewrite length_take, length_drop. lia. }
    pose proof (growslice_enough (slice_cap s) n) as Hg. split; [split_and!|].
    + apply extends_insert; [done|]. by apply private_fresh.
    + eexists. simpl. rewrite lookup_insert_eq. split; [done|]. unfold window_in. simpl.
      rewrite !length_app, length_replicate. lia.
    + simpl. by apply private_fresh.
    + simpl. rewrite lookup_insert_eq. unfold window_of. simpl. rewrite drop_0, app_assoc.
      apply take_app_length'. rewrite length_app. unfold n. lia.
Qed.

Lemma sort_private m0 m s : private m0 m s ->
  let '(_, m') := sort_Strings s m in
  private m0 m' s /\ elements (strs m') s = sort_strings (elements (strs m) s).
Proof.
  intros (He & Hok & Hf). destruct s as [w|]; simpl in *; [|done].
  destruct Hok as (a & Ha & Hw). rewrite lookup_alter_eq, Ha. simpl.
  set (ys := sort_strings (window_of w a)).
  assert (length ys = w_len w) as Hlen.
  { unfold ys. rewrite sort_strings_perm. unfold window_of, window_in in *. rewrite length_take, length_drop. lia. }
  split; [split_and!|].
  - by apply extends_alter.
  - simpl. rewrite lookup_alter_eq, Ha. eexists. split; [done|]. unfold window_in in *. rewrite length_inserts. lia.
  - done.
  - apply list_eq. intros i. unfold window_of in *. destruct (decide (i < w_len w)%nat) as [Hi|Hi].
    + rewrite lookup_take_lt, lookup_drop by done. unfold window_in in Hw.
      rewrite list_lookup_inserts by lia. f_equal. lia.
    + rewrite !lookup_ge_None_2; [done|lia|]. rewrite length_take, length_drop, length_inserts. lia.
Qed.
End append.

(** ** The copies *)

Definition meta_value (m : Mem) (o : ObjectMeta) : string * str_map := (om_Name o, map_value m (om_Labels o)).

Section copies.
Context (growslice : nat -> nat -> nat) (growslice_enough : forall cap n, (n <= growslice cap n)%nat).
Context (ObjectMeta_DeepCopyInto : ObjectMeta -> mem ObjectMeta).
Context (Hmeta : Copied meta_value meta_ok meta_fresh ObjectMeta_DeepCopyInto).

(** What the two [DeepCopy]s of a struct with a slice do with the slice. *)
Definition copy_slice (s : slice) : mem slice :=
  match s with
  | None => mret None
  | Some _ => xs ← read_strings s; append growslice None xs
  end.

Lemma copy_slice_private m0 m s : extends m0 m -> slice_ok (strs m) s ->
  private m0 (snd (copy_slice s m)) (fst (copy_slice s m)) /\
  elements (strs (snd (copy_slice s m))) (fst (copy_slice s m)) = elements (strs m) s /\
  extends m (snd (copy_slice s m)).
Proof.
  intros He Hok. destruct s as [w|]; [|done].
  set (xs := elements (strs m) (Some w)). change (copy_slice (Some w) m) with (append growslice None xs m).
  pose proof (append_private growslice growslice_enough m0 m None xs ltac:(done)) as H1.
  pose proof (append_private growslice growslice_enough m m None xs ltac:(done)) as H2.
  destruct (append growslice None xs m) as [s' m']. destruct H1 as [H1 H3], H2 as [(H2 & _) _].
  split_and!; [done|exact H3|done].
Qed.

Lemma spec_copy x m : LBPortSpec_DeepCopy growslice x m =
  let '(nodes, m') := copy_slice (m_Nodes x) m in
  (MkLBPortSpecM (m_Port x) (m_Protocol x) nodes (m_Owner x) (m_AllowPrivileged x), m').
Proof. by destruct x as [? ? [w|] ? ?]. Qed.

Lemma status_copy x m : LBPortStatus_DeepCopy growslice x m =
  let '(nodes, m') := copy_slice (m_AppliedNodes x) m in (MkLBPortStatusM nodes, m').
Proof. by destruct x as [[w|]]. Qed.

Lemma record_copy x m : DNSRecordSpec_DeepCopy growslice x m =
  let '(targets, m') := copy_slice (m_Targets x) m in
  (MkDNSRecordSpecM (m_FQDN x) (m_Type x) (m_TTL x) targets, m').
Proof. by destruct x as [? ? ? [w|]]. Qed.

(** The copy of an LBPort, with the memory before its status was copied. *)
Lemma LBPort_copied x m : lbport_ok m x ->
  let '(y, m2) := LBPort_DeepCopyInto growslice ObjectMeta_DeepCopyInto x m in
  exists m1, extends m m1 /\ private m1 m2 (m_AppliedNodes (m_Status y)) /\
    lbport_value m2 y = lbport_value m x /\ lbport_ok m2 y /\ lbport_fresh m y /\
    meta_ok m1 (m_ObjectMeta y) /\ slice_ok (strs m1) (m_Nodes (m_Spec y)).
Proof.
  intros (H1 & H2 & H3). unfold LBPort_DeepCopyInto, mbind, mem_bind, mret, mem_ret.
  pose proof (copied_extends _ _ _ _ Hmeta _ m H1) as He0. pose proof (copied_value _ _ _ _ Hmeta _ m H1) as Hv0.
  pose proof (copied_ok _ _ _ _ Hmeta _ m H1) as Ho0. pose proof (copied_fresh _ _ _ _ Hmeta _ m H1) as Hf0.
  destruct (ObjectMeta_DeepCopyInto (m_ObjectMeta x) m) as [meta m0]. simpl in *.
  pose proof (slice_ok_mono _ _ _ H2 (extends_strs _ _ He0)) as H2'.
  destruct (copy_slice_private m m0 _ He0 H2') as ((He1 & Hok1 & Hf1) & Hel1 & He01).
  rewrite spec_copy. destruct (copy_slice (m_Nodes (m_Spec x)) m0) as [nodes m1]. simpl in *.
  pose proof (slice_ok_mono _ _ _ H3 (extends_strs _ _ He1)) as H3'.
  destruct (copy_slice_private m1 m1 _ (reflexivity _) H3') as (Hp2 & Hel2 & He2).
  rewrite status_copy. destruct (copy_slice (m_AppliedNodes (m_Status x)) m1) as [applied m2]. simpl in *.
  exists m1. split_and!; simpl; try done.
  - unfold lbport_value. simpl. injection Hv0 as Hn Hl.
    rewrite Hn, Hel2, (elements_mono _ _ _ Hok1 (extends_strs _ _ He2)), Hel1.
    rewrite (elements_mono _ _ _ H2 (extends_strs _ _ He0)), (elements_mono _ _ _ H3 (extends_strs _ _ He1)).
    rewrite (map_value_mono m0 m2), Hl; [done|exact Ho0|by etrans].
  - split_and!; simpl.
    + eapply meta_ok_mono; [exact Ho0|by etrans].
    + eapply slice_ok_mono; [exact Hok1|by apply extends_strs].
    + apply Hp2.
  - split_and!; simpl; [done|done|]. destruct Hp2 as (_ & _ & Hf). eapply slice_fresh_mono; [exact Hf|by apply extends_strs].
  - by eapply meta_ok_mono.
Qed.

Lemma LBPort_Copied : Copied lbport_value lbport_ok lbport_fresh (LBPort_DeepCopyInto growslice ObjectMeta_DeepCopyInto).
Proof.
  constructor; intros x m Hok; pose proof (LBPort_copied x m Hok) as H;
    destruct (LBPort_DeepCopyInto _ _ x m) as [y m2]; destruct H as (m1 & H1 & (H2 & _) & H3 & H4 & H5 & _); try done.
  by etrans.
Qed.

Lemma DNSRecord_Copied : Copied dnsrecord_value dnsrecord_ok dnsrecord_fresh (DNSRecord_DeepCopyInto growslice ObjectMeta_DeepCopyInto).
Proof.
  assert (forall x m, dnsrecord_ok m x ->
    let '(y, m1) := DNSRecord_DeepCopyInto growslice ObjectMeta_DeepCopyInto x m in
    extends m m1 /\ dnsrecord_value m1 y = dnsrecord_value m x /\ dnsrecord_ok m1 y /\ dnsrecord_fresh m y) as Hcopy.
  { intros x m (H1 & H2). unfold DNSRecord_DeepCopyInto, mbind, mem_bind, mret, mem_ret.
    pose proof (copied_extends _ _ _ _ Hmeta _ m H1) as He0. pose proof (copied_value _ _ _ _ Hmeta _ m H1) as Hv0.
    pose proof (copied_ok _ _ _ _ Hmeta _ m H1) as Ho0. pose proof (copied_fresh _ _ _ _ Hmeta _ m H1) as Hf0.
    destruct (ObjectMeta_DeepCopyInto (d_ObjectMeta x) m) as [meta m0]. simpl in *.
    pose proof (slice_ok_mono _ _ _ H2 (extends_strs _ _ He0)) as H2'.
    destruct (copy_slice_private m m0 _ He0 H2') as ((He1 & Hok1 & Hf1) & Hel1 & He01).
    rewrite record_copy. destruct (copy_slice (m_Targets (d_Spec x)) m0) as [targets m1]. simpl in *.
    split_and!; [done| |split; [by eapply meta_ok_mono|done]|done].
    unfold dnsrecord_value. simpl. injection Hv0 as Hn Hl.
    rewrite Hn, Hel1, (elements_mono _ _ _ H2 (extends_strs _ _ He0)), (map_value_mono m0 m1), Hl; done. }
  constructor; intros x m Hok; pose proof (Hcopy x m Hok) as H;
    destruct (DNSRecord_DeepCopyInto _ _ x m) as [y m1]; tauto.
Qed.
End copies.

(** *** Lists *)

Section lists.
Context {T V : Type} `{!ItemHeap T} (value : Mem -> T -> V) (ok fresh : Mem -> T -> Prop) (c : T -> mem T).
Context (Hc : Copied value ok fresh c).
Context (value_mono : forall m m' x, ok m x -> extends m m' -> value m' x = value m x).
Context (ok_mono : forall m m' x, ok m x -> extends m m' -> ok m' x).
Context (fresh_mono : forall m m' x, fresh m' x -> extends m m' -> fresh m x).
Context (arrays_mono : forall m m', extends m m' -> arrays m ⊆ arrays m').
Context (arrays_with : forall m a, arrays (with_arrays m a) = a).
Context (extends_with : forall m0 m a, extends m0 m -> arrays m0 ⊆ a -> extends m0 (with_arrays m a)).
Context (value_with : forall m a x, value (with_arrays m a) x = value m x).
Context (ok_with : forall m a x, ok m x -> ok (with_arrays m a) x).

Definition list_value (m : Mem) (s : slice) : list V := value m <$> elements (arrays m) s.
Definition list_ok (m : Mem) (s : slice) : Prop :=
  slice_ok (arrays m) s /\ Forall (ok m) (elements (arrays m) s).
Definition list_fresh (m : Mem) (ys : list T) (s : slice) : Prop :=
  slice_fresh (arrays m) s /\ Forall (fresh m) ys.

(** The state of the loop: the items [ys] are copied into the array [l], [k] are not. *)
Definition copying (m0 m : Mem) (l : positive) (ys : list T) (k : nat) : Prop :=
  extends m0 m /\ arrays m0 !! l = None /\ arrays m !! l = Some (ys ++ replicate k zero) /\
  Forall (ok m) ys /\ Forall (fresh m0) ys.

Lemma elements_lookup (m : Mem) w array i : arrays m !! w_array w = Some array -> window_in w array -> (i < w_len w)%nat ->
  exists x, elements (arrays m) (Some w) !! i = Some x /\ array !! (w_off w + i)%nat = Some x.
Proof.
  intros Ha [H1 H2] Hi. simpl. rewrite Ha. simpl. unfold window_of. rewrite lookup_take_lt, lookup_drop by done.
  destruct (lookup_lt_is_Some_2 array (w_off w + i)) as [x Hx]; [lia|]. by exists x.
Qed.

Lemma copy_items_step m0 m inn l ys k n :
  list_ok m0 (Some inn) -> copying m0 m l ys (S k) -> (length ys < w_len inn)%nat ->
  exists x y m1,
    read_item inn (length ys) m = (x, m) /\ c x m = (y, m1) /\
    elements (arrays m0) (Some inn) !! length ys = Some x /\ value m1 y = value m0 x /\
    copying m0 (snd (write_item (Window l 0 n n) (length ys) y m1)) l (ys ++ [y]) k /\
    extends m m1.
Proof.
  intros [(array & Ha & Hw) Hall] (He & Hl0 & Hl & Hys & Hfy) Hlt.
  destruct (elements_lookup m0 inn array (length ys) Ha Hw Hlt) as (x & Hx & Hxa).
  assert (ok m0 x) as Hokx by (rewrite Forall_forall in Hall; eapply Hall, list_elem_of_lookup_2, Hx).
  pose proof (ok_mono m0 m x Hokx He) as Hokm.
  pose proof (copied_extends _ _ _ _ Hc x m Hokm) as H1. pose proof (copied_value _ _ _ _ Hc x m Hokm) as H2.
  pose proof (copied_ok _ _ _ _ Hc x m Hokm) as H3. pose proof (copied_fresh _ _ _ _ Hc x m Hokm) as H4.
  destruct (c x m) as [y m1] eqn:Hcx. simpl in *. exists x, y, m1. split_and!; try done.
  - unfold read_item. by rewrite (lookup_weaken _ _ _ _ Ha (arrays_mono _ _ He)); simpl; rewrite Hxa.
  - rewrite H2. by apply value_mono.
  - unfold copying. rewrite arrays_with, lookup_alter_eq.
    rewrite (lookup_weaken _ _ _ _ Hl (arrays_mono _ _ H1)). simpl. split_and!.
    + apply extends_with; [by etrans|]. apply map_subseteq_spec. intros l' a' Ha'.
      rewrite lookup_alter_ne by congruence. eapply lookup_weaken; [exact Ha'|]. apply arrays_mono. by etrans.
    + done.
    + f_equal. rewrite insert_app_r_alt by done. by rewrite Nat.sub_diag, <-app_assoc.
    + apply Forall_app. split; [|apply Forall_singleton; by apply ok_with].
      eapply Forall_impl; [exact Hys|]. intros z Hz. apply ok_with. by eapply ok_mono.
    + apply Forall_app. split; [done|]. apply Forall_singleton. by eapply fresh_mono.
Qed.

Lemma copy_items_all m0 inn l n k : forall m ys,
  list_ok m0 (Some inn) -> copying m0 m l ys k -> (length ys + k = w_len inn)%nat ->
  value m <$> ys = take (length ys) (list_value m0 (Some inn)) ->
  let m' := snd (copy_items c inn (Window l 0 n n) (seq (length ys) k) m) in
  exists ys', copying m0 m' l ys' 0 /\ value m' <$> ys' = list_value m0 (Some inn).
Proof.
  induction k as [|k IH]; intros m ys Hok Hcop Hlen Hval; simpl.
  - exists ys. split; [done|]. rewrite Hval. apply take_ge. unfold list_value. rewrite length_fmap.
    destruct Hok as [(array & Ha & Hw) _]. simpl. rewrite Ha. unfold window_of. simpl. rewrite length_take. lia.
  - destruct (copy_items_step m0 m inn l ys k n Hok Hcop ltac:(lia)) as (x & y & m1 & Hr & Hcx & Hx & Hy & Hcop' & He).
    unfold mbind, mem_bind. rewrite Hr, Hcx. simpl in Hcop'. unfold write_item.
    replace (S (length ys)) with (length (ys ++ [y])) by (rewrite length_app; simpl; lia).
    apply IH; [done|done|rewrite length_app; simpl; lia|].
    rewrite length_app, fmap_app, Nat.add_1_r. simpl.
    assert (list_value m0 (Some inn) !! length ys = Some (value m0 x)) as Hxv.
    { unfold list_value. by rewrite list_lookup_fmap, Hx. }
    rewrite (take_S_r _ _ _ Hxv), <-Hval, value_with, Hy. f_equal. apply list_fmap_ext.
    intros i z Hz. rewrite value_with. apply value_mono; [|done]. destruct Hcop as (_ & _ & _ & Hys & _).
    rewrite Forall_forall in Hys. by eapply Hys, list_elem_of_lookup_2.
Qed.

Lemma List_copied Items m : list_ok m Items ->
  let '(out, m') := List_DeepCopyInto c Items m in
  extends m m' /\ list_value m' out = list_value m Items /\ list_ok m' out /\
  list_fresh m (elements (arrays m') out) out.
Proof.
  intros Hok. destruct Items as [inn|]; simpl.
  2: { split; [done|]. split; [done|]. split; [done|]. split; [done|]. simpl. constructor. }
  unfold mbind, mem_bind, mret, mem_ret, make_items. set (l := base.fresh (dom (arrays m))). set (n := w_len inn).
  set (m1 := with_arrays m (<[l := replicate n zero]> (arrays m))).
  assert (arrays m !! l = None) as Hl by apply fresh_array.
  assert (copying m m1 l [] n) as Hcop.
  { unfold copying, m1. rewrite arrays_with, lookup_insert_eq. split_and!; try done.
    apply extends_with; [done|]. by apply insert_subseteq. }
  destruct (copy_items_all m inn l n n m1 [] Hok Hcop eq_refl eq_refl) as (ys & (He & _ & Hl' & Hys & Hfy) & Hval).
  change (length (@nil T)) with 0%nat in *. destruct (copy_items c inn (Window l 0 n n) (seq 0 n) m1) as [[] m2].
  simpl in *. rewrite app_nil_r in Hl'. unfold list_value, list_ok, list_fresh. simpl. rewrite Hl'. simpl.
  assert (length ys = n) as Hlen.
  { apply (f_equal length) in Hval. unfold list_value in Hval. rewrite !length_fmap in Hval. rewrite Hval.
    destruct Hok as [(array & Ha & Hw) _]. simpl. rewrite Ha. unfold window_of, window_in in *. simpl.
    rewrite length_take, length_drop. lia. }
  assert (window_of (Window l 0 n n) ys = ys) as ->.
  { unfold window_of. simpl. rewrite drop_0. apply take_ge. lia. }
  split_and!; try done. exists ys. split; [done|]. unfold window_in. simpl. lia.
Qed.
End lists.

(** ** Copies are separate *)

(** [m''] is [m'] but for memory that was allocated in [m]. *)
Record same_beyond (m m' m'' : Mem) : Prop := {
  beyond_strs : forall l, strs m !! l = None -> strs m'' !! l = strs m' !! l;
  beyond_maps : forall l, maps m !! l = None -> maps m'' !! l = maps m' !! l;
  beyond_lbps : forall l, lbp_arrays m !! l = None -> lbp_arrays m'' !! l = lbp_arrays m' !! l;
  beyond_dnss : forall l, dns_arrays m !! l = None -> dns_arrays m'' !! l = dns_arrays m' !! l
}.

(** [c] makes a copy with the same value; the value of the original stays what it is as
    long as nothing is written to the memory there was, and the value of the copy as
    long as nothing is written to the memory that has been allocated since. *)
Definition separate {T V} (value : Mem -> T -> V) (ok : Mem -> T -> Prop) (c : T -> mem T) : Prop :=
  forall x m, ok m x ->
  let '(y, m') := c x m in
  ok m' y /\ value m' y = value m x /\ extends m m' /\
  (forall m'', extends m m'' -> value m'' x = value m x) /\
  (forall m'', same_beyond m m' m'' -> value m'' y = value m x).

Lemma elements_beyond {A} (a a' a'' : gmap positive (list A)) s :
  (forall l, a !! l = None -> a'' !! l = a' !! l) -> slice_fresh a s -> elements a'' s = elements a' s.
Proof. intros H. destruct s as [w|]; [|done]. simpl. intros Hl. by rewrite (H _ Hl). Qed.

Lemma map_value_beyond m m' m'' o : same_beyond m m' m'' -> meta_fresh m o ->
  map_value m'' (om_Labels o) = map_value m' (om_Labels o).
Proof.
  unfold meta_fresh, map_value. destruct (om_Labels o) as [l|]; [|done]. intros H Hl. simpl.
  by rewrite (beyond_maps _ _ _ H l Hl).
Qed.

Lemma lbport_value_beyond m m' m'' x : same_beyond m m' m'' -> lbport_fresh m x -> lbport_value m'' x = lbport_value m' x.
Proof.
  intros Hb (H1 & H2 & H3). unfold lbport_value. rewrite (map_value_beyond m m' m'' _ Hb H1).
  by rewrite !(elements_beyond _ _ _ _ (beyond_strs _ _ _ Hb)).
Qed.

Lemma dnsrecord_value_beyond m m' m'' x : same_beyond m m' m'' -> dnsrecord_fresh m x ->
  dnsrecord_value m'' x = dnsrecord_value m' x.
Proof.
  intros Hb (H1 & H2). unfold dnsrecord_value. rewrite (map_value_beyond m m' m'' _ Hb H1).
  by rewrite (elements_beyond _ _ _ _ (beyond_strs _ _ _ Hb)).
Qed.

Lemma copied_separate {T V} (value : Mem -> T -> V) ok fresh c : Copied value ok fresh c ->
  (forall m m' x, ok m x -> extends m m' -> value m' x = value m x) ->
  (forall m m' m'' x, same_beyond m m' m'' -> fresh m x -> value m'' x = value m' x) ->
  separate value ok c.
Proof.
  intros Hc Hmono Hbeyond x m Hok. pose proof (copied_extends _ _ _ _ Hc x m Hok) as H1.
  pose proof (copied_value _ _ _ _ Hc x m Hok) as H2. pose proof (copied_ok _ _ _ _ Hc x m Hok) as H3.
  pose proof (copied_fresh _ _ _ _ Hc x m Hok) as H4. destruct (c x m) as [y m']. simpl in *. split_and!; [done..| |].
  - intros m'' He. by apply Hmono.
  - intros m'' Hb. by rewrite (Hbeyond m m' m'' y Hb H4).
Qed.

Lemma lbport_ok_mono m m' x : lbport_ok m x -> extends m m' -> lbport_ok m' x.
Proof.
  intros (H1 & H2 & H3) He. split_and!; [by eapply meta_ok_mono|..]; eapply slice_ok_mono; try done; apply He.
Qed.

Lemma lbport_fresh_mono m m' x : lbport_fresh m' x -> extends m m' -> lbport_fresh m x.
Proof.
  intros (H1 & H2 & H3) He. split_and!; [by eapply meta_fresh_mono|..]; eapply slice_fresh_mono; try done; apply He.
Qed.

Lemma dnsrecord_ok_mono m m' x : dnsrecord_ok m x -> extends m m' -> dnsrecord_ok m' x.
Proof. intros (H1 & H2) He. split; [by eapply meta_ok_mono|]. eapply slice_ok_mono; [done|apply He]. Qed.

Lemma dnsrecord_fresh_mono m m' x : dnsrecord_fresh m' x -> extends m m' -> dnsrecord_fresh m x.
Proof. intros (H1 & H2) He. split; [by eapply meta_fresh_mono|]. eapply slice_fresh_mono; [done|apply He]. Qed.

Section separation.
Context (growslice : nat -> nat -> nat) (growslice_enough : forall cap n, (n <= growslice cap n)%nat).
Context (ObjectMeta_DeepCopyInto : ObjectMeta -> mem ObjectMeta).
Context (Hmeta : Copied meta_value meta_ok meta_fresh ObjectMeta_DeepCopyInto).

Lemma lists_separate {T V} `{!ItemHeap T} (value : Mem -> T -> V) ok fresh c :
  (forall Items m, list_ok ok m Items -> let '(out, m') := List_DeepCopyInto c Items m in
     extends m m' /\ list_value value m' out = list_value value m Items /\ list_ok ok m' out /\
     list_fresh fresh m (elements (arrays m') out) out) ->
  (forall m m' x, ok m x -> extends m m' -> value m' x = value m x) ->
  (forall m m' m'' x, same_beyond m m' m'' -> fresh m x -> value m'' x = value m' x) ->
  (forall m m', extends m m' -> arrays m ⊆ arrays m') ->
  (forall m m' m'' l, same_beyond m m' m'' -> arrays m !! l = None -> arrays m'' !! l = arrays m' !! l) ->
  separate (list_value value) (list_ok ok) (List_DeepCopyInto c).
Proof.
  intros Hc Hmono Hbeyond Harr Hab Items m Hok. specialize (Hc Items m Hok). destruct (List_DeepCopyInto c Items m) as [out m'].
  destruct Hc as (H1 & H2 & H3 & H4 & H5). split_and!; [done..| |].
  - intros m'' He. unfold list_value. destruct Hok as [Hs Hall].
    rewrite (elements_mono _ _ _ Hs (Harr _ _ He)). apply list_fmap_ext. intros i x Hx. apply Hmono; [|done].
    rewrite Forall_forall in Hall. by eapply Hall, list_elem_of_lookup_2.
  - intros m'' Hb. rewrite <-H2. unfold list_value. rewrite (elements_beyond _ _ _ _ (fun l => Hab m m' m'' l Hb) H4).
    apply list_fmap_ext. intros i x Hx. apply (Hbeyond m m' m''); [done|].
    rewrite Forall_forall in H5. by eapply H5, list_elem_of_lookup_2.
Qed.

(** C13: The DeepCopy methods of the API types make copies that share no memory with the
    original, however append grows its arrays: the copy has the value of the
    original, writing to it never changes the original, and writing to the original
    never changes it. So for LBPorts and DNSRecords, and for lists of them. *)
Theorem DeepCopy_separate :
  let lbport := LBPort_DeepCopyInto growslice ObjectMeta_DeepCopyInto in
  let record := DNSRecord_DeepCopyInto growslice ObjectMeta_DeepCopyInto in
  separate lbport_value lbport_ok lbport /\
  separate (list_value lbport_value) (list_ok lbport_ok) (LBPortList_DeepCopyInto growslice ObjectMeta_DeepCopyInto) /\
  separate dnsrecord_value dnsrecord_ok record /\
  separate (list_value dnsrecord_value) (list_ok dnsrecord_ok) (DNSRecordList_DeepCopyInto growslice ObjectMeta_DeepCopyInto).
Proof.
  intros lbport record.
  pose proof (LBPort_Copied growslice growslice_enough _ Hmeta) as H1.
  pose proof (DNSRecord_Copied growslice growslice_enough _ Hmeta) as H2. split_and!.
  - eapply copied_separate; [exact H1|apply lbport_value_mono|apply lbport_value_beyond].
  - eapply lists_separate; [|apply lbport_value_mono|apply lbport_value_beyond|by intros ?? []|].
    2: { intros m m' m'' l Hb. exact (beyond_lbps _ _ _ Hb l). }
    apply List_copied; try done; eauto using lbport_value_mono, lbport_ok_mono, lbport_fresh_mono; [by intros ?? []|].
    intros m0 m a [] ?. by constructor.
  - eapply copied_separate; [exact H2|apply dnsrecord_value_mono|apply dnsrecord_value_beyond].
  - eapply lists_separate; [|apply dnsrecord_value_mono|apply dnsrecord_value_beyond|by intros ?? []|].
    2: { intros m m' m'' l Hb. exact (beyond_dnss _ _ _ Hb l). }
    apply List_copied; try done; eauto using dnsrecord_value_mono, dnsrecord_ok_mono, dnsrecord_fresh_mono; [by intros ?? []|].
    intros m0 m a [] ?. by constructor.
Qed.

(** ** The status updates *)

Lemma with_nodes_value m1 m2 y nodes : meta_ok m1 (m_ObjectMeta y) -> slice_ok (strs m1) (m_Nodes (m_Spec y)) ->
  extends m1 m2 ->
  lbport_value m2 (with_nodes nodes y) = with_applied (elements (strs m2) nodes) (lbport_value m1 y).
Proof.
  intros H1 H2 He. unfold lbport_value, with_applied. simpl.
  by rewrite (map_value_mono m1 m2), (elements_mono _ _ _ H2 (extends_strs _ _ He)).
Qed.

Lemma append_others_private m0 node names : forall m s, private m0 m s ->
  let '(s', m') := append_others growslice node names s m in
  private m0 m' s' /\ elements (strs m') s' = elements (strs m) s ++ filter (fun n => n <> node) names.
Proof.
  induction names as [|n names IH]; intros m s Hp; simpl.
  { unfold mret, mem_ret. by rewrite filter_nil, app_nil_r. }
  case_bool_decide as Hn; simpl.
  - rewrite filter_cons_False by (intros H; by apply H). by apply IH.
  - rewrite filter_cons_True by done. unfold mbind, mem_bind.
    pose proof (append_private growslice growslice_enough m0 m s [n] Hp) as H1.
    destruct (append growslice s [n] m) as [s1 m1]. destruct H1 as [Hp1 He1]. specialize (IH m1 s1 Hp1).
    destruct (append_others growslice node names s1 m1) as [s2 m2]. destruct IH as [Hp2 He2].
    split; [done|]. by rewrite He2, He1, <-app_assoc.
Qed.

(** C14: The agent may change the object it got from the client's cache in place, as
    ensureNodeInStatus and ensureNodeNotInStatus do with append and sort.Strings: the
    object to be sent has exactly the value the model of the agent gives it, and
    nothing that was in memory before has changed, neither the cached object nor any
    other. *)
Theorem status_updates_leave_cache (node : string) (cached : LBPortM) (m : Mem) (Hok : lbport_ok m cached) :
  let v := lbport_value m cached in
  let '(x, m1) := add_node growslice ObjectMeta_DeepCopyInto node cached m in
  let '(y, m2) := remove_node growslice ObjectMeta_DeepCopyInto node cached m in
  lbport_value m1 x = with_applied (sort_strings (AppliedNodes (lbp_Status v) ++ [node])) v /\
  lbport_value m2 y = with_applied (filter (fun n => n <> node) (AppliedNodes (lbp_Status v))) v /\
  extends m m1 /\ extends m m2 /\ lbport_value m1 cached = v /\ lbport_value m2 cached = v.
Proof.
  intros v. pose proof (LBPort_copied growslice growslice_enough _ Hmeta cached m Hok) as Hcopy.
  unfold add_node, remove_node, mbind, mem_bind, mret, mem_ret.
  destruct (LBPort_DeepCopyInto growslice ObjectMeta_DeepCopyInto cached m) as [y m0].
  destruct Hcopy as (m1 & He & Hp & Hv & Hoky & _ & Hm1 & Hs1).
  assert (lbport_value m1 (with_nodes None y) = with_applied [] v) as Hbase.
  { pose proof (with_nodes_value m1 m0 y None Hm1 Hs1 (proj1 Hp)) as H1.
    pose proof (with_nodes_value m1 m1 y None Hm1 Hs1 (reflexivity _)) as H2. rewrite H2.
    etrans; [symmetry; exact H1|]. change (with_applied [] (lbport_value m0 y) = with_applied [] v). by rewrite Hv. }
  assert (elements (strs m0) (m_AppliedNodes (m_Status y)) = AppliedNodes (lbp_Status v)) as Hnodes.
  { apply (f_equal (fun l => AppliedNodes (lbp_Status l))) in Hv. exact Hv. }
  assert (forall m2 s, private m1 m2 s -> lbport_value m2 (with_nodes s y) = with_applied (elements (strs m2) s) v) as Hres.
  { intros m2 s (He2 & _). rewrite (with_nodes_value m1 m2 y s Hm1 Hs1 He2).
    change (with_applied (elements (strs m2) s) (with_applied [] (lbport_value m1 y)) = with_applied (elements (strs m2) s) v).
    assert (with_applied [] (lbport_value m1 y) = with_applied [] v) as ->; [|done].
    rewrite <-Hbase. symmetry. exact (with_nodes_value m1 m1 y None Hm1 Hs1 (reflexivity _)). }
  pose proof (append_private growslice growslice_enough m1 m0 _ [node] Hp) as Happ.
  destruct (append growslice _ [node] m0) as [s1 m2]. destruct Happ as [Hp1 Hel1].
  pose proof (sort_private m1 m2 s1 Hp1) as Hsort. destruct (sort_Strings s1 m2) as [[] m3]. destruct Hsort as [Hp2 Hel2].
  pose proof (make_strings_private m1 m0 (slice_len (m_AppliedNodes (m_Status y))) (proj1 Hp)) as Hmake.
  destruct (make_strings _ m0) as [s4 m4]. destruct Hmake as (Hp4 & Hel4 & He4). unfold read_strings.
  pose proof (append_others_private m1 node (elements (strs m4) (m_AppliedNodes (m_Status y))) m4 s4 Hp4) as Hrem.
  destruct (append_others growslice node _ s4 m4) as [s5 m5]. destruct Hrem as [Hp5 Hel5].
  assert (extends m m3) as He3 by (etrans; [exact He|apply Hp2]).
  assert (extends m m5) as He5 by (etrans; [exact He|apply Hp5]). split_and!; [..|done|done| |].
  - rewrite (Hres _ _ Hp2), Hel2, Hel1. by rewrite Hnodes.
  - rewrite (Hres _ _ Hp5), Hel5, Hel4. simpl.
    rewrite (elements_mono _ _ _ (proj1 (proj2 Hp)) (extends_strs _ _ He4)). by rewrite Hnodes.
  - by apply lbport_value_mono.
  - by apply lbport_value_mono.
Qed.
End separation.

(** ** A run *)

(** A runtime that doubles the capacity, and a deep copy of ObjectMeta. *)
Definition doubling (cap n : nat) : nat := Nat.max n (2 * cap).

Lemma doubling_enough cap n : (n <= doubling cap n)%nat.
Proof. unfold doubling. lia. Qed.

Definition copy_meta (inn : ObjectMeta) : mem ObjectMeta := fun m =>
  match om_Labels inn with
  | None => (inn, m)
  | Some l =>
      let l' := fresh (dom (maps m)) in
      (MkObjectMeta (om_Name inn) (Some l'),
       MkMem (strs m) (<[l' := default ∅ (maps m !! l)]> (maps m)) (lbp_arrays m) (dns_arrays m))
  end.

Lemma copy_meta_Copied : Copied meta_value meta_ok meta_fresh copy_meta.
Proof.
  constructor; intros [name [l|]] m Hok; try done; unfold copy_meta; simpl in *.
  - constructor; simpl; try done. apply insert_subseteq, fresh_array.
  - unfold meta_value, map_value. simpl. by rewrite lookup_insert_eq.
  - unfold meta_ok. simpl. by rewrite lookup_insert_eq.
  - apply fresh_array.
Qed.

(** A cached LBPort whose list of applied nodes has room in its array, which another
    slice shares. *)
Definition cached : LBPortM :=
  MkLBPortM (MkObjectMeta "p" (Some 1%positive)) (MkLBPortSpecM 80 "TCP" (Some (Window 2 0 1 1)) "bulb-controller" false)
    (MkLBPortStatusM (Some (Window 1 0 2 4))).
Definition cache_memory : Mem :=
  MkMem {[ 1%positive := ["n3"; "n2"; "n5"; "n4"]; 2%positive := ["*"] ]} {[ 1%positive := {[ "a" := "b" ]} ]} ∅ ∅.

Lemma cached_ok : lbport_ok cache_memory cached.
Proof.
  split_and!; [by eexists|..]; eexists; (split; [reflexivity|]); unfold window_in; simpl; lia.
Qed.

(** Without the copy, append and sort write into the shared array. *)
Example shared_append :
  let '(s, m) := append doubling (m_AppliedNodes (m_Status cached)) ["n1"] cache_memory in
  let '(_, m') := sort_Strings s m in
  elements (strs m') s = ["n1"; "n2"; "n3"] /\
  AppliedNodes (lbp_Status (lbport_value m' cached)) = ["n1"; "n2"] /\
  elements (strs m') (Some (Window 1 2 2 2)) = ["n3"; "n4"].
Proof. by vm_compute. Qed.

(** An empty slice that is not nil is copied to nil. *)
Example empty_becomes_nil m :
  m_AppliedNodes (fst (LBPortStatus_DeepCopy doubling (MkLBPortStatusM (Some (Window 1 0 0 3))) m)) = None.
Proof. done. Qed.

Lemma DeepCopy_separate_witness :
  separate lbport_value lbport_ok (LBPort_DeepCopyInto doubling copy_meta) /\
  fst (LBPort_DeepCopyInto doubling copy_meta cached cache_memory) =
    MkLBPortM (MkObjectMeta "p" (Some 2%positive))
      (MkLBPortSpecM 80 "TCP" (Some (Window 3 0 1 1)) "bulb-controller" false)
      (MkLBPortStatusM (Some (Window 4 0 2 2))).
Proof.
  split; [|vm_compute; reflexivity].
  exact (proj1 (DeepCopy_separate doubling doubling_enough copy_meta copy_meta_Copied)).
Defined.

Lemma status_updates_leave_cache_witness :
  let '(x, m1) := add_node doubling copy_meta "n1" cached cache_memory in
  let '(y, m2) := remove_node doubling copy_meta "n1" cached cache_memory in
  lbport_value m1 x = with_applied (sort_strings (["n3"; "n2"] ++ ["n1"])) (lbport_value cache_memory cached) /\
  lbport_value m2 y = with_applied (filter (fun n => n <> "n1") ["n3"; "n2"]) (lbport_value cache_memory cached) /\
  extends cache_memory m1 /\ extends cache_memory m2 /\
  lbport_value m1 cached = lbport_value cache_memory cached /\ lbport_value m2 cached = lbport_value cache_memory cached.
Proof.
  exact (status_updates_leave_cache doubling doubling_enough copy_meta copy_meta_Copied "n1" cached cache_memory cached_ok).
Defined.
